(** * SkeletalGraph: a shallow embedding of [Include/SkeletalGraph.hpp]

    The graph engine is a thin layer over a Boost adjacency list
    ([listS], [listS], [bidirectionalS]).  The embedding keeps the two
    layers apart: module [boost] holds the store operations the class
    calls, and the rest of the file transcribes the member functions of
    [SkeletalGraph] as state-passing functions.

    Conventions.  A descriptor is an address, a natural number, with 0
    for the null pointer; the store hands out fresh addresses in
    increasing order and keeps vertices and edges in insertion order,
    which is the order the Boost iterators follow.  A member function
    takes the graph and returns the new graph with its result; one that
    can throw returns an [outcome].  Unsigned counters wrap at [2^32].
    Floats are exact rationals, with one extra value for the results
    that are not finite. *)

From Stdlib Require Import String Ascii DecimalString ZArith QArith List Bool Lia.
Import ListNotations.

Set Implicit Arguments.
Close Scope Q_scope.

(** ** Scalars *)

(** Modelled from the spec: [GRuint] is declared in a header that is not
    part of the source tree; the spec gives it as a 32-bit unsigned
    integer.  Values are integers in [0, 2^32); arithmetic wraps. *)
Definition GRuint := Z.

Definition GRuint_modulus : Z := (2 ^ 32)%Z.

Definition to_GRuint (x : Z) : GRuint := (x mod GRuint_modulus)%Z.

(** [(GRuint)-1] *)
Definition GRuint_minus_one : GRuint := to_GRuint (-1)%Z.

(** Modelled from the spec: [GRfloat] is declared in the same missing
    header; the spec gives it as a 32-bit float.  Finite values are
    taken as exact rationals (rounding and overflow are not modelled,
    so a property of a computed value is stated on inputs where the
    32-bit computation is exact); [NotFinite] stands for a NaN or an infinity, which is what a
    division by zero produces and what every later operation of this
    file keeps non-finite. *)
Inductive GRfloat : Type :=
| Finite (q : Q)
| NotFinite.

Definition fadd (a b : GRfloat) : GRfloat :=
  match a, b with
  | Finite x, Finite y => Finite (x + y)%Q
  | _, _ => NotFinite
  end.

Definition fsub (a b : GRfloat) : GRfloat :=
  match a, b with
  | Finite x, Finite y => Finite (x - y)%Q
  | _, _ => NotFinite
  end.

Definition fmul (a b : GRfloat) : GRfloat :=
  match a, b with
  | Finite x, Finite y => Finite (x * y)%Q
  | _, _ => NotFinite
  end.

Definition fdiv (a b : GRfloat) : GRfloat :=
  match a, b with
  | Finite x, Finite y => if Qeq_bool y 0%Q then NotFinite else Finite (x / y)%Q
  | _, _ => NotFinite
  end.

(** [a > b]; a comparison with a NaN is false. *)
Definition fgt (a b : GRfloat) : bool :=
  match a, b with
  | Finite x, Finite y => negb (Qle_bool x y)
  | _, _ => false
  end.

Definition GRfloat_of_Z (z : Z) : GRfloat := Finite (inject_Z z).

(** Equality of floats as numbers. *)
Definition feq (a b : GRfloat) : Prop :=
  match a, b with
  | Finite x, Finite y => (x == y)%Q
  | _, _ => False
  end.

Definition DEFAULT_VERTEX_RADIUS : GRfloat := Finite 1%Q.
Definition MAX_ALLOWED_VERTEX_RADIUS : GRfloat := Finite 10000%Q.

(** Modelled from the spec: [MIN] is a macro of the missing header,
    taken as the usual [a < b ? a : b]. *)
Definition MIN (a b : Z) : Z := if (a <? b)%Z then a else b.

(** ** Vectors and curves (external collaborators) *)

(** Modelled from the spec: the vector class and its arithmetic live in
    a header that is not part of the source tree; addition, subtraction
    and scaling act on each coordinate. *)

Record Vector3f : Type := mkVector3f {
  vec_x : GRfloat;
  vec_y : GRfloat;
  vec_z : GRfloat
}.

Definition vadd (a b : Vector3f) : Vector3f :=
  mkVector3f (fadd (vec_x a) (vec_x b)) (fadd (vec_y a) (vec_y b))
             (fadd (vec_z a) (vec_z b)).

Definition vsub (a b : Vector3f) : Vector3f :=
  mkVector3f (fsub (vec_x a) (vec_x b)) (fsub (vec_y a) (vec_y b))
             (fsub (vec_z a) (vec_z b)).

Definition vscale (a : Vector3f) (k : GRfloat) : Vector3f :=
  mkVector3f (fmul (vec_x a) k) (fmul (vec_y a) k) (fmul (vec_z a) k).

Definition vzero : Vector3f := mkVector3f (Finite 0%Q) (Finite 0%Q) (Finite 0%Q).

(** A sample of a curve: position and tangent. *)
Definition PointTangent : Type := (Vector3f * Vector3f)%type.

(** Modelled from the spec: the curve classes live in [Curve.hpp], which
    is not part of the source tree.  A curve is the ordered sequence of
    its samples; [SplineCurve] and [DeformableSplineCurve] carry the
    same samples. *)
Definition DeformableSplineCurve : Type := list PointTangent.

Definition default_sample : PointTangent := (vzero, vzero).

Definition curve_size (c : DeformableSplineCurve) : Z := Z.of_nat (length c).

Definition curve_at (c : DeformableSplineCurve) (i : Z) : PointTangent :=
  nth (Z.to_nat i) c default_sample.

Definition curve_front (c : DeformableSplineCurve) : PointTangent :=
  hd default_sample c.

Definition curve_back (c : DeformableSplineCurve) : PointTangent :=
  last c default_sample.

(** The two-sample constructor. *)
Definition curve_of_ends (a b : PointTangent) : DeformableSplineCurve := [a; b].

(** Modelled from the spec: [add_middle_point] inserts a sample just
    before the back, so that the left half of a split edge reads
    [source ... curve[segment_index], new end]. *)
Definition add_middle_point (c : DeformableSplineCurve) (p : PointTangent)
  : DeformableSplineCurve :=
  removelast c ++ [p; curve_back c].

Fixpoint list_set {A} (l : list A) (n : nat) (a : A) : list A :=
  match l, n with
  | [], _ => []
  | _ :: t, O => a :: t
  | h :: t, S k => h :: list_set t k a
  end.

(** [c[i] = p] *)
Definition curve_set (c : DeformableSplineCurve) (i : Z) (p : PointTangent)
  : DeformableSplineCurve :=
  if (i <? 0)%Z then c else list_set c (Z.to_nat i) p.

(** [c[i].second = t] *)
Definition curve_set_tangent (c : DeformableSplineCurve) (i : Z) (t : Vector3f)
  : DeformableSplineCurve :=
  curve_set c i (fst (curve_at c i), t).

(** ** Properties and descriptors *)

(** A vertex descriptor is the address of the stored vertex; [0] is the
    null pointer. *)
Abbreviation VertexDescriptor := nat (only parsing).

Record VertexProperties : Type := mkVertexProperties {
  position : Vector3f;
  radius : GRfloat;
  is_part_of_cycle : bool;
  is_in_spanning_tree : bool;
  cycle_parent : VertexDescriptor;
  BFS_parent : VertexDescriptor;
  BFS_path_cost : GRuint
}.

(** [VertexProperties()] and the brace initialisers [{p}], [{p, r}]. *)
Definition VertexProperties_init (p : Vector3f) (r : GRfloat) : VertexProperties :=
  mkVertexProperties p r false false 0%nat 0%nat GRuint_minus_one.

Definition VertexProperties_default : VertexProperties :=
  VertexProperties_init vzero (Finite 1%Q).

Record EdgeProperties : Type := mkEdgeProperties {
  curve : DeformableSplineCurve;
  edge_is_part_of_cycle : bool
}.

(** An edge descriptor carries the two endpoints and the address of the
    edge's property; two descriptors are equal when they point at the
    same property. *)
Record EdgeDescriptor : Type := mkEdgeDescriptor {
  m_source : VertexDescriptor;
  m_target : VertexDescriptor;
  m_eproperty : nat
}.

Definition EdgeDescriptor_default : EdgeDescriptor := mkEdgeDescriptor 0 0 0.

Definition edge_eqb (a b : EdgeDescriptor) : bool :=
  Nat.eqb (m_eproperty a) (m_eproperty b).

Abbreviation VertexPair := (VertexDescriptor * VertexDescriptor)%type (only parsing).
Abbreviation EdgePair := (EdgeDescriptor * EdgeDescriptor)%type (only parsing).
Abbreviation VertexVector := (list VertexDescriptor) (only parsing).
Abbreviation EdgeVector := (list EdgeDescriptor) (only parsing).
Abbreviation VertexNeighborhood := (VertexDescriptor * EdgeVector)%type (only parsing).

(** ** The Boost store *)

Module boost.

(** Vertices and edges are kept in lists, in insertion order; [m_fresh]
    is the next unused address. *)
Record adjacency_list : Type := mk_adjacency_list {
  m_vertices : list (VertexDescriptor * VertexProperties);
  m_edges : list (EdgeDescriptor * EdgeProperties);
  m_fresh : nat
}.

Definition empty : adjacency_list := mk_adjacency_list [] [] 1.

Definition null_vertex : VertexDescriptor := 0%nat.

Definition source (e : EdgeDescriptor) (g : adjacency_list) : VertexDescriptor :=
  m_source e.

Definition target (e : EdgeDescriptor) (g : adjacency_list) : VertexDescriptor :=
  m_target e.

Definition vertices (g : adjacency_list) : VertexVector :=
  map fst (m_vertices g).

Definition edges (g : adjacency_list) : EdgeVector :=
  map fst (m_edges g).

Definition in_edges (v : VertexDescriptor) (g : adjacency_list) : EdgeVector :=
  filter (fun e => Nat.eqb (m_target e) v) (edges g).

Definition out_edges (v : VertexDescriptor) (g : adjacency_list) : EdgeVector :=
  filter (fun e => Nat.eqb (m_source e) v) (edges g).

Definition in_degree (v : VertexDescriptor) (g : adjacency_list) : Z :=
  Z.of_nat (length (in_edges v g)).

Definition out_degree (v : VertexDescriptor) (g : adjacency_list) : Z :=
  Z.of_nat (length (out_edges v g)).

(** [edge(u, v, g)]: the first out-edge of [u] whose target is [v]. *)
Definition edge (u v : VertexDescriptor) (g : adjacency_list)
  : EdgeDescriptor * bool :=
  match filter (fun e => Nat.eqb (m_target e) v) (out_edges u g) with
  | e :: _ => (e, true)
  | [] => (EdgeDescriptor_default, false)
  end.

Definition add_vertex (p : VertexProperties) (g : adjacency_list)
  : VertexDescriptor * adjacency_list :=
  (m_fresh g,
   mk_adjacency_list (m_vertices g ++ [(m_fresh g, p)]) (m_edges g)
                     (S (m_fresh g))).

Definition remove_vertex (v : VertexDescriptor) (g : adjacency_list)
  : adjacency_list :=
  mk_adjacency_list
    (filter (fun vp => negb (Nat.eqb (fst vp) v)) (m_vertices g))
    (m_edges g) (m_fresh g).

Definition clear_vertex (v : VertexDescriptor) (g : adjacency_list)
  : adjacency_list :=
  mk_adjacency_list
    (m_vertices g)
    (filter (fun ep => negb (Nat.eqb (m_source (fst ep)) v
                             || Nat.eqb (m_target (fst ep)) v))
            (m_edges g))
    (m_fresh g).

Definition add_edge (u v : VertexDescriptor) (p : EdgeProperties)
           (g : adjacency_list) : (EdgeDescriptor * bool) * adjacency_list :=
  let e := mkEdgeDescriptor u v (m_fresh g) in
  ((e, true),
   mk_adjacency_list (m_vertices g) (m_edges g ++ [(e, p)]) (S (m_fresh g))).

Definition remove_edge (e : EdgeDescriptor) (g : adjacency_list)
  : adjacency_list :=
  mk_adjacency_list
    (m_vertices g)
    (filter (fun ep => negb (edge_eqb (fst ep) e)) (m_edges g))
    (m_fresh g).

(** [g[v]]; reading through a descriptor that is not in the store is
    undefined in the source and yields default properties here. *)
Fixpoint lookup_vertex (l : list (VertexDescriptor * VertexProperties))
         (v : VertexDescriptor) : option VertexProperties :=
  match l with
  | [] => None
  | (w, p) :: t => if Nat.eqb w v then Some p else lookup_vertex t v
  end.

Definition get_vertex (g : adjacency_list) (v : VertexDescriptor)
  : VertexProperties :=
  match lookup_vertex (m_vertices g) v with
  | Some p => p
  | None => VertexProperties_default
  end.

Fixpoint lookup_edge (l : list (EdgeDescriptor * EdgeProperties))
         (e : EdgeDescriptor) : option EdgeProperties :=
  match l with
  | [] => None
  | (d, p) :: t => if edge_eqb d e then Some p else lookup_edge t e
  end.

Definition get_edge (g : adjacency_list) (e : EdgeDescriptor) : EdgeProperties :=
  match lookup_edge (m_edges g) e with
  | Some p => p
  | None => mkEdgeProperties [] false
  end.

(** [g[v] = f(g[v])] *)
Definition update_vertex (v : VertexDescriptor)
           (f : VertexProperties -> VertexProperties) (g : adjacency_list)
  : adjacency_list :=
  mk_adjacency_list
    (map (fun vp => if Nat.eqb (fst vp) v then (fst vp, f (snd vp)) else vp)
         (m_vertices g))
    (m_edges g) (m_fresh g).

Definition update_edge (e : EdgeDescriptor)
           (f : EdgeProperties -> EdgeProperties) (g : adjacency_list)
  : adjacency_list :=
  mk_adjacency_list
    (m_vertices g)
    (map (fun ep => if edge_eqb (fst ep) e then (fst ep, f (snd ep)) else ep)
         (m_edges g))
    (m_fresh g).

End boost.

(** ** The class state *)

Record SkeletalGraph : Type := mkSkeletalGraph {
  edge_spline_count_ : GRuint;
  internal_graph_ : boost.adjacency_list
}.

(** [SkeletalGraph()] *)
Definition SkeletalGraph_new : SkeletalGraph := mkSkeletalGraph 0%Z boost.empty.

Inductive exception : Type :=
| invalid_argument (what : string)
| runtime_error (what : string).

(** A member function either returns or throws; both leave a graph
    behind. *)
Inductive outcome (A : Type) : Type :=
| Returned (g : SkeletalGraph) (a : A)
| Thrown (g : SkeletalGraph) (e : exception).

Arguments Returned {A} g a.
Arguments Thrown {A} g e.

Definition graph_after {A} (o : outcome A) : SkeletalGraph :=
  match o with
  | Returned g _ => g
  | Thrown g _ => g
  end.

Inductive COLLAPSE_OPTION : Type := SOURCE | TARGET | MIDPOINT.

Definition null_vertex : VertexDescriptor := boost.null_vertex.

Definition with_graph (g : SkeletalGraph) (b : boost.adjacency_list) : SkeletalGraph :=
  mkSkeletalGraph (edge_spline_count_ g) b.

Definition with_count (g : SkeletalGraph) (c : GRuint) : SkeletalGraph :=
  mkSkeletalGraph c (internal_graph_ g).

(** *** Size getters *)

Definition vertex_count (g : SkeletalGraph) : GRuint :=
  to_GRuint (Z.of_nat (length (boost.m_vertices (internal_graph_ g)))).

Definition edge_count (g : SkeletalGraph) : GRuint :=
  to_GRuint (Z.of_nat (length (boost.m_edges (internal_graph_ g)))).

Definition edge_spline_count (g : SkeletalGraph) : GRuint :=
  edge_spline_count_ g.

(** *** Vertex stuff *)

Definition get_vertex (g : SkeletalGraph) (v : VertexDescriptor) : VertexProperties :=
  boost.get_vertex (internal_graph_ g) v.

Definition get_edge (g : SkeletalGraph) (e : EdgeDescriptor) : EdgeProperties :=
  boost.get_edge (internal_graph_ g) e.

Definition vertices (g : SkeletalGraph) : VertexVector :=
  boost.vertices (internal_graph_ g).

Definition edges (g : SkeletalGraph) : EdgeVector :=
  boost.edges (internal_graph_ g).

Definition add_vertex (g : SkeletalGraph) (properties : VertexProperties)
  : SkeletalGraph * VertexDescriptor :=
  let (v, b) := boost.add_vertex properties (internal_graph_ g) in
  (with_graph g b, v).

Definition degree (g : SkeletalGraph) (vertex : VertexDescriptor) : GRuint :=
  to_GRuint (boost.in_degree vertex (internal_graph_ g)
             + boost.out_degree vertex (internal_graph_ g)).

(** [edge_spline_count_ -= (GRuint)curve(e).size()] for each [e] of a range *)
Definition discount_edges (g : SkeletalGraph) (es : EdgeVector) (c : GRuint) : GRuint :=
  fold_left
    (fun c e => to_GRuint (c - to_GRuint (curve_size (curve (get_edge g e)))))
    es c.

Definition clear_vertex (g : SkeletalGraph) (vertex : VertexDescriptor)
  : SkeletalGraph * EdgeVector :=
  let in_edges := boost.in_edges vertex (internal_graph_ g) in
  let out_edges := boost.out_edges vertex (internal_graph_ g) in
  let '(count, removed_edges) :=
    if (degree g vertex =? 0)%Z
    then (edge_spline_count_ g, [])
    else (discount_edges g out_edges
            (discount_edges g in_edges (edge_spline_count_ g)),
          in_edges ++ out_edges) in
  (mkSkeletalGraph count (boost.clear_vertex vertex (internal_graph_ g)),
   removed_edges).

Definition remove_vertex (g : SkeletalGraph) (vertex : VertexDescriptor)
  : SkeletalGraph * EdgeVector :=
  if negb (Nat.eqb vertex boost.null_vertex) then
    let (g1, removed_edges) := clear_vertex g vertex in
    (with_graph g1 (boost.remove_vertex vertex (internal_graph_ g1)),
     removed_edges)
  else (g, []).

(** *** Edge stuff *)

(** [add_edge(from, to, properties)] *)
Definition add_edge (g : SkeletalGraph) (from to : VertexDescriptor)
           (properties : EdgeProperties)
  : SkeletalGraph * (EdgeDescriptor * bool) :=
  if Nat.eqb from boost.null_vertex || Nat.eqb to boost.null_vertex then
    (g, (EdgeDescriptor_default, false))
  else
    let count :=
      to_GRuint (edge_spline_count_ g
                 + to_GRuint (curve_size (curve properties))) in
    let (new_edge, b) := boost.add_edge from to properties (internal_graph_ g) in
    let g1 := mkSkeletalGraph count b in
    let cyc := is_part_of_cycle (get_vertex g1 from)
               && is_part_of_cycle (get_vertex g1 to) in
    (with_graph g1
       (boost.update_edge (fst new_edge)
          (fun p => mkEdgeProperties (curve p) cyc) (internal_graph_ g1)),
     new_edge).

Definition remove_edge (g : SkeletalGraph) (edge : EdgeDescriptor)
  : SkeletalGraph * VertexPair :=
  if edge_eqb edge EdgeDescriptor_default then
    (g, (boost.null_vertex, boost.null_vertex))
  else
    let source := boost.source edge (internal_graph_ g) in
    let target := boost.target edge (internal_graph_ g) in
    if snd (boost.edge source target (internal_graph_ g)) then
      let g1 :=
        with_count g
          (to_GRuint (edge_spline_count_ g
                      - to_GRuint (curve_size (curve (get_edge g edge))))) in
      let remove_source := (degree g1 source =? 1)%Z in
      let remove_target := (degree g1 target =? 1)%Z in
      let g2 := with_graph g1 (boost.remove_edge edge (internal_graph_ g1)) in
      let '(g3, first) :=
        if remove_source && negb (vertex_count g2 =? 1)%Z
        then (with_graph g2 (boost.remove_vertex source (internal_graph_ g2)),
              source)
        else (g2, boost.null_vertex) in
      let '(g4, second) :=
        if remove_target && negb (vertex_count g3 =? 1)%Z
        then (with_graph g3 (boost.remove_vertex target (internal_graph_ g3)),
              target)
        else (g3, boost.null_vertex) in
      (g4, (first, second))
    else (g, (boost.null_vertex, boost.null_vertex)).

(** Linear interpolation of the end radii along the curve.  The function
    reads the size of the curve and none of its samples. *)
Definition get_edge_radius (g : SkeletalGraph) (edge : EdgeDescriptor)
           (segment_index : GRuint) : GRfloat :=
  let r1 := radius (get_vertex g (boost.source edge (internal_graph_ g))) in
  let r2 := radius (get_vertex g (boost.target edge (internal_graph_ g))) in
  let r_start := fdiv (fmul (fmul (Finite 2%Q) r1) r2) (fadd r1 r2) in
  let r_end := r2 in
  let length := to_GRuint (curve_size (curve (get_edge g edge))) in
  let segment_index := MIN segment_index (to_GRuint (length - 1)) in
  fadd
    (fmul
       (fsub (Finite 1%Q)
             (fdiv (GRfloat_of_Z segment_index)
                   (fsub (GRfloat_of_Z length) (Finite 1%Q))))
       (fsub r_start r_end))
    r_end.

(** [curve.size()] is a [size_t]; the source compares and subtracts it
    unsigned before any cast to [GRuint]. *)
Definition to_size_t (x : Z) : Z := (x mod 2 ^ 64)%Z.

(** The integers [i] with [lo <= i < hi], in increasing order. *)
Definition range_Z (lo hi : Z) : list Z :=
  map (fun k => (lo + Z.of_nat k)%Z) (seq 0 (Z.to_nat (hi - lo))).

(** [c.back() = p] and [c.front() = p] *)
Definition curve_set_back (c : DeformableSplineCurve) (p : PointTangent)
  : DeformableSplineCurve :=
  curve_set c (curve_size c - 1)%Z p.

Definition curve_set_front (c : DeformableSplineCurve) (p : PointTangent)
  : DeformableSplineCurve :=
  curve_set c 0%Z p.

Section Rewrites.

(** [Vector3f::normalize] belongs to the vector module, which is not
    part of the source tree; no result below depends on what it
    computes. *)
Variable normalize : Vector3f -> Vector3f.

(** [add_edge(from, to)]: the convenience overload. *)
Definition add_edge_from_to (g : SkeletalGraph) (from to : VertexDescriptor)
  : SkeletalGraph * (EdgeDescriptor * bool) :=
  let g1 := with_count g (to_GRuint (edge_spline_count_ g + 2)) in
  let position_from := position (get_vertex g1 from) in
  let position_to := position (get_vertex g1 to) in
  let properties :=
    mkEdgeProperties
      (curve_of_ends
         (position_from, normalize (vsub position_to position_from))
         (position_to, normalize (vsub position_to position_from)))
      false in
  add_edge g1 from to properties.

(** The curve of the left edge: the samples up to [segment_index], then
    the new end, with the tangent before the end recomputed.  The
    source copies the samples with a [GRuint] counter
    ([for (GRuint i(1); i <= segment_index; i++)]); the fold below is
    that loop for [segment_index < 2^32 - 1], which holds whenever the
    curve has fewer than [2^32] samples and the index is in range. *)
Definition split_first_half (edge_curve : DeformableSplineCurve)
           (segment_index : GRuint) (new_vertex_position : Vector3f)
  : DeformableSplineCurve :=
  let source_pt := curve_front edge_curve in
  let new_target_pt :=
    (new_vertex_position,
     normalize (vsub new_vertex_position
                     (fst (curve_at edge_curve segment_index)))) in
  let first_half :=
    fold_left (fun c i => add_middle_point c (curve_at edge_curve i))
              (range_Z 1 (segment_index + 1))
              (curve_of_ends source_pt new_target_pt) in
  if (3 <=? curve_size first_half)%Z then
    curve_set_tangent first_half (curve_size first_half - 2)%Z
      (normalize
         (vsub (fst (curve_back first_half))
               (fst (curve_at first_half (curve_size first_half - 3)%Z))))
  else first_half.

(** The curve of the right edge: the new start, then the samples after
    [segment_index], with the second tangent recomputed.  The source
    counts in [GRuint] against [curve.size() - 1]; the fold below is
    that loop for curves of fewer than [2^32] samples. *)
Definition split_second_half (edge_curve : DeformableSplineCurve)
           (segment_index : GRuint) (new_vertex_position : Vector3f)
  : DeformableSplineCurve :=
  let target_pt := curve_back edge_curve in
  let new_source_pt :=
    (new_vertex_position,
     normalize (vsub (fst (curve_at edge_curve (segment_index + 1)%Z))
                     new_vertex_position)) in
  let second_half :=
    fold_left (fun c i => add_middle_point c (curve_at edge_curve i))
              (range_Z (segment_index + 1)
                       (to_size_t (curve_size edge_curve - 1)))
              (curve_of_ends new_source_pt target_pt) in
  if (3 <=? curve_size second_half)%Z then
    curve_set_tangent second_half 1%Z
      (normalize
         (vsub (fst (curve_at second_half 2%Z))
               (fst (curve_at second_half 0%Z))))
  else second_half.

Definition split_edge_at (g : SkeletalGraph) (edge_to_split : EdgeDescriptor)
           (segment_index : GRuint) (new_vertex_position : Vector3f)
  : outcome (VertexDescriptor * EdgePair) :=
  let edge_curve := curve (get_edge g edge_to_split) in
  if (to_size_t (curve_size edge_curve - 1) <=? segment_index)%Z then
    Thrown g (invalid_argument "Cannot split edge at invalid segment index")
  else
    let (g1, new_vertex) :=
      add_vertex g
        (VertexProperties_init new_vertex_position
           (get_edge_radius g edge_to_split segment_index)) in
    let first_half :=
      split_first_half edge_curve segment_index new_vertex_position in
    let second_half :=
      split_second_half edge_curve segment_index new_vertex_position in
    let '(g2, (left_edge, _)) :=
      add_edge g1 (boost.source edge_to_split (internal_graph_ g1)) new_vertex
               (mkEdgeProperties first_half false) in
    let '(g3, (right_edge, _)) :=
      add_edge g2 new_vertex (boost.target edge_to_split (internal_graph_ g2))
               (mkEdgeProperties second_half false) in
    let cyc := edge_is_part_of_cycle (get_edge g3 edge_to_split) in
    let g4 :=
      with_graph g3
        (boost.update_edge left_edge
           (fun p => mkEdgeProperties (curve p) cyc) (internal_graph_ g3)) in
    let g5 :=
      with_graph g4
        (boost.update_edge right_edge
           (fun p => mkEdgeProperties (curve p) cyc) (internal_graph_ g4)) in
    let (g6, _) := remove_edge g5 edge_to_split in
    Returned g6 (new_vertex, (left_edge, right_edge)).

(** The edges [collapse_edge] queues while it walks the in-edges of the
    vertex it clears. *)
Definition collapse_in_edges (g : SkeletalGraph)
           (edge_to_collapse : EdgeDescriptor)
           (to_keep to_remove : VertexDescriptor) (new_position : Vector3f)
  : list (VertexDescriptor * EdgeProperties) :=
  flat_map
    (fun e =>
       if negb (edge_eqb e edge_to_collapse) then
         let new_source := boost.source e (internal_graph_ g) in
         if negb (Nat.eqb new_source to_keep) then
           let new_props := get_edge g e in
           let c := curve new_props in
           let c' :=
             curve_set_back c
               (new_position,
                normalize
                  (vsub new_position
                        (fst (curve_at c (to_size_t (curve_size c - 2)))))) in
           [(new_source,
             mkEdgeProperties c' (edge_is_part_of_cycle new_props))]
         else []
       else [])
    (boost.in_edges to_remove (internal_graph_ g)).

Definition collapse_out_edges (g : SkeletalGraph)
           (edge_to_collapse : EdgeDescriptor)
           (to_keep to_remove : VertexDescriptor) (new_position : Vector3f)
  : list (VertexDescriptor * EdgeProperties) :=
  flat_map
    (fun e =>
       if negb (edge_eqb e edge_to_collapse) then
         let new_target := boost.target e (internal_graph_ g) in
         if negb (Nat.eqb new_target to_keep) then
           let new_props := get_edge g e in
           let c := curve new_props in
           let c' :=
             curve_set_front c
               (new_position,
                normalize (vsub (fst (curve_at c 0%Z)) new_position)) in
           [(new_target,
             mkEdgeProperties c' (edge_is_part_of_cycle new_props))]
         else []
       else [])
    (boost.out_edges to_remove (internal_graph_ g)).

(** [for (GRuint i(0); i < sources_to_add.size(); i++)
    new_edges.push_back(add_edge(...).first)].  The counter is 32 bits
    wide and the bound a [size_t]; the fold over the queued edges is
    that loop for fewer than [2^32] of them, which [few_edges] of the
    graph gives. *)
Definition add_edges_to (to_keep : VertexDescriptor)
           (acc : SkeletalGraph * EdgeVector)
           (l : list (VertexDescriptor * EdgeProperties))
  : SkeletalGraph * EdgeVector :=
  fold_left
    (fun acc sp =>
       let (g', r) := add_edge (fst acc) (fst sp) to_keep (snd sp) in
       (g', snd acc ++ [fst r]))
    l acc.

(** The same loop over [targets_to_add], under the same bound. *)
Definition add_edges_from (to_keep : VertexDescriptor)
           (acc : SkeletalGraph * EdgeVector)
           (l : list (VertexDescriptor * EdgeProperties))
  : SkeletalGraph * EdgeVector :=
  fold_left
    (fun acc tp =>
       let (g', r) := add_edge (fst acc) to_keep (fst tp) (snd tp) in
       (g', snd acc ++ [fst r]))
    l acc.

Definition collapse_edge (g : SkeletalGraph) (edge_to_collapse : EdgeDescriptor)
           (option : COLLAPSE_OPTION)
  : outcome (VertexNeighborhood * EdgeVector) :=
  let source := boost.source edge_to_collapse (internal_graph_ g) in
  let target := boost.target edge_to_collapse (internal_graph_ g) in
  if Nat.eqb source boost.null_vertex
     || Nat.eqb target boost.null_vertex
     || negb (snd (boost.edge source target (internal_graph_ g)))
  then Thrown g (invalid_argument "edge doesn't exist")
  else
    let '(to_keep, to_remove, new_position) :=
      match option with
      | SOURCE => (source, target, position (get_vertex g source))
      | TARGET => (target, source, position (get_vertex g target))
      | MIDPOINT =>
          (source, target,
           vscale (vadd (position (get_vertex g source))
                        (position (get_vertex g target)))
                  (Finite (1 # 2)))
      end in
    let sources_to_add :=
      collapse_in_edges g edge_to_collapse to_keep to_remove new_position in
    let targets_to_add :=
      collapse_out_edges g edge_to_collapse to_keep to_remove new_position in
    let (g1, cleared) := clear_vertex g to_remove in
    let removed_neighborhood := (to_remove, cleared) in
    let acc := add_edges_to to_keep (g1, []) sources_to_add in
    let '(g3, new_edges) := add_edges_from to_keep acc targets_to_add in
    let g4 :=
      with_graph g3
        (boost.update_vertex to_keep
           (fun p =>
              mkVertexProperties new_position (radius p) (is_part_of_cycle p)
                (is_in_spanning_tree p) (cycle_parent p) (BFS_parent p)
                (BFS_path_cost p))
           (internal_graph_ g3)) in
    Returned g4 (removed_neighborhood, new_edges).

End Rewrites.

(** ** Graph algorithms *)

Definition set_BFS (cost : GRuint) (parent : VertexDescriptor)
           (p : VertexProperties) : VertexProperties :=
  mkVertexProperties (position p) (radius p) (is_part_of_cycle p)
    (is_in_spanning_tree p) (cycle_parent p) parent cost.

Definition set_BFS_path_cost (cost : GRuint) (p : VertexProperties)
  : VertexProperties :=
  set_BFS cost (BFS_parent p) p.

Definition set_is_in_spanning_tree (b : bool) (p : VertexProperties)
  : VertexProperties :=
  mkVertexProperties (position p) (radius p) (is_part_of_cycle p) b
    (cycle_parent p) (BFS_parent p) (BFS_path_cost p).

Definition update_vertex (g : SkeletalGraph) (v : VertexDescriptor)
           (f : VertexProperties -> VertexProperties) : SkeletalGraph :=
  with_graph g (boost.update_vertex v f (internal_graph_ g)).

(** The reset and cleanup loops of [shortest_path]. *)
Definition reset_BFS (g : SkeletalGraph) : SkeletalGraph :=
  fold_left (fun g v => update_vertex g v (set_BFS GRuint_minus_one null_vertex))
            (vertices g) g.

(** The state of the search loop: the graph with its marks, the queue,
    and [found_target]. *)
Abbreviation bfs_state := (SkeletalGraph * list VertexDescriptor * bool)%type (only parsing).

(** The body run for the far end of one incident edge of
    [current_vertex]. *)
Definition bfs_visit (from current_vertex : VertexDescriptor)
           (current_cost : GRuint) (st : bfs_state)
           (neighbour : VertexDescriptor) : bfs_state :=
  let '(g, vertex_queue, found_target) := st in
  if negb (Nat.eqb (BFS_parent (get_vertex g current_vertex)) neighbour) then
    let vertex_queue :=
      if Nat.eqb (BFS_parent (get_vertex g neighbour)) null_vertex
      then vertex_queue ++ [neighbour] else vertex_queue in
    if (to_GRuint (current_cost + 1) <? BFS_path_cost (get_vertex g neighbour))%Z
    then
      (update_vertex g neighbour
         (set_BFS (to_GRuint (current_cost + 1)) current_vertex),
       vertex_queue,
       if Nat.eqb neighbour from then true else found_target)
    else (g, vertex_queue, found_target)
  else st.

Definition bfs_iteration (from : VertexDescriptor) (g : SkeletalGraph)
           (current_vertex : VertexDescriptor)
           (rest : list VertexDescriptor) (found_target : bool) : bfs_state :=
  let current_cost := BFS_path_cost (get_vertex g current_vertex) in
  let in_edges := boost.in_edges current_vertex (internal_graph_ g) in
  let out_edges := boost.out_edges current_vertex (internal_graph_ g) in
  let st :=
    fold_left (bfs_visit from current_vertex current_cost)
              (map (fun e => boost.source e (internal_graph_ g)) in_edges)
              (g, rest, found_target) in
  fold_left (bfs_visit from current_vertex current_cost)
            (map (fun e => boost.target e (internal_graph_ g)) out_edges)
            st.

(** [while (iteration_count < vertex_count() * 2 && !vertex_queue.empty())],
    by recursion on the number of iterations the counter still admits. *)
Fixpoint bfs_loop (remaining : nat) (from : VertexDescriptor) (st : bfs_state)
  : bfs_state :=
  match remaining with
  | O => st
  | S remaining' =>
      let '(g, vertex_queue, found_target) := st in
      match vertex_queue with
      | [] => st
      | current_vertex :: rest =>
          bfs_loop remaining' from
                   (bfs_iteration from g current_vertex rest found_target)
      end
  end.

(** [while (next_parent != nullptr)]: the walk back along [BFS_parent].
    The source loop has no bound; [None] is the walk that has not ended
    after [fuel] steps. *)
Fixpoint follow_parents (fuel : nat) (g : SkeletalGraph)
         (next_parent : VertexDescriptor) : option VertexVector :=
  match fuel with
  | O => None
  | S fuel' =>
      if Nat.eqb next_parent null_vertex then Some []
      else
        match follow_parents fuel' g (BFS_parent (get_vertex g next_parent)) with
        | Some path => Some (next_parent :: path)
        | None => None
        end
  end.

(** [shortest_path(from, to)] on vertices. *)
Definition shortest_path (fuel : nat) (g : SkeletalGraph)
           (from to : VertexDescriptor) : option (outcome VertexVector) :=
  if Nat.eqb from to then Some (Returned g [from])
  else
    let g1 := reset_BFS g in
    let start_vertex := to in
    let g2 := update_vertex g1 start_vertex (set_BFS_path_cost 0%Z) in
    let '(g3, _, found_target) :=
      bfs_loop (Z.to_nat (to_GRuint (vertex_count g2 * 2))) from
               (g2, [start_vertex], false) in
    if negb found_target then
      Some (Thrown g3 (invalid_argument "Couldn't find path between vertices"))
    else
      match follow_parents fuel g3 (BFS_parent (get_vertex g3 from)) with
      | None => None
      | Some parents => Some (Returned (reset_BFS g3) (from :: parents))
      end.

(** [explore_from_vertex] *)
Definition explore_iteration (g : SkeletalGraph)
           (current_vertex : VertexDescriptor) (rest : list VertexDescriptor)
  : SkeletalGraph * list VertexDescriptor :=
  if negb (is_in_spanning_tree (get_vertex g current_vertex)) then
    let g1 := update_vertex g current_vertex (set_is_in_spanning_tree true) in
    let in_edges := boost.in_edges current_vertex (internal_graph_ g1) in
    let out_edges := boost.out_edges current_vertex (internal_graph_ g1) in
    (g1,
     (rest ++ map (fun e => boost.source e (internal_graph_ g1)) in_edges)
       ++ map (fun e => boost.target e (internal_graph_ g1)) out_edges)
  else (g, rest).

Fixpoint explore_loop (remaining : nat)
         (st : SkeletalGraph * list VertexDescriptor)
  : SkeletalGraph * list VertexDescriptor :=
  match remaining with
  | O => st
  | S remaining' =>
      match snd st with
      | [] => st
      | current_vertex :: rest =>
          explore_loop remaining' (explore_iteration (fst st) current_vertex rest)
      end
  end.

Definition explore_from_vertex (g : SkeletalGraph) (start_vertex : VertexDescriptor)
  : SkeletalGraph :=
  fst (explore_loop (Z.to_nat (to_GRuint (vertex_count g * 2)))
                    (g, [start_vertex])).

Definition count_connected_components (g : SkeletalGraph) : SkeletalGraph * GRuint :=
  if (vertex_count g =? 0)%Z then (g, 0%Z)
  else
    let '(g1, cc_count) :=
      fold_left
        (fun (acc : SkeletalGraph * GRuint) vi =>
           let (g', cc_count) := acc in
           if negb (is_in_spanning_tree (get_vertex g' vi))
           then (explore_from_vertex g' vi, to_GRuint (cc_count + 1))
           else acc)
        (vertices g) (g, 0%Z) in
    (fold_left (fun g' vi => update_vertex g' vi (set_is_in_spanning_tree false))
               (vertices g) g1,
     cc_count).

(** ** Well-formed graphs *)

(** What the store guarantees for a graph built through the class:
    descriptors are non-null addresses already handed out, no address is
    used twice, and every edge joins two stored vertices. *)
Record well_formed (g : SkeletalGraph) : Prop := mk_well_formed {
  wf_fresh : (0 < boost.m_fresh (internal_graph_ g))%nat;
  wf_vertex_range :
    forall v, In v (vertices g) ->
              (0 < v < boost.m_fresh (internal_graph_ g))%nat;
  wf_vertex_nodup : NoDup (vertices g);
  wf_edge_range :
    forall e, In e (edges g) ->
              (0 < m_eproperty e < boost.m_fresh (internal_graph_ g))%nat;
  wf_edge_nodup : NoDup (map m_eproperty (edges g));
  wf_endpoints :
    forall e, In e (edges g) ->
              In (m_source e) (vertices g) /\ In (m_target e) (vertices g)
}.

(** The sum of [curve.size()] over all edges. *)
Definition sum_curve_sizes (g : SkeletalGraph) : Z :=
  fold_right Z.add 0%Z
    (map (fun ep => curve_size (curve (snd ep)))
         (boost.m_edges (internal_graph_ g))).

(** ** Test graphs *)

Definition vec (x y z : Z) : Vector3f :=
  mkVector3f (GRfloat_of_Z x) (GRfloat_of_Z y) (GRfloat_of_Z z).

(** A stand-in for [normalize] where a closed term is needed. *)
Definition unnormalized (v : Vector3f) : Vector3f := v.

(** Two vertices at [(0,0,0)] and [(2,0,0)] with the given radii, no
    edge. *)
Definition two_vertices (r1 r2 : GRfloat) : SkeletalGraph :=
  let (g1, _) := add_vertex SkeletalGraph_new (VertexProperties_init (vec 0 0 0) r1) in
  let (g2, _) := add_vertex g1 (VertexProperties_init (vec 2 0 0) r2) in
  g2.

(** The same with the edge [1 -> 2] added by the convenience overload. *)
Definition one_edge (normalize : Vector3f -> Vector3f) (r1 r2 : GRfloat)
  : SkeletalGraph :=
  fst (add_edge_from_to normalize (two_vertices r1 r2) 1 2).

Definition edge_1_2 : EdgeDescriptor := mkEdgeDescriptor 1 2 3.

(** ** Persistence *)

Open Scope string_scope.

Definition newline : string := String "010"%char EmptyString.

(** [std::getline] applied until the end of the file. *)
Fixpoint getlines (s : string) : list string :=
  match s with
  | EmptyString => []
  | String c rest =>
      if Ascii.eqb c "010"%char then EmptyString :: getlines rest
      else
        match getlines rest with
        | [] => [String c EmptyString]
        | l :: ls => String c l :: ls
        end
  end.

(** *** [sscanf]

    The directives the loader uses, for decimal numerals.  A literal of
    the format must match exactly; [%u] and [%f] skip leading white
    space; a blank in the format skips any white space. *)

Definition is_space (c : ascii) : bool :=
  let n := nat_of_ascii c in
  Nat.eqb n 32 || (Nat.leb 9 n && Nat.leb n 13).

Fixpoint skip_spaces (s : string) : string :=
  match s with
  | String c r => if is_space c then skip_spaces r else s
  | EmptyString => s
  end.

Fixpoint strip_prefix (p s : string) : option string :=
  match p with
  | EmptyString => Some s
  | String a p' =>
      match s with
      | String b s' => if Ascii.eqb a b then strip_prefix p' s' else None
      | EmptyString => None
      end
  end.

Definition digit_of (c : ascii) : option Z :=
  let n := nat_of_ascii c in
  if Nat.leb 48 n && Nat.leb n 57 then Some (Z.of_nat (n - 48)) else None.

(** A maximal run of digits: its value, its length and what follows. *)
Fixpoint scan_digits (s : string) (acc : Z) (count : nat) : Z * nat * string :=
  match s with
  | String c r =>
      match digit_of c with
      | Some d => scan_digits r (acc * 10 + d)%Z (S count)
      | None => (acc, count, s)
      end
  | EmptyString => (acc, count, s)
  end.

Definition scan_sign (s : string) : bool * string :=
  match s with
  | String "-"%char r => (true, r)
  | String "+"%char r => (false, r)
  | _ => (false, s)
  end.

(** [%u] *)
Definition scan_uint (s : string) : option (GRuint * string) :=
  let (neg, s1) := scan_sign (skip_spaces s) in
  let '(v, n, rest) := scan_digits s1 0%Z 0%nat in
  if Nat.eqb n 0 then None
  else Some (to_GRuint (if neg then - v else v), rest).

(** [%f] on a numeral written as digits with an optional fraction; what
    the exporter writes for the graphs used below. *)
Definition scan_decimal (s : string) : option (GRfloat * string) :=
  let (neg, s1) := scan_sign (skip_spaces s) in
  let '(ip, n1, s2) := scan_digits s1 0%Z 0%nat in
  let '(fp, n2, s3) :=
    match s2 with
    | String "."%char r => scan_digits r 0%Z 0%nat
    | _ => (0%Z, 0%nat, s2)
    end in
  if Nat.eqb (n1 + n2) 0 then None
  else
    let q := (inject_Z ip + inject_Z fp / inject_Z (10 ^ Z.of_nat n2))%Q in
    Some (Finite (Qred (if neg then (- q)%Q else q)), s3).

(** [operator<<] on an unsigned integer and on a [bool]. *)
Definition print_uint (z : Z) : string := NilZero.string_of_int (Z.to_int z).

Definition print_bool (b : bool) : string := if b then "1" else "0".

(** [operator<<] on a float whose value is an integer below [10^6],
    which the stream prints with all its digits. *)
Definition print_integral (f : GRfloat) : string :=
  match f with
  | Finite q => NilZero.string_of_int (Z.to_int (Qnum q / Zpos (Qden q)))
  | NotFinite => "nan"
  end.

Section Persistence.

(** The text side of a float and the construction of a curve from
    discrete points belong to the C++ library and to [Curve.hpp]; the
    loader and the exporter are written over them. *)
Variable print_float : GRfloat -> string.
Variable scan_float : string -> option (GRfloat * string).

(** [DeformableSplineCurve(DiscreteCurve)], [None] when it throws
    [runtime_error], and the default-constructed curve. *)
Variable curve_of_points : list Vector3f -> option DeformableSplineCurve.
Variable default_curve : DeformableSplineCurve.

(** [sscanf_s(line, "<tag>%f</tag>", &x) == 1] *)
Definition sscanf_f (literal line : string) : option GRfloat :=
  match strip_prefix literal line with
  | Some s => option_map fst (scan_float s)
  | None => None
  end.

(** [sscanf_s(line, "<tag>%u</tag>", &n) == 1] *)
Definition sscanf_u (literal line : string) : option GRuint :=
  match strip_prefix literal line with
  | Some s => option_map fst (scan_uint s)
  | None => None
  end.

(** [sscanf_s(line, "<tag>%f %f %f</tag>", &x, &y, &z) == 3] *)
Definition sscanf_fff (literal line : string) : option Vector3f :=
  match strip_prefix literal line with
  | Some s =>
      match scan_float s with
      | Some (x, s1) =>
          match scan_float (skip_spaces s1) with
          | Some (y, s2) =>
              match scan_float (skip_spaces s2) with
              | Some (z, _) => Some (mkVector3f x y z)
              | None => None
              end
          | None => None
          end
      | None => None
      end
  | None => None
  end.

(** *** [export_to_file] *)

(** Modelled from the spec: [Vector3f::to_compact_string] writes
    [X Y Z]; the curve writes one such line per sample. *)
Definition to_compact_string (v : Vector3f) : string :=
  print_float (vec_x v) ++ " " ++ print_float (vec_y v) ++ " "
  ++ print_float (vec_z v).

Definition curve_to_compact_string (c : DeformableSplineCurve) : string :=
  String.concat ""
    (map (fun pt => to_compact_string (fst pt) ++ newline) c).

Definition export_vertex (props : VertexProperties) : string :=
  "<vertex>" ++ newline
  ++ "<pos>" ++ to_compact_string (position props) ++ "</pos>" ++ newline
  ++ "<radius>" ++ print_float (radius props) ++ "</radius>" ++ newline
  ++ "<cycle>" ++ print_bool (is_part_of_cycle props) ++ "</cycle>" ++ newline
  ++ "</vertex>" ++ newline.

(** [vertex_index_map.find] *)
Fixpoint find_index (m : list (VertexDescriptor * GRuint)) (v : VertexDescriptor)
  : option GRuint :=
  match m with
  | [] => None
  | (w, i) :: t => if Nat.eqb w v then Some i else find_index t v
  end.

(** The loop over the edges; [false] is the early [return false]. *)
Fixpoint export_edges (m : list (VertexDescriptor * GRuint))
         (es : list (EdgeDescriptor * EdgeProperties)) (out : string)
  : string * bool :=
  match es with
  | [] => (out, true)
  | (e, props) :: t =>
      let out := out ++ "<edge>" ++ newline in
      match find_index m (m_source e) with
      | None => (out, false)
      | Some si =>
          let out := out ++ "<source>" ++ print_uint si ++ "</source>" ++ newline in
          match find_index m (m_target e) with
          | None => (out, false)
          | Some ti =>
              export_edges m t
                (out ++ "<target>" ++ print_uint ti ++ "</target>" ++ newline
                 ++ "<cycle>" ++ print_bool (edge_is_part_of_cycle props)
                 ++ "</cycle>" ++ newline
                 ++ "<curve>" ++ newline
                 ++ curve_to_compact_string (curve props)
                 ++ "</curve>" ++ newline
                 ++ "</edge>" ++ newline)
          end
      end
  end.

(** The text written to the file, and the value returned. *)
Definition export_to_file (g : SkeletalGraph) (scale : GRfloat) : string * bool :=
  let vs := boost.m_vertices (internal_graph_ g) in
  let vertex_index_map :=
    combine (map fst vs) (map (fun k => to_GRuint (Z.of_nat k)) (seq 0 (length vs))) in
  let out :=
    "<scale>" ++ print_float scale ++ "</scale>" ++ newline
    ++ "<vertices>" ++ newline
    ++ String.concat "" (map (fun vp => export_vertex (snd vp)) vs)
    ++ "</vertices>" ++ newline
    ++ "<edges>" ++ newline in
  let (out, ok) := export_edges vertex_index_map (boost.m_edges (internal_graph_ g)) out in
  if ok then (out ++ "</edges>" ++ newline, true) else (out, false).

(** *** [import_from_file] *)

(** The locals of the loader. *)
Record import_state : Type := mk_import_state {
  im_graph : SkeletalGraph;
  im_scale : GRfloat;
  im_vertices : list VertexDescriptor;
  reading_vertices : bool;
  reading_edges : bool;
  reading_vertex : bool;
  reading_edge : bool;
  reading_curve : bool;
  v_props : VertexProperties;
  e_props : EdgeProperties;
  e_source_index : GRuint;
  e_target_index : GRuint;
  e_curve : list Vector3f
}.

Definition import_initial (g : SkeletalGraph) : import_state :=
  mk_import_state g (Finite 1%Q) [] false false false false false
    VertexProperties_default (mkEdgeProperties default_curve false)
    0%Z 0%Z [].

Definition with_flags (s : import_state) (rvs res rv re rc : bool) : import_state :=
  mk_import_state (im_graph s) (im_scale s) (im_vertices s) rvs res rv re rc
    (v_props s) (e_props s) (e_source_index s) (e_target_index s) (e_curve s).

Definition with_v_props (s : import_state) (p : VertexProperties) : import_state :=
  mk_import_state (im_graph s) (im_scale s) (im_vertices s)
    (reading_vertices s) (reading_edges s) (reading_vertex s) (reading_edge s)
    (reading_curve s) p (e_props s) (e_source_index s) (e_target_index s)
    (e_curve s).

Definition with_edge (s : import_state) (p : EdgeProperties)
           (si ti : GRuint) (c : list Vector3f) : import_state :=
  mk_import_state (im_graph s) (im_scale s) (im_vertices s)
    (reading_vertices s) (reading_edges s) (reading_vertex s) (reading_edge s)
    (reading_curve s) (v_props s) p si ti c.

Definition with_store (s : import_state) (g : SkeletalGraph)
           (vs : list VertexDescriptor) : import_state :=
  mk_import_state g (im_scale s) vs
    (reading_vertices s) (reading_edges s) (reading_vertex s) (reading_edge s)
    (reading_curve s) (v_props s) (e_props s) (e_source_index s)
    (e_target_index s) (e_curve s).

Definition with_scale (s : import_state) (x : GRfloat) : import_state :=
  mk_import_state (im_graph s) x (im_vertices s)
    (reading_vertices s) (reading_edges s) (reading_vertex s) (reading_edge s)
    (reading_curve s) (v_props s) (e_props s) (e_source_index s)
    (e_target_index s) (e_curve s).

Definition set_position (p : VertexProperties) (x : Vector3f) : VertexProperties :=
  mkVertexProperties x (radius p) (is_part_of_cycle p) (is_in_spanning_tree p)
    (cycle_parent p) (BFS_parent p) (BFS_path_cost p).

Definition set_radius (p : VertexProperties) (r : GRfloat) : VertexProperties :=
  mkVertexProperties (position p) r (is_part_of_cycle p) (is_in_spanning_tree p)
    (cycle_parent p) (BFS_parent p) (BFS_path_cost p).

Definition set_is_part_of_cycle (p : VertexProperties) (b : bool) : VertexProperties :=
  mkVertexProperties (position p) (radius p) b (is_in_spanning_tree p)
    (cycle_parent p) (BFS_parent p) (BFS_path_cost p).

(** The lines between [<vertex>] and [</vertex>]. *)
Definition import_vertex_field (s : import_state) (line : string) : import_state :=
  if String.prefix "<pos>" line then
    match sscanf_fff "<pos>" line with
    | Some v => with_v_props s (set_position (v_props s) v)
    | None => with_v_props s (set_position (v_props s) vzero)
    end
  else if String.prefix "<radius>" line then
    match sscanf_f "<radius>" line with
    | Some radius =>
        let s' := with_v_props s (set_radius (v_props s) radius) in
        (* the clamp is applied to the local, after the store *)
        let radius :=
          if fgt radius MAX_ALLOWED_VERTEX_RADIUS then Finite 1%Q else radius in
        s'
    | None => with_v_props s (set_radius (v_props s) DEFAULT_VERTEX_RADIUS)
    end
  else if String.prefix "<cycle>" line then
    match sscanf_u "<cycle>" line with
    | Some cycle =>
        with_v_props s (set_is_part_of_cycle (v_props s) (negb (cycle =? 0)%Z))
    | None => with_v_props s (set_is_part_of_cycle (v_props s) false)
    end
  else s.

(** The lines between [<edge>] and [</edge>]. *)
Definition import_edge_field (s : import_state) (line : string) : import_state :=
  if String.eqb line "<curve>" then
    with_flags s (reading_vertices s) (reading_edges s) (reading_vertex s)
               (reading_edge s) true
  else if String.eqb line "</curve>" then
    let s1 := with_flags s (reading_vertices s) (reading_edges s)
                         (reading_vertex s) (reading_edge s) false in
    match curve_of_points (e_curve s1) with
    | Some c =>
        with_edge s1 (mkEdgeProperties c (edge_is_part_of_cycle (e_props s1)))
                  (e_source_index s1) (e_target_index s1) (e_curve s1)
    | None => s1
    end
  else if reading_curve s then
    match sscanf_fff "" line with
    | Some v =>
        with_edge s (e_props s) (e_source_index s) (e_target_index s)
                  ((e_curve s ++ [v])%list)
    | None => s
    end
  else if String.prefix "<source>" line then
    match sscanf_u "<source>" line with
    | Some i => with_edge s (e_props s) i (e_target_index s) (e_curve s)
    | None => s
    end
  else if String.prefix "<target>" line then
    match sscanf_u "<target>" line with
    | Some i => with_edge s (e_props s) (e_source_index s) i (e_curve s)
    | None => s
    end
  else if String.prefix "<cycle>" line then
    match sscanf_u "<cycle>" line with
    | Some cycle =>
        with_edge s
          (mkEdgeProperties (curve (e_props s)) (negb (cycle =? 0)%Z))
          (e_source_index s) (e_target_index s) (e_curve s)
    | None => s
    end
  else s.

(** The body of the [getline] loop; the flag is the [break]. *)
Definition import_line (s : import_state) (line : string) : import_state * bool :=
  if String.prefix "<scale>" line then
    match sscanf_f "<scale>" line with
    | Some x => (with_scale s x, false)
    | None => (s, false)
    end
  else if String.eqb line "<vertices>" then
    (with_flags s true (reading_edges s) (reading_vertex s) (reading_edge s)
                (reading_curve s), false)
  else if String.eqb line "</vertices>" then
    (with_flags s false (reading_edges s) (reading_vertex s) (reading_edge s)
                (reading_curve s), false)
  else if reading_vertices s then
    if String.eqb line "<vertex>" then
      (with_v_props
         (with_flags s (reading_vertices s) (reading_edges s) true
                     (reading_edge s) (reading_curve s))
         VertexProperties_default, false)
    else if String.eqb line "</vertex>" then
      let s1 := with_flags s (reading_vertices s) (reading_edges s) false
                           (reading_edge s) (reading_curve s) in
      let (g, v) := add_vertex (im_graph s1) (v_props s1) in
      (with_store s1 g ((im_vertices s1 ++ [v])%list), false)
    else if reading_vertex s then (import_vertex_field s line, false)
    else (s, false)
  else if String.eqb line "<edges>" then
    let s1 := with_flags s (reading_vertices s) true (reading_vertex s)
                         (reading_edge s) (reading_curve s) in
    (s1, Nat.eqb (length (im_vertices s1)) 0)
  else if String.eqb line "</edges>" then
    (with_flags s (reading_vertices s) false (reading_vertex s)
                (reading_edge s) (reading_curve s), false)
  else if reading_edges s then
    if String.eqb line "<edge>" then
      (with_edge
         (with_flags s (reading_vertices s) (reading_edges s)
                     (reading_vertex s) true (reading_curve s))
         (mkEdgeProperties default_curve false) 0%Z 0%Z [], false)
    else if String.eqb line "</edge>" then
      let s1 := with_flags s (reading_vertices s) (reading_edges s)
                           (reading_vertex s) false (reading_curve s) in
      let n := Z.of_nat (length (im_vertices s1)) in
      if ((e_source_index s1 <? n) && (e_target_index s1 <? n))%Z then
        let (g, _) :=
          add_edge (im_graph s1)
                   (nth (Z.to_nat (e_source_index s1)) (im_vertices s1) null_vertex)
                   (nth (Z.to_nat (e_target_index s1)) (im_vertices s1) null_vertex)
                   (e_props s1) in
        (with_store s1 g (im_vertices s1), false)
      else (s1, false)
    else if reading_edge s then (import_edge_field s line, false)
    else (s, false)
  else (s, false).

Fixpoint import_lines (s : import_state) (lines : list string) : import_state :=
  match lines with
  | [] => s
  | line :: rest =>
      let (s', stop) := import_line s line in
      if stop then s' else import_lines s' rest
  end.

(** [import_from_file]: the file is its text, or [None] when it cannot
    be opened; the graph pointer may be null.  Returns the graph and the
    scale. *)
Definition import_from_file (file : option string) (graph : option SkeletalGraph)
  : exception + SkeletalGraph * GRfloat :=
  match graph with
  | None => inl (runtime_error "ERROR - Cannot set nullptr SkeletalGraph")
  | Some g =>
      match file with
      | None =>
          inl (runtime_error
                 "ERROR - Could not open specified file. No SkeletalGraph was imported")
      | Some text =>
          let s := import_lines (import_initial g) (getlines text) in
          inr (im_graph s, im_scale s)
      end
  end.

End Persistence.

Close Scope string_scope.

(** ** Undirected reachability *)

(** The equivalence generated by the edges, each read in both
    directions, on the vertices of the graph. *)
Inductive reachable (g : SkeletalGraph)
  : VertexDescriptor -> VertexDescriptor -> Prop :=
| reachable_refl : forall v, In v (vertices g) -> reachable g v v
| reachable_edge :
    forall e, In e (edges g) -> reachable g (m_source e) (m_target e)
| reachable_sym : forall u v, reachable g u v -> reachable g v u
| reachable_trans :
    forall u v w, reachable g u v -> reachable g v w -> reachable g u w.

(** [reps] holds one vertex of each equivalence class: its length is the
    number of classes. *)
Definition class_representatives (g : SkeletalGraph)
           (reps : list VertexDescriptor) : Prop :=
  Forall (fun r => In r (vertices g)) reps
  /\ Forall (fun v => Exists (fun r => reachable g r v) reps) (vertices g)
  /\ ForallOrdPairs (fun r r' => ~ reachable g r r') reps.

(** ** More test graphs *)

Definition add_vertex_at (g : SkeletalGraph) (x : Z) : SkeletalGraph :=
  fst (add_vertex g (VertexProperties_init (vec x 0 0) (Finite 1%Q))).

Definition add_straight_edge (g : SkeletalGraph) (ends : nat * nat)
  : SkeletalGraph :=
  fst (add_edge_from_to unnormalized g (fst ends) (snd ends)).

(** The complete graph on the vertices 1..4 with a fifth vertex hanging
    off vertex 4; no loop, no parallel edge, one component. *)
Definition k4_pendant : SkeletalGraph :=
  fold_left add_straight_edge
            [(1, 2); (1, 3); (1, 4); (2, 3); (2, 4); (3, 4); (4, 5)]%nat
            (fold_left add_vertex_at [0; 1; 2; 3; 4]%Z SkeletalGraph_new).

(** A chain of five vertices whose edges alternate in direction. *)
Definition alternating_chain : SkeletalGraph :=
  fold_left add_straight_edge [(1, 2); (3, 2); (3, 4); (5, 4)]%nat
            (fold_left add_vertex_at [0; 1; 2; 3; 4]%Z SkeletalGraph_new).

(** A vertex already marked as part of a cycle. *)
Definition cycle_vertex (x : Z) : VertexProperties :=
  mkVertexProperties (vec x 0 0) (Finite 1%Q) true false 0 0 GRuint_minus_one.

(** Two cycle vertices joined by an edge (which [add_edge] marks as part
    of a cycle), then split at [(1,0,0)]: both halves inherit the mark,
    the new middle vertex has none. *)
Definition split_cycle_edge : SkeletalGraph :=
  let (g1, _) := add_vertex SkeletalGraph_new (cycle_vertex 0) in
  let (g2, _) := add_vertex g1 (cycle_vertex 2) in
  let (g3, _) := add_edge_from_to unnormalized g2 1 2 in
  graph_after (split_edge_at unnormalized g3 edge_1_2 0%Z (vec 1 0 0)).

(** A stand-in for the curve built from discrete points: the points,
    with tangents left at zero. *)
Definition curve_through (points : list Vector3f) : option DeformableSplineCurve :=
  Some (map (fun p => (p, vzero)) points).

Definition unlines (lines : list string) : string :=
  String.concat "" (map (fun l => String.append l newline) lines).

(** A file with one vertex of radius 20000 and one whose radius does not
    parse. *)
Definition radius_file : string :=
  unlines ["<vertices>";
           "<vertex>"; "<pos>0 0 0</pos>"; "<radius>20000</radius>";
           "<cycle>0</cycle>"; "</vertex>";
           "<vertex>"; "<pos>1 0 0</pos>"; "<radius>wide</radius>";
           "<cycle>0</cycle>"; "</vertex>";
           "</vertices>"]%string.

Definition edge_cycle_flags (g : SkeletalGraph) : list bool :=
  map (fun e => edge_is_part_of_cycle (get_edge g e)) (edges g).

Definition vertex_cycle_flags (g : SkeletalGraph) : list bool :=
  map (fun v => is_part_of_cycle (get_vertex g v)) (vertices g).

(** What [import_from_file] hands back, or the empty graph if it throws. *)
Definition loaded_graph (r : exception + SkeletalGraph * GRfloat) : SkeletalGraph :=
  match r with
  | inr (g, _) => g
  | inl _ => SkeletalGraph_new
  end.

(** The graph loaded from [radius_file]. *)
Definition radius_graph : SkeletalGraph :=
  loaded_graph (import_from_file scan_decimal curve_through []
                                 (Some radius_file) (Some SkeletalGraph_new)).

(** [split_cycle_edge] exported and loaded back. *)
Definition split_cycle_edge_text : string :=
  fst (export_to_file print_integral split_cycle_edge (Finite 1%Q)).

Definition split_cycle_edge_reloaded : SkeletalGraph :=
  loaded_graph (import_from_file scan_decimal curve_through []
                                 (Some split_cycle_edge_text)
                                 (Some SkeletalGraph_new)).

(** The two-vertex graph as a failed search for vertex 2 leaves it. *)
Definition two_vertices_after_throw : SkeletalGraph :=
  update_vertex (two_vertices (Finite 1%Q) (Finite 1%Q)) 2
                (set_BFS_path_cost 0%Z).

(** ** Counting the edges [collapse_edge] leaves *)

(** The edges [clear_vertex] keeps when it clears [drop], plus the edges
    queued for re-insertion from the in-edges and the out-edges of
    [drop]. *)
Definition survivors {A : Type} (drop : VertexDescriptor)
           (queue_in queue_out : EdgeDescriptor -> list A)
           (l : list EdgeDescriptor) : nat :=
  (length (filter (fun x => negb (Nat.eqb (m_source x) drop
                                  || Nat.eqb (m_target x) drop)) l)
   + length (flat_map queue_in (filter (fun x => Nat.eqb (m_target x) drop) l))
   + length (flat_map queue_out (filter (fun x => Nat.eqb (m_source x) drop) l)))%nat.

(** No edge of [l] is a self-loop at [drop]. *)
Definition loop_free (drop : VertexDescriptor) (l : list EdgeDescriptor) : Prop :=
  forall x, In x l -> ~ (m_source x = drop /\ m_target x = drop).

(** The one-edge graph with a self-loop added at vertex 2. *)
Definition self_loop_at_target : SkeletalGraph :=
  add_straight_edge (one_edge unnormalized (Finite 1%Q) (Finite 1%Q)) (2, 2)%nat.

(** Two unit-radius vertices joined by an edge whose curve has a single
    sample. *)
Definition one_sample_edge : SkeletalGraph :=
  fst (add_edge (two_vertices (Finite 1%Q) (Finite 1%Q)) 1 2
                (mkEdgeProperties [(vec 0 0 0, vzero)] false)).

(** ** The invariant of the search loop *)

Definition cost (g : SkeletalGraph) (v : VertexDescriptor) : GRuint :=
  BFS_path_cost (get_vertex g v).

Definition parent (g : SkeletalGraph) (v : VertexDescriptor) : VertexDescriptor :=
  BFS_parent (get_vertex g v).

(** What holds of the marks each time [shortest_path] tests its loop
    condition, for a search rooted at [to] in a graph with the vertices
    and edges of [g0]; [K] bounds the costs handed out so far. *)
Record bfs_invariant (g0 : SkeletalGraph) (from to : VertexDescriptor)
       (K : Z) (st : bfs_state) : Prop := mk_bfs_invariant {
  inv_vertices : vertices (fst (fst st)) = vertices g0;
  inv_edges : edges (fst (fst st)) = edges g0;
  inv_root : cost (fst (fst st)) to = 0%Z
             /\ parent (fst (fst st)) to = null_vertex;
  inv_range :
    forall v, In v (vertices g0) ->
              (0 <= cost (fst (fst st)) v <= GRuint_minus_one)%Z;
  inv_parent :
    forall v, In v (vertices g0) ->
              parent (fst (fst st)) v <> null_vertex ->
              In (parent (fst (fst st)) v) (vertices g0)
              /\ (cost (fst (fst st)) (parent (fst (fst st)) v)
                  < cost (fst (fst st)) v)%Z;
  inv_orphan :
    forall v, In v (vertices g0) ->
              parent (fst (fst st)) v = null_vertex ->
              v = to \/ cost (fst (fst st)) v = GRuint_minus_one;
  inv_queue :
    forall v, In v (snd (fst st)) ->
              In v (vertices g0)
              /\ (cost (fst (fst st)) v < GRuint_minus_one)%Z;
  inv_bound :
    forall v, In v (vertices g0) ->
              (cost (fst (fst st)) v < GRuint_minus_one)%Z ->
              (cost (fst (fst st)) v <= K)%Z;
  inv_found :
    snd st = true ->
    In from (vertices g0) /\ parent (fst (fst st)) from <> null_vertex
}.

(** The vertices left once [first] is gone: the graph [remove_edge]
    tests before its second removal. *)
Definition vertices_without (g : SkeletalGraph) (first : VertexDescriptor)
  : VertexVector :=
  filter (fun w => negb (Nat.eqb w first)) (vertices g).

(** ** The aggregate sample count as an invariant *)

(** The samples held by a list of stored edges. *)
Definition samples_of (l : list (EdgeDescriptor * EdgeProperties)) : Z :=
  fold_right Z.add 0%Z (map (fun ep => curve_size (curve (snd ep))) l).

(** [edge_spline_count_] agrees with the curves stored on the edges. *)
Definition count_consistent (g : SkeletalGraph) : Prop :=
  edge_spline_count g = to_GRuint (sum_curve_sizes g).

(** The samples held by the self-loops at [v]: these edges are both
    in-edges and out-edges of [v]. *)
Definition self_loop_samples (g : SkeletalGraph) (v : VertexDescriptor) : Z :=
  samples_of
    (filter (fun ep => Nat.eqb (m_source (fst ep)) v
                       && Nat.eqb (m_target (fst ep)) v)
            (boost.m_edges (internal_graph_ g))).

(** The in-degree and out-degree of [v] add up without wrapping. *)
Definition degree_fits (g : SkeletalGraph) (v : VertexDescriptor) : Prop :=
  (boost.in_degree v (internal_graph_ g)
   + boost.out_degree v (internal_graph_ g) < GRuint_modulus)%Z.

(** An edge that has [v] at one of its ends. *)
Definition incident (v : VertexDescriptor) (e : EdgeDescriptor) : bool :=
  Nat.eqb (m_source e) v || Nat.eqb (m_target e) v.

(** The graph is small enough for a degree to be counted without
    wrapping, also once two more edges are in. *)
Definition few_edges (g : SkeletalGraph) : Prop :=
  (2 * (Z.of_nat (length (edges g)) + 2) < GRuint_modulus)%Z.

(** ** Walks and search marks *)

(** Two vertices joined by an edge, in either direction. *)
Definition adjacent (g : SkeletalGraph) (u v : VertexDescriptor) : Prop :=
  exists e, In e (edges g)
            /\ ((m_source e = u /\ m_target e = v)
                \/ (m_source e = v /\ m_target e = u)).

(** Every step of the path follows an edge of the graph. *)
Fixpoint walk (g : SkeletalGraph) (path : VertexVector) : Prop :=
  match path with
  | u :: rest =>
      match rest with
      | v :: _ => adjacent g u v /\ walk g rest
      | [] => True
      end
  | [] => True
  end.

(** Properties that agree on everything but [BFS_parent] and
    [BFS_path_cost]. *)
Definition same_but_BFS (p q : VertexProperties) : Prop :=
  position p = position q
  /\ radius p = radius q
  /\ is_part_of_cycle p = is_part_of_cycle q
  /\ is_in_spanning_tree p = is_in_spanning_tree q
  /\ cycle_parent p = cycle_parent q.

(** Properties that agree on everything but [is_in_spanning_tree]. *)
Definition same_but_tree_mark (p q : VertexProperties) : Prop :=
  position p = position q
  /\ radius p = radius q
  /\ is_part_of_cycle p = is_part_of_cycle q
  /\ cycle_parent p = cycle_parent q
  /\ BFS_parent p = BFS_parent q
  /\ BFS_path_cost p = BFS_path_cost q.

(** [g'] has the sample count, the edges and the vertex descriptors of
    [g], and vertex properties related to those of [g] by [R]. *)
Definition same_store (R : VertexProperties -> VertexProperties -> Prop)
           (g g' : SkeletalGraph) : Prop :=
  edge_spline_count g' = edge_spline_count g
  /\ boost.m_edges (internal_graph_ g') = boost.m_edges (internal_graph_ g)
  /\ boost.m_fresh (internal_graph_ g') = boost.m_fresh (internal_graph_ g)
  /\ vertices g' = vertices g
  /\ forall v, R (get_vertex g' v) (get_vertex g v).

(** [g'] is [g] with, at most, other search marks on its vertices. *)
Definition search_marks_only (g g' : SkeletalGraph) : Prop :=
  same_store same_but_BFS g g'.

(** [g'] is [g] with, at most, other spanning-tree marks. *)
Definition tree_marks_only (g g' : SkeletalGraph) : Prop :=
  same_store same_but_tree_mark g g'.

(** Every vertex with a search parent is joined to it by an edge of
    [g0]. *)
Definition parents_adjacent (g0 g : SkeletalGraph) : Prop :=
  edges g = edges g0
  /\ forall v, parent g v <> null_vertex -> adjacent g0 (parent g v) v.

(** What holds each time [explore_from_vertex], started at [s] in [g],
    tests its loop condition: only marks differ, the queue holds
    vertices reachable from [s], no mark was cleared, and every new mark
    sits on a vertex reachable from [s]. *)
Definition explored (g : SkeletalGraph) (s : VertexDescriptor)
           (st : SkeletalGraph * list VertexDescriptor) : Prop :=
  tree_marks_only g (fst st)
  /\ (forall x, In x (snd st) -> reachable g s x)
  /\ (forall v, is_in_spanning_tree (get_vertex g v) = true ->
                is_in_spanning_tree (get_vertex (fst st) v) = true)
  /\ (forall v, is_in_spanning_tree (get_vertex (fst st) v) = true ->
                is_in_spanning_tree (get_vertex g v) = true
                \/ reachable g s v).

(** ** More rewrites *)

Section Collapsing.

Variable normalize : Vector3f -> Vector3f.

(** [collapse_edge] from the point where the vertex to keep, the vertex
    to clear and the new position are chosen. *)
Definition collapse_onto (g : SkeletalGraph) (edge_to_collapse : EdgeDescriptor)
           (to_keep to_remove : VertexDescriptor) (new_position : Vector3f)
  : outcome (VertexNeighborhood * EdgeVector) :=
  let sources_to_add :=
    collapse_in_edges normalize g edge_to_collapse to_keep to_remove
                      new_position in
  let targets_to_add :=
    collapse_out_edges normalize g edge_to_collapse to_keep to_remove
                       new_position in
  let (g1, cleared) := clear_vertex g to_remove in
  let removed_neighborhood := (to_remove, cleared) in
  let acc := add_edges_to to_keep (g1, []) sources_to_add in
  let '(g3, new_edges) := add_edges_from to_keep acc targets_to_add in
  let g4 :=
    with_graph g3
      (boost.update_vertex to_keep
         (fun p =>
            mkVertexProperties new_position (radius p) (is_part_of_cycle p)
              (is_in_spanning_tree p) (cycle_parent p) (BFS_parent p)
              (BFS_path_cost p))
         (internal_graph_ g3)) in
  Returned g4 (removed_neighborhood, new_edges).

(** The vertex [collapse_edge] keeps, the one it clears, and where it
    puts the kept one. *)
Definition collapse_choice (g : SkeletalGraph) (edge_to_collapse : EdgeDescriptor)
           (option : COLLAPSE_OPTION)
  : VertexDescriptor * VertexDescriptor * Vector3f :=
  let source := boost.source edge_to_collapse (internal_graph_ g) in
  let target := boost.target edge_to_collapse (internal_graph_ g) in
  match option with
  | SOURCE => (source, target, position (get_vertex g source))
  | TARGET => (target, source, position (get_vertex g target))
  | MIDPOINT =>
      (source, target,
       vscale (vadd (position (get_vertex g source))
                    (position (get_vertex g target)))
              (Finite (1 # 2)))
  end.

(** [merge_vertices(vertex_one, vertex_two, option)] *)
Definition merge_vertices (g : SkeletalGraph)
           (vertex_one vertex_two : VertexDescriptor) (option : COLLAPSE_OPTION)
  : outcome (VertexNeighborhood * EdgeVector) :=
  let (g1, new_edge_to_collapse) :=
    add_edge_from_to normalize g vertex_one vertex_two in
  if negb (snd new_edge_to_collapse) then
    Thrown g1 (invalid_argument "Could not merge vertices")
  else
    match collapse_edge normalize g1 (fst new_edge_to_collapse) option with
    | Thrown g2 ex => Thrown g2 ex
    | Returned g2 removed_vertex_and_added_edges =>
        let cleared_vertex := fst (fst removed_vertex_and_added_edges) in
        let (g3, _) := remove_vertex g2 cleared_vertex in
        Returned g3 removed_vertex_and_added_edges
    end.

End Collapsing.

(** ** Removing vertices by degree *)

(** [remove_vertices_of_degree(k)]; the degree is a [size_t] here. *)
Definition remove_vertices_of_degree (g : SkeletalGraph) (k : Z) : SkeletalGraph :=
  fold_left
    (fun g' vi =>
       let degree :=
         to_size_t (boost.in_degree vi (internal_graph_ g')
                    + boost.out_degree vi (internal_graph_ g')) in
       if (degree =? k)%Z then fst (remove_vertex g' vi) else g')
    (vertices g) g.

(** Some edge of the list has [v] at one of its ends. *)
Definition touched (l : list EdgeDescriptor) (v : VertexDescriptor) : bool :=
  existsb (incident v) l.

(** ** Queries on edges *)

Definition is_edge_source_or_target (g : SkeletalGraph) (edge : EdgeDescriptor)
           (vertex : VertexDescriptor) : bool :=
  Nat.eqb (boost.source edge (internal_graph_ g)) vertex
  || Nat.eqb (boost.target edge (internal_graph_ g)) vertex.

Definition find_vertex_not_connected_to_adjacent_edge (g : SkeletalGraph)
           (edge adjacent_edge : EdgeDescriptor) : VertexDescriptor :=
  let edge_source := boost.source edge (internal_graph_ g) in
  let edge_target := boost.target edge (internal_graph_ g) in
  let adjacent_edge_source := boost.source adjacent_edge (internal_graph_ g) in
  let adjacent_edge_target := boost.target adjacent_edge (internal_graph_ g) in
  if Nat.eqb edge_source adjacent_edge_source then edge_target
  else if Nat.eqb edge_source adjacent_edge_target then edge_target
  else if Nat.eqb edge_target adjacent_edge_source then edge_source
  else if Nat.eqb edge_target adjacent_edge_target then edge_source
  else boost.null_vertex.

(** [edge_exists(from, to)]: the edges found, whether the last one found
    runs from [from] to [to], and whether one was found. *)
Definition edge_exists (g : SkeletalGraph) (from to : VertexDescriptor)
  : (EdgeVector * bool) * bool :=
  if Nat.eqb from boost.null_vertex || Nat.eqb to boost.null_vertex then
    (([], false), false)
  else
    let backward := boost.edge to from (internal_graph_ g) in
    let '(edges1, right_direction1, found_edge1) :=
      if snd backward then ([fst backward], false, true)
      else ([], false, false) in
    let forward := boost.edge from to (internal_graph_ g) in
    if snd forward then ((edges1 ++ [fst forward], true), true)
    else ((edges1, right_direction1), found_edge1).

(** ** The shortest path between two edges *)

(** Run [k] on what a call returned; a throw passes through, and so
    does a walk that ran out of fuel. *)
Definition and_then {A B : Type} (o : option (outcome A))
           (k : SkeletalGraph -> A -> option (outcome B))
  : option (outcome B) :=
  match o with
  | None => None
  | Some (Thrown g ex) => Some (Thrown g ex)
  | Some (Returned g a) => k g a
  end.

(** The index the selection loop ends with: the first path shorter than
    all before it, starting from [(size_t)-1]. *)
Definition min_size_index (paths : list VertexVector) : nat :=
  fst (fold_left
         (fun acc ip =>
            if (Z.of_nat (length (snd ip)) <? snd acc)%Z
            then (fst ip, Z.of_nat (length (snd ip)))
            else acc)
         (combine (seq 0 (length paths)) paths)
         (0%nat, (2 ^ 64 - 1)%Z)).

(** [shortest_path(source_edge, target_edge)] on edges. *)
Definition shortest_path_edges (fuel : nat) (g : SkeletalGraph)
           (source_edge target_edge : EdgeDescriptor)
  : option (outcome VertexVector) :=
  let source_edge_source := boost.source source_edge (internal_graph_ g) in
  let source_edge_target := boost.target source_edge (internal_graph_ g) in
  let target_edge_source := boost.source target_edge (internal_graph_ g) in
  let target_edge_target := boost.target target_edge (internal_graph_ g) in
  and_then (shortest_path fuel g source_edge_source target_edge_source)
    (fun g1 p1 =>
  and_then (shortest_path fuel g1 source_edge_source target_edge_target)
    (fun g2 p2 =>
  and_then (shortest_path fuel g2 source_edge_target target_edge_source)
    (fun g3 p3 =>
  and_then (shortest_path fuel g3 source_edge_target target_edge_target)
    (fun g4 p4 =>
       let paths := [p1; p2; p3; p4] in
       Some (Returned g4 (nth (min_size_index paths) paths [])))))).

(** What a call hands to its caller, the graph left aside. *)
Definition result_of {A : Type} (o : outcome A) : A + exception :=
  match o with
  | Returned _ a => inl a
  | Thrown _ ex => inr ex
  end.

(** ** Cutting an edge *)

Section Cutting.

Variable normalize : Vector3f -> Vector3f.

(** [cut_edge_at(edge_to_cut, segment_index, new_vertex_position)];
    dereferencing the begin iterator of an empty in-edge range is
    undefined in the source and yields the default descriptor here. *)
Definition cut_edge_at (g : SkeletalGraph) (edge_to_cut : EdgeDescriptor)
           (segment_index : GRuint) (new_vertex_position : Vector3f)
  : outcome (VertexPair * EdgePair) :=
  let original_curve := curve (get_edge g edge_to_cut) in
  if (to_size_t (curve_size original_curve - 1) <=? segment_index)%Z then
    Thrown g (invalid_argument "Cannot split edge at invalid segment index")
  else
    let direction_to_previous_segment :=
      normalize (vsub (fst (curve_at original_curve segment_index))
                      new_vertex_position) in
    let direction_to_next_segment :=
      normalize (vsub (fst (curve_at original_curve
                                     (to_GRuint (segment_index + 1))))
                      new_vertex_position) in
    let displacement_factor := Finite 1%Q in
    let left_vertex_final_position :=
      vadd new_vertex_position
           (vscale direction_to_previous_segment displacement_factor) in
    let right_vertex_final_position :=
      vadd new_vertex_position
           (vscale direction_to_next_segment displacement_factor) in
    match split_edge_at normalize g edge_to_cut segment_index
                        right_vertex_final_position with
    | Thrown g1 e => Thrown g1 e
    | Returned g1 right_vertex_neighborhood =>
        let right_vertex := fst right_vertex_neighborhood in
        let right_edge := snd (snd right_vertex_neighborhood) in
        let left_edge_temp := fst (snd right_vertex_neighborhood) in
        let last_segment_index :=
          to_GRuint
            (to_GRuint (curve_size (curve (get_edge g1 left_edge_temp))) - 2) in
        match split_edge_at normalize g1 left_edge_temp last_segment_index
                            left_vertex_final_position with
        | Thrown g2 e => Thrown g2 e
        | Returned g2 left_vertex_neighborhood =>
            let left_vertex := fst left_vertex_neighborhood in
            let left_edge := fst (snd left_vertex_neighborhood) in
            let middle_edge :=
              hd EdgeDescriptor_default
                 (boost.in_edges right_vertex (internal_graph_ g2)) in
            let (g3, _) := remove_edge g2 middle_edge in
            Returned g3 ((left_vertex, right_vertex), (left_edge, right_edge))
        end
    end.

End Cutting.

(** ** Removing a vertex of degree 2 *)

Section Merging.

Variable normalize : Vector3f -> Vector3f.

(** [c.back().second = t] *)
Definition curve_set_back_tangent (c : DeformableSplineCurve) (t : Vector3f)
  : DeformableSplineCurve :=
  curve_set_back c (fst (curve_back c), t).

(** [for (GRuint i(1); i < from.size(); i++) c.push_back(from[i])] *)
Definition push_back_from_second (c from : DeformableSplineCurve)
  : DeformableSplineCurve :=
  fold_left (fun c i => c ++ [curve_at from i]) (range_Z 1 (curve_size from)) c.

(** The sample [size - 1 - i] of [from], its tangent turned round. *)
Definition reversed_sample (from : DeformableSplineCurve) (size i : GRuint)
  : PointTangent :=
  (fst (curve_at from (to_GRuint (to_GRuint (size - 1) - i))),
   vscale (snd (curve_at from (to_GRuint (to_GRuint (size - 1) - i))))
          (Finite (-1)%Q)).

(** The curve of the merged edge for [->*->]. *)
Definition merge_in_out (in0 out0 : EdgeProperties) : EdgeProperties :=
  let c := curve in0 in
  let c1 :=
    curve_set_back_tangent c
      (normalize (vsub (fst (curve_at (curve out0) 1)) (fst (curve_back c)))) in
  mkEdgeProperties (push_back_from_second c1 (curve out0))
                   (edge_is_part_of_cycle in0).

(** The curve of the merged edge for [->*<-]. *)
Definition merge_in_in (in0 in1 : EdgeProperties) : EdgeProperties :=
  let c := curve in0 in
  let second_curve_size := to_GRuint (curve_size (curve in1)) in
  let c1 :=
    curve_set_back_tangent c
      (normalize
         (vsub (fst (curve_at (curve in1) (to_GRuint (second_curve_size - 2))))
               (fst (curve_back c)))) in
  mkEdgeProperties
    (fold_left (fun c i => c ++ [reversed_sample (curve in1) second_curve_size i])
               (range_Z 1 second_curve_size) c1)
    (edge_is_part_of_cycle in0).

(** Modelled from the spec: a curve is an ordered sequence of samples,
    so the vector [first_half] assigned to a curve keeps its samples.
    The curve of the merged edge for [<-*->]. *)
Definition merge_out_out (out0 out1 : EdgeProperties) : EdgeProperties :=
  let first_curve_size := to_GRuint (curve_size (curve out0)) in
  let first_half :=
    map (reversed_sample (curve out0) first_curve_size)
        (range_Z 0 first_curve_size) in
  let c1 :=
    curve_set_back_tangent first_half
      (normalize (vsub (fst (curve_at (curve out1) 1))
                       (fst (curve_back first_half)))) in
  let second_curve_size := to_GRuint (curve_size (curve out1)) in
  mkEdgeProperties
    (fold_left (fun c i => c ++ [curve_at (curve out1) i])
               (range_Z 1 second_curve_size) c1)
    false.

(** [remove_degree_2_vertex_and_merge_edges(vertex_to_remove)].  The
    loops count in [GRuint]: on a curve of [2^32] samples or more the
    source does not leave them. *)
Definition remove_degree_2_vertex_and_merge_edges (g : SkeletalGraph)
           (vertex_to_remove : VertexDescriptor)
  : outcome (EdgeDescriptor * EdgePair) :=
  if negb (degree g vertex_to_remove =? 2)%Z then
    Thrown g (invalid_argument " Trying to merge edges of non degree-2 vertex")
  else
    let in_edges := boost.in_edges vertex_to_remove (internal_graph_ g) in
    let out_edges := boost.out_edges vertex_to_remove (internal_graph_ g) in
    let merged :=
      match in_edges, out_edges with
      | [in0], [out0] =>
          Some (boost.source in0 (internal_graph_ g),
                boost.target out0 (internal_graph_ g),
                merge_in_out (get_edge g in0) (get_edge g out0))
      | [in0; in1], [] =>
          Some (boost.source in0 (internal_graph_ g),
                boost.source in1 (internal_graph_ g),
                merge_in_in (get_edge g in0) (get_edge g in1))
      | [], [out0; out1] =>
          Some (boost.target out0 (internal_graph_ g),
                boost.target out1 (internal_graph_ g),
                merge_out_out (get_edge g out0) (get_edge g out1))
      | _, _ => None
      end in
    match merged with
    | None =>
        Thrown g (runtime_error
                    "Could not create new edge to replace vertex of degree 2")
    | Some (new_source, new_target, new_curve) =>
        if negb (Nat.eqb new_source boost.null_vertex)
           && negb (Nat.eqb new_target boost.null_vertex)
        then
          let '(g1, new_edge) := add_edge g new_source new_target new_curve in
          let '(g2, removed_edges) := remove_vertex g1 vertex_to_remove in
          if snd new_edge && (Z.of_nat (length removed_edges) =? 2)%Z then
            Returned g2
              (fst new_edge,
               (nth 0 removed_edges EdgeDescriptor_default,
                nth 1 removed_edges EdgeDescriptor_default))
          else
            Thrown g2 (runtime_error
                         "Could not create new edge to replace vertex of degree 2")
        else
          Thrown g (runtime_error
                      "Could not create new edge to replace vertex of degree 2")
    end.

End Merging.

(** A chain of three vertices, both edges pointing the same way. *)
Definition straight_chain : SkeletalGraph :=
  fold_left add_straight_edge [(1, 2); (2, 3)]%nat
            (fold_left add_vertex_at [0; 1; 2]%Z SkeletalGraph_new).

(** ** Loading into a graph *)

(** What holds of the loader's state after every line of a load into
    [g]: the store of [g] is still there, the vertices added since are
    the loader's own list, every edge added joins two of them, and the
    store and its count are as sound as they were. *)
Definition import_extends (g : SkeletalGraph) (s : import_state) : Prop :=
  well_formed (im_graph s)
  /\ (exists new_vertices,
         boost.m_vertices (internal_graph_ (im_graph s))
         = boost.m_vertices (internal_graph_ g) ++ new_vertices
         /\ map fst new_vertices = im_vertices s)
  /\ (exists added_edges,
         boost.m_edges (internal_graph_ (im_graph s))
         = boost.m_edges (internal_graph_ g) ++ added_edges
         /\ forall ep, In ep added_edges ->
                       In (m_source (fst ep)) (im_vertices s)
                       /\ In (m_target (fst ep)) (im_vertices s))
  /\ (count_consistent g -> count_consistent (im_graph s)).

(** One vertex carrying one self-loop. *)
Definition lone_loop : SkeletalGraph :=
  add_straight_edge (add_vertex_at SkeletalGraph_new 0) (1, 1)%nat.

(** * Properties *)

(** ** The aggregate sample count *)

(** The three-argument [add_edge] keeps the count in step with the
    curves: both grow by the size of the new curve. *)
Lemma add_edge_count (g : SkeletalGraph) (from to : VertexDescriptor)
      (properties : EdgeProperties) :
  from <> null_vertex -> to <> null_vertex ->
  edge_spline_count (fst (add_edge g from to properties))
  = to_GRuint (edge_spline_count g
               + to_GRuint (curve_size (curve properties)))
  /\ sum_curve_sizes (fst (add_edge g from to properties))
     = (sum_curve_sizes g + curve_size (curve properties))%Z.
Proof.
  intros Hf Ht. unfold add_edge.
  apply Nat.eqb_neq in Hf. apply Nat.eqb_neq in Ht.
  unfold null_vertex in *. rewrite Hf, Ht. simpl. split; [reflexivity|].
  unfold sum_curve_sizes; simpl. rewrite map_map.
  rewrite (map_ext _ (fun ep => curve_size (curve (snd ep)))).
  - rewrite map_app, fold_right_app. simpl.
    induction (map _ (boost.m_edges (internal_graph_ g))) as [|x l IH];
      simpl; lia.
  - intros [d p]; simpl. destruct (edge_eqb d _); reflexivity.
Qed.

(** The convenience overload adds its own 2 before it delegates, so the
    count grows by 4 while the curves grow by 2. *)
Lemma add_edge_from_to_count (normalize : Vector3f -> Vector3f)
      (g : SkeletalGraph) (from to : VertexDescriptor) :
  from <> null_vertex -> to <> null_vertex ->
  edge_spline_count (fst (add_edge_from_to normalize g from to))
  = to_GRuint (to_GRuint (edge_spline_count g + 2) + 2)
  /\ sum_curve_sizes (fst (add_edge_from_to normalize g from to))
     = (sum_curve_sizes g + 2)%Z.
Proof.
  intros Hf Ht. unfold add_edge_from_to.
  match goal with
  | |- context [add_edge ?g1 from to ?p] =>
      destruct (add_edge_count g1 p Hf Ht) as [Hc Hs]
  end.
  rewrite Hc, Hs. split; reflexivity.
Qed.

(** C1 (the code departs from the claim).  On the graph of two vertices
    and no edge, [add_edge(from, to)] leaves [edge_spline_count] at 4,
    while its two-sample curve is the only curve of the graph: the count
    grew by 4, not by 2, and no longer equals the sum of the curve
    sizes. *)
Theorem add_edge_from_to_counts_twice :
  forall normalize : Vector3f -> Vector3f,
    let g := two_vertices (Finite 1%Q) (Finite 1%Q) in
    let g' := fst (add_edge_from_to normalize g 1 2) in
    edge_spline_count g = 0%Z
    /\ sum_curve_sizes g = 0%Z
    /\ snd (snd (add_edge_from_to normalize g 1 2)) = true
    /\ edge_spline_count g' = 4%Z
    /\ sum_curve_sizes g' = 2%Z.
Proof.
  intros normalize g g'. repeat split; reflexivity.
Qed.

(** ** Edge radius *)


Lemma to_GRuint_small (x : Z) : (0 <= x < GRuint_modulus)%Z -> to_GRuint x = x.
Proof. intros H. unfold to_GRuint. apply Z.mod_small. exact H. Qed.





(** The same happens on a curve of one sample, whatever the radii: the
    clamped index 0 is divided by [size - 1 = 0]. *)
Example get_edge_radius_one_sample :
  In edge_1_2 (edges one_sample_edge)
  /\ curve_size (curve (get_edge one_sample_edge edge_1_2)) = 1%Z
  /\ get_edge_radius one_sample_edge edge_1_2 7%Z = NotFinite.
Proof.
  repeat apply conj; try (vm_compute; reflexivity).
  left. reflexivity.
Qed.


(** ** The store: membership and lengths *)

Lemma filter_map_fst {A B} (f : A -> bool) (l : list (A * B)) :
  map fst (filter (fun x => f (fst x)) l) = filter f (map fst l).
Proof.
  induction l as [|[a b] l IH]; simpl; [reflexivity|].
  destruct (f a); simpl; rewrite IH; reflexivity.
Qed.

Lemma vertices_remove_vertex (b : boost.adjacency_list) (v : VertexDescriptor) :
  boost.vertices (boost.remove_vertex v b)
  = filter (fun w => negb (Nat.eqb w v)) (boost.vertices b).
Proof.
  unfold boost.vertices, boost.remove_vertex; simpl.
  apply (filter_map_fst (fun w => negb (Nat.eqb w v))).
Qed.

Lemma edges_remove_edge (b : boost.adjacency_list) (e : EdgeDescriptor) :
  boost.edges (boost.remove_edge e b)
  = filter (fun x => negb (edge_eqb x e)) (boost.edges b).
Proof.
  unfold boost.edges, boost.remove_edge; simpl.
  apply (filter_map_fst (fun x => negb (edge_eqb x e))).
Qed.

Lemma edges_clear_vertex (b : boost.adjacency_list) (v : VertexDescriptor) :
  boost.edges (boost.clear_vertex v b)
  = filter (fun x => negb (Nat.eqb (m_source x) v || Nat.eqb (m_target x) v))
           (boost.edges b).
Proof.
  unfold boost.edges, boost.clear_vertex; simpl.
  apply (filter_map_fst
           (fun x => negb (Nat.eqb (m_source x) v || Nat.eqb (m_target x) v))).
Qed.

Lemma edge_of_existing (b : boost.adjacency_list) (e : EdgeDescriptor) :
  In e (boost.edges b) ->
  snd (boost.edge (m_source e) (m_target e) b) = true.
Proof.
  intros He. unfold boost.edge, boost.out_edges.
  destruct (filter _ (filter _ (boost.edges b))) as [|x l] eqn:E; [|reflexivity].
  exfalso.
  assert (H : In e (filter (fun e0 => Nat.eqb (m_target e0) (m_target e))
                           (filter (fun e0 => Nat.eqb (m_source e0) (m_source e))
                                   (boost.edges b)))).
  { apply filter_In. split; [apply filter_In; split; [exact He|]|];
      apply Nat.eqb_refl. }
  rewrite E in H. exact H.
Qed.

(** Taking one element out of a duplicate-free list of two or more
    leaves something behind. *)
Lemma filter_out_one_nonempty (l : VertexVector) (v : VertexDescriptor) :
  NoDup l -> l <> [] -> length l <> 1%nat ->
  filter (fun w => negb (Nat.eqb w v)) l <> [].
Proof.
  intros Hnd Hne Hlen.
  destruct l as [|a [|b l]]; [congruence | simpl in Hlen; congruence |].
  simpl. destruct (Nat.eqb_spec a v) as [->|Ha]; simpl; [|discriminate].
  destruct (Nat.eqb_spec b v) as [->|Hb]; simpl; [|discriminate].
  inversion Hnd as [|? ? Hin _]. exfalso. apply Hin. left. reflexivity.
Qed.

Lemma NoDup_filter {A} (f : A -> bool) (l : list A) :
  NoDup l -> NoDup (filter f l).
Proof.
  induction 1 as [|a l Hin Hnd IH]; simpl; [constructor|].
  destruct (f a); [constructor|]; auto.
  intros H. apply filter_In in H. tauto.
Qed.

Lemma filter_twice {A} (f h : A -> bool) (l : list A) :
  filter f (filter h l) = filter (fun x => h x && f x) l.
Proof.
  induction l as [|a l IH]; simpl; [reflexivity|].
  destruct (h a); simpl; [destruct (f a)|]; rewrite IH; reflexivity.
Qed.

Lemma vertex_count_one (g : SkeletalGraph) :
  length (vertices g) = 1%nat -> vertex_count g = 1%Z.
Proof.
  unfold vertex_count, vertices, boost.vertices. rewrite length_map.
  intros ->. reflexivity.
Qed.

(** ** [remove_edge] *)

(** C7.  For an edge [e] of a well-formed graph, [remove_edge(e)]
    returns in each slot either null or the matching end of [e]; the
    source is returned exactly when its degree was 1 before the removal
    and the graph does not count one vertex, the target exactly when its
    degree was 1 and the graph left after the first removal does not
    count one vertex; the vertices taken out of the graph are exactly
    the returned ones, the edge is gone, and the graph keeps at least
    one vertex. *)
Theorem remove_edge_auto_removal (g : SkeletalGraph) (e : EdgeDescriptor) :
  well_formed g -> In e (edges g) ->
  let g' := fst (remove_edge g e) in
  let first := fst (snd (remove_edge g e)) in
  let second := snd (snd (remove_edge g e)) in
  (first = m_source e \/ first = null_vertex)
  /\ (second = m_target e \/ second = null_vertex)
  /\ (first = m_source e
      <-> degree g (m_source e) = 1%Z /\ vertex_count g <> 1%Z)
  /\ (second = m_target e
      <-> degree g (m_target e) = 1%Z
          /\ to_GRuint (Z.of_nat (length (vertices_without g first))) <> 1%Z)
  /\ vertices g'
     = filter (fun w => negb (Nat.eqb w first) && negb (Nat.eqb w second))
              (vertices g)
  /\ edges g' = filter (fun x => negb (edge_eqb x e)) (edges g)
  /\ vertices g' <> [].
Proof.
  intros Hwf He.
  destruct (wf_endpoints Hwf e He) as [Hs Ht].
  assert (Hs0 : m_source e <> null_vertex).
  { intros H. apply (wf_vertex_range Hwf) in Hs. rewrite H in Hs.
    unfold null_vertex, boost.null_vertex in Hs. lia. }
  assert (Ht0 : m_target e <> null_vertex).
  { intros H. apply (wf_vertex_range Hwf) in Ht. rewrite H in Ht.
    unfold null_vertex, boost.null_vertex in Ht. lia. }
  assert (Hnovertex : forall w, In w (vertices g) -> Nat.eqb w null_vertex = false).
  { intros w Hw. apply Nat.eqb_neq. intros ->.
    apply (wf_vertex_range Hwf) in Hw.
    unfold null_vertex, boost.null_vertex in Hw. lia. }
  unfold remove_edge.
  assert (Hd : edge_eqb e EdgeDescriptor_default = false).
  { unfold edge_eqb. simpl. apply Nat.eqb_neq.
    pose proof (wf_edge_range Hwf e He). lia. }
  rewrite Hd. unfold boost.source, boost.target.
  rewrite (edge_of_existing (internal_graph_ g) e He).
  set (g1 := with_count g _).
  assert (Hdeg : forall v, degree g1 v = degree g v) by reflexivity.
  rewrite !Hdeg.
  set (g2 := with_graph g1 _).
  assert (Hv2 : vertices g2 = vertices g) by reflexivity.
  assert (Hc2 : vertex_count g2 = vertex_count g) by reflexivity.
  assert (He2 : edges g2 = filter (fun x => negb (edge_eqb x e)) (edges g)).
  { unfold g2, edges, with_graph; simpl. apply edges_remove_edge. }
  rewrite Hc2.
  pose proof (wf_vertex_nodup Hwf) as Hnd.
  assert (Hne : vertices g <> []).
  { intros H. rewrite H in Hs. exact Hs. }
  (* rewriting the filter of the final statement when a slot is null *)
  assert (Hkeep : forall (f : VertexDescriptor -> bool) l,
             (forall w, In w l -> f w = true) -> filter f l = l).
  { intros f l. induction l as [|a l IH]; simpl; intros H; [reflexivity|].
    rewrite (H a (or_introl eq_refl)). f_equal. apply IH.
    intros w Hw. apply H. right. exact Hw. }
  assert (Hnt : boost.null_vertex <> m_target e)
    by (intros H; apply Ht0; symmetry; exact H).
  assert (Hns : boost.null_vertex <> m_source e)
    by (intros H; apply Hs0; symmetry; exact H).
  destruct ((degree g (m_source e) =? 1)%Z && negb (vertex_count g =? 1)%Z)
    eqn:E1.
  - (* the source is removed *)
    apply andb_true_iff in E1. destruct E1 as [E1a E1b].
    apply Z.eqb_eq in E1a. apply negb_true_iff, Z.eqb_neq in E1b.
    set (g3 := with_graph g2 _).
    assert (Hv3 : vertices g3 = vertices_without g (m_source e)).
    { unfold g3, vertices, with_graph; simpl.
      rewrite vertices_remove_vertex. reflexivity. }
    assert (He3 : edges g3 = edges g2) by reflexivity.
    assert (Hne3 : vertices g3 <> []).
    { rewrite Hv3. apply filter_out_one_nonempty; auto.
      intros H. apply E1b. apply vertex_count_one. exact H. }
    assert (Hc3 : vertex_count g3
                  = to_GRuint (Z.of_nat (length (vertices_without g (m_source e))))).
    { unfold vertex_count. rewrite <- Hv3. unfold vertices, boost.vertices.
      rewrite length_map. reflexivity. }
    destruct ((degree g (m_target e) =? 1)%Z && negb (vertex_count g3 =? 1)%Z)
      eqn:E2.
    + apply andb_true_iff in E2. destruct E2 as [E2a E2b].
      apply Z.eqb_eq in E2a. apply negb_true_iff, Z.eqb_neq in E2b.
      set (g4 := with_graph g3 _).
      assert (Hv4 : vertices g4
                    = filter (fun w => negb (Nat.eqb w (m_target e))) (vertices g3)).
      { unfold g4, vertices, with_graph; simpl.
        rewrite vertices_remove_vertex. reflexivity. }
      cbn [fst snd].
      refine (conj _ (conj _ (conj _ (conj _ (conj _ (conj _ _)))))).
      * left; reflexivity.
      * left; reflexivity.
      * tauto.
      * rewrite <- Hc3. tauto.
      * rewrite Hv4, Hv3. apply filter_twice.
      * exact He2.
      * rewrite Hv4.
        destruct (in_dec Nat.eq_dec (m_target e) (vertices g3)) as [Hin|Hout].
        -- apply filter_out_one_nonempty; auto.
           ++ rewrite Hv3. apply NoDup_filter. exact Hnd.
           ++ intros H. apply E2b. apply vertex_count_one. exact H.
        -- rewrite Hkeep; auto. intros w Hw. apply negb_true_iff, Nat.eqb_neq.
           intros ->. contradiction.
    + apply andb_false_iff in E2.
      assert (Hnot2 : ~ (degree g (m_target e) = 1%Z /\ vertex_count g3 <> 1%Z)).
      { intros [Ha Hb]. destruct E2 as [E2|E2].
        - apply Z.eqb_neq in E2. contradiction.
        - apply negb_false_iff, Z.eqb_eq in E2. contradiction. }
      cbn [fst snd].
      refine (conj _ (conj _ (conj _ (conj _ (conj _ (conj _ _)))))).
      * left; reflexivity.
      * right; reflexivity.
      * tauto.
      * rewrite <- Hc3. tauto.
      * rewrite Hv3. unfold vertices_without.
        apply filter_ext_in. intros w Hw.
        change boost.null_vertex with null_vertex.
        rewrite (Hnovertex w Hw). simpl. rewrite andb_true_r. reflexivity.
      * exact He2.
      * exact Hne3.
  - (* the source stays *)
    apply andb_false_iff in E1.
    assert (Hnot : ~ (degree g (m_source e) = 1%Z /\ vertex_count g <> 1%Z)).
    { intros [Ha Hb]. destruct E1 as [E1|E1].
      - apply Z.eqb_neq in E1. contradiction.
      - apply negb_false_iff, Z.eqb_eq in E1. contradiction. }
    assert (Hwo : vertices_without g boost.null_vertex = vertices g).
    { unfold vertices_without. apply Hkeep. intros w Hw.
      apply negb_true_iff. apply (Hnovertex w Hw). }
    rewrite Hc2.
    assert (Hc : vertex_count g
                 = to_GRuint (Z.of_nat (length (vertices_without g boost.null_vertex)))).
    { rewrite Hwo. unfold vertex_count, vertices, boost.vertices.
      rewrite length_map. reflexivity. }
    destruct ((degree g (m_target e) =? 1)%Z && negb (vertex_count g =? 1)%Z)
      eqn:E2.
    + apply andb_true_iff in E2. destruct E2 as [E2a E2b].
      apply Z.eqb_eq in E2a. apply negb_true_iff, Z.eqb_neq in E2b.
      set (g4 := with_graph g2 _).
      assert (Hv4 : vertices g4
                    = filter (fun w => negb (Nat.eqb w (m_target e))) (vertices g)).
      { unfold g4, vertices, with_graph; simpl.
        rewrite vertices_remove_vertex. reflexivity. }
      cbn [fst snd].
      refine (conj _ (conj _ (conj _ (conj _ (conj _ (conj _ _)))))).
      * right; reflexivity.
      * left; reflexivity.
      * tauto.
      * rewrite <- Hc. tauto.
      * rewrite Hv4. apply filter_ext_in. intros w Hw.
        change boost.null_vertex with null_vertex.
        rewrite (Hnovertex w Hw). reflexivity.
      * exact He2.
      * rewrite Hv4. apply filter_out_one_nonempty; auto.
        intros H. apply E2b. apply vertex_count_one. exact H.
    + apply andb_false_iff in E2.
      assert (Hnot2 : ~ (degree g (m_target e) = 1%Z /\ vertex_count g <> 1%Z)).
      { intros [Ha Hb]. destruct E2 as [E2|E2].
        - apply Z.eqb_neq in E2. contradiction.
        - apply negb_false_iff, Z.eqb_eq in E2. contradiction. }
      cbn [fst snd].
      refine (conj _ (conj _ (conj _ (conj _ (conj _ (conj _ _)))))).
      * right; reflexivity.
      * right; reflexivity.
      * tauto.
      * rewrite <- Hc. tauto.
      * rewrite Hv2. symmetry. apply Hkeep.
        intros w Hw. change boost.null_vertex with null_vertex.
        rewrite (Hnovertex w Hw). reflexivity.
      * exact He2.
      * rewrite Hv2. exact Hne.
Qed.

(** The one-edge test graph is well formed. *)
Lemma one_edge_well_formed (r1 r2 : GRfloat) :
  well_formed (one_edge unnormalized r1 r2).
Proof.
  constructor; simpl.
  - lia.
  - intros v [<-|[<-|[]]]; lia.
  - repeat constructor; simpl; intuition discriminate.
  - intros e [<-|[]]; simpl; lia.
  - repeat constructor; simpl; tauto.
  - intros e [<-|[]]; simpl; tauto.
Qed.

(** Witness for [remove_edge_auto_removal]: removing the only edge of
    the one-edge graph takes the source out and keeps the target. *)
Lemma remove_edge_auto_removal_witness :
  vertices (fst (remove_edge (one_edge unnormalized (Finite 1%Q) (Finite 1%Q))
                             edge_1_2))
  <> [].
Proof.
  destruct (@remove_edge_auto_removal
              (one_edge unnormalized (Finite 1%Q) (Finite 1%Q)) edge_1_2
              (one_edge_well_formed (Finite 1%Q) (Finite 1%Q))
              (or_introl eq_refl))
    as (_ & _ & _ & _ & _ & _ & H).
  exact H.
Defined.

(** ** Reading the store after an update *)

Lemma lookup_vertex_app_fresh l (v : VertexDescriptor) (p : VertexProperties) :
  ~ In v (map fst l) ->
  boost.lookup_vertex (l ++ [(v, p)]) v = Some p.
Proof.
  induction l as [|[w q] l IH]; simpl; intros H.
  - rewrite Nat.eqb_refl. reflexivity.
  - destruct (Nat.eqb_spec w v) as [->|Hw]; [tauto|]. apply IH. tauto.
Qed.

Lemma lookup_vertex_filter l (v w : VertexDescriptor) :
  w <> v ->
  boost.lookup_vertex
    (filter (fun vp => negb (Nat.eqb (fst vp) v)) l) w
  = boost.lookup_vertex l w.
Proof.
  intros Hw. induction l as [|[u q] l IH]; simpl; [reflexivity|].
  destruct (Nat.eqb_spec u v) as [->|Hu]; simpl.
  - destruct (Nat.eqb_spec v w); [congruence | exact IH].
  - rewrite IH. reflexivity.
Qed.

Lemma edges_update_edge (b : boost.adjacency_list) e f :
  boost.edges (boost.update_edge e f b) = boost.edges b.
Proof.
  unfold boost.edges, boost.update_edge; simpl. rewrite map_map.
  apply map_ext. intros [d p]; simpl. destruct (edge_eqb d e); reflexivity.
Qed.

Lemma vertices_update_vertex (b : boost.adjacency_list) v f :
  boost.vertices (boost.update_vertex v f b) = boost.vertices b.
Proof.
  unfold boost.vertices, boost.update_vertex; simpl. rewrite map_map.
  apply map_ext. intros [d p]; simpl. destruct (Nat.eqb d v); reflexivity.
Qed.

(** What [add_edge] does when both ends are non-null. *)
Lemma add_edge_spec (g : SkeletalGraph) (from to : VertexDescriptor)
      (properties : EdgeProperties) :
  from <> null_vertex -> to <> null_vertex ->
  let e := mkEdgeDescriptor from to (boost.m_fresh (internal_graph_ g)) in
  let g' := fst (add_edge g from to properties) in
  snd (add_edge g from to properties) = (e, true)
  /\ edges g' = edges g ++ [e]
  /\ boost.m_vertices (internal_graph_ g') = boost.m_vertices (internal_graph_ g)
  /\ boost.m_fresh (internal_graph_ g') = S (boost.m_fresh (internal_graph_ g)).
Proof.
  intros Hf Ht. unfold add_edge.
  apply Nat.eqb_neq in Hf. apply Nat.eqb_neq in Ht.
  unfold null_vertex in *. rewrite Hf, Ht. simpl.
  repeat split.
  unfold edges, with_graph; simpl. rewrite edges_update_edge.
  unfold boost.edges; simpl. rewrite map_app. reflexivity.
Qed.

(** ** Well-formedness is kept by the constructors *)

Lemma SkeletalGraph_new_well_formed : well_formed SkeletalGraph_new.
Proof.
  constructor; simpl; try (intros ? []); constructor.
Qed.

Lemma NoDup_snoc {A} (l : list A) (x : A) :
  NoDup l -> ~ In x l -> NoDup (l ++ [x]).
Proof.
  induction 1 as [|a l Ha Hnd IH]; simpl; intros Hx.
  - constructor; [tauto | constructor].
  - constructor.
    + intros H. apply in_app_or in H. destruct H as [H|[H|[]]]; [tauto|].
      apply Hx. left. symmetry. exact H.
    + apply IH. tauto.
Qed.

Lemma add_vertex_well_formed (g : SkeletalGraph) (properties : VertexProperties) :
  well_formed g -> well_formed (fst (add_vertex g properties)).
Proof.
  intros [Hf Hvr Hvn Her Hen Hep].
  assert (Hv : vertices (fst (add_vertex g properties))
               = vertices g ++ [boost.m_fresh (internal_graph_ g)]).
  { unfold vertices, boost.vertices; simpl. apply map_app. }
  constructor.
  - simpl. lia.
  - intros v Hin. rewrite Hv in Hin. simpl.
    apply in_app_or in Hin. destruct Hin as [Hin|[<-|[]]].
    + specialize (Hvr v Hin). lia.
    + lia.
  - rewrite Hv. apply NoDup_snoc; [exact Hvn|].
    intros Hin. specialize (Hvr _ Hin). lia.
  - intros e Hin. specialize (Her e Hin). simpl. lia.
  - exact Hen.
  - intros e Hin. rewrite Hv. destruct (Hep e Hin) as [H1 H2].
    split; apply in_or_app; left; assumption.
Qed.

Lemma add_edge_well_formed (g : SkeletalGraph) (from to : VertexDescriptor)
      (properties : EdgeProperties) :
  well_formed g -> In from (vertices g) -> In to (vertices g) ->
  well_formed (fst (add_edge g from to properties)).
Proof.
  intros [Hf Hvr Hvn Her Hen Hep] Hfrom Hto.
  assert (Hf0 : from <> null_vertex).
  { intros E. specialize (Hvr _ Hfrom). rewrite E in Hvr.
    unfold null_vertex, boost.null_vertex in Hvr. lia. }
  assert (Ht0 : to <> null_vertex).
  { intros E. specialize (Hvr _ Hto). rewrite E in Hvr.
    unfold null_vertex, boost.null_vertex in Hvr. lia. }
  destruct (add_edge_spec g properties Hf0 Ht0) as (_ & He & Hv & Hfr).
  assert (Hv' : vertices (fst (add_edge g from to properties)) = vertices g).
  { unfold vertices, boost.vertices. rewrite Hv. reflexivity. }
  constructor.
  - rewrite Hfr. lia.
  - intros v Hin. rewrite Hv' in Hin. rewrite Hfr. specialize (Hvr v Hin). lia.
  - rewrite Hv'. exact Hvn.
  - intros e Hin. rewrite He in Hin. rewrite Hfr.
    apply in_app_or in Hin. destruct Hin as [Hin|[<-|[]]].
    + specialize (Her e Hin). lia.
    + simpl. lia.
  - rewrite He, map_app. apply NoDup_snoc; [exact Hen|].
    simpl. intros Hin. apply in_map_iff in Hin.
    destruct Hin as (e & Heq & Hin). specialize (Her e Hin). lia.
  - intros e Hin. rewrite He in Hin. rewrite Hv'.
    apply in_app_or in Hin. destruct Hin as [Hin|[<-|[]]].
    + apply Hep. exact Hin.
    + simpl. tauto.
Qed.

Lemma add_edge_from_to_well_formed (normalize : Vector3f -> Vector3f)
      (g : SkeletalGraph) (from to : VertexDescriptor) :
  well_formed g -> In from (vertices g) -> In to (vertices g) ->
  well_formed (fst (add_edge_from_to normalize g from to)).
Proof.
  intros Hwf Hfrom Hto. unfold add_edge_from_to.
  apply add_edge_well_formed; try assumption.
  destruct Hwf. constructor; assumption.
Qed.

(** [remove_edge] either leaves the store alone or removes the edge and
    then up to one vertex at each end. *)
Lemma remove_edge_shape (g : SkeletalGraph) (e : EdgeDescriptor) :
  ((edge_eqb e EdgeDescriptor_default = true
    \/ snd (boost.edge (m_source e) (m_target e) (internal_graph_ g)) = false)
   /\ internal_graph_ (fst (remove_edge g e)) = internal_graph_ g)
  \/ exists rs rt : bool,
      internal_graph_ (fst (remove_edge g e))
      = (if rt then boost.remove_vertex (m_target e) else fun b => b)
          ((if rs then boost.remove_vertex (m_source e) else fun b => b)
             (boost.remove_edge e (internal_graph_ g))).
Proof.
  unfold remove_edge, boost.source, boost.target.
  destruct (edge_eqb e EdgeDescriptor_default); [left; split; auto|].
  destruct (snd (boost.edge _ _ _)); [|left; split; auto].
  right.
  match goal with
  | |- context [if ?c then (_, m_source _) else _] =>
      exists c; destruct c
  end;
  match goal with
  | |- context [if ?c then (_, m_target _) else _] =>
      exists c; destruct c
  end; reflexivity.
Qed.

Lemma remove_edge_keeps_vertex (g : SkeletalGraph) (e : EdgeDescriptor)
      (v : VertexDescriptor) :
  v <> m_source e -> v <> m_target e ->
  In v (vertices g) ->
  In v (vertices (fst (remove_edge g e)))
  /\ get_vertex (fst (remove_edge g e)) v = get_vertex g v.
Proof.
  intros Hs Ht Hv. unfold vertices, get_vertex, boost.get_vertex.
  destruct (remove_edge_shape g e) as [[_ ->]|(rs & rt & ->)]; [tauto|].
  destruct rs, rt; simpl; unfold boost.vertices; simpl;
    rewrite <- ?(filter_map_fst (fun w => negb (Nat.eqb w (m_target e)))),
            <- ?(filter_map_fst (fun w => negb (Nat.eqb w (m_source e))));
    rewrite ?lookup_vertex_filter by assumption;
    (split; [|reflexivity]);
    rewrite ?(filter_map_fst (fun w => negb (Nat.eqb w (m_target e)))),
            ?(filter_map_fst (fun w => negb (Nat.eqb w (m_source e))));
    repeat (apply filter_In; split;
            [|apply negb_true_iff, Nat.eqb_neq; assumption]);
    exact Hv.
Qed.

Lemma remove_edge_keeps_edge (g : SkeletalGraph) (e x : EdgeDescriptor) :
  edge_eqb x e = false ->
  In x (edges g) ->
  In x (edges (fst (remove_edge g e))).
Proof.
  intros Hx Hin. unfold edges.
  destruct (remove_edge_shape g e) as [[_ ->]|(rs & rt & ->)]; [exact Hin|].
  assert (H : In x (boost.edges (boost.remove_edge e (internal_graph_ g)))).
  { rewrite edges_remove_edge. apply filter_In. split; [exact Hin|].
    rewrite Hx. reflexivity. }
  destruct rs, rt; exact H.
Qed.

Lemma remove_edge_removes (g : SkeletalGraph) (e : EdgeDescriptor) :
  m_eproperty e <> 0%nat -> In e (edges g) ->
  ~ In e (edges (fst (remove_edge g e))).
Proof.
  intros Hnz He. unfold edges at 1.
  destruct (remove_edge_shape g e) as [[[H|H] _]|(rs & rt & ->)].
  - unfold edge_eqb in H; simpl in H. apply Nat.eqb_eq in H. contradiction.
  - rewrite (edge_of_existing (internal_graph_ g) e He) in H. discriminate.
  - assert (H : ~ In e (boost.edges (boost.remove_edge e (internal_graph_ g)))).
    { rewrite edges_remove_edge. intros Hin. apply filter_In in Hin.
      destruct Hin as [_ Hin]. unfold edge_eqb in Hin.
      rewrite Nat.eqb_refl in Hin. discriminate. }
    destruct rs, rt; exact H.
Qed.

(** What [add_vertex] does. *)
Lemma add_vertex_spec (g : SkeletalGraph) (properties : VertexProperties) :
  let g' := fst (add_vertex g properties) in
  let v := snd (add_vertex g properties) in
  v = boost.m_fresh (internal_graph_ g)
  /\ boost.m_vertices (internal_graph_ g')
     = boost.m_vertices (internal_graph_ g) ++ [(v, properties)]
  /\ edges g' = edges g
  /\ boost.m_fresh (internal_graph_ g') = S (boost.m_fresh (internal_graph_ g)).
Proof. repeat split. Qed.

(** ** [split_edge_at] *)

Lemma to_size_t_small (x : Z) : (0 <= x < 2 ^ 64)%Z -> to_size_t x = x.
Proof. intros H. unfold to_size_t. apply Z.mod_small. exact H. Qed.

(** C8.  For an edge [e] of a well-formed graph with a non-empty curve
    of fewer than [2^32] samples (the two copy loops of the source
    count in [GRuint]), [split_edge_at(e, i, p)] throws [invalid_argument] exactly when [i]
    is outside [0 <= i < curve(e).size() - 1]; inside that range it
    returns a new vertex [m] placed at [p], a left edge from the source
    of [e] to [m] and a right edge from [m] to the target of [e], both
    in the resulting graph, from which [e] is gone. *)
Theorem split_edge_at_throws_iff (normalize : Vector3f -> Vector3f)
        (g : SkeletalGraph) (e : EdgeDescriptor) (i : GRuint) (p : Vector3f) :
  well_formed g -> In e (edges g) ->
  let size := curve_size (curve (get_edge g e)) in
  (1 <= size < GRuint_modulus)%Z -> (0 <= i < GRuint_modulus)%Z ->
  ((exists g' what,
       split_edge_at normalize g e i p = Thrown g' (invalid_argument what))
   <-> ~ (0 <= i < size - 1)%Z)
  /\ ((0 <= i < size - 1)%Z ->
      exists g' m l r,
        split_edge_at normalize g e i p = Returned g' (m, (l, r))
        /\ ~ In m (vertices g) /\ In m (vertices g')
        /\ position (get_vertex g' m) = p
        /\ m_source l = m_source e /\ m_target l = m
        /\ m_source r = m /\ m_target r = m_target e
        /\ In l (edges g') /\ In r (edges g') /\ ~ In e (edges g')).
Proof.
  intros Hwf He size Hsize32 Hi.
  assert (Hsize : (1 <= size < 2 ^ 64)%Z).
  { change GRuint_modulus with 4294967296%Z in Hsize32.
    change (2 ^ 64)%Z with 18446744073709551616%Z. lia. }
  unfold split_edge_at. fold size.
  rewrite (@to_size_t_small (size - 1)) by lia.
  destruct (Z.leb_spec (size - 1) i) as [Hge|Hlt].
  { split; [|intros; lia].
    split; [intros _; lia|]. intros _. eexists _, _. reflexivity. }
  destruct (wf_endpoints Hwf e He) as [Hs Ht].
  pose proof (wf_vertex_range Hwf _ Hs) as Hsr.
  pose proof (wf_vertex_range Hwf _ Ht) as Htr.
  pose proof (wf_edge_range Hwf _ He) as Her.
  set (props0 := VertexProperties_init p _).
  pose proof (add_vertex_spec g props0) as H1.
  destruct (add_vertex g props0) as [g1 m]. cbn [fst snd] in H1.
  destruct H1 as (Hm & Hv1 & He1 & Hf1).
  unfold boost.source, boost.target.
  set (props1 := mkEdgeProperties (split_first_half _ _ _ _) false).
  set (props2 := mkEdgeProperties (split_second_half _ _ _ _) false).
  assert (Hm0 : m <> null_vertex)
    by (unfold null_vertex, boost.null_vertex; lia).
  assert (Hs0 : m_source e <> null_vertex)
    by (unfold null_vertex, boost.null_vertex; lia).
  assert (Ht0 : m_target e <> null_vertex)
    by (unfold null_vertex, boost.null_vertex; lia).
  pose proof (@add_edge_spec g1 (m_source e) m props1 Hs0 Hm0) as H2.
  destruct (add_edge g1 (m_source e) m props1) as [g2 [l bl]].
  cbn [fst snd] in H2. destruct H2 as (Hl & He2 & Hv2 & Hf2).
  pose proof (@add_edge_spec g2 m (m_target e) props2 Hm0 Ht0) as H3.
  destruct (add_edge g2 m (m_target e) props2) as [g3 [r br]].
  cbn [fst snd] in H3. destruct H3 as (Hr & He3 & Hv3 & Hf3).
  injection Hl as Hl _. injection Hr as Hr _.
  rewrite <- Hl in He2. rewrite <- Hr in He3.
  match goal with
  | |- context [remove_edge ?h e] => set (g5 := h)
  end.
  assert (Hv5 : boost.m_vertices (internal_graph_ g5)
                = boost.m_vertices (internal_graph_ g) ++ [(m, props0)]).
  { unfold g5; simpl. rewrite Hv3, Hv2. exact Hv1. }
  assert (He5 : edges g5 = (edges g ++ [l]) ++ [r]).
  { unfold g5, edges, with_graph; simpl. rewrite !edges_update_edge.
    fold (edges g3). rewrite He3, He2, He1. reflexivity. }
  assert (Hfresh : ~ In m (vertices g)).
  { intros H. apply (wf_vertex_range Hwf) in H. lia. }
  assert (Hin5 : In m (vertices g5)).
  { unfold vertices, boost.vertices. rewrite Hv5, map_app.
    apply in_or_app. right. left. reflexivity. }
  assert (Hms : m <> m_source e) by lia.
  assert (Hmt : m <> m_target e) by lia.
  destruct (remove_edge_keeps_vertex g5 e Hms Hmt Hin5) as [Hin6 Hget6].
  assert (Hle : edge_eqb l e = false).
  { rewrite Hl. unfold edge_eqb; simpl. apply Nat.eqb_neq. lia. }
  assert (Hre : edge_eqb r e = false).
  { rewrite Hr. unfold edge_eqb; simpl. apply Nat.eqb_neq. lia. }
  assert (Hl5 : In l (edges g5)).
  { rewrite He5. apply in_or_app. left. apply in_or_app. right. left.
    reflexivity. }
  assert (Hr5 : In r (edges g5)).
  { rewrite He5. apply in_or_app. right. left. reflexivity. }
  assert (He5' : In e (edges g5)).
  { rewrite He5. apply in_or_app. left. apply in_or_app. left. exact He. }
  pose proof (remove_edge_keeps_edge g5 e l Hle Hl5) as Hl6.
  pose proof (remove_edge_keeps_edge g5 e r Hre Hr5) as Hr6.
  assert (Hnz : m_eproperty e <> 0%nat) by lia.
  pose proof (remove_edge_removes g5 e Hnz He5') as He6.
  destruct (remove_edge g5 e) as [g6 vp]. cbn [fst] in *.
  split.
  - split; [intros (g' & what & H); discriminate | intros H; lia].
  - intros _. exists g6, m, l, r.
    split; [reflexivity|].
    split; [exact Hfresh|].
    split; [exact Hin6|].
    split.
    { rewrite Hget6. unfold get_vertex, boost.get_vertex. rewrite Hv5.
      rewrite lookup_vertex_app_fresh by exact Hfresh. reflexivity. }
    rewrite Hl, Hr in *. simpl. tauto.
Qed.

(** Witness for [split_edge_at_throws_iff]: splitting the only segment
    of the one-edge graph at [(1,0,0)]. *)
Lemma split_edge_at_throws_iff_witness :
  exists g' m l r,
    split_edge_at unnormalized
                  (one_edge unnormalized (Finite 1%Q) (Finite 1%Q))
                  edge_1_2 0%Z (vec 1 0 0)
    = Returned g' (m, (l, r))
    /\ ~ In m (vertices (one_edge unnormalized (Finite 1%Q) (Finite 1%Q)))
    /\ In m (vertices g')
    /\ position (get_vertex g' m) = vec 1 0 0
    /\ m_source l = m_source edge_1_2 /\ m_target l = m
    /\ m_source r = m /\ m_target r = m_target edge_1_2
    /\ In l (edges g') /\ In r (edges g') /\ ~ In edge_1_2 (edges g').
Proof.
  refine (proj2 (@split_edge_at_throws_iff unnormalized
                   (one_edge unnormalized (Finite 1%Q) (Finite 1%Q))
                   edge_1_2 0%Z (vec 1 0 0)
                   (one_edge_well_formed _ _) (or_introl eq_refl) _ _) _);
    vm_compute; split; (discriminate || reflexivity).
Defined.

(** ** [collapse_edge] *)

Lemma add_edge_bounds (g : SkeletalGraph) (from to : VertexDescriptor)
      (properties : EdgeProperties) :
  (length (edges (fst (add_edge g from to properties)))
   <= S (length (edges g)))%nat
  /\ boost.m_vertices (internal_graph_ (fst (add_edge g from to properties)))
     = boost.m_vertices (internal_graph_ g).
Proof.
  unfold add_edge.
  destruct (Nat.eqb from boost.null_vertex || Nat.eqb to boost.null_vertex);
    simpl; [split; [lia | reflexivity]|].
  split; [|reflexivity].
  unfold edges, with_graph; simpl. rewrite edges_update_edge.
  unfold boost.edges; simpl. rewrite map_app, length_app. simpl. lia.
Qed.

Lemma add_edges_to_bounds (to_keep : VertexDescriptor) l :
  forall st : SkeletalGraph * EdgeVector,
    (length (edges (fst (add_edges_to to_keep st l)))
     <= length (edges (fst st)) + length l)%nat
    /\ boost.m_vertices (internal_graph_ (fst (add_edges_to to_keep st l)))
       = boost.m_vertices (internal_graph_ (fst st)).
Proof.
  unfold add_edges_to.
  induction l as [|[s p] l IH]; intros st; simpl; [split; [lia|reflexivity]|].
  match goal with
  | |- context [add_edge ?a ?b ?c ?d] =>
      destruct (add_edge_bounds a b c d) as [H1 H2];
      destruct (add_edge a b c d) as [g' r]
  end.
  cbn [fst] in H1, H2.
  match goal with
  | |- context [fold_left _ l ?st'] =>
      destruct (IH st') as [H3 H4]
  end.
  cbn [fst] in H3, H4.
  split; [eapply Nat.le_trans; [exact H3|]; lia
         | exact (eq_trans H4 H2)].
Qed.

Lemma add_edges_from_bounds (to_keep : VertexDescriptor) l :
  forall st : SkeletalGraph * EdgeVector,
    (length (edges (fst (add_edges_from to_keep st l)))
     <= length (edges (fst st)) + length l)%nat
    /\ boost.m_vertices (internal_graph_ (fst (add_edges_from to_keep st l)))
       = boost.m_vertices (internal_graph_ (fst st)).
Proof.
  unfold add_edges_from.
  induction l as [|[s p] l IH]; intros st; simpl; [split; [lia|reflexivity]|].
  match goal with
  | |- context [add_edge ?a ?b ?c ?d] =>
      destruct (add_edge_bounds a b c d) as [H1 H2];
      destruct (add_edge a b c d) as [g' r]
  end.
  cbn [fst] in H1, H2.
  match goal with
  | |- context [fold_left _ l ?st'] =>
      destruct (IH st') as [H3 H4]
  end.
  cbn [fst] in H3, H4.
  split; [eapply Nat.le_trans; [exact H3|]; lia
         | exact (eq_trans H4 H2)].
Qed.

Section CollapseCount.

Variables (A : Type) (drop : VertexDescriptor) (e : EdgeDescriptor).
Variables (queue_in queue_out : EdgeDescriptor -> list A).

Hypothesis queue_in_short : forall x, (length (queue_in x) <= 1)%nat.
Hypothesis queue_out_short : forall x, (length (queue_out x) <= 1)%nat.
Hypothesis queue_in_skips : queue_in e = [].
Hypothesis target_dropped : m_target e = drop.

Lemma survivors_cons (x : EdgeDescriptor) (l : list EdgeDescriptor) :
  ~ (m_source x = drop /\ m_target x = drop) ->
  (survivors drop queue_in queue_out (x :: l)
   <= S (survivors drop queue_in queue_out l))%nat
  /\ (x = e -> survivors drop queue_in queue_out (x :: l)
               = survivors drop queue_in queue_out l).
Proof.
  intros Hx. unfold survivors. simpl.
  destruct (Nat.eqb_spec (m_source x) drop) as [Hs|Hs];
    destruct (Nat.eqb_spec (m_target x) drop) as [Ht|Ht]; simpl.
  - tauto.
  - rewrite length_app. pose proof (queue_out_short x).
    split; [lia|]. intros ->. congruence.
  - rewrite length_app. pose proof (queue_in_short x).
    split; [lia|]. intros ->. rewrite queue_in_skips. simpl. lia.
  - split; [lia|]. intros ->. congruence.
Qed.

Lemma survivors_le (l : list EdgeDescriptor) :
  loop_free drop l ->
  (survivors drop queue_in queue_out l <= length l)%nat.
Proof.
  induction l as [|x l IH]; intros Hl; [unfold survivors; simpl; lia|].
  destruct (@survivors_cons x l (Hl x (or_introl eq_refl))) as [H _].
  assert (survivors drop queue_in queue_out l <= length l)%nat.
  { apply IH. intros y Hy. apply Hl. right. exact Hy. }
  simpl. lia.
Qed.

(** The edge being collapsed is cleared and never queued, so at least
    one edge is lost. *)
Lemma survivors_lt (l : list EdgeDescriptor) :
  loop_free drop l -> In e l ->
  (S (survivors drop queue_in queue_out l) <= length l)%nat.
Proof.
  induction l as [|x l IH]; intros Hl Hin; [contradiction|].
  destruct (@survivors_cons x l (Hl x (or_introl eq_refl))) as [H1 H2].
  assert (Hl' : loop_free drop l).
  { intros y Hy. apply Hl. right. exact Hy. }
  destruct Hin as [->|Hin].
  - rewrite (H2 eq_refl). pose proof (survivors_le Hl'). simpl. lia.
  - pose proof (IH Hl' Hin). simpl. lia.
Qed.

End CollapseCount.

Lemma lookup_vertex_update l (v w : VertexDescriptor)
      (f : VertexProperties -> VertexProperties) :
  boost.lookup_vertex
    (map (fun vp => if Nat.eqb (fst vp) v then (fst vp, f (snd vp)) else vp) l) w
  = if Nat.eqb w v then option_map f (boost.lookup_vertex l w)
    else boost.lookup_vertex l w.
Proof.
  induction l as [|[u q] l IH]; simpl.
  - destruct (Nat.eqb w v); reflexivity.
  - destruct (Nat.eqb_spec u v) as [->|Hu]; simpl.
    + destruct (Nat.eqb_spec v w) as [<-|Hw].
      * rewrite Nat.eqb_refl. reflexivity.
      * exact IH.
    + destruct (Nat.eqb_spec u w) as [<-|Hw].
      * destruct (Nat.eqb_spec u v); [contradiction | reflexivity].
      * exact IH.
Qed.

Lemma lookup_vertex_in l (v : VertexDescriptor) :
  In v (map fst l) -> exists p, boost.lookup_vertex l v = Some p.
Proof.
  induction l as [|[u q] l IH]; simpl; [contradiction|].
  intros [->|H].
  - rewrite Nat.eqb_refl. eauto.
  - destruct (Nat.eqb u v); eauto.
Qed.

Lemma get_vertex_update_same (g : SkeletalGraph) (v : VertexDescriptor)
      (f : VertexProperties -> VertexProperties) :
  In v (vertices g) ->
  get_vertex (update_vertex g v f) v = f (get_vertex g v).
Proof.
  intros Hv. unfold get_vertex, update_vertex, boost.get_vertex; simpl.
  rewrite lookup_vertex_update, Nat.eqb_refl.
  destruct (lookup_vertex_in _ _ Hv) as [p ->]. reflexivity.
Qed.

Lemma get_vertex_update_other (g : SkeletalGraph) (v w : VertexDescriptor)
      (f : VertexProperties -> VertexProperties) :
  w <> v ->
  get_vertex (update_vertex g v f) w = get_vertex g w.
Proof.
  intros Hw. unfold get_vertex, update_vertex, boost.get_vertex; simpl.
  rewrite lookup_vertex_update.
  destruct (Nat.eqb_spec w v); [contradiction | reflexivity].
Qed.

Lemma vertices_update (g : SkeletalGraph) (v : VertexDescriptor)
      (f : VertexProperties -> VertexProperties) :
  vertices (update_vertex g v f) = vertices g.
Proof. apply vertices_update_vertex. Qed.

Lemma length_flat_map_ext {A B C} (f : A -> list B) (h : A -> list C)
      (l : list A) :
  (forall x, length (f x) = length (h x)) ->
  length (flat_map f l) = length (flat_map h l).
Proof.
  intros H. induction l as [|x l IH]; simpl; [reflexivity|].
  rewrite !length_app, IH, H. reflexivity.
Qed.

Lemma clear_vertex_spec (g : SkeletalGraph) (v : VertexDescriptor) :
  edges (fst (clear_vertex g v))
  = filter (fun x => negb (Nat.eqb (m_source x) v || Nat.eqb (m_target x) v))
           (edges g)
  /\ boost.m_vertices (internal_graph_ (fst (clear_vertex g v)))
     = boost.m_vertices (internal_graph_ g).
Proof.
  unfold clear_vertex. destruct (degree g v =? 0)%Z; simpl;
    (split; [apply edges_clear_vertex | reflexivity]).
Qed.

(** C3, amended.  For an edge [e = (u, v)] of a well-formed graph whose
    target [v] carries no self-loop, [collapse_edge(e, MIDPOINT)]
    returns [v] as the cleared vertex, leaves the vertex count
    unchanged ([v] stays in the graph for the caller to remove), loses
    at least one edge, and leaves the kept vertex [u] at
    [(pos(u) + pos(v)) * 0.5].  The graph has few enough edges for the
    two [GRuint] loops that re-add the queued edges, and every curve
    at [v] has the two samples the source reads at [size() - 2]. *)
Theorem collapse_edge_midpoint (normalize : Vector3f -> Vector3f)
        (g : SkeletalGraph) (e : EdgeDescriptor) :
  well_formed g -> In e (edges g) ->
  few_edges g ->
  (forall x, In x (edges g) -> incident (m_target e) x = true ->
             (2 <= curve_size (curve (get_edge g x)))%Z) ->
  (forall x, In x (edges g) ->
             ~ (m_source x = m_target e /\ m_target x = m_target e)) ->
  exists g' cleared new_edges,
    collapse_edge normalize g e MIDPOINT
    = Returned g' ((m_target e, cleared), new_edges)
    /\ vertices g' = vertices g
    /\ vertex_count g' = vertex_count g
    /\ (S (length (edges g')) <= length (edges g))%nat
    /\ position (get_vertex g' (m_source e))
       = vscale (vadd (position (get_vertex g (m_source e)))
                      (position (get_vertex g (m_target e))))
                (Finite (1 # 2)).
Proof.
  intros Hwf He _ _ Hloop.
  destruct (wf_endpoints Hwf e He) as [Hs Ht].
  pose proof (wf_vertex_range Hwf _ Hs) as Hsr.
  pose proof (wf_vertex_range Hwf _ Ht) as Htr.
  unfold collapse_edge, boost.source, boost.target.
  rewrite (edge_of_existing (internal_graph_ g) e He).
  destruct (Nat.eqb_spec (m_source e) boost.null_vertex) as [H|_];
    [unfold boost.null_vertex in H; lia|].
  destruct (Nat.eqb_spec (m_target e) boost.null_vertex) as [H|_];
    [unfold boost.null_vertex in H; lia|].
  cbn [orb negb].
  set (new_position := vscale _ _).
  set (ins := collapse_in_edges _ _ _ _ _ _).
  set (outs := collapse_out_edges _ _ _ _ _ _).
  destruct (clear_vertex_spec g (m_target e)) as [Hce Hcv].
  destruct (clear_vertex g (m_target e)) as [g1 cleared]. cbn [fst] in Hce, Hcv.
  match goal with
  | |- context [add_edges_from _ (add_edges_to _ ?st _) _] =>
      destruct (add_edges_to_bounds (m_source e) ins st) as [Hl2 Hv2];
      cbn [fst] in Hl2, Hv2;
      destruct (add_edges_to (m_source e) st ins) as [g2 acc2]
  end.
  cbn [fst] in Hl2, Hv2.
  match goal with
  | |- context [add_edges_from _ ?st _] =>
      destruct (add_edges_from_bounds (m_source e) outs st) as [Hl3 Hv3];
      cbn [fst] in Hl3, Hv3;
      destruct (add_edges_from (m_source e) st outs) as [g3 new_edges]
  end.
  cbn [fst] in Hl3, Hv3.
  eexists _, cleared, new_edges. split; [reflexivity|].
  assert (Hv : vertices g3 = vertices g).
  { unfold vertices, boost.vertices. rewrite Hv3, Hv2, Hcv. reflexivity. }
  assert (Hvs : vertices (update_vertex g3 (m_source e)
                    (fun p => mkVertexProperties new_position (radius p)
                                (is_part_of_cycle p) (is_in_spanning_tree p)
                                (cycle_parent p) (BFS_parent p)
                                (BFS_path_cost p)))
                = vertices g).
  { rewrite vertices_update. exact Hv. }
  split; [exact Hvs|].
  split.
  { unfold vertex_count. change (boost.m_vertices ?b) with (boost.m_vertices b).
    pose proof (f_equal (@length _) Hvs) as Hlen.
    unfold vertices, boost.vertices in Hlen. rewrite !length_map in Hlen.
    unfold update_vertex in Hlen. rewrite Hlen. reflexivity. }
  split.
  { change (edges (with_graph g3 _)) with (edges g3).
    assert (Hins : length ins
                   = length (flat_map
                       (fun x =>
                          if negb (edge_eqb x e) then
                            if negb (Nat.eqb (m_source x) (m_source e))
                            then [tt] else []
                          else [])
                       (filter (fun x => Nat.eqb (m_target x) (m_target e))
                               (edges g)))).
    { unfold ins, collapse_in_edges, boost.in_edges, boost.source.
      fold (edges g). apply length_flat_map_ext. intros x.
      destruct (edge_eqb x e); simpl; [reflexivity|].
      destruct (Nat.eqb (m_source x) (m_source e)); reflexivity. }
    assert (Houts : length outs
                   = length (flat_map
                       (fun x =>
                          if negb (edge_eqb x e) then
                            if negb (Nat.eqb (m_target x) (m_source e))
                            then [tt] else []
                          else [])
                       (filter (fun x => Nat.eqb (m_source x) (m_target e))
                               (edges g)))).
    { unfold outs, collapse_out_edges, boost.out_edges, boost.target.
      fold (edges g). apply length_flat_map_ext. intros x.
      destruct (edge_eqb x e); simpl; [reflexivity|].
      destruct (Nat.eqb (m_target x) (m_source e)); reflexivity. }
    pose proof (@survivors_lt unit (m_target e) e
      (fun x => if negb (edge_eqb x e) then
                  if negb (Nat.eqb (m_source x) (m_source e)) then [tt] else []
                else [])
      (fun x => if negb (edge_eqb x e) then
                  if negb (Nat.eqb (m_target x) (m_source e)) then [tt] else []
                else [])) as Hcount.
    cbv beta in Hcount.
    assert (Hc : (S (length (edges g1) + length ins + length outs)
                  <= length (edges g))%nat).
    { rewrite Hins, Houts, Hce. apply Hcount; auto.
      - intros x. destruct (edge_eqb x e); simpl; [lia|].
        destruct (Nat.eqb (m_source x) (m_source e)); simpl; lia.
      - intros x. destruct (edge_eqb x e); simpl; [lia|].
        destruct (Nat.eqb (m_target x) (m_source e)); simpl; lia.
      - unfold edge_eqb. rewrite Nat.eqb_refl. reflexivity. }
    lia. }
  assert (Hin3 : In (m_source e) (vertices g3)) by (rewrite Hv; exact Hs).
  change (with_graph g3 (boost.update_vertex (m_source e) ?f (internal_graph_ g3)))
    with (update_vertex g3 (m_source e) f).
  rewrite (@get_vertex_update_same g3 (m_source e) _ Hin3). reflexivity.
Qed.

(** Witness for [collapse_edge_midpoint]: the one-edge graph. *)
Lemma collapse_edge_midpoint_witness :
  exists g' cleared new_edges,
    collapse_edge unnormalized
                  (one_edge unnormalized (Finite 1%Q) (Finite 1%Q))
                  edge_1_2 MIDPOINT
    = Returned g' ((m_target edge_1_2, cleared), new_edges)
    /\ vertices g' = vertices (one_edge unnormalized (Finite 1%Q) (Finite 1%Q))
    /\ vertex_count g'
       = vertex_count (one_edge unnormalized (Finite 1%Q) (Finite 1%Q))
    /\ (S (length (edges g'))
        <= length (edges (one_edge unnormalized (Finite 1%Q) (Finite 1%Q))))%nat
    /\ position (get_vertex g' (m_source edge_1_2))
       = vscale
           (vadd (position (get_vertex
                              (one_edge unnormalized (Finite 1%Q) (Finite 1%Q))
                              (m_source edge_1_2)))
                 (position (get_vertex
                              (one_edge unnormalized (Finite 1%Q) (Finite 1%Q))
                              (m_target edge_1_2))))
           (Finite (1 # 2)).
Proof.
  apply (@collapse_edge_midpoint unnormalized
           (one_edge unnormalized (Finite 1%Q) (Finite 1%Q)) edge_1_2
           (one_edge_well_formed _ _) (or_introl eq_refl)).
  - reflexivity.
  - intros x [<-|[]] _. vm_compute. discriminate.
  - intros x [<-|[]]. simpl. intros [H _]. discriminate.
Defined.

(** C3, as stated, fails: collapsing the only edge of the two-vertex
    graph at its midpoint returns vertex 2 as cleared, and both vertices
    are still in the graph; the count stays 2 although the graph does
    not count one vertex. *)
Lemma collapse_edge_keeps_cleared_vertex :
  let g := one_edge unnormalized (Finite 1%Q) (Finite 1%Q) in
  exists g' cleared new_edges,
    collapse_edge unnormalized g edge_1_2 MIDPOINT
    = Returned g' ((2%nat, cleared), new_edges)
    /\ vertex_count g = 2%Z
    /\ vertex_count g' = 2%Z
    /\ vertices g' = [1%nat; 2%nat]
    /\ vertex_count g' <> (vertex_count g - 1)%Z.
Proof.
  eexists _, _, _. split; [reflexivity|].
  repeat split. discriminate.
Qed.

(** With a self-loop at the target, the loop is queued once as an
    in-edge and once as an out-edge of the cleared vertex: two edges go
    and two come back. *)
Example collapse_edge_requeues_self_loop :
  exists g' neighborhood new_edges,
    collapse_edge unnormalized self_loop_at_target edge_1_2 MIDPOINT
    = Returned g' (neighborhood, new_edges)
    /\ length (edges self_loop_at_target) = 2%nat
    /\ edges g' = [mkEdgeDescriptor 2 1 5; mkEdgeDescriptor 1 2 6].
Proof.
  eexists _, _, _. split; [reflexivity|].
  split; reflexivity.
Qed.

(** ** [shortest_path] *)

Lemma cost_update (g : SkeletalGraph) (n c v : VertexDescriptor) (k : GRuint) :
  In n (vertices g) ->
  cost (update_vertex g n (set_BFS k c)) v
  = if Nat.eqb v n then k else cost g v.
Proof.
  intros Hn. unfold cost. destruct (Nat.eqb_spec v n) as [->|Hv].
  - rewrite get_vertex_update_same by exact Hn. reflexivity.
  - rewrite get_vertex_update_other by exact Hv. reflexivity.
Qed.

Lemma parent_update (g : SkeletalGraph) (n c v : VertexDescriptor) (k : GRuint) :
  In n (vertices g) ->
  parent (update_vertex g n (set_BFS k c)) v
  = if Nat.eqb v n then c else parent g v.
Proof.
  intros Hn. unfold parent. destruct (Nat.eqb_spec v n) as [->|Hv].
  - rewrite get_vertex_update_same by exact Hn. reflexivity.
  - rewrite get_vertex_update_other by exact Hv. reflexivity.
Qed.

Lemma edges_update (g : SkeletalGraph) (v : VertexDescriptor)
      (f : VertexProperties -> VertexProperties) :
  edges (update_vertex g v f) = edges g.
Proof. reflexivity. Qed.

(** The reset loop keeps the shape of the graph and clears the marks of
    every vertex. *)
Lemma reset_fold_shape (l : list VertexDescriptor) :
  forall g : SkeletalGraph,
    let g' := fold_left
                (fun g v => update_vertex g v (set_BFS GRuint_minus_one null_vertex))
                l g in
    vertices g' = vertices g /\ edges g' = edges g.
Proof.
  induction l as [|w l IH]; intros g; simpl; [split; reflexivity|].
  destruct (IH (update_vertex g w (set_BFS GRuint_minus_one null_vertex)))
    as [H1 H2].
  split.
  - rewrite H1. apply vertices_update.
  - rewrite H2. apply edges_update.
Qed.

Lemma reset_fold_marks (l : list VertexDescriptor) :
  forall (g : SkeletalGraph) (v : VertexDescriptor),
    let g' := fold_left
                (fun g v => update_vertex g v (set_BFS GRuint_minus_one null_vertex))
                l g in
    In v (vertices g) ->
    (In v l
     \/ (cost g v = GRuint_minus_one /\ parent g v = null_vertex)) ->
    cost g' v = GRuint_minus_one /\ parent g' v = null_vertex.
Proof.
  induction l as [|w l IH]; intros g v; simpl; intros Hv H.
  - destruct H as [[]|H]. exact H.
  - apply IH; [rewrite vertices_update; exact Hv|].
    destruct (Nat.eq_dec w v) as [->|Hw].
    + right. rewrite cost_update, parent_update by exact Hv.
      rewrite Nat.eqb_refl. split; reflexivity.
    + destruct H as [[H|H]|H]; [contradiction | left; exact H |].
      right. unfold cost, parent in *.
      rewrite get_vertex_update_other by (intros E; apply Hw; symmetry; exact E).
      exact H.
Qed.

Lemma reset_BFS_shape (g : SkeletalGraph) :
  vertices (reset_BFS g) = vertices g /\ edges (reset_BFS g) = edges g.
Proof. apply reset_fold_shape. Qed.

Lemma reset_BFS_marks (g : SkeletalGraph) (v : VertexDescriptor) :
  In v (vertices g) ->
  cost (reset_BFS g) v = GRuint_minus_one
  /\ parent (reset_BFS g) v = null_vertex.
Proof.
  intros Hv. apply reset_fold_marks; [exact Hv | left; exact Hv].
Qed.

Lemma GRuint_minus_one_value : GRuint_minus_one = 4294967295%Z.
Proof. reflexivity. Qed.

Lemma to_GRuint_range (x : Z) : (0 <= to_GRuint x < GRuint_modulus)%Z.
Proof. unfold to_GRuint. apply Z.mod_pos_bound. reflexivity. Qed.

(** The bound of the search loop is even, hence at most [2^32 - 2]. *)
Lemma iteration_cap_bound (n : Z) :
  (0 <= n)%Z ->
  (to_GRuint (to_GRuint n * 2) <= GRuint_minus_one - 1)%Z
  /\ (to_GRuint (to_GRuint n * 2) <= 2 * n)%Z.
Proof.
  intros Hn. pose proof (to_GRuint_range n) as H1.
  pose proof (to_GRuint_range (to_GRuint n * 2)) as H2.
  rewrite GRuint_minus_one_value.
  unfold GRuint_modulus in *.
  assert (Hle : (to_GRuint n <= n)%Z).
  { unfold to_GRuint, GRuint_modulus. apply Z.mod_le; lia. }
  assert (Hle2 : (to_GRuint (to_GRuint n * 2) <= to_GRuint n * 2)%Z).
  { unfold to_GRuint at 1. unfold GRuint_modulus. apply Z.mod_le; lia. }
  split; [|lia].
  assert (Heven : (to_GRuint (to_GRuint n * 2) mod 2 = 0)%Z).
  { unfold to_GRuint at 1. unfold GRuint_modulus.
    change (2 ^ 32)%Z with (2 * 2 ^ 31)%Z.
    rewrite (Z.mul_comm (to_GRuint n) 2).
    rewrite Z.mul_mod_distr_l by lia.
    rewrite Z.mul_comm. apply Z.mod_mul. lia. }
  destruct (Z.eq_dec (to_GRuint (to_GRuint n * 2)) 4294967295) as [E|E];
    [rewrite E in Heven; discriminate | lia].
Qed.

Section SearchInvariant.

Variables (g0 : SkeletalGraph) (from to : VertexDescriptor).
Hypothesis Hwf : well_formed g0.

Lemma vertex_not_null (v : VertexDescriptor) :
  In v (vertices g0) -> v <> null_vertex.
Proof.
  intros Hv E. apply (wf_vertex_range Hwf) in Hv.
  rewrite E in Hv. unfold null_vertex, boost.null_vertex in Hv. lia.
Qed.

Lemma bfs_invariant_weaken (K K' : Z) (st : bfs_state) :
  (K <= K')%Z ->
  bfs_invariant g0 from to K st -> bfs_invariant g0 from to K' st.
Proof.
  intros HK [H1 H2 H3 H4 H5 H6 H7 H8 H9].
  constructor; auto. intros v Hv Hc. specialize (H8 v Hv Hc). lia.
Qed.

(** One pass of the loop body over the far end [n] of an edge of the
    vertex [c] being expanded, whose cost is [cc]. *)
Lemma bfs_visit_invariant (K cc : Z) (c n : VertexDescriptor) (st : bfs_state) :
  bfs_invariant g0 from to (K + 1) st ->
  In c (vertices g0) -> In n (vertices g0) ->
  cost (fst (fst st)) c = cc ->
  (0 <= cc <= K)%Z -> (K + 1 < GRuint_minus_one)%Z ->
  bfs_invariant g0 from to (K + 1) (bfs_visit from c cc st n)
  /\ cost (fst (fst (bfs_visit from c cc st n))) c = cc.
Proof.
  destruct st as [[g q] found].
  intros Hinv Hc Hn Hcc Hrange HK. cbn [fst snd] in Hcc.
  pose proof Hinv as [H1 H2 H3 H4 H5 H6 H7 H8 H9]. cbn [fst snd] in *.
  unfold bfs_visit.
  destruct (Nat.eqb (BFS_parent (get_vertex g c)) n) eqn:E0; cbn [negb];
    [split; assumption|].
  rewrite GRuint_minus_one_value in HK.
  assert (Hsmall : to_GRuint (cc + 1) = (cc + 1)%Z).
  { apply to_GRuint_small. unfold GRuint_modulus. lia. }
  rewrite Hsmall.
  fold (cost g n). fold (parent g n).
  assert (Hpush : forall v,
             In v (if Nat.eqb (parent g n) null_vertex then q ++ [n] else q) ->
             In v q \/ (v = n /\ parent g n = null_vertex)).
  { intros v Hv. destruct (Nat.eqb_spec (parent g n) null_vertex) as [E|E].
    - apply in_app_or in Hv. destruct Hv as [Hv|[<-|[]]]; auto.
    - auto. }
  pose proof (vertex_not_null Hc) as Hc0.
  destruct (Z.ltb_spec (cc + 1) (cost g n)) as [Hlt|Hge].
  - (* the neighbour is relabelled *)
    assert (Hng : In n (vertices g)) by (rewrite H1; exact Hn).
    assert (Hcn : c <> n) by (intros ->; lia).
    assert (Hton : to <> n) by (intros ->; destruct H3; lia).
    split.
    + constructor; cbn [fst snd].
      * rewrite vertices_update. exact H1.
      * exact H2.
      * rewrite cost_update, parent_update by exact Hng.
        destruct (Nat.eqb_spec to n); [contradiction | exact H3].
      * intros v Hv. rewrite cost_update by exact Hng.
        destruct (Nat.eqb_spec v n) as [->|Hvn].
        -- rewrite GRuint_minus_one_value. lia.
        -- apply H4. exact Hv.
      * intros v Hv. rewrite !parent_update by exact Hng.
        rewrite !cost_update by exact Hng.
        destruct (Nat.eqb_spec v n) as [->|Hvn].
        -- intros _. split; [exact Hc|].
           destruct (Nat.eqb_spec c n); [contradiction | lia].
        -- intros Hp. destruct (H5 v Hv Hp) as [Hin Hless].
           split; [exact Hin|].
           destruct (Nat.eqb_spec (parent g v) n) as [E|E].
           ++ rewrite E in Hless. lia.
           ++ exact Hless.
      * intros v Hv. rewrite parent_update, cost_update by exact Hng.
        destruct (Nat.eqb_spec v n) as [->|Hvn].
        -- intros E. contradiction.
        -- apply H6. exact Hv.
      * intros v Hv. rewrite cost_update by exact Hng.
        destruct (Hpush v Hv) as [Hq|[-> _]].
        -- destruct (H7 v Hq) as [Hin Hfin]. split; [exact Hin|].
           destruct (Nat.eqb_spec v n); [|exact Hfin].
           rewrite GRuint_minus_one_value. lia.
        -- split; [exact Hn|]. rewrite Nat.eqb_refl.
           rewrite GRuint_minus_one_value. lia.
      * intros v Hv. rewrite cost_update by exact Hng.
        destruct (Nat.eqb_spec v n) as [->|Hvn]; [lia|].
        apply H8. exact Hv.
      * rewrite parent_update by exact Hng.
        destruct (Nat.eqb_spec n from) as [->|Hnf].
        -- intros _. split; [exact Hn|]. rewrite Nat.eqb_refl. exact Hc0.
        -- intros Hf. destruct (H9 Hf) as [Hin Hp]. split; [exact Hin|].
           destruct (Nat.eqb_spec from n) as [E|E]; [congruence | exact Hp].
    + cbn [fst snd]. rewrite cost_update by exact Hng.
      destruct (Nat.eqb_spec c n); [contradiction | exact Hcc].
  - (* the neighbour keeps its label *)
    split; [|exact Hcc].
    constructor; cbn [fst snd]; auto.
    intros v Hv. destruct (Hpush v Hv) as [Hq|[-> Hp]]; [auto|].
    split; [exact Hn|].
    destruct (H6 n Hn Hp) as [->|E].
    + destruct H3 as [H3 _]. rewrite H3, GRuint_minus_one_value. lia.
    + rewrite E, GRuint_minus_one_value in Hge. lia.
Qed.

Lemma bfs_visits_invariant (K cc : Z) (c : VertexDescriptor)
      (ns : list VertexDescriptor) :
  forall st : bfs_state,
    bfs_invariant g0 from to (K + 1) st ->
    In c (vertices g0) ->
    (forall n, In n ns -> In n (vertices g0)) ->
    cost (fst (fst st)) c = cc ->
    (0 <= cc <= K)%Z -> (K + 1 < GRuint_minus_one)%Z ->
    bfs_invariant g0 from to (K + 1) (fold_left (bfs_visit from c cc) ns st)
    /\ cost (fst (fst (fold_left (bfs_visit from c cc) ns st))) c = cc.
Proof.
  induction ns as [|n ns IH]; intros st Hinv Hc Hns Hcc Hrange HK; simpl.
  - split; assumption.
  - destruct (@bfs_visit_invariant K cc c n st) as [Hinv' Hcc']; auto.
    { apply Hns. left. reflexivity. }
    apply IH; auto. intros m Hm. apply Hns. right. exact Hm.
Qed.

(** One iteration of the loop: pop [c], expand its in-edges, then its
    out-edges. *)
Lemma bfs_iteration_invariant (K : Z) (g : SkeletalGraph)
      (c : VertexDescriptor) (rest : list VertexDescriptor) (found : bool) :
  bfs_invariant g0 from to K (g, c :: rest, found) ->
  (0 <= K)%Z -> (K + 1 < GRuint_minus_one)%Z ->
  bfs_invariant g0 from to (K + 1) (bfs_iteration from g c rest found).
Proof.
  intros Hinv HK0 HK.
  pose proof Hinv as [H1 H2 H3 H4 H5 H6 H7 H8 H9]. cbn [fst snd] in *.
  destruct (H7 c (or_introl eq_refl)) as [Hc Hfin].
  pose proof (H8 c Hc Hfin) as Hle. pose proof (H4 c Hc) as Hr.
  assert (Hinv0 : bfs_invariant g0 from to (K + 1) (g, rest, found)).
  { apply bfs_invariant_weaken with (K := K); [lia|].
    constructor; cbn [fst snd]; auto.
    intros v Hv. apply H7. right. exact Hv. }
  assert (Hedges : forall e,
             In e (boost.edges (internal_graph_ g)) ->
             In (m_source e) (vertices g0) /\ In (m_target e) (vertices g0)).
  { intros e He. apply (wf_endpoints Hwf). rewrite <- H2. exact He. }
  unfold bfs_iteration. fold (cost g c).
  set (ins := map _ (boost.in_edges c (internal_graph_ g))).
  set (outs := map _ (boost.out_edges c (internal_graph_ g))).
  destruct (@bfs_visits_invariant K (cost g c) c ins (g, rest, found))
    as [Hinv1 Hcc1]; auto; try lia.
  { intros n Hn. unfold ins in Hn. apply in_map_iff in Hn.
    destruct Hn as (e & <- & He). unfold boost.in_edges in He.
    apply filter_In in He. apply Hedges. tauto. }
  destruct (@bfs_visits_invariant K (cost g c) c outs
              (fold_left (bfs_visit from c (cost g c)) ins (g, rest, found)))
    as [Hinv2 _]; auto; try lia.
  intros n Hn. unfold outs in Hn. apply in_map_iff in Hn.
  destruct Hn as (e & <- & He). unfold boost.out_edges in He.
  apply filter_In in He. apply Hedges. tauto.
Qed.

Lemma bfs_loop_invariant (remaining : nat) :
  forall (K : Z) (st : bfs_state),
    bfs_invariant g0 from to K st ->
    (0 <= K)%Z ->
    (K + Z.of_nat remaining < GRuint_minus_one)%Z ->
    bfs_invariant g0 from to (K + Z.of_nat remaining)
                  (bfs_loop remaining from st).
Proof.
  induction remaining as [|r IH]; intros K st Hinv HK0 HK.
  - simpl. rewrite Z.add_0_r. exact Hinv.
  - destruct st as [[g q] found]. simpl bfs_loop.
    destruct q as [|c rest].
    + apply bfs_invariant_weaken with (K := K); [lia | exact Hinv].
    + replace (K + Z.of_nat (S r))%Z with ((K + 1) + Z.of_nat r)%Z by lia.
      apply IH; try lia.
      apply bfs_iteration_invariant; [exact Hinv | lia | lia].
Qed.

End SearchInvariant.

(** The walk back from a labelled vertex follows strictly decreasing
    costs and ends at the root of the search. *)
Lemma follow_parents_reaches (g0 : SkeletalGraph) (from to : VertexDescriptor)
      (K : Z) (st : bfs_state) :
  well_formed g0 ->
  bfs_invariant g0 from to K st ->
  forall (k : nat) (v : VertexDescriptor) (fuel : nat),
    In v (vertices g0) ->
    (cost (fst (fst st)) v < GRuint_minus_one)%Z ->
    (Z.to_nat (cost (fst (fst st)) v) <= k)%nat ->
    (k + 2 <= fuel)%nat ->
    exists l, follow_parents fuel (fst (fst st)) v = Some (l ++ [to]).
Proof.
  intros Hwf Hinv. pose proof Hinv as [H1 H2 H3 H4 H5 H6 H7 H8 H9].
  set (g := fst (fst st)) in *.
  assert (Hend : forall v fuel,
             In v (vertices g0) -> (cost g v < GRuint_minus_one)%Z ->
             parent g v = null_vertex -> (2 <= fuel)%nat ->
             follow_parents fuel g v = Some ([] ++ [to])).
  { intros v fuel Hv Hfin Hp Hfuel.
    destruct fuel as [|[|fuel]]; try lia. simpl.
    pose proof (vertex_not_null Hwf Hv) as Hv0.
    destruct (Nat.eqb_spec v null_vertex) as [E|_]; [contradiction|].
    fold (parent g v). rewrite Hp. simpl.
    destruct (H6 v Hv Hp) as [->|E]; [reflexivity | lia]. }
  induction k as [|k IH]; intros v fuel Hv Hfin Hk Hfuel.
  - exists []. apply Hend; auto; try lia.
    destruct (Nat.eq_dec (parent g v) null_vertex) as [E|E]; [exact E|].
    destruct (H5 v Hv E) as [Hin Hless].
    pose proof (H4 (parent g v) Hin). pose proof (H4 v Hv). lia.
  - destruct (Nat.eq_dec (parent g v) null_vertex) as [E|E].
    + exists []. apply Hend; auto; lia.
    + destruct (H5 v Hv E) as [Hin Hless].
      pose proof (H4 (parent g v) Hin) as Hr. pose proof (H4 v Hv) as Hrv.
      destruct fuel as [|fuel]; [lia|].
      destruct (IH (parent g v) fuel) as [l Hl]; auto; try lia.
      exists (v :: l). simpl.
      pose proof (vertex_not_null Hwf Hv) as Hv0.
      destruct (Nat.eqb_spec v null_vertex) as [E'|_]; [contradiction|].
      fold (parent g v). rewrite Hl. reflexivity.
Qed.

(** The state in which [shortest_path] enters its loop. *)
Lemma bfs_initial_invariant (g : SkeletalGraph) (from to : VertexDescriptor) :
  well_formed g -> In to (vertices g) ->
  bfs_invariant g from to 0
    (update_vertex (reset_BFS g) to (set_BFS_path_cost 0%Z), [to], false).
Proof.
  intros Hwf Hto.
  destruct (reset_BFS_shape g) as [Hv He].
  assert (Hto1 : In to (vertices (reset_BFS g))) by (rewrite Hv; exact Hto).
  assert (Hcost : forall v,
             cost (update_vertex (reset_BFS g) to (set_BFS_path_cost 0%Z)) v
             = if Nat.eqb v to then 0%Z else cost (reset_BFS g) v).
  { intros v. unfold cost. destruct (Nat.eqb_spec v to) as [->|Hne].
    - rewrite get_vertex_update_same by exact Hto1. reflexivity.
    - rewrite get_vertex_update_other by exact Hne. reflexivity. }
  assert (Hpar : forall v,
             In v (vertices g) ->
             parent (update_vertex (reset_BFS g) to (set_BFS_path_cost 0%Z)) v
             = null_vertex).
  { intros v Hin. unfold parent. destruct (Nat.eqb_spec v to) as [->|Hne].
    - rewrite get_vertex_update_same by exact Hto1. simpl.
      apply (reset_BFS_marks g to Hin).
    - rewrite get_vertex_update_other by exact Hne.
      apply (reset_BFS_marks g v Hin). }
  constructor; cbn [fst snd].
  - rewrite vertices_update. exact Hv.
  - exact He.
  - rewrite Hcost, Nat.eqb_refl. split; [reflexivity | apply Hpar; exact Hto].
  - intros v Hin. rewrite Hcost. destruct (Nat.eqb v to).
    + rewrite GRuint_minus_one_value. lia.
    + destruct (reset_BFS_marks g v Hin) as [-> _].
      rewrite GRuint_minus_one_value. lia.
  - intros v Hin Hp. rewrite Hpar in Hp by exact Hin. contradiction.
  - intros v Hin _. rewrite Hcost.
    destruct (Nat.eqb_spec v to) as [->|Hne]; [left; reflexivity|].
    right. apply (reset_BFS_marks g v Hin).
  - intros v [<-|[]]. split; [exact Hto|].
    rewrite Hcost, Nat.eqb_refl, GRuint_minus_one_value. lia.
  - intros v Hin. rewrite Hcost. destruct (Nat.eqb v to); [lia|].
    destruct (reset_BFS_marks g v Hin) as [-> _]. lia.
  - discriminate.
Qed.

(** C5.  [shortest_path(x, x)] returns [[x]].  For two vertices [from]
    and [to] of a well-formed graph, [shortest_path(from, to)] ends:
    with enough fuel for the walk back it either throws or returns, and
    a returned list starts at [from] and ends at [to]. *)
Theorem shortest_path_endpoints (fuel : nat) (g : SkeletalGraph)
        (from to : VertexDescriptor) :
  well_formed g -> In to (vertices g) ->
  (2 * length (vertices g) + 2 <= fuel)%nat ->
  shortest_path fuel g from from = Some (Returned g [from])
  /\ exists o,
      shortest_path fuel g from to = Some o
      /\ forall g' path,
          o = Returned g' path ->
          hd_error path = Some from /\ last path null_vertex = to.
Proof.
  intros Hwf Hto Hfuel. split.
  { unfold shortest_path. rewrite Nat.eqb_refl. reflexivity. }
  unfold shortest_path.
  destruct (Nat.eqb_spec from to) as [->|Hne].
  { eexists. split; [reflexivity|]. intros g' path H.
    injection H as _ <-. split; reflexivity. }
  set (g2 := update_vertex (reset_BFS g) to (set_BFS_path_cost 0%Z)).
  pose proof (@bfs_initial_invariant g from to Hwf Hto) as Hinit. fold g2 in Hinit.
  set (cap := to_GRuint (vertex_count g2 * 2)).
  assert (Hcap : (cap <= GRuint_minus_one - 1)%Z
                 /\ (cap <= 2 * Z.of_nat (length (vertices g)))%Z).
  { unfold cap, vertex_count.
    assert (Hlen : length (boost.m_vertices (internal_graph_ g2))
                   = length (vertices g)).
    { rewrite <- (inv_vertices Hinit). cbn [fst].
      unfold vertices, boost.vertices. rewrite length_map. reflexivity. }
    rewrite Hlen. apply iteration_cap_bound. lia. }
  destruct Hcap as [Hcap1 Hcap2].
  assert (Hcap0 : (0 <= cap)%Z) by apply to_GRuint_range.
  pose proof (@bfs_loop_invariant g from to Hwf (Z.to_nat cap) 0
                (g2, [to], false) Hinit (Z.le_refl 0)) as Hloop.
  rewrite Z2Nat.id in Hloop by exact Hcap0.
  specialize (Hloop ltac:(lia)). rewrite Z.add_0_l in Hloop.
  destruct (bfs_loop (Z.to_nat cap) from (g2, [to], false))
    as [[g3 q3] found3].
  destruct found3; cbn [negb].
  - destruct (inv_found Hloop eq_refl) as [Hfrom Hp]. cbn [fst snd] in Hp.
    destruct (inv_parent Hloop from Hfrom Hp) as [Hin Hless].
    cbn [fst snd] in Hin, Hless.
    pose proof (inv_range Hloop from Hfrom) as Hr. cbn [fst snd] in Hr.
    pose proof (inv_range Hloop _ Hin) as Hrp. cbn [fst snd] in Hrp.
    assert (Hfin : (cost g3 (parent g3 from) < GRuint_minus_one)%Z) by lia.
    pose proof (inv_bound Hloop _ Hin Hfin) as Hb. cbn [fst snd] in Hb.
    destruct (@follow_parents_reaches g from to cap (g3, q3, true) Hwf Hloop
                (Z.to_nat (cost g3 (parent g3 from))) (parent g3 from) fuel)
      as [l Hl]; auto; try lia.
    cbn [fst] in Hl. unfold parent in Hl at 1. rewrite Hl.
    eexists. split; [reflexivity|]. intros g' path H.
    injection H as _ <-. split; [reflexivity|].
    change (from :: l ++ [to]) with ((from :: l) ++ [to]).
    apply last_last.
  - eexists. split; [reflexivity|]. intros g' path H. discriminate.
Qed.

(** Witness for [shortest_path_endpoints]: the one-edge graph, from 1 to
    2, with fuel 6. *)
Lemma shortest_path_endpoints_witness :
  shortest_path 6 (one_edge unnormalized (Finite 1%Q) (Finite 1%Q)) 1 1
  = Some (Returned (one_edge unnormalized (Finite 1%Q) (Finite 1%Q)) [1%nat])
  /\ exists o,
      shortest_path 6 (one_edge unnormalized (Finite 1%Q) (Finite 1%Q)) 1 2
      = Some o
      /\ forall g' path,
          o = Returned g' path ->
          hd_error path = Some 1%nat /\ last path null_vertex = 2%nat.
Proof.
  apply (@shortest_path_endpoints 6
           (one_edge unnormalized (Finite 1%Q) (Finite 1%Q)) 1 2
           (one_edge_well_formed _ _)).
  - vm_compute. tauto.
  - vm_compute. lia.
Defined.

(** Scenario 4 of the specification: on the alternating chain the path
    from one end to the other visits the five vertices in order, both
    ways. *)
Example shortest_path_alternating_chain :
  (exists g', shortest_path 12 alternating_chain 1 5
              = Some (Returned g' [1; 2; 3; 4; 5]%nat))
  /\ (exists g', shortest_path 12 alternating_chain 5 1
                 = Some (Returned g' [5; 4; 3; 2; 1]%nat)).
Proof. split; eexists; vm_compute; reflexivity. Qed.

(** When [shortest_path] returns from its search, the marks of every
    vertex are cleared. *)
Lemma shortest_path_return_clears_marks (fuel : nat) (g g' : SkeletalGraph)
      (from to : VertexDescriptor) (path : list VertexDescriptor) :
  from <> to ->
  shortest_path fuel g from to = Some (Returned g' path) ->
  forall v, In v (vertices g') ->
            BFS_path_cost (get_vertex g' v) = GRuint_minus_one
            /\ BFS_parent (get_vertex g' v) = null_vertex.
Proof.
  intros Hne H v Hv. unfold shortest_path in H.
  destruct (Nat.eqb_spec from to) as [E|_]; [contradiction|].
  destruct (bfs_loop _ _ _) as [[g3 q3] found3].
  destruct found3; cbn [negb] in H; [|discriminate].
  destruct (follow_parents fuel g3 _); [|discriminate].
  injection H as <- _.
  apply reset_BFS_marks. rewrite <- (proj1 (reset_BFS_shape g3)). exact Hv.
Qed.

(** C4 (the code departs from the claim).  On two vertices without an
    edge, [shortest_path(1, 2)] throws before its cleanup loop: vertex 2,
    the root of the search, is left with [BFS_path_cost = 0] instead of
    the sentinel it had on entry. *)
Theorem shortest_path_throw_leaves_marks :
  forall fuel : nat,
    let g := two_vertices (Finite 1%Q) (Finite 1%Q) in
    let g' := two_vertices_after_throw in
    shortest_path fuel g 1 2
    = Some (Thrown g' (invalid_argument "Couldn't find path between vertices"))
    /\ BFS_path_cost (get_vertex g 2) = GRuint_minus_one
    /\ BFS_path_cost (get_vertex g' 2) = 0%Z
    /\ BFS_path_cost (get_vertex g' 2) <> GRuint_minus_one.
Proof.
  intros fuel g g'. split; [vm_compute; reflexivity|].
  split; [reflexivity|]. split; [reflexivity|].
  vm_compute. discriminate.
Qed.

(** ** [count_connected_components] *)

Lemma k4_pendant_connected :
  class_representatives k4_pendant [1%nat].
Proof.
  assert (H12 : reachable k4_pendant 1 2)
    by (apply (reachable_edge k4_pendant (mkEdgeDescriptor 1 2 6));
        vm_compute; tauto).
  assert (H13 : reachable k4_pendant 1 3)
    by (apply (reachable_edge k4_pendant (mkEdgeDescriptor 1 3 7));
        vm_compute; tauto).
  assert (H14 : reachable k4_pendant 1 4)
    by (apply (reachable_edge k4_pendant (mkEdgeDescriptor 1 4 8));
        vm_compute; tauto).
  assert (H45 : reachable k4_pendant 4 5)
    by (apply (reachable_edge k4_pendant (mkEdgeDescriptor 4 5 12));
        vm_compute; tauto).
  assert (H11 : reachable k4_pendant 1 1)
    by (apply reachable_refl; vm_compute; tauto).
  pose proof (reachable_trans H14 H45) as H15.
  split; [|split].
  - constructor; [vm_compute; tauto | constructor].
  - change (vertices k4_pendant) with [1; 2; 3; 4; 5]%nat.
    repeat (apply Forall_cons; [apply Exists_cons_hd; assumption|]).
    apply Forall_nil.
  - apply FOP_cons; [apply Forall_nil | apply FOP_nil].
Qed.

(** C9 (the code departs from the claim).  [k4_pendant] has a single
    class under undirected reachability, yet
    [count_connected_components] returns 2: the exploration from vertex
    1 spends its [2 * vertex_count()] iterations on queue entries of
    vertices already visited and stops before it pops vertex 5, which the
    outer loop then counts as a component of its own.  On the empty graph
    the function returns 0. *)
Theorem count_connected_components_overcounts :
  class_representatives k4_pendant [1%nat]
  /\ length [1%nat] = 1%nat
  /\ is_in_spanning_tree (get_vertex (explore_from_vertex k4_pendant 1) 5) = false
  /\ snd (count_connected_components k4_pendant) = 2%Z
  /\ snd (count_connected_components SkeletalGraph_new) = 0%Z.
Proof.
  split; [exact k4_pendant_connected|].
  repeat apply conj; vm_compute; reflexivity.
Qed.

(** On the alternating chain the count is right. *)
Example count_connected_components_chain :
  snd (count_connected_components alternating_chain) = 1%Z.
Proof. vm_compute. reflexivity. Qed.

(** ** Persistence *)

(** A [<radius>] line that parses stores the parsed value, whatever its
    size; one that does not parse stores the default. *)
Lemma import_radius_line (scan_float : string -> option (GRfloat * string))
      (s : import_state) (rest : string) :
  v_props (import_vertex_field scan_float s (String.append "<radius>" rest))
  = match scan_float rest with
    | Some (r, _) => set_radius (v_props s) r
    | None => set_radius (v_props s) DEFAULT_VERTEX_RADIUS
    end.
Proof.
  unfold import_vertex_field, sscanf_f.
  change (String.prefix "<pos>" (String.append "<radius>" rest)) with false.
  change (String.prefix "<radius>" (String.append "<radius>" rest))
    with (String.prefix "" rest).
  change (strip_prefix "<radius>" (String.append "<radius>" rest))
    with (Some rest).
  assert (Hp : String.prefix "" rest = true) by (destruct rest; reflexivity).
  rewrite Hp.
  destruct (scan_float rest) as [[r rest']|]; reflexivity.
Qed.

(** C2 (the code departs from the claim).  Loading [radius_file], whose
    first vertex has [<radius>20000</radius>], stores radius 20000 for
    that vertex although 20000 exceeds the maximum: the loader stores
    the parsed value first and resets only its local variable.  The
    second vertex, whose radius does not parse, gets the default 1. *)
Theorem import_keeps_large_radius :
  import_from_file scan_decimal curve_through [] (Some radius_file)
                   (Some SkeletalGraph_new)
  = inr (radius_graph, Finite 1%Q)
  /\ vertices radius_graph = [1%nat; 2%nat]
  /\ sscanf_f scan_decimal "<radius>" "<radius>20000</radius>"
     = Some (Finite 20000%Q)
  /\ fgt (Finite 20000%Q) MAX_ALLOWED_VERTEX_RADIUS = true
  /\ radius (get_vertex radius_graph 1) = Finite 20000%Q
  /\ sscanf_f scan_decimal "<radius>" "<radius>wide</radius>" = None
  /\ radius (get_vertex radius_graph 2) = Finite 1%Q.
Proof.
  repeat apply conj; vm_compute; reflexivity.
Qed.

(** C6 (the code departs from the claim).  [split_cycle_edge] has two
    edges marked as part of a cycle, and its exported text says so; the
    graph loaded back from that text has both edges unmarked, because
    [add_edge] overwrites the mark read from the file with the
    conjunction of the marks of the end vertices.  Vertex marks, edge
    ends and curve points do come back. *)
Theorem export_import_loses_edge_cycle :
  export_to_file print_integral split_cycle_edge (Finite 1%Q)
  = (split_cycle_edge_text, true)
  /\ import_from_file scan_decimal curve_through []
                      (Some split_cycle_edge_text) (Some SkeletalGraph_new)
     = inr (split_cycle_edge_reloaded, Finite 1%Q)
  /\ edge_cycle_flags split_cycle_edge = [true; true]
  /\ edge_cycle_flags split_cycle_edge_reloaded = [false; false]
  /\ vertex_cycle_flags split_cycle_edge_reloaded
     = vertex_cycle_flags split_cycle_edge
  /\ map (fun v => position (get_vertex split_cycle_edge_reloaded v))
         (vertices split_cycle_edge_reloaded)
     = [vec 0 0 0; vec 2 0 0; vec 1 0 0]
  /\ map (fun e => map fst (curve (get_edge split_cycle_edge_reloaded e)))
         (edges split_cycle_edge_reloaded)
     = map (fun e => map fst (curve (get_edge split_cycle_edge e)))
           (edges split_cycle_edge).
Proof.
  repeat apply conj; vm_compute; reflexivity.
Qed.

(** * Further properties of the store operations *)

(** ** Reading an edge back *)

Lemma lookup_edge_stored l (e : EdgeDescriptor) (p : EdgeProperties) :
  NoDup (map (fun ep => m_eproperty (fst ep)) l) ->
  In (e, p) l -> boost.lookup_edge l e = Some p.
Proof.
  induction l as [|[d q] l IH]; simpl; intros Hnd Hin; [contradiction|].
  inversion Hnd as [|? ? Hfresh Hnd']; subst.
  destruct Hin as [Heq|Hin].
  - injection Heq as -> ->. unfold edge_eqb. rewrite Nat.eqb_refl. reflexivity.
  - unfold edge_eqb. destruct (Nat.eqb_spec (m_eproperty d) (m_eproperty e)) as [E|_].
    + exfalso. apply Hfresh. rewrite E.
      apply (in_map (fun ep => m_eproperty (fst ep)) l (e, p) Hin).
    + apply IH; assumption.
Qed.

Lemma nodup_stored (g : SkeletalGraph) :
  well_formed g ->
  NoDup (map (fun ep => m_eproperty (fst ep)) (boost.m_edges (internal_graph_ g))).
Proof.
  intros Hwf. pose proof (wf_edge_nodup Hwf) as H.
  unfold edges, boost.edges in H. rewrite map_map in H. exact H.
Qed.

Lemma get_edge_stored (g : SkeletalGraph) (e : EdgeDescriptor) (p : EdgeProperties) :
  well_formed g ->
  In (e, p) (boost.m_edges (internal_graph_ g)) -> get_edge g e = p.
Proof.
  intros Hwf Hin. unfold get_edge, boost.get_edge.
  rewrite (lookup_edge_stored _ _ _ (nodup_stored Hwf) Hin). reflexivity.
Qed.

(** ** Sums of samples *)

Lemma samples_of_app l1 l2 :
  samples_of (l1 ++ l2) = (samples_of l1 + samples_of l2)%Z.
Proof.
  unfold samples_of. induction l1 as [|a l1 IH]; simpl; [reflexivity|].
  rewrite IH. lia.
Qed.

Lemma samples_of_filter (f : EdgeDescriptor * EdgeProperties -> bool) l :
  samples_of l
  = (samples_of (filter f l) + samples_of (filter (fun x => negb (f x)) l))%Z.
Proof.
  unfold samples_of. induction l as [|a l IH]; simpl; [reflexivity|].
  destruct (f a); simpl; rewrite IH; lia.
Qed.

(** Edges met by either of two tests, plus those met by both, are those
    met by the first plus those met by the second. *)
Lemma samples_of_either (f h : EdgeDescriptor * EdgeProperties -> bool) l :
  (samples_of (filter (fun x => f x || h x) l)
   + samples_of (filter (fun x => f x && h x) l)
   = samples_of (filter f l) + samples_of (filter h l))%Z.
Proof.
  unfold samples_of. induction l as [|a l IH]; simpl; [reflexivity|].
  destruct (f a), (h a); simpl; lia.
Qed.

Lemma samples_of_nonneg l : (0 <= samples_of l)%Z.
Proof.
  induction l as [|a l IH]; [unfold samples_of; simpl; lia|].
  change (samples_of (a :: l))
    with (curve_size (curve (snd a)) + samples_of l)%Z.
  unfold curve_size. lia.
Qed.

Lemma to_GRuint_idem (x : Z) : to_GRuint (to_GRuint x) = to_GRuint x.
Proof. unfold to_GRuint. apply Z.mod_mod. discriminate. Qed.

Lemma to_GRuint_sub (x y : Z) :
  to_GRuint (to_GRuint x - to_GRuint y) = to_GRuint (x - y).
Proof. unfold to_GRuint. symmetry. apply Zminus_mod. Qed.

Lemma to_GRuint_add (x y : Z) :
  to_GRuint (to_GRuint x + to_GRuint y) = to_GRuint (x + y).
Proof. unfold to_GRuint. symmetry. apply Zplus_mod. Qed.

(** The loop [edge_spline_count_ -= size] over stored edges takes off the
    samples of those edges. *)
Lemma discount_edges_samples (g : SkeletalGraph) :
  well_formed g ->
  forall l (s : Z),
    incl l (boost.m_edges (internal_graph_ g)) ->
    discount_edges g (map fst l) (to_GRuint s)
    = to_GRuint (s - samples_of l).
Proof.
  intros Hwf. unfold discount_edges.
  induction l as [|[e p] l IH]; intros s Hincl; simpl.
  - f_equal. unfold samples_of; simpl. lia.
  - rewrite (@get_edge_stored g e p Hwf (Hincl _ (or_introl eq_refl))).
    rewrite to_GRuint_sub. rewrite IH.
    + f_equal. unfold samples_of; simpl. lia.
    + intros x Hx. apply Hincl. right. exact Hx.
Qed.

Lemma in_edges_stored (b : boost.adjacency_list) (v : VertexDescriptor) :
  boost.in_edges v b
  = map fst (filter (fun ep => Nat.eqb (m_target (fst ep)) v) (boost.m_edges b)).
Proof.
  unfold boost.in_edges, boost.edges. symmetry.
  apply (filter_map_fst (fun e => Nat.eqb (m_target e) v)).
Qed.

Lemma out_edges_stored (b : boost.adjacency_list) (v : VertexDescriptor) :
  boost.out_edges v b
  = map fst (filter (fun ep => Nat.eqb (m_source (fst ep)) v) (boost.m_edges b)).
Proof.
  unfold boost.out_edges, boost.edges. symmetry.
  apply (filter_map_fst (fun e => Nat.eqb (m_source e) v)).
Qed.

Lemma filter_all {A} (f : A -> bool) (l : list A) :
  (forall x, In x l -> f x = true) -> filter f l = l.
Proof.
  induction l as [|a l IH]; simpl; intros H; [reflexivity|].
  rewrite (H a (or_introl eq_refl)). f_equal. apply IH.
  intros x Hx. apply H. right. exact Hx.
Qed.

Lemma filter_empty {A} (f : A -> bool) (l : list A) :
  (forall x, In x l -> f x = false) -> filter f l = [].
Proof.
  induction l as [|a l IH]; simpl; intros H; [reflexivity|].
  rewrite (H a (or_introl eq_refl)). apply IH.
  intros x Hx. apply H. right. exact Hx.
Qed.

Lemma filter_none {A} (f : A -> bool) (l : list A) :
  filter f l = [] -> forall x, In x l -> f x = false.
Proof.
  induction l as [|a l IH]; simpl; intros H x Hx; [contradiction|].
  destruct (f a) eqn:E; [discriminate|].
  destruct Hx as [<-|Hx]; [exact E | apply IH; assumption].
Qed.

Lemma well_formed_not_null (g : SkeletalGraph) (v : VertexDescriptor) :
  well_formed g -> In v (vertices g) -> v <> null_vertex.
Proof.
  intros Hwf Hv E. apply (wf_vertex_range Hwf) in Hv. rewrite E in Hv.
  unfold null_vertex, boost.null_vertex in Hv. lia.
Qed.

(** Well-formedness only reads the descriptors and the next address. *)
Lemma well_formed_same_shape (g g' : SkeletalGraph) :
  vertices g' = vertices g -> edges g' = edges g ->
  boost.m_fresh (internal_graph_ g') = boost.m_fresh (internal_graph_ g) ->
  well_formed g -> well_formed g'.
Proof.
  intros Hv He Hf [H1 H2 H3 H4 H5 H6].
  constructor; rewrite ?Hv, ?He, ?Hf; assumption.
Qed.

(** ** [add_vertex] and [add_edge] *)

Lemma two_vertices_well_formed (r1 r2 : GRfloat) :
  well_formed (two_vertices r1 r2).
Proof.
  unfold two_vertices.
  apply (@add_vertex_well_formed
           (fst (add_vertex SkeletalGraph_new (VertexProperties_init (vec 0 0 0) r1)))).
  apply add_vertex_well_formed. exact SkeletalGraph_new_well_formed.
Qed.

(** X1.  In a well-formed graph [add_vertex] hands out a descriptor that
    is not null and was not in the graph, appends it to the vertex
    list, stores the given properties under it and leaves every other
    vertex, every edge and the sample count as they were; the result is
    well formed. *)
Theorem add_vertex_fresh (g : SkeletalGraph) (properties : VertexProperties) :
  well_formed g ->
  let g' := fst (add_vertex g properties) in
  let v := snd (add_vertex g properties) in
  v <> null_vertex
  /\ ~ In v (vertices g)
  /\ vertices g' = vertices g ++ [v]
  /\ get_vertex g' v = properties
  /\ (forall w, In w (vertices g) -> get_vertex g' w = get_vertex g w)
  /\ edges g' = edges g
  /\ (forall e, get_edge g' e = get_edge g e)
  /\ edge_spline_count g' = edge_spline_count g
  /\ well_formed g'.
Proof.
  intros Hwf g' v.
  assert (Hfresh : ~ In v (vertices g)).
  { intros H. apply (wf_vertex_range Hwf) in H. unfold v in H. simpl in H. lia. }
  refine (conj _ (conj Hfresh (conj _ (conj _ (conj _ (conj _ (conj _ (conj _ _)))))))).
  - pose proof (wf_fresh Hwf). unfold v, null_vertex, boost.null_vertex. simpl. lia.
  - unfold g', v, vertices, boost.vertices. simpl. apply map_app.
  - unfold g', v, get_vertex, boost.get_vertex. simpl.
    rewrite lookup_vertex_app_fresh; [reflexivity | exact Hfresh].
  - intros w Hw. unfold g', get_vertex, boost.get_vertex. simpl.
    assert (Hne : w <> boost.m_fresh (internal_graph_ g)).
    { intros ->. apply Hfresh. exact Hw. }
    clear - Hne. induction (boost.m_vertices (internal_graph_ g)) as [|[u q] l IH];
      simpl.
    + destruct (Nat.eqb_spec (boost.m_fresh (internal_graph_ g)) w);
        [congruence | reflexivity].
    + destruct (Nat.eqb u w); [reflexivity | exact IH].
  - reflexivity.
  - reflexivity.
  - reflexivity.
  - apply add_vertex_well_formed. exact Hwf.
Qed.

Lemma add_vertex_fresh_witness :
  vertices (fst (add_vertex (two_vertices (Finite 1%Q) (Finite 1%Q))
                            VertexProperties_default))
  = [1; 2; 3]%nat.
Proof.
  exact (proj1 (proj2 (proj2
           (@add_vertex_fresh (two_vertices (Finite 1%Q) (Finite 1%Q))
              VertexProperties_default
              (two_vertices_well_formed (Finite 1%Q) (Finite 1%Q)))))).
Defined.

(** What [add_edge] leaves in the store when both ends are non-null. *)
Lemma add_edge_stored (g : SkeletalGraph) (from to : VertexDescriptor)
      (properties : EdgeProperties) :
  well_formed g -> from <> null_vertex -> to <> null_vertex ->
  boost.m_edges (internal_graph_ (fst (add_edge g from to properties)))
  = boost.m_edges (internal_graph_ g)
    ++ [(mkEdgeDescriptor from to (boost.m_fresh (internal_graph_ g)),
         mkEdgeProperties (curve properties)
           (is_part_of_cycle (get_vertex g from)
            && is_part_of_cycle (get_vertex g to)))].
Proof.
  intros Hwf Hf Ht. unfold add_edge.
  apply Nat.eqb_neq in Hf. apply Nat.eqb_neq in Ht.
  unfold null_vertex in *. rewrite Hf, Ht. simpl.
  rewrite map_app. simpl. unfold edge_eqb at 2. simpl. rewrite Nat.eqb_refl.
  f_equal. rewrite <- (map_id (boost.m_edges (internal_graph_ g))) at 2.
  apply map_ext_in. intros [d q] Hin. simpl.
  unfold edge_eqb. simpl.
  destruct (Nat.eqb_spec (m_eproperty d) (boost.m_fresh (internal_graph_ g)))
    as [E|_]; [|reflexivity].
  exfalso. assert (Hd : In d (edges g)).
  { unfold edges, boost.edges. apply (in_map fst _ _ Hin). }
  apply (wf_edge_range Hwf) in Hd. lia.
Qed.

(** X2.  With both ends non-null, [add_edge] succeeds in a well-formed
    graph: the descriptor it returns joins [from] to [to], is new, and is
    appended to the edge list; the stored curve is the given one, and
    the stored cycle flag is the conjunction of the flags of the two end
    vertices, whatever flag the given properties carried.  The other
    edges and the vertices are untouched. *)
Theorem add_edge_stores_edge (g : SkeletalGraph) (from to : VertexDescriptor)
        (properties : EdgeProperties) :
  well_formed g -> from <> null_vertex -> to <> null_vertex ->
  let g' := fst (add_edge g from to properties) in
  let e := fst (snd (add_edge g from to properties)) in
  snd (snd (add_edge g from to properties)) = true
  /\ m_source e = from /\ m_target e = to
  /\ ~ In e (edges g)
  /\ edges g' = edges g ++ [e]
  /\ curve (get_edge g' e) = curve properties
  /\ edge_is_part_of_cycle (get_edge g' e)
     = is_part_of_cycle (get_vertex g from) && is_part_of_cycle (get_vertex g to)
  /\ (forall x, In x (edges g) -> get_edge g' x = get_edge g x)
  /\ boost.m_vertices (internal_graph_ g') = boost.m_vertices (internal_graph_ g).
Proof.
  intros Hwf Hf Ht g' e.
  pose proof (add_edge_stored properties Hwf Hf Ht) as Hst. fold g' in Hst.
  destruct (add_edge_spec g properties Hf Ht) as (Hr & He & Hv & Hfr).
  fold g' in He, Hv, Hfr.
  assert (Hee : e = mkEdgeDescriptor from to (boost.m_fresh (internal_graph_ g))).
  { unfold e. rewrite Hr. reflexivity. }
  assert (Hnew : forall x, In x (edges g) -> edge_eqb x e = false).
  { intros x Hx. rewrite Hee. unfold edge_eqb. simpl. apply Nat.eqb_neq.
    apply (wf_edge_range Hwf) in Hx. lia. }
  assert (Hlook : forall l,
             (forall d q, In (d, q) l -> edge_eqb d e = false) ->
             forall p, boost.lookup_edge (l ++ [(e, p)]) e = Some p).
  { induction l as [|[d q] l IH]; simpl; intros H p.
    - unfold edge_eqb. rewrite Nat.eqb_refl. reflexivity.
    - rewrite (H d q (or_introl eq_refl)). apply IH.
      intros d' q' Hin. apply (H d' q'). right. exact Hin. }
  assert (Hold : forall d q, In (d, q) (boost.m_edges (internal_graph_ g)) ->
                             edge_eqb d e = false).
  { intros d q Hin. apply Hnew. unfold edges, boost.edges.
    apply (in_map fst _ _ Hin). }
  assert (Hget : get_edge g' e
                 = mkEdgeProperties (curve properties)
                     (is_part_of_cycle (get_vertex g from)
                      && is_part_of_cycle (get_vertex g to))).
  { unfold get_edge, boost.get_edge. rewrite Hst, <- Hee.
    rewrite (Hlook _ Hold). reflexivity. }
  rewrite <- Hee in He.
  refine (conj _ (conj _ (conj _ (conj _ (conj He (conj _ (conj _ (conj _ Hv)))))))).
  - unfold e. rewrite Hr. reflexivity.
  - rewrite Hee. reflexivity.
  - rewrite Hee. reflexivity.
  - intros Hin. specialize (Hnew e Hin). unfold edge_eqb in Hnew.
    rewrite Nat.eqb_refl in Hnew. discriminate.
  - rewrite Hget. reflexivity.
  - rewrite Hget. reflexivity.
  - intros x Hx. unfold get_edge, boost.get_edge. rewrite Hst.
    assert (Hx' : exists q, In (x, q) (boost.m_edges (internal_graph_ g))).
    { unfold edges, boost.edges in Hx. apply in_map_iff in Hx.
      destruct Hx as ([d q] & Hd & Hin). simpl in Hd. subst d. eauto. }
    destruct Hx' as [q Hq].
    rewrite (lookup_edge_stored _ _ _ (nodup_stored Hwf) Hq).
    clear - Hq Hwf. pose proof (nodup_stored Hwf) as Hnd.
    induction (boost.m_edges (internal_graph_ g)) as [|[d p] l IH]; simpl;
      [contradiction|].
    inversion Hnd as [|? ? Hfresh Hnd']; subst.
    destruct Hq as [Heq|Hq].
    + injection Heq as -> ->. unfold edge_eqb. rewrite Nat.eqb_refl. reflexivity.
    + unfold edge_eqb.
      destruct (Nat.eqb_spec (m_eproperty d) (m_eproperty x)) as [E|_].
      * exfalso. apply Hfresh. simpl. rewrite E.
        apply (in_map (fun ep => m_eproperty (fst ep)) l (x, q) Hq).
      * apply IH; assumption.
Qed.

Lemma add_edge_stores_edge_witness :
  edge_is_part_of_cycle
    (get_edge (fst (add_edge (two_vertices (Finite 1%Q) (Finite 1%Q)) 1 2
                             (mkEdgeProperties [] true)))
              (fst (snd (add_edge (two_vertices (Finite 1%Q) (Finite 1%Q)) 1 2
                                  (mkEdgeProperties [] true)))))
  = false.
Proof.
  refine (proj1 (proj2 (proj2 (proj2 (proj2 (proj2 (proj2
           (@add_edge_stores_edge (two_vertices (Finite 1%Q) (Finite 1%Q)) 1 2
              (mkEdgeProperties [] true)
              (two_vertices_well_formed (Finite 1%Q) (Finite 1%Q)) _ _)))))))).
  - discriminate.
  - discriminate.
Defined.

(** X3.  [add_edge(from, to, properties)] keeps the aggregate sample
    count in step with the stored curves, whether it adds the edge or
    refuses a null end. *)
Theorem add_edge_keeps_count (g : SkeletalGraph) (from to : VertexDescriptor)
        (properties : EdgeProperties) :
  count_consistent g ->
  count_consistent (fst (add_edge g from to properties))
  /\ (snd (snd (add_edge g from to properties)) = false
      <-> from = null_vertex \/ to = null_vertex)
  /\ (snd (snd (add_edge g from to properties)) = false ->
      add_edge g from to properties = (g, (EdgeDescriptor_default, false))).
Proof.
  intros Hc. unfold count_consistent in *.
  destruct (Nat.eqb_spec from null_vertex) as [Hf|Hf].
  { unfold add_edge. fold null_vertex. rewrite Hf, Nat.eqb_refl. simpl.
    repeat split; auto. }
  destruct (Nat.eqb_spec to null_vertex) as [Ht|Ht].
  { unfold add_edge. fold null_vertex. rewrite Ht, Nat.eqb_refl, orb_true_r. simpl.
    repeat split; auto. }
  destruct (add_edge_count g properties Hf Ht) as [H1 H2].
  destruct (add_edge_spec g properties Hf Ht) as (Hr & _).
  rewrite H1, H2, Hc, Hr. simpl.
  split; [apply to_GRuint_add|].
  split; [split; [discriminate | tauto] | discriminate].
Qed.

Lemma add_edge_keeps_count_witness :
  count_consistent
    (fst (add_edge (two_vertices (Finite 1%Q) (Finite 1%Q)) 1 2
                   (mkEdgeProperties [(vzero, vzero)] false))).
Proof.
  apply (@add_edge_keeps_count (two_vertices (Finite 1%Q) (Finite 1%Q)) 1 2
           (mkEdgeProperties [(vzero, vzero)] false)).
  reflexivity.
Defined.

(** ** [clear_vertex] and [remove_vertex] *)

Lemma degree_zero_no_edges (g : SkeletalGraph) (v : VertexDescriptor) :
  degree_fits g v -> degree g v = 0%Z ->
  boost.in_edges v (internal_graph_ g) = []
  /\ boost.out_edges v (internal_graph_ g) = [].
Proof.
  unfold degree_fits, degree, boost.in_degree, boost.out_degree.
  intros Hfit Hd.
  rewrite to_GRuint_small in Hd by lia.
  destruct (boost.in_edges v (internal_graph_ g));
    destruct (boost.out_edges v (internal_graph_ g)); simpl in *;
    try lia; auto.
Qed.

Lemma clear_vertex_edges_stored (g : SkeletalGraph) (v : VertexDescriptor) :
  boost.m_edges (internal_graph_ (fst (clear_vertex g v)))
  = filter (fun ep => negb (Nat.eqb (m_source (fst ep)) v
                            || Nat.eqb (m_target (fst ep)) v))
           (boost.m_edges (internal_graph_ g)).
Proof.
  unfold clear_vertex. destruct (degree g v =? 0)%Z; reflexivity.
Qed.

(** What [clear_vertex] leaves in the count: the samples of a self-loop
    at [v] are taken off twice. *)
Lemma clear_vertex_discount (g : SkeletalGraph) (v : VertexDescriptor) :
  well_formed g -> count_consistent g -> degree_fits g v ->
  edge_spline_count (fst (clear_vertex g v))
  = to_GRuint (sum_curve_sizes (fst (clear_vertex g v)) - self_loop_samples g v).
Proof.
  intros Hwf Hc Hfit.
  unfold sum_curve_sizes.
  fold (samples_of (boost.m_edges (internal_graph_ (fst (clear_vertex g v))))).
  rewrite clear_vertex_edges_stored.
  unfold self_loop_samples.
  set (l := boost.m_edges (internal_graph_ g)).
  set (fs := fun ep : EdgeDescriptor * EdgeProperties =>
               Nat.eqb (m_source (fst ep)) v).
  set (ft := fun ep : EdgeDescriptor * EdgeProperties =>
               Nat.eqb (m_target (fst ep)) v).
  pose proof (samples_of_filter (fun x => fs x || ft x) l) as Hsplit.
  cbv beta in Hsplit.
  pose proof (samples_of_either fs ft l) as Heither.
  change (filter (fun ep => negb (Nat.eqb (m_source (fst ep)) v
                                  || Nat.eqb (m_target (fst ep)) v)) l)
    with (filter (fun x => negb (fs x || ft x)) l).
  change (filter (fun ep => Nat.eqb (m_source (fst ep)) v
                            && Nat.eqb (m_target (fst ep)) v) l)
    with (filter (fun x => fs x && ft x) l).
  assert (Hc' : edge_spline_count_ g = to_GRuint (samples_of l)) by exact Hc.
  pose proof (samples_of_nonneg (filter (fun x => fs x || ft x) l)) as Hp1.
  pose proof (samples_of_nonneg (filter (fun x => fs x && ft x) l)) as Hp2.
  unfold clear_vertex.
  destruct (degree g v =? 0)%Z eqn:Hd.
  - apply Z.eqb_eq in Hd.
    destruct (degree_zero_no_edges Hfit Hd) as [Hin Hout].
    rewrite in_edges_stored in Hin. rewrite out_edges_stored in Hout.
    apply map_eq_nil in Hin. apply map_eq_nil in Hout.
    fold l in Hin, Hout. fold ft in Hin. fold fs in Hout.
    rewrite Hin, Hout in Heither.
    change (samples_of []) with 0%Z in Heither.
    cbn [fst edge_spline_count edge_spline_count_]. rewrite Hc'.
    f_equal. lia.
  - cbn [fst edge_spline_count edge_spline_count_]. rewrite Hc'.
    rewrite in_edges_stored, out_edges_stored. fold l. fold fs. fold ft.
    rewrite (discount_edges_samples Hwf)
      by (intros x Hx; apply filter_In in Hx; apply Hx).
    rewrite (discount_edges_samples Hwf)
      by (intros x Hx; apply filter_In in Hx; apply Hx).
    f_equal. lia.
Qed.

(** X6.  In a well-formed graph whose count is consistent,
    [clear_vertex(v)] takes the samples of every in-edge and of every
    out-edge of [v] off the count.  A self-loop at [v] is met by both
    loops, so the count ends below the stored curves by the samples of
    the self-loops at [v]; it stays consistent when [v] has none. *)
Theorem clear_vertex_count (g : SkeletalGraph) (v : VertexDescriptor) :
  well_formed g -> count_consistent g -> degree_fits g v ->
  let g' := fst (clear_vertex g v) in
  edge_spline_count g'
  = to_GRuint (sum_curve_sizes g' - self_loop_samples g v)
  /\ (self_loop_samples g v = 0%Z -> count_consistent g').
Proof.
  intros Hwf Hc Hfit g'.
  pose proof (clear_vertex_discount Hwf Hc Hfit) as Hmain. fold g' in Hmain.
  split; [exact Hmain|].
  intros H0. unfold count_consistent. rewrite Hmain, H0. f_equal. lia.
Qed.

Lemma clear_vertex_count_witness :
  count_consistent
    (fst (clear_vertex
            (fst (add_edge (two_vertices (Finite 1%Q) (Finite 1%Q)) 1 2
                           (mkEdgeProperties [(vzero, vzero)] false)))
            2)).
Proof.
  refine (proj2 (@clear_vertex_count
                   (fst (add_edge (two_vertices (Finite 1%Q) (Finite 1%Q)) 1 2
                                  (mkEdgeProperties [(vzero, vzero)] false)))
                   2 _ _ _) _).
  - apply add_edge_well_formed;
      [apply two_vertices_well_formed | simpl; tauto | simpl; tauto].
  - reflexivity.
  - reflexivity.
  - reflexivity.
Defined.

Lemma clear_vertex_well_formed (g : SkeletalGraph) (v : VertexDescriptor) :
  well_formed g -> well_formed (fst (clear_vertex g v)).
Proof.
  intros Hwf. destruct (clear_vertex_spec g v) as [He Hv].
  assert (Hv' : vertices (fst (clear_vertex g v)) = vertices g).
  { unfold vertices, boost.vertices. rewrite Hv. reflexivity. }
  assert (Hf : boost.m_fresh (internal_graph_ (fst (clear_vertex g v)))
               = boost.m_fresh (internal_graph_ g)).
  { unfold clear_vertex. destruct (degree g v =? 0)%Z; reflexivity. }
  destruct Hwf as [H1 H2 H3 H4 H5 H6].
  constructor; rewrite ?Hv', ?Hf; try assumption.
  - intros e Hin. rewrite He in Hin. apply filter_In in Hin. apply H4, Hin.
  - rewrite He.
    assert (Hsub : forall l : list EdgeDescriptor,
               NoDup (map m_eproperty l) ->
               forall f, NoDup (map m_eproperty (filter f l))).
    { induction l as [|a l IH]; simpl; intros Hnd f; [constructor|].
      inversion Hnd as [|? ? Ha Hnd']; subst.
      destruct (f a); simpl; [constructor|]; auto.
      intros Hin. apply Ha. apply in_map_iff in Hin.
      destruct Hin as (x & Hx & Hin). apply filter_In in Hin.
      rewrite <- Hx. apply in_map. apply Hin. }
    apply Hsub. exact H5.
  - intros e Hin. rewrite He in Hin. apply filter_In in Hin. apply H6, Hin.
Qed.

(** X5.  [clear_vertex(v)] leaves [v] in the graph with degree 0: the
    vertices and their properties are as before, the edges left are
    exactly those that did not touch [v], every edge it returns touched
    [v], and the graph stays well formed. *)
Theorem clear_vertex_isolates (g : SkeletalGraph) (v : VertexDescriptor) :
  well_formed g ->
  let g' := fst (clear_vertex g v) in
  degree g' v = 0%Z
  /\ boost.m_vertices (internal_graph_ g') = boost.m_vertices (internal_graph_ g)
  /\ (forall x, In x (edges g')
                <-> In x (edges g) /\ m_source x <> v /\ m_target x <> v)
  /\ (forall x, In x (snd (clear_vertex g v)) ->
                In x (edges g) /\ (m_source x = v \/ m_target x = v))
  /\ well_formed g'.
Proof.
  intros Hwf g'. destruct (clear_vertex_spec g v) as [He Hv]. fold g' in He, Hv.
  assert (Hiff : forall x, In x (edges g')
                           <-> In x (edges g) /\ m_source x <> v /\ m_target x <> v).
  { intros x. rewrite He, filter_In, negb_true_iff, orb_false_iff.
    rewrite !Nat.eqb_neq. tauto. }
  refine (conj _ (conj Hv (conj Hiff (conj _ _)))).
  - unfold degree, boost.in_degree, boost.out_degree, boost.in_edges,
      boost.out_edges. fold (edges g').
    assert (Hi : filter (fun e => Nat.eqb (m_target e) v) (edges g') = []).
    { apply filter_empty. intros x Hx. apply Hiff in Hx.
      apply Nat.eqb_neq. tauto. }
    assert (Ho : filter (fun e => Nat.eqb (m_source e) v) (edges g') = []).
    { apply filter_empty. intros x Hx. apply Hiff in Hx.
      apply Nat.eqb_neq. tauto. }
    rewrite Hi, Ho. reflexivity.
  - intros x. unfold clear_vertex.
    destruct (degree g v =? 0)%Z; simpl; [contradiction|].
    intros Hin. apply in_app_or in Hin.
    unfold boost.in_edges, boost.out_edges in Hin. fold (edges g) in Hin.
    destruct Hin as [Hin|Hin]; apply filter_In in Hin;
      destruct Hin as [Hin Hx]; apply Nat.eqb_eq in Hx; tauto.
  - apply clear_vertex_well_formed. exact Hwf.
Qed.

Lemma clear_vertex_isolates_witness :
  degree (fst (clear_vertex (one_edge unnormalized (Finite 1%Q) (Finite 1%Q)) 2))
         2
  = 0%Z.
Proof.
  exact (proj1 (@clear_vertex_isolates
                  (one_edge unnormalized (Finite 1%Q) (Finite 1%Q)) 2
                  (one_edge_well_formed (Finite 1%Q) (Finite 1%Q)))).
Defined.

Lemma remove_vertex_unfold (g : SkeletalGraph) (v : VertexDescriptor) :
  v <> null_vertex ->
  remove_vertex g v
  = (with_graph (fst (clear_vertex g v))
       (boost.remove_vertex v (internal_graph_ (fst (clear_vertex g v)))),
     snd (clear_vertex g v)).
Proof.
  intros Hv. unfold remove_vertex. apply Nat.eqb_neq in Hv.
  unfold null_vertex in Hv. rewrite Hv. simpl.
  destruct (clear_vertex g v). reflexivity.
Qed.

Lemma boost_remove_vertex_well_formed (g : SkeletalGraph) (v : VertexDescriptor) :
  well_formed g ->
  (forall x, In x (edges g) -> m_source x <> v /\ m_target x <> v) ->
  well_formed (with_graph g (boost.remove_vertex v (internal_graph_ g))).
Proof.
  intros [H1 H2 H3 H4 H5 H6] Hfree.
  assert (Hv : vertices (with_graph g (boost.remove_vertex v (internal_graph_ g)))
               = filter (fun w => negb (Nat.eqb w v)) (vertices g)).
  { apply vertices_remove_vertex. }
  constructor; try assumption.
  - intros w Hw. rewrite Hv in Hw. apply filter_In in Hw. apply H2, Hw.
  - rewrite Hv. apply NoDup_filter. exact H3.
  - intros e He. change (In e (edges g)) in He. rewrite Hv.
    destruct (H6 e He) as [Hs Ht]. destruct (Hfree e He) as [Hs' Ht'].
    split; apply filter_In; (split; [assumption|]);
      apply negb_true_iff, Nat.eqb_neq; assumption.
Qed.

(** X7.  In a well-formed graph [remove_vertex(v)], for a non-null [v],
    leaves a well-formed graph without [v]: the other vertices keep
    their properties and the edges left are exactly those that did not
    touch [v], so no edge dangles.  The sample count stays consistent
    when [v] carried no self-loop. *)
Theorem remove_vertex_removes (g : SkeletalGraph) (v : VertexDescriptor) :
  well_formed g -> v <> null_vertex ->
  let g' := fst (remove_vertex g v) in
  (forall w, In w (vertices g') <-> In w (vertices g) /\ w <> v)
  /\ (forall x, In x (edges g')
                <-> In x (edges g) /\ m_source x <> v /\ m_target x <> v)
  /\ (forall w, w <> v -> get_vertex g' w = get_vertex g w)
  /\ well_formed g'
  /\ (count_consistent g -> degree_fits g v -> self_loop_samples g v = 0%Z ->
      count_consistent g').
Proof.
  intros Hwf Hv g'. unfold g'. rewrite (remove_vertex_unfold g Hv). cbn [fst].
  destruct (clear_vertex_spec g v) as [He Hm].
  set (g1 := fst (clear_vertex g v)) in *.
  assert (Hiff : forall x, In x (edges g1)
                           <-> In x (edges g) /\ m_source x <> v /\ m_target x <> v).
  { intros x. rewrite He, filter_In, negb_true_iff, orb_false_iff.
    rewrite !Nat.eqb_neq. tauto. }
  refine (conj _ (conj Hiff (conj _ (conj _ _)))).
  - intros w. unfold vertices. cbn [with_graph internal_graph_].
    rewrite vertices_remove_vertex, filter_In, negb_true_iff, Nat.eqb_neq.
    unfold boost.vertices. rewrite Hm. tauto.
  - intros w Hw. unfold get_vertex, boost.get_vertex.
    cbn [with_graph internal_graph_ boost.remove_vertex boost.m_vertices].
    rewrite lookup_vertex_filter by exact Hw. rewrite Hm. reflexivity.
  - apply boost_remove_vertex_well_formed.
    + apply clear_vertex_well_formed. exact Hwf.
    + intros x Hx. apply Hiff in Hx. tauto.
  - intros Hc Hfit H0. unfold count_consistent.
    change (edge_spline_count g1 = to_GRuint (sum_curve_sizes g1)).
    unfold g1. rewrite (clear_vertex_discount Hwf Hc Hfit), H0. f_equal. lia.
Qed.

Lemma remove_vertex_removes_witness :
  well_formed
    (fst (remove_vertex (one_edge unnormalized (Finite 1%Q) (Finite 1%Q)) 2)).
Proof.
  refine (proj1 (proj2 (proj2 (proj2
           (@remove_vertex_removes
              (one_edge unnormalized (Finite 1%Q) (Finite 1%Q)) 2
              (one_edge_well_formed (Finite 1%Q) (Finite 1%Q)) _))))).
  discriminate.
Defined.

(** X8.  Removing the vertex [add_vertex] has just returned undoes the
    addition: nothing is reported as removed, and the vertices with
    their properties, the edges with theirs and the sample count are
    those of the graph before the addition. *)
Theorem remove_added_vertex (g : SkeletalGraph) (properties : VertexProperties) :
  well_formed g ->
  let g1 := fst (add_vertex g properties) in
  let v := snd (add_vertex g properties) in
  snd (remove_vertex g1 v) = []
  /\ boost.m_vertices (internal_graph_ (fst (remove_vertex g1 v)))
     = boost.m_vertices (internal_graph_ g)
  /\ boost.m_edges (internal_graph_ (fst (remove_vertex g1 v)))
     = boost.m_edges (internal_graph_ g)
  /\ edge_spline_count (fst (remove_vertex g1 v)) = edge_spline_count g.
Proof.
  intros Hwf g1 v.
  assert (Hv0 : v <> null_vertex).
  { pose proof (wf_fresh Hwf). unfold v, null_vertex, boost.null_vertex.
    simpl. lia. }
  assert (Hfree : forall x, In x (edges g) -> incident v x = false).
  { intros x Hx. destruct (wf_endpoints Hwf x Hx) as [Hs Ht].
    apply (wf_vertex_range Hwf) in Hs. apply (wf_vertex_range Hwf) in Ht.
    unfold incident, v. simpl. apply orb_false_iff.
    split; apply Nat.eqb_neq; lia. }
  assert (Hin : boost.in_edges v (internal_graph_ g1) = []).
  { unfold boost.in_edges. apply filter_empty. intros x Hx.
    specialize (Hfree x Hx). unfold incident in Hfree.
    apply orb_false_iff in Hfree. tauto. }
  assert (Hout : boost.out_edges v (internal_graph_ g1) = []).
  { unfold boost.out_edges. apply filter_empty. intros x Hx.
    specialize (Hfree x Hx). unfold incident in Hfree.
    apply orb_false_iff in Hfree. tauto. }
  assert (Hclear : clear_vertex g1 v
                   = (mkSkeletalGraph (edge_spline_count_ g)
                        (boost.clear_vertex v (internal_graph_ g1)), [])).
  { unfold clear_vertex, degree, boost.in_degree, boost.out_degree.
    rewrite Hin, Hout. reflexivity. }
  rewrite (remove_vertex_unfold g1 Hv0), Hclear. cbn [fst snd].
  refine (conj eq_refl (conj _ (conj _ eq_refl))).
  - cbn [with_graph internal_graph_ boost.remove_vertex boost.clear_vertex
           boost.m_vertices].
    unfold g1. cbn [add_vertex fst boost.add_vertex with_graph internal_graph_
                      boost.m_vertices].
    rewrite filter_app. simpl. fold v. rewrite Nat.eqb_refl. simpl.
    rewrite app_nil_r. apply filter_all. intros [w q] Hw. simpl.
    apply negb_true_iff, Nat.eqb_neq. intros ->.
    assert (Hw' : In v (vertices g)).
    { unfold vertices, boost.vertices. apply (in_map fst _ _ Hw). }
    apply (wf_vertex_range Hwf) in Hw'. unfold v in Hw'. simpl in Hw'. lia.
  - cbn [with_graph internal_graph_ boost.remove_vertex boost.clear_vertex
           boost.m_edges].
    apply filter_all. intros [x q] Hx. apply negb_true_iff.
    apply (Hfree x). unfold edges, boost.edges. apply (in_map fst _ _ Hx).
Qed.

Lemma remove_added_vertex_witness :
  boost.m_vertices
    (internal_graph_
       (fst (remove_vertex
               (fst (add_vertex (two_vertices (Finite 1%Q) (Finite 1%Q))
                                VertexProperties_default))
               (snd (add_vertex (two_vertices (Finite 1%Q) (Finite 1%Q))
                                VertexProperties_default)))))
  = boost.m_vertices (internal_graph_ (two_vertices (Finite 1%Q) (Finite 1%Q))).
Proof.
  exact (proj1 (proj2
           (@remove_added_vertex (two_vertices (Finite 1%Q) (Finite 1%Q))
              VertexProperties_default
              (two_vertices_well_formed (Finite 1%Q) (Finite 1%Q))))).
Defined.

(** ** [remove_edge] keeps the invariants *)

(** [remove_edge] on an edge it finds: the count, and the store with the
    ends that were taken out; an end is taken out only if its degree was
    1. *)
Lemma remove_edge_unfold (g : SkeletalGraph) (e : EdgeDescriptor) :
  edge_eqb e EdgeDescriptor_default = false ->
  snd (boost.edge (m_source e) (m_target e) (internal_graph_ g)) = true ->
  exists rs rt : bool,
    (rs = true -> degree g (m_source e) = 1%Z)
    /\ (rt = true -> degree g (m_target e) = 1%Z)
    /\ fst (remove_edge g e)
       = mkSkeletalGraph
           (to_GRuint (edge_spline_count_ g
                       - to_GRuint (curve_size (curve (get_edge g e)))))
           ((if rt then boost.remove_vertex (m_target e) else fun b => b)
              ((if rs then boost.remove_vertex (m_source e) else fun b => b)
                 (boost.remove_edge e (internal_graph_ g)))).
Proof.
  intros Hd Hex. unfold remove_edge, boost.source, boost.target.
  rewrite Hd, Hex.
  change (degree (with_count g ?c) ?v) with (degree g v).
  destruct (degree g (m_source e) =? 1)%Z eqn:E1;
    destruct (degree g (m_target e) =? 1)%Z eqn:E2;
    try (apply Z.eqb_eq in E1); try (apply Z.eqb_eq in E2);
    cbn [andb];
    repeat match goal with
      | |- context [if negb ?c then _ else _] => destruct c; cbn [negb]
      end;
    cbn [fst snd];
    match goal with
    | |- exists rs rt, _ /\ _ /\ _ = mkSkeletalGraph _ _ =>
        first
          [ exists true, true; split; [auto|]; split; [auto|]; reflexivity
          | exists true, false; split; [auto|]; split;
              [discriminate|]; reflexivity
          | exists false, true; split; [discriminate|]; split; [auto|];
              reflexivity
          | exists false, false; split; [discriminate|]; split;
              [discriminate|]; reflexivity ]
    end.
Qed.

(** A vertex of degree 1 that an edge touches is touched by no other
    edge, and the edge is no self-loop. *)
Lemma sole_edge (g : SkeletalGraph) (e : EdgeDescriptor) (v : VertexDescriptor) :
  degree_fits g v -> degree g v = 1%Z ->
  In e (edges g) -> incident v e = true ->
  forall x, In x (edges g) -> incident v x = true -> x = e.
Proof.
  unfold degree_fits, degree, boost.in_degree, boost.out_degree,
    boost.in_edges, boost.out_edges, incident.
  fold (edges g). intros Hfit Hd He Hinc x Hx Hix.
  rewrite to_GRuint_small in Hd by lia.
  set (ins := filter (fun e0 => Nat.eqb (m_target e0) v) (edges g)) in *.
  set (outs := filter (fun e0 => Nat.eqb (m_source e0) v) (edges g)) in *.
  assert (Hmem : forall y, In y (edges g) ->
                           Nat.eqb (m_source y) v || Nat.eqb (m_target y) v = true ->
                           In y (outs ++ ins)).
  { intros y Hy Hiy. apply in_or_app. apply orb_true_iff in Hiy.
    destruct Hiy as [H|H]; [left|right]; apply filter_In; tauto. }
  pose proof (Hmem e He Hinc) as H1. pose proof (Hmem x Hx Hix) as H2.
  assert (Hlen : length (outs ++ ins) = 1%nat) by (rewrite length_app; lia).
  destruct (outs ++ ins) as [|a [|b l]]; simpl in Hlen; try discriminate.
  destruct H1 as [<-|[]]. destruct H2 as [<-|[]]. reflexivity.
Qed.

Lemma samples_of_one l (e : EdgeDescriptor) (p : EdgeProperties) :
  NoDup (map (fun ep => m_eproperty (fst ep)) l) ->
  In (e, p) l ->
  samples_of (filter (fun ep => edge_eqb (fst ep) e) l) = curve_size (curve p).
Proof.
  induction l as [|[d q] l IH]; simpl; intros Hnd Hin; [contradiction|].
  inversion Hnd as [|? ? Hfresh Hnd']; subst.
  destruct Hin as [Heq|Hin].
  - injection Heq as -> ->. unfold edge_eqb at 1. rewrite Nat.eqb_refl.
    rewrite (@filter_empty _ (fun ep => edge_eqb (fst ep) e) l).
    + unfold samples_of. simpl. lia.
    + intros [d q] Hd. unfold edge_eqb. simpl. apply Nat.eqb_neq. intros E.
      apply Hfresh. simpl. rewrite <- E.
      apply (in_map (fun ep => m_eproperty (fst ep)) l (d, q) Hd).
  - unfold edge_eqb at 1. simpl.
    destruct (Nat.eqb_spec (m_eproperty d) (m_eproperty e)) as [E|_].
    + exfalso. apply Hfresh. simpl. rewrite E.
      apply (in_map (fun ep => m_eproperty (fst ep)) l (e, p) Hin).
    + apply IH; assumption.
Qed.

Lemma NoDup_map_filter {A B} (h : A -> B) (f : A -> bool) (l : list A) :
  NoDup (map h l) -> NoDup (map h (filter f l)).
Proof.
  induction l as [|a l IH]; simpl; intros Hnd; [constructor|].
  inversion Hnd as [|? ? Ha Hnd']; subst.
  destruct (f a); simpl; [constructor|]; auto.
  intros Hin. apply Ha. apply in_map_iff in Hin.
  destruct Hin as (x & Hx & Hin). apply filter_In in Hin.
  rewrite <- Hx. apply in_map. apply Hin.
Qed.

Lemma boost_remove_edge_well_formed (g : SkeletalGraph) (e : EdgeDescriptor) :
  well_formed g ->
  well_formed (with_graph g (boost.remove_edge e (internal_graph_ g))).
Proof.
  intros [H1 H2 H3 H4 H5 H6].
  assert (He : edges (with_graph g (boost.remove_edge e (internal_graph_ g)))
               = filter (fun x => negb (edge_eqb x e)) (edges g)).
  { apply edges_remove_edge. }
  constructor; try assumption.
  - intros x Hx. rewrite He in Hx. apply filter_In in Hx. apply H4, Hx.
  - rewrite He. apply NoDup_map_filter. exact H5.
  - intros x Hx. rewrite He in Hx. apply filter_In in Hx.
    apply (H6 x), Hx.
Qed.

Lemma stored_of_edge (g : SkeletalGraph) (e : EdgeDescriptor) :
  In e (edges g) ->
  exists p, In (e, p) (boost.m_edges (internal_graph_ g)).
Proof.
  unfold edges, boost.edges. intros He. apply in_map_iff in He.
  destruct He as ([d q] & Hd & Hin). simpl in Hd. subst d. eauto.
Qed.

Lemma remove_edge_well_formed (g : SkeletalGraph) (e : EdgeDescriptor) :
  well_formed g -> In e (edges g) ->
  degree_fits g (m_source e) -> degree_fits g (m_target e) ->
  well_formed (fst (remove_edge g e)).
Proof.
  intros Hwf He Hfs Hft.
  assert (Hd : edge_eqb e EdgeDescriptor_default = false).
  { unfold edge_eqb. simpl. apply Nat.eqb_neq.
    pose proof (wf_edge_range Hwf e He). lia. }
  destruct (remove_edge_unfold g e Hd (edge_of_existing _ e He))
    as (rs & rt & Hrs & Hrt & ->).
  set (g2 := with_graph g (boost.remove_edge e (internal_graph_ g))).
  assert (Hwf2 : well_formed g2) by (apply boost_remove_edge_well_formed; exact Hwf).
  assert (He2 : forall x, In x (edges g2) -> In x (edges g) /\ edge_eqb x e = false).
  { intros x Hx. unfold g2, edges in Hx. cbn [with_graph internal_graph_] in Hx.
    rewrite edges_remove_edge in Hx. apply filter_In in Hx.
    rewrite negb_true_iff in Hx. exact Hx. }
  assert (Hself : edge_eqb e e = true) by (unfold edge_eqb; apply Nat.eqb_refl).
  assert (Hfree : forall v, degree_fits g v -> degree g v = 1%Z ->
                            incident v e = true ->
                            forall x, In x (edges g2) ->
                                      m_source x <> v /\ m_target x <> v).
  { intros v Hfit Hdeg Hinc x Hx. destruct (He2 x Hx) as [Hxg Hne].
    destruct (incident v x) eqn:Hix.
    - rewrite (@sole_edge g e v Hfit Hdeg He Hinc x Hxg Hix) in Hne. congruence.
    - unfold incident in Hix. apply orb_false_iff in Hix.
      rewrite !Nat.eqb_neq in Hix. exact Hix. }
  assert (Hincs : incident (m_source e) e = true)
    by (unfold incident; rewrite Nat.eqb_refl; reflexivity).
  assert (Hinct : incident (m_target e) e = true)
    by (unfold incident; rewrite Nat.eqb_refl; apply orb_true_r).
  set (g3 := with_graph g2 ((if rs then boost.remove_vertex (m_source e)
                             else fun b => b) (internal_graph_ g2))).
  assert (Hwf3 : well_formed g3
                 /\ forall x, In x (edges g3) -> In x (edges g2)).
  { unfold g3. destruct rs.
    - split; [|auto]. apply boost_remove_vertex_well_formed; [exact Hwf2|].
      apply Hfree; auto.
    - split; [|auto]. destruct Hwf2; constructor; assumption. }
  destruct Hwf3 as [Hwf3 He3].
  assert (Hgoal : well_formed
                    (with_graph g3 ((if rt then boost.remove_vertex (m_target e)
                                     else fun b => b) (internal_graph_ g3)))).
  { destruct rt.
    - apply boost_remove_vertex_well_formed; [exact Hwf3|].
      intros x Hx. apply (Hfree (m_target e)); auto.
    - destruct Hwf3; constructor; assumption. }
  destruct Hgoal as [H1 H2 H3 H4 H5 H6].
  constructor; assumption.
Qed.

Lemma remove_edge_consistent (g : SkeletalGraph) (e : EdgeDescriptor) :
  well_formed g -> In e (edges g) -> count_consistent g ->
  count_consistent (fst (remove_edge g e)).
Proof.
  intros Hwf He Hc.
  assert (Hd : edge_eqb e EdgeDescriptor_default = false).
  { unfold edge_eqb. simpl. apply Nat.eqb_neq.
    pose proof (wf_edge_range Hwf e He). lia. }
  destruct (remove_edge_unfold g e Hd (edge_of_existing _ e He))
    as (rs & rt & _ & _ & ->).
  destruct (stored_of_edge g e He) as [p Hp].
  unfold count_consistent, edge_spline_count, sum_curve_sizes.
  cbn [edge_spline_count_ internal_graph_].
  assert (Hm : boost.m_edges
                 ((if rt then boost.remove_vertex (m_target e) else fun b => b)
                    ((if rs then boost.remove_vertex (m_source e) else fun b => b)
                       (boost.remove_edge e (internal_graph_ g))))
               = filter (fun ep => negb (edge_eqb (fst ep) e))
                        (boost.m_edges (internal_graph_ g))).
  { destruct rs, rt; reflexivity. }
  rewrite Hm. rewrite (get_edge_stored e p Hwf Hp).
  unfold count_consistent, edge_spline_count, sum_curve_sizes in Hc. rewrite Hc.
  fold (samples_of (boost.m_edges (internal_graph_ g))).
  fold (samples_of (filter (fun ep => negb (edge_eqb (fst ep) e))
                           (boost.m_edges (internal_graph_ g)))).
  rewrite to_GRuint_sub. f_equal.
  pose proof (samples_of_filter (fun ep => edge_eqb (fst ep) e)
                                (boost.m_edges (internal_graph_ g))) as Hs.
  cbv beta in Hs.
  rewrite (@samples_of_one _ e p (nodup_stored Hwf) Hp) in Hs. lia.
Qed.

(** X4.  Removing an edge of a well-formed graph leaves a well-formed
    graph: an end vertex is taken out only when the edge was its sole
    edge, so no edge is left dangling.  A consistent sample count stays
    consistent. *)
Theorem remove_edge_keeps_invariants (g : SkeletalGraph) (e : EdgeDescriptor) :
  well_formed g -> In e (edges g) ->
  degree_fits g (m_source e) -> degree_fits g (m_target e) ->
  well_formed (fst (remove_edge g e))
  /\ (count_consistent g -> count_consistent (fst (remove_edge g e))).
Proof.
  intros Hwf He Hfs Hft. split.
  - apply remove_edge_well_formed; assumption.
  - apply remove_edge_consistent; assumption.
Qed.

Lemma remove_edge_keeps_invariants_witness :
  well_formed
    (fst (remove_edge (one_edge unnormalized (Finite 1%Q) (Finite 1%Q)) edge_1_2)).
Proof.
  refine (proj1 (@remove_edge_keeps_invariants
                   (one_edge unnormalized (Finite 1%Q) (Finite 1%Q)) edge_1_2
                   (one_edge_well_formed (Finite 1%Q) (Finite 1%Q))
                   (or_introl eq_refl) _ _)).
  - reflexivity.
  - reflexivity.
Defined.

(** ** [get_edge_radius] *)

(** The value computed for finite end radii that do not cancel, on a
    curve of two samples or more. *)
Lemma get_edge_radius_value (g : SkeletalGraph) (edge : EdgeDescriptor)
      (segment_index : GRuint) (r1 r2 : Q) :
  let size := curve_size (curve (get_edge g edge)) in
  (2 <= size < GRuint_modulus)%Z ->
  radius (get_vertex g (m_source edge)) = Finite r1 ->
  radius (get_vertex g (m_target edge)) = Finite r2 ->
  ~ (r1 + r2 == 0)%Q ->
  get_edge_radius g edge segment_index
  = Finite ((1 - inject_Z (MIN segment_index (size - 1)) / (inject_Z size - 1))
            * (2 * r1 * r2 / (r1 + r2) - r2) + r2)%Q
  /\ ~ (inject_Z size - 1 == 0)%Q.
Proof.
  intros size Hsize Hr1 Hr2 Hsum.
  assert (Hne : ~ (inject_Z size - 1 == 0)%Q).
  { intros H. assert (H1 : (inject_Z size == inject_Z 1)%Q).
    { change (inject_Z 1) with 1%Q. rewrite <- (Qplus_0_r 1), <- H. ring. }
    apply (proj1 (inject_Z_injective size 1)) in H1. lia. }
  split; [|exact Hne].
  unfold get_edge_radius, boost.source, boost.target. fold size.
  rewrite Hr1, Hr2.
  rewrite (@to_GRuint_small size) by lia.
  rewrite (@to_GRuint_small (size - 1)) by lia.
  unfold fdiv at 2. unfold fmul at 2 3. unfold fadd at 2.
  destruct (Qeq_bool (r1 + r2) 0) eqn:E.
  { apply Qeq_bool_iff in E. contradiction. }
  unfold GRfloat_of_Z, fsub at 2. unfold fdiv.
  destruct (Qeq_bool (inject_Z size - 1) 0) eqn:E2.
  { apply Qeq_bool_iff in E2. contradiction. }
  reflexivity.
Qed.

(** X10.  When both end vertices have the same whole radius between 1
    and 4096, on a curve of 2 to [2^24] samples, every segment of the
    edge has that radius, in range or not.  In this range the 32-bit
    computation of [r_start] is exact ([2 r r] is at most [2^25] and
    divides by [2 r] to [r]), so [r_start - r_end] is 0 and the
    interpolation adds 0 to [r_end]. *)
Theorem get_edge_radius_equal_radii (g : SkeletalGraph) (edge : EdgeDescriptor)
        (segment_index : GRuint) (n : Z) :
  (2 <= curve_size (curve (get_edge g edge)) <= 2 ^ 24)%Z ->
  (0 <= segment_index < GRuint_modulus)%Z ->
  (1 <= n <= 4096)%Z ->
  radius (get_vertex g (m_source edge)) = Finite (inject_Z n) ->
  radius (get_vertex g (m_target edge)) = Finite (inject_Z n) ->
  feq (get_edge_radius g edge segment_index) (Finite (inject_Z n)).
Proof.
  intros Hsize24 _ Hn Hr1 Hr2.
  assert (Hsize : (2 <= curve_size (curve (get_edge g edge))
                   < GRuint_modulus)%Z).
  { change (2 ^ 24)%Z with 16777216%Z in Hsize24.
    change GRuint_modulus with 4294967296%Z. lia. }
  assert (Hr : ~ (inject_Z n == 0)%Q).
  { intros H. change 0%Q with (inject_Z 0) in H.
    apply (proj1 (inject_Z_injective n 0)) in H. lia. }
  assert (Hsum : ~ (inject_Z n + inject_Z n == 0)%Q).
  { intros H. apply Hr.
    assert (H2 : (2 * inject_Z n == 0)%Q) by (rewrite <- H; ring).
    apply Qmult_integral in H2. destruct H2 as [H2|H2]; [discriminate | exact H2]. }
  destruct (@get_edge_radius_value g edge segment_index (inject_Z n)
              (inject_Z n) Hsize Hr1 Hr2 Hsum)
    as [-> Hne].
  simpl. field. split; assumption.
Qed.

Lemma get_edge_radius_equal_radii_witness :
  feq (get_edge_radius (one_edge unnormalized (Finite 2%Q) (Finite 2%Q))
                       edge_1_2 1%Z)
      (Finite 2%Q).
Proof.
  apply (@get_edge_radius_equal_radii
           (one_edge unnormalized (Finite 2%Q) (Finite 2%Q)) edge_1_2 1%Z 2%Z).
  - vm_compute. split; discriminate.
  - vm_compute. split; [discriminate | reflexivity].
  - vm_compute. split; discriminate.
  - reflexivity.
  - reflexivity.
Defined.

(** ** [split_edge_at]: what it leaves in the store *)

Lemma filter_length_bound {A} (f : A -> bool) (l : list A) :
  (length (filter f l) <= length l)%nat.
Proof.
  induction l as [|a l IH]; simpl; [lia|]. destruct (f a); simpl; lia.
Qed.

Lemma filter_length_in {A} (f : A -> bool) (l : list A) (x : A) :
  In x l -> f x = true -> (1 <= length (filter f l))%nat.
Proof.
  intros Hin Hf.
  assert (H : In x (filter f l)) by (apply filter_In; tauto).
  destruct (filter f l); [contradiction | simpl; lia].
Qed.

Lemma few_edges_degree_fits (g : SkeletalGraph) (v : VertexDescriptor) :
  few_edges g -> degree_fits g v.
Proof.
  unfold few_edges, degree_fits, boost.in_degree, boost.out_degree,
    boost.in_edges, boost.out_edges. fold (edges g). intros H.
  pose proof (filter_length_bound (fun e => Nat.eqb (m_target e) v) (edges g)).
  pose proof (filter_length_bound (fun e => Nat.eqb (m_source e) v) (edges g)).
  lia.
Qed.

(** The length of a curve after [add_middle_point], [operator[]=] and the
    loops of [split_edge_at]. *)
Lemma removelast_size {A} (l : list A) :
  length (removelast l) = pred (length l).
Proof.
  induction l as [|a l IH]; [reflexivity|].
  destruct l as [|b l]; [reflexivity|].
  change (removelast (a :: b :: l)) with (a :: removelast (b :: l)).
  change (length (a :: removelast (b :: l)))
    with (S (length (removelast (b :: l)))).
  rewrite IH. reflexivity.
Qed.

Lemma add_middle_point_size (c : DeformableSplineCurve) (p : PointTangent) :
  (1 <= curve_size c)%Z ->
  curve_size (add_middle_point c p) = (curve_size c + 1)%Z.
Proof.
  unfold curve_size, add_middle_point. intros H.
  rewrite length_app, removelast_size.
  destruct c as [|a c]; [simpl in H; lia|].
  simpl length. lia.
Qed.

Lemma fold_add_middle_point_size (pts : list PointTangent) :
  forall c : DeformableSplineCurve,
    (1 <= curve_size c)%Z ->
    curve_size (fold_left add_middle_point pts c)
    = (curve_size c + Z.of_nat (length pts))%Z.
Proof.
  induction pts as [|p pts IH]; intros c Hc; simpl; [lia|].
  rewrite IH by (rewrite add_middle_point_size; lia).
  rewrite add_middle_point_size by exact Hc. lia.
Qed.

Lemma list_set_length {A} (l : list A) (n : nat) (a : A) :
  length (list_set l n a) = length l.
Proof.
  revert n. induction l as [|h t IH]; intros [|n]; simpl; auto.
Qed.

Lemma curve_set_size (c : DeformableSplineCurve) (i : Z) (p : PointTangent) :
  curve_size (curve_set c i p) = curve_size c.
Proof.
  unfold curve_size, curve_set. destruct (i <? 0)%Z; [reflexivity|].
  rewrite list_set_length. reflexivity.
Qed.

Lemma fold_left_map {A B C} (f : A -> B -> A) (h : C -> B) (l : list C) :
  forall a, fold_left (fun a x => f a (h x)) l a = fold_left f (map h l) a.
Proof. induction l as [|x l IH]; intros a; simpl; auto. Qed.

Lemma range_Z_length (lo hi : Z) :
  Z.of_nat (length (range_Z lo hi)) = Z.max 0 (hi - lo).
Proof. unfold range_Z. rewrite length_map, length_seq. lia. Qed.

Lemma split_first_half_size (normalize : Vector3f -> Vector3f)
      (edge_curve : DeformableSplineCurve) (segment_index : GRuint)
      (new_vertex_position : Vector3f) :
  (0 <= segment_index)%Z ->
  curve_size (split_first_half normalize edge_curve segment_index
                               new_vertex_position)
  = (segment_index + 2)%Z.
Proof.
  intros Hi. unfold split_first_half.
  set (start := curve_of_ends _ _).
  rewrite (fold_left_map add_middle_point (curve_at edge_curve)).
  set (first_half := fold_left add_middle_point _ start).
  assert (Hsize : curve_size first_half = (segment_index + 2)%Z).
  { unfold first_half. rewrite fold_add_middle_point_size
      by (unfold start, curve_of_ends, curve_size; simpl; lia).
    rewrite length_map, range_Z_length.
    unfold start, curve_of_ends, curve_size. simpl length. lia. }
  destruct (3 <=? curve_size first_half)%Z; [|exact Hsize].
  unfold curve_set_tangent. rewrite curve_set_size. exact Hsize.
Qed.

Lemma split_second_half_size (normalize : Vector3f -> Vector3f)
      (edge_curve : DeformableSplineCurve) (segment_index : GRuint)
      (new_vertex_position : Vector3f) :
  (curve_size edge_curve < 2 ^ 64)%Z ->
  (0 <= segment_index < curve_size edge_curve - 1)%Z ->
  curve_size (split_second_half normalize edge_curve segment_index
                                new_vertex_position)
  = (curve_size edge_curve - segment_index)%Z.
Proof.
  intros Hs Hi. unfold split_second_half.
  set (start := curve_of_ends _ _).
  rewrite (fold_left_map add_middle_point (curve_at edge_curve)).
  set (second_half := fold_left add_middle_point _ start).
  assert (Hsize : curve_size second_half
                  = (curve_size edge_curve - segment_index)%Z).
  { unfold second_half. rewrite fold_add_middle_point_size
      by (unfold start, curve_of_ends, curve_size; simpl; lia).
    rewrite length_map, range_Z_length.
    rewrite to_size_t_small by lia.
    unfold start, curve_of_ends. unfold curve_size at 1. simpl length. lia. }
  destruct (3 <=? curve_size second_half)%Z; [|exact Hsize].
  unfold curve_set_tangent. rewrite curve_set_size. exact Hsize.
Qed.

Lemma update_edge_miss l (x : EdgeDescriptor)
      (f : EdgeProperties -> EdgeProperties) :
  (forall ep, In ep l -> edge_eqb (fst ep) x = false) ->
  map (fun ep => if edge_eqb (fst ep) x then (fst ep, f (snd ep)) else ep) l = l.
Proof.
  intros H. rewrite <- (map_id l) at 2. apply map_ext_in.
  intros ep Hep. rewrite (H ep Hep). reflexivity.
Qed.

Lemma lookup_edge_app_old l1 l2 (e : EdgeDescriptor) (p : EdgeProperties) :
  boost.lookup_edge l1 e = Some p ->
  boost.lookup_edge (l1 ++ l2) e = Some p.
Proof.
  induction l1 as [|[d q] l1 IH]; simpl; [discriminate|].
  destruct (edge_eqb d e); auto.
Qed.

Lemma lookup_edge_app_new l1 l2 (e : EdgeDescriptor) :
  (forall ep, In ep l1 -> edge_eqb (fst ep) e = false) ->
  boost.lookup_edge (l1 ++ l2) e = boost.lookup_edge l2 e.
Proof.
  induction l1 as [|[d q] l1 IH]; simpl; intros H; [reflexivity|].
  pose proof (H (d, q) (or_introl eq_refl)) as Hd. simpl in Hd.
  rewrite Hd. apply IH.
  intros ep Hep. apply H. right. exact Hep.
Qed.

(** In a graph with few edges, a vertex that two different stored edges
    touch does not have degree 1. *)
Lemma degree_not_one (g : SkeletalGraph) (v : VertexDescriptor)
      (l1 l2 : list EdgeDescriptor) (x y : EdgeDescriptor) :
  edges g = l1 ++ x :: l2 ->
  In y (l1 ++ l2) ->
  incident v x = true -> incident v y = true ->
  (2 * Z.of_nat (length (edges g)) < GRuint_modulus)%Z ->
  degree g v <> 1%Z.
Proof.
  intros He Hy Hx Hiy Hfew.
  unfold degree, boost.in_degree, boost.out_degree, boost.in_edges,
    boost.out_edges. fold (edges g).
  set (ft := fun e => Nat.eqb (m_target e) v).
  set (fs := fun e => Nat.eqb (m_source e) v).
  pose proof (filter_length_bound ft (edges g)) as Hb1.
  pose proof (filter_length_bound fs (edges g)) as Hb2.
  rewrite to_GRuint_small by lia.
  assert (Hsum : forall l,
             (length (filter (incident v) l)
              <= length (filter ft l) + length (filter fs l))%nat).
  { induction l as [|a l IH]; simpl; [lia|].
    unfold incident at 1. fold (fs a). fold (ft a).
    destruct (fs a), (ft a); simpl; lia. }
  specialize (Hsum (edges g)).
  assert (Htwo : (2 <= length (filter (incident v) (edges g)))%nat).
  { rewrite He, filter_app, length_app. simpl. rewrite Hx. simpl.
    apply in_app_or in Hy. destruct Hy as [Hy|Hy].
    - pose proof (filter_length_in (incident v) l1 y Hy Hiy). lia.
    - pose proof (filter_length_in (incident v) l2 y Hy Hiy). lia. }
  lia.
Qed.

(** The store [split_edge_at] leaves behind when the index is valid. *)
Lemma split_edge_at_returns (normalize : Vector3f -> Vector3f)
      (g : SkeletalGraph) (e : EdgeDescriptor) (i : GRuint) (p : Vector3f) :
  well_formed g -> In e (edges g) -> few_edges g ->
  let size := curve_size (curve (get_edge g e)) in
  (size < 2 ^ 64)%Z -> (0 <= i < size - 1)%Z ->
  let m := boost.m_fresh (internal_graph_ g) in
  let l := mkEdgeDescriptor (m_source e) m (S m) in
  let r := mkEdgeDescriptor m (m_target e) (S (S m)) in
  let cyc := edge_is_part_of_cycle (get_edge g e) in
  let c := curve (get_edge g e) in
  exists g',
    split_edge_at normalize g e i p = Returned g' (m, (l, r))
    /\ boost.m_vertices (internal_graph_ g')
       = boost.m_vertices (internal_graph_ g)
         ++ [(m, VertexProperties_init p (get_edge_radius g e i))]
    /\ boost.m_edges (internal_graph_ g')
       = filter (fun ep => negb (edge_eqb (fst ep) e))
                (boost.m_edges (internal_graph_ g))
         ++ [(l, mkEdgeProperties (split_first_half normalize c i p) cyc);
             (r, mkEdgeProperties (split_second_half normalize c i p) cyc)]
    /\ boost.m_fresh (internal_graph_ g') = S (S (S m))
    /\ edge_spline_count g'
       = to_GRuint
           (to_GRuint
              (to_GRuint (edge_spline_count g + to_GRuint (i + 2))
               + to_GRuint (size - i))
            - to_GRuint size).
Proof.
  intros Hwf He Hfew size Hsize Hi m l r cyc c.
  unfold split_edge_at. fold c. change (curve_size c) with size.
  rewrite (@to_size_t_small (size - 1)) by lia.
  destruct (Z.leb_spec (size - 1) i) as [Hge|_]; [lia|].
  destruct (wf_endpoints Hwf e He) as [Hs Ht].
  pose proof (wf_vertex_range Hwf _ Hs) as Hsr.
  pose proof (wf_vertex_range Hwf _ Ht) as Htr.
  pose proof (wf_edge_range Hwf _ He) as Her.
  fold m in Hsr, Htr, Her.
  set (props0 := VertexProperties_init p _).
  (* the new vertex *)
  pose proof (add_vertex_spec g props0) as H1.
  pose proof (add_vertex_well_formed props0 Hwf) as Hwf1.
  assert (Hme1 : boost.m_edges (internal_graph_ (fst (add_vertex g props0)))
                 = boost.m_edges (internal_graph_ g)) by reflexivity.
  assert (Hc1 : edge_spline_count (fst (add_vertex g props0))
                = edge_spline_count g) by reflexivity.
  destruct (add_vertex g props0) as [g1 m']. cbn [fst snd] in *.
  destruct H1 as (Hm & Hv1 & He1 & Hf1). fold m in Hm, Hf1. subst m'.
  unfold boost.source, boost.target.
  set (props1 := mkEdgeProperties (split_first_half _ _ _ _) false).
  set (props2 := mkEdgeProperties (split_second_half _ _ _ _) false).
  assert (Hm0 : m <> null_vertex)
    by (unfold null_vertex, boost.null_vertex; lia).
  assert (Hs0 : m_source e <> null_vertex)
    by (unfold null_vertex, boost.null_vertex; lia).
  assert (Ht0 : m_target e <> null_vertex)
    by (unfold null_vertex, boost.null_vertex; lia).
  assert (Hin1 : forall v, In v (vertices g) \/ v = m -> In v (vertices g1)).
  { intros v Hv. unfold vertices, boost.vertices. rewrite Hv1, map_app.
    apply in_or_app. destruct Hv as [Hv| ->]; [left; exact Hv | right; left; reflexivity]. }
  (* the left edge *)
  pose proof (@add_edge_spec g1 (m_source e) m props1 Hs0 Hm0) as H2.
  pose proof (@add_edge_stored g1 (m_source e) m props1 Hwf1 Hs0 Hm0) as Hst2.
  pose proof (@add_edge_count g1 (m_source e) m props1 Hs0 Hm0) as Hc2.
  pose proof (@add_edge_well_formed g1 (m_source e) m props1 Hwf1
                (Hin1 _ (or_introl Hs)) (Hin1 _ (or_intror eq_refl))) as Hwf2.
  destruct (add_edge g1 (m_source e) m props1) as [g2 [l' bl]].
  cbn [fst snd] in *. destruct H2 as (Hl & He2 & Hv2 & Hf2).
  destruct Hc2 as [Hc2 _]. rewrite Hf1 in Hl, Hst2, Hf2.
  injection Hl as Hl _. fold l in Hl, Hst2. subst l'.
  assert (Hin2 : forall v, In v (vertices g1) -> In v (vertices g2)).
  { intros v Hv. unfold vertices, boost.vertices. rewrite Hv2. exact Hv. }
  (* the right edge *)
  pose proof (@add_edge_spec g2 m (m_target e) props2 Hm0 Ht0) as H3.
  pose proof (@add_edge_stored g2 m (m_target e) props2 Hwf2 Hm0 Ht0) as Hst3.
  pose proof (@add_edge_count g2 m (m_target e) props2 Hm0 Ht0) as Hc3.
  destruct (add_edge g2 m (m_target e) props2) as [g3 [r' br]].
  cbn [fst snd] in *. destruct H3 as (Hr & He3 & Hv3 & Hf3).
  destruct Hc3 as [Hc3 _]. rewrite Hf2 in Hr, Hst3, Hf3.
  injection Hr as Hr _. fold r in Hr, Hst3. subst r'.
  (* the edge being split is still read through the old store *)
  destruct (stored_of_edge g e He) as [p0 Hp0].
  pose proof (@get_edge_stored g e p0 Hwf Hp0) as Hget0.
  assert (Hold : forall ep, In ep (boost.m_edges (internal_graph_ g)) ->
                            (m_eproperty (fst ep) < m)%nat).
  { intros [d q] Hd. assert (Hd' : In d (edges g)).
    { unfold edges, boost.edges. apply (in_map fst _ _ Hd). }
    apply (wf_edge_range Hwf) in Hd'. simpl. unfold m. lia. }
  assert (Hmiss : forall x : EdgeDescriptor, (m < m_eproperty x)%nat ->
             forall ep, In ep (boost.m_edges (internal_graph_ g)) ->
                        edge_eqb (fst ep) x = false).
  { intros x Hx ep Hep. apply Hold in Hep. unfold edge_eqb.
    apply Nat.eqb_neq. lia. }
  assert (Hlook0 : boost.lookup_edge (boost.m_edges (internal_graph_ g)) e
                   = Some p0).
  { apply lookup_edge_stored; [apply nodup_stored; exact Hwf | exact Hp0]. }
  assert (Hget3 : get_edge g3 e = p0).
  { unfold get_edge, boost.get_edge. rewrite Hst3, Hst2, Hme1.
    rewrite (@lookup_edge_app_old _ _ e p0 (@lookup_edge_app_old _ _ e p0 Hlook0)).
    reflexivity. }
  rewrite Hget3.
  assert (Hcyc : edge_is_part_of_cycle p0 = cyc)
    by (unfold cyc; rewrite Hget0; reflexivity).
  rewrite Hcyc.
  match goal with
  | |- context [remove_edge ?h e] => set (g5 := h)
  end.
  assert (Hst5 : boost.m_edges (internal_graph_ g5)
                 = boost.m_edges (internal_graph_ g)
                   ++ [(l, mkEdgeProperties (curve props1) cyc);
                       (r, mkEdgeProperties (curve props2) cyc)]).
  { unfold g5. cbn [with_graph internal_graph_ boost.update_edge boost.m_edges].
    rewrite Hst3, Hst2, Hme1. rewrite !map_app.
    assert (Hl0 : map (fun ep : EdgeDescriptor * EdgeProperties =>
                         if edge_eqb (fst ep) l
                         then (fst ep, mkEdgeProperties (curve (snd ep)) cyc)
                         else ep)
                      (boost.m_edges (internal_graph_ g))
                  = boost.m_edges (internal_graph_ g)).
    { apply (@update_edge_miss _ l (fun q => mkEdgeProperties (curve q) cyc)).
      apply Hmiss. unfold l. simpl. lia. }
    assert (Hr0 : map (fun ep : EdgeDescriptor * EdgeProperties =>
                         if edge_eqb (fst ep) r
                         then (fst ep, mkEdgeProperties (curve (snd ep)) cyc)
                         else ep)
                      (boost.m_edges (internal_graph_ g))
                  = boost.m_edges (internal_graph_ g)).
    { apply (@update_edge_miss _ r (fun q => mkEdgeProperties (curve q) cyc)).
      apply Hmiss. unfold r. simpl. lia. }
    rewrite Hl0, Hr0.
    rewrite <- app_assoc. f_equal.
    assert (Hll : edge_eqb l l = true) by (unfold edge_eqb; apply Nat.eqb_refl).
    assert (Hrr : edge_eqb r r = true) by (unfold edge_eqb; apply Nat.eqb_refl).
    assert (Hlr : edge_eqb l r = false)
      by (unfold edge_eqb, l, r; simpl m_eproperty; apply Nat.eqb_neq; lia).
    assert (Hrl : edge_eqb r l = false)
      by (unfold edge_eqb, l, r; simpl m_eproperty; apply Nat.eqb_neq; lia).
    cbn [map app fst snd]. rewrite Hll, Hrl. cbn [fst snd].
    rewrite Hlr, Hrr. reflexivity. }
  assert (He5 : edges g5 = edges g ++ [l; r]).
  { unfold edges, boost.edges. rewrite Hst5, map_app. reflexivity. }
  assert (Hv5 : boost.m_vertices (internal_graph_ g5)
                = boost.m_vertices (internal_graph_ g) ++ [(m, props0)]).
  { unfold g5. cbn [with_graph internal_graph_ boost.update_edge boost.m_vertices].
    rewrite Hv3, Hv2. exact Hv1. }
  assert (Hf5 : boost.m_fresh (internal_graph_ g5) = S (S (S m))) by exact Hf3.
  assert (Hc5 : edge_spline_count_ g5 = edge_spline_count g3) by reflexivity.
  assert (Hget5 : get_edge g5 e = p0).
  { unfold get_edge, boost.get_edge. rewrite Hst5.
    rewrite (@lookup_edge_app_old _ _ e p0 Hlook0). reflexivity. }
  assert (Hd : edge_eqb e EdgeDescriptor_default = false).
  { unfold edge_eqb. simpl. apply Nat.eqb_neq. lia. }
  assert (He5' : In e (edges g5)).
  { rewrite He5. apply in_or_app. left. exact He. }
  assert (Hfew5 : (2 * Z.of_nat (length (edges g5)) < GRuint_modulus)%Z).
  { rewrite He5, length_app. simpl length. unfold few_edges in Hfew. lia. }
  assert (Hincs : incident (m_source e) e = true)
    by (unfold incident; rewrite Nat.eqb_refl; reflexivity).
  assert (Hinct : incident (m_target e) e = true)
    by (unfold incident; rewrite Nat.eqb_refl; apply orb_true_r).
  assert (Hdeg_s : degree g5 (m_source e) <> 1%Z).
  { apply (@degree_not_one g5 (m_source e) (edges g) [r] l e);
      [exact He5 | apply in_or_app; left; exact He | | exact Hincs | exact Hfew5].
    unfold incident, l. simpl. rewrite Nat.eqb_refl. reflexivity. }
  assert (Hdeg_t : degree g5 (m_target e) <> 1%Z).
  { apply (@degree_not_one g5 (m_target e) (edges g ++ [l]) [] r e);
      [rewrite He5, <- app_assoc; reflexivity
      | rewrite app_nil_r; apply in_or_app; left; exact He
      | | exact Hinct | exact Hfew5].
    unfold incident, r. simpl. rewrite Nat.eqb_refl. apply orb_true_r. }
  destruct (remove_edge_unfold g5 e Hd (edge_of_existing _ e He5'))
    as (rs & rt & Hrs & Hrt & Hg6).
  destruct rs; [exfalso; apply Hdeg_s, Hrs; reflexivity|].
  destruct rt; [exfalso; apply Hdeg_t, Hrt; reflexivity|].
  destruct (remove_edge g5 e) as [g6 vp]. cbn [fst] in Hg6. subst g6.
  eexists. split; [reflexivity|].
  cbn [internal_graph_ boost.remove_edge boost.m_vertices boost.m_edges
         boost.m_fresh edge_spline_count edge_spline_count_].
  split; [exact Hv5|]. split; [|split; [exact Hf5|]].
  - rewrite Hst5, filter_app. f_equal.
    assert (Hle : edge_eqb l e = false)
      by (unfold edge_eqb, l; simpl m_eproperty; apply Nat.eqb_neq; lia).
    assert (Hre : edge_eqb r e = false)
      by (unfold edge_eqb, r; simpl m_eproperty; apply Nat.eqb_neq; lia).
    cbn [filter fst]. rewrite Hle, Hre. cbn [negb].
    unfold props1, props2. reflexivity.
  - rewrite Hc5, Hc3, Hc2, Hc1, Hget5.
    unfold props1, props2. cbn [curve].
    rewrite split_first_half_size by lia.
    rewrite split_second_half_size by (change (curve_size c) with size; lia).
    change (curve_size c) with size. assert (Hsz : curve_size (curve p0) = size)
      by (unfold size; rewrite Hget0; reflexivity).
    rewrite Hsz. reflexivity.
Qed.

Lemma add_middle_point_snoc (l : DeformableSplineCurve) (b p : PointTangent) :
  add_middle_point (l ++ [b]) p = l ++ [p; b].
Proof.
  unfold add_middle_point, curve_back.
  rewrite removelast_last, last_last. reflexivity.
Qed.

Lemma fold_add_middle_point_snoc (pts : list PointTangent) :
  forall (l : DeformableSplineCurve) (b : PointTangent),
    fold_left add_middle_point pts (l ++ [b]) = l ++ pts ++ [b].
Proof.
  induction pts as [|p pts IH]; intros l b; simpl; [reflexivity|].
  rewrite add_middle_point_snoc.
  change (l ++ [p; b]) with (l ++ [p] ++ [b]). rewrite app_assoc, IH.
  rewrite <- app_assoc. reflexivity.
Qed.

Lemma list_set_positions (c : DeformableSplineCurve) (n : nat) (t : Vector3f) :
  map fst (list_set c n (fst (nth n c default_sample), t)) = map fst c.
Proof.
  revert n. induction c as [|a c IH]; intros [|n]; simpl; try reflexivity.
  rewrite IH. reflexivity.
Qed.

(** Writing a tangent moves no sample. *)
Lemma curve_set_tangent_positions (c : DeformableSplineCurve) (i : Z)
      (t : Vector3f) :
  map fst (curve_set_tangent c i t) = map fst c.
Proof.
  unfold curve_set_tangent, curve_set, curve_at.
  destruct (i <? 0)%Z; [reflexivity | apply list_set_positions].
Qed.

Lemma map_nth_seq_0 {A} (d : A) (n : nat) :
  forall c : list A,
    (n <= length c)%nat ->
    map (fun j => nth j c d) (seq 0 n) = firstn n c.
Proof.
  induction n as [|n IH]; intros c Hn; [reflexivity|].
  destruct c as [|a c]; [simpl in Hn; lia|].
  simpl seq. rewrite <- seq_shift. simpl map. rewrite map_map.
  simpl. f_equal. apply IH. simpl in Hn. lia.
Qed.

Lemma map_nth_seq {A} (d : A) (n : nat) :
  forall (c : list A) (k : nat),
    (k + n <= length c)%nat ->
    map (fun j => nth j c d) (seq k n) = firstn n (skipn k c).
Proof.
  induction c as [|a c IH]; intros k Hk.
  - simpl in Hk. assert (n = 0%nat) by lia. subst n.
    destruct k; reflexivity.
  - destruct k as [|k].
    + apply map_nth_seq_0. simpl in *. lia.
    + rewrite <- seq_shift, map_map. simpl. apply IH. simpl in Hk. lia.
Qed.

Lemma seq_from (a n : nat) :
  map (fun k => (a + k)%nat) (seq 0 n) = seq a n.
Proof.
  induction a as [|a IH]; simpl.
  - apply map_id.
  - rewrite <- seq_shift, <- IH, map_map. reflexivity.
Qed.

Lemma curve_at_range (c : DeformableSplineCurve) (lo hi : Z) :
  (0 <= lo <= hi)%Z -> (hi <= curve_size c)%Z ->
  map (curve_at c) (range_Z lo hi)
  = firstn (Z.to_nat (hi - lo)) (skipn (Z.to_nat lo) c).
Proof.
  intros Hlo Hhi. unfold range_Z, curve_at, curve_size in *.
  rewrite map_map.
  rewrite <- (@map_nth_seq _ default_sample (Z.to_nat (hi - lo)) c (Z.to_nat lo))
    by lia.
  rewrite <- (seq_from (Z.to_nat lo)). rewrite map_map.
  apply map_ext. intros k. f_equal. lia.
Qed.

Lemma firstn_last {A} (c : list A) (d : A) :
  c <> [] -> firstn (length c - 1) c ++ [last c d] = c.
Proof.
  intros Hc. rewrite Nat.sub_1_r, <- removelast_firstn_len.
  symmetry. apply app_removelast_last. exact Hc.
Qed.

Lemma skipn_to_last {A} (d : A) :
  forall (c : list A) (k : nat),
    (k < length c)%nat ->
    firstn (length c - 1 - k) (skipn k c) ++ [last c d] = skipn k c.
Proof.
  induction c as [|a c IH]; intros k Hk; [simpl in Hk; lia|].
  destruct k as [|k].
  - rewrite Nat.sub_0_r. apply firstn_last. discriminate.
  - simpl in Hk. destruct c as [|b c]; [simpl in Hk; lia|].
    change (skipn (S k) (a :: b :: c)) with (skipn k (b :: c)).
    change (last (a :: b :: c) d) with (last (b :: c) d).
    replace (length (a :: b :: c) - 1 - S k)%nat
      with (length (b :: c) - 1 - k)%nat by (simpl; lia).
    apply IH. lia.
Qed.

(** The left curve runs through the samples [0 .. segment_index] of the
    split curve and ends at the new vertex. *)
Lemma split_first_half_positions (normalize : Vector3f -> Vector3f)
      (edge_curve : DeformableSplineCurve) (segment_index : GRuint)
      (new_vertex_position : Vector3f) :
  (0 <= segment_index)%Z -> (segment_index + 1 <= curve_size edge_curve)%Z ->
  map fst (split_first_half normalize edge_curve segment_index
                            new_vertex_position)
  = map fst (firstn (Z.to_nat segment_index + 1) edge_curve)
    ++ [new_vertex_position].
Proof.
  intros Hi Hs. unfold split_first_half.
  rewrite (fold_left_map add_middle_point (curve_at edge_curve)).
  match goal with
  | |- context [fold_left add_middle_point ?pts (curve_of_ends ?a ?b)] =>
      set (first_half := fold_left add_middle_point pts (curve_of_ends a b));
      assert (Hfh : first_half = [a] ++ pts ++ [b])
        by apply (fold_add_middle_point_snoc pts [a] b)
  end.
  rewrite curve_at_range in Hfh by lia.
  replace (segment_index + 1 - 1)%Z with segment_index in Hfh by lia.
  rewrite Hfh.
  assert (Hshape : map fst ([curve_front edge_curve]
                            ++ firstn (Z.to_nat segment_index)
                                      (skipn (Z.to_nat 1) edge_curve)
                            ++ [(new_vertex_position,
                                 normalize
                                   (vsub new_vertex_position
                                         (fst (curve_at edge_curve segment_index))))])
                   = map fst (firstn (Z.to_nat segment_index + 1) edge_curve)
                     ++ [new_vertex_position]).
  { rewrite app_assoc, map_app. simpl map at 2. f_equal. f_equal.
    unfold curve_size in Hs.
    destruct edge_curve as [|a c]; [simpl in Hs; lia|].
    rewrite Nat.add_1_r. reflexivity. }
  match goal with
  | |- map fst (if ?b then _ else _) = _ => destruct b
  end; [rewrite curve_set_tangent_positions|]; exact Hshape.
Qed.

(** The right curve starts at the new vertex and runs through the
    samples after [segment_index]. *)
Lemma split_second_half_positions (normalize : Vector3f -> Vector3f)
      (edge_curve : DeformableSplineCurve) (segment_index : GRuint)
      (new_vertex_position : Vector3f) :
  (curve_size edge_curve < 2 ^ 64)%Z ->
  (0 <= segment_index < curve_size edge_curve - 1)%Z ->
  map fst (split_second_half normalize edge_curve segment_index
                             new_vertex_position)
  = new_vertex_position
    :: map fst (skipn (Z.to_nat segment_index + 1) edge_curve).
Proof.
  intros Hs Hi. unfold split_second_half.
  rewrite (fold_left_map add_middle_point (curve_at edge_curve)).
  match goal with
  | |- context [fold_left add_middle_point ?pts (curve_of_ends ?a ?b)] =>
      set (second_half := fold_left add_middle_point pts (curve_of_ends a b));
      assert (Hsh : second_half = [a] ++ pts ++ [b])
        by apply (fold_add_middle_point_snoc pts [a] b)
  end.
  rewrite to_size_t_small in Hsh by lia.
  rewrite curve_at_range in Hsh by lia.
  rewrite Hsh.
  assert (Hshape :
            map fst ([(new_vertex_position,
                       normalize
                         (vsub (fst (curve_at edge_curve (segment_index + 1)))
                               new_vertex_position))]
                     ++ firstn (Z.to_nat (curve_size edge_curve - 1
                                          - (segment_index + 1)))
                               (skipn (Z.to_nat (segment_index + 1)) edge_curve)
                     ++ [curve_back edge_curve])
            = new_vertex_position
              :: map fst (skipn (Z.to_nat segment_index + 1) edge_curve)).
  { simpl app. simpl map. f_equal. f_equal.
    unfold curve_size in *. unfold curve_back.
    replace (Z.to_nat (Z.of_nat (length edge_curve) - 1 - (segment_index + 1)))
      with (length edge_curve - 1 - Z.to_nat (segment_index + 1))%nat by lia.
    replace (Z.to_nat segment_index + 1)%nat
      with (Z.to_nat (segment_index + 1)) by lia.
    apply skipn_to_last. lia. }
  match goal with
  | |- map fst (if ?b then _ else _) = _ => destruct b
  end; [rewrite curve_set_tangent_positions|]; exact Hshape.
Qed.

Lemma filter_out_edge_length l (e : EdgeDescriptor) (p : EdgeProperties) :
  NoDup (map (fun ep => m_eproperty (fst ep)) l) ->
  In (e, p) l ->
  S (length (filter (fun ep => negb (edge_eqb (fst ep) e)) l)) = length l.
Proof.
  induction l as [|[d q] l IH]; simpl; intros Hnd Hin; [contradiction|].
  inversion Hnd as [|? ? Hfresh Hnd']; subst.
  destruct Hin as [Heq|Hin].
  - injection Heq as -> ->. unfold edge_eqb at 1. rewrite Nat.eqb_refl. simpl.
    f_equal. f_equal. apply filter_all. intros [d q] Hd. simpl.
    apply negb_true_iff. unfold edge_eqb. apply Nat.eqb_neq. intros E.
    apply Hfresh. simpl. rewrite <- E.
    apply (in_map (fun ep => m_eproperty (fst ep)) l (d, q) Hd).
  - unfold edge_eqb at 1. simpl.
    destruct (Nat.eqb_spec (m_eproperty d) (m_eproperty e)) as [E|_].
    + exfalso. apply Hfresh. simpl. rewrite E.
      apply (in_map (fun ep => m_eproperty (fst ep)) l (e, p) Hin).
    + simpl. f_equal. apply IH; assumption.
Qed.

(** The store after a split is well formed. *)
Lemma split_store_well_formed (g g' : SkeletalGraph) (e l r : EdgeDescriptor)
      (props : VertexProperties) (pl pr : EdgeProperties) :
  well_formed g -> In e (edges g) ->
  let m := boost.m_fresh (internal_graph_ g) in
  l = mkEdgeDescriptor (m_source e) m (S m) ->
  r = mkEdgeDescriptor m (m_target e) (S (S m)) ->
  boost.m_vertices (internal_graph_ g')
  = boost.m_vertices (internal_graph_ g) ++ [(m, props)] ->
  boost.m_edges (internal_graph_ g')
  = filter (fun ep => negb (edge_eqb (fst ep) e))
           (boost.m_edges (internal_graph_ g)) ++ [(l, pl); (r, pr)] ->
  boost.m_fresh (internal_graph_ g') = S (S (S m)) ->
  well_formed g'.
Proof.
  intros Hwf He m Hl Hr Hv Hed Hf.
  assert (Hvs : vertices g' = vertices g ++ [m]).
  { unfold vertices, boost.vertices. rewrite Hv, map_app. reflexivity. }
  assert (Hes : edges g' = filter (fun x => negb (edge_eqb x e)) (edges g)
                           ++ [l; r]).
  { unfold edges, boost.edges. rewrite Hed, map_app. f_equal.
    apply (filter_map_fst (fun x => negb (edge_eqb x e))). }
  destruct (wf_endpoints Hwf e He) as [Hs Ht].
  destruct Hwf as [H1 H2 H3 H4 H5 H6]. fold m in H1, H2, H4.
  constructor; rewrite ?Hvs, ?Hes, ?Hf.
  - lia.
  - intros v Hin. apply in_app_or in Hin. destruct Hin as [Hin|[<-|[]]].
    + specialize (H2 v Hin). lia.
    + lia.
  - apply NoDup_snoc; [exact H3|]. intros Hin. specialize (H2 _ Hin). lia.
  - intros x Hin. apply in_app_or in Hin.
    destruct Hin as [Hin|[<-|[<-|[]]]].
    + apply filter_In in Hin. destruct Hin as [Hin _].
      specialize (H4 x Hin). lia.
    + rewrite Hl. simpl. lia.
    + rewrite Hr. simpl. lia.
  - rewrite map_app. simpl. rewrite Hl, Hr. simpl.
    assert (Hold : forall k, In k (map m_eproperty
                                       (filter (fun x => negb (edge_eqb x e))
                                               (edges g))) -> (k < m)%nat).
    { intros k Hk. apply in_map_iff in Hk. destruct Hk as (x & <- & Hx).
      apply filter_In in Hx. destruct Hx as [Hx _]. specialize (H4 x Hx). lia. }
    change [S m; S (S m)] with ([S m] ++ [S (S m)]). rewrite app_assoc.
    apply NoDup_snoc; [apply NoDup_snoc|].
    + apply NoDup_map_filter. exact H5.
    + intros Hin. apply Hold in Hin. lia.
    + intros Hin. apply in_app_or in Hin. destruct Hin as [Hin|[Hin|[]]].
      * apply Hold in Hin. lia.
      * lia.
  - intros x Hin. apply in_app_or in Hin.
    destruct Hin as [Hin|[<-|[<-|[]]]].
    + apply filter_In in Hin. destruct Hin as [Hin _].
      destruct (H6 x Hin). split; apply in_or_app; left; assumption.
    + rewrite Hl. simpl. split; apply in_or_app; [left; exact Hs|].
      right. left. reflexivity.
    + rewrite Hr. simpl. split; apply in_or_app; [|left; exact Ht].
      right. left. reflexivity.
Qed.

Lemma to_GRuint_decomp (x : Z) :
  exists k, to_GRuint x = (x + k * 4294967296)%Z.
Proof.
  exists (- (x / GRuint_modulus))%Z. unfold to_GRuint.
  pose proof (Z.div_mod x GRuint_modulus) as H.
  change GRuint_modulus with 4294967296%Z in *. lia.
Qed.

Lemma to_GRuint_congruent (a b : Z) :
  (exists k, a = b + k * 4294967296)%Z -> to_GRuint a = to_GRuint b.
Proof.
  intros [k ->]. unfold to_GRuint. apply Z_mod_plus_full.
Qed.

Lemma to_GRuint_split_count (count i size : Z) :
  to_GRuint
    (to_GRuint (to_GRuint (count + to_GRuint (i + 2)) + to_GRuint (size - i))
     - to_GRuint size)
  = to_GRuint (count + 2).
Proof.
  destruct (to_GRuint_decomp (i + 2)) as [k1 ->].
  destruct (to_GRuint_decomp (size - i)) as [k2 ->].
  destruct (to_GRuint_decomp size) as [k3 ->].
  destruct (to_GRuint_decomp (count + (i + 2 + k1 * 4294967296))) as [k4 ->].
  match goal with
  | |- to_GRuint (to_GRuint ?x - _) = _ =>
      destruct (to_GRuint_decomp x) as [k5 ->]
  end.
  apply to_GRuint_congruent. exists (k1 + k2 - k3 + k4 + k5)%Z. lia.
Qed.

(** X11.  Splitting an edge of a well-formed graph, whose curve has
    fewer than [2^32] samples, at a valid segment adds one vertex and,
    net, one edge.  The left curve has
    [segment_index + 2] samples and the right one
    [size - segment_index], so the sample count grows by exactly 2; a
    consistent count stays consistent and the graph stays well
    formed. *)
Theorem split_edge_at_counts (normalize : Vector3f -> Vector3f)
        (g : SkeletalGraph) (e : EdgeDescriptor) (i : GRuint) (p : Vector3f) :
  well_formed g -> In e (edges g) -> few_edges g ->
  let size := curve_size (curve (get_edge g e)) in
  (size < GRuint_modulus)%Z -> (0 <= i < size - 1)%Z ->
  exists g' m l r,
    split_edge_at normalize g e i p = Returned g' (m, (l, r))
    /\ length (vertices g') = S (length (vertices g))
    /\ length (edges g') = S (length (edges g))
    /\ curve_size (curve (get_edge g' l)) = (i + 2)%Z
    /\ curve_size (curve (get_edge g' r)) = (size - i)%Z
    /\ edge_spline_count g' = to_GRuint (edge_spline_count g + 2)
    /\ (count_consistent g -> count_consistent g')
    /\ well_formed g'.
Proof.
  intros Hwf He Hfew size Hsize32 Hi.
  assert (Hsize : (size < 2 ^ 64)%Z).
  { change GRuint_modulus with 4294967296%Z in Hsize32.
    change (2 ^ 64)%Z with 18446744073709551616%Z. lia. }
  destruct (@split_edge_at_returns normalize g e i p Hwf He Hfew Hsize Hi)
    as (g' & Hret & Hv & Hed & Hf & Hc).
  fold size in Hc.
  set (m := boost.m_fresh (internal_graph_ g)) in *.
  set (l := mkEdgeDescriptor (m_source e) m (S m)) in *.
  set (r := mkEdgeDescriptor m (m_target e) (S (S m))) in *.
  set (c := curve (get_edge g e)) in *.
  exists g', m, l, r.
  destruct (stored_of_edge g e He) as [p0 Hp0].
  pose proof (wf_edge_range Hwf e He) as Her. fold m in Her.
  assert (Hwf' : well_formed g').
  { apply (@split_store_well_formed g g' e l r _ _ _ Hwf He eq_refl eq_refl
             Hv Hed Hf). }
  assert (Hlook : forall x q, In (x, q) [(l, mkEdgeProperties
                                               (split_first_half normalize c i p)
                                               (edge_is_part_of_cycle (get_edge g e)));
                                         (r, mkEdgeProperties
                                               (split_second_half normalize c i p)
                                               (edge_is_part_of_cycle (get_edge g e)))] ->
                              get_edge g' x = q).
  { intros x q Hin. apply (get_edge_stored x q Hwf').
    rewrite Hed. apply in_or_app. right. exact Hin. }
  refine (conj Hret (conj _ (conj _ (conj _ (conj _ (conj _ (conj _ Hwf'))))))).
  - unfold vertices, boost.vertices. rewrite Hv, !length_map, length_app.
    simpl. lia.
  - unfold edges, boost.edges. rewrite Hed, !length_map, length_app.
    rewrite <- (@filter_out_edge_length _ e p0 (nodup_stored Hwf) Hp0). simpl. lia.
  - rewrite (Hlook l _ (or_introl eq_refl)). cbn [curve].
    apply split_first_half_size. lia.
  - rewrite (Hlook r _ (or_intror (or_introl eq_refl))). cbn [curve].
    apply split_second_half_size; [exact Hsize | exact Hi].
  - rewrite Hc. apply to_GRuint_split_count.
  - intros Hcc. unfold count_consistent in *.
    rewrite Hc, to_GRuint_split_count, Hcc.
    unfold sum_curve_sizes.
    fold (samples_of (boost.m_edges (internal_graph_ g))).
    fold (samples_of (boost.m_edges (internal_graph_ g'))).
    rewrite Hed, samples_of_app.
    pose proof (samples_of_filter (fun ep => edge_eqb (fst ep) e)
                                  (boost.m_edges (internal_graph_ g))) as Hs.
    cbv beta in Hs.
    rewrite (@samples_of_one _ e p0 (nodup_stored Hwf) Hp0) in Hs.
    unfold samples_of at 3. cbn [map fold_right snd curve].
    rewrite split_first_half_size by lia.
    rewrite split_second_half_size by assumption.
    assert (Hp0' : curve_size (curve p0) = size).
    { unfold size, c. rewrite (get_edge_stored e p0 Hwf Hp0). reflexivity. }
    change (curve_size c) with size.
    destruct (to_GRuint_decomp (samples_of (boost.m_edges (internal_graph_ g))))
      as [k ->].
    apply to_GRuint_congruent. exists k. lia.
Qed.

Lemma split_edge_at_counts_witness :
  exists g' m l r,
    split_edge_at unnormalized
                  (one_edge unnormalized (Finite 1%Q) (Finite 1%Q))
                  edge_1_2 0%Z (vec 1 0 0)
    = Returned g' (m, (l, r))
    /\ length (vertices g')
       = S (length (vertices (one_edge unnormalized (Finite 1%Q) (Finite 1%Q))))
    /\ length (edges g')
       = S (length (edges (one_edge unnormalized (Finite 1%Q) (Finite 1%Q))))
    /\ curve_size (curve (get_edge g' l)) = (0 + 2)%Z
    /\ curve_size (curve (get_edge g' r))
       = (curve_size (curve (get_edge
                               (one_edge unnormalized (Finite 1%Q) (Finite 1%Q))
                               edge_1_2)) - 0)%Z
    /\ edge_spline_count g'
       = to_GRuint
           (edge_spline_count (one_edge unnormalized (Finite 1%Q) (Finite 1%Q))
            + 2)
    /\ (count_consistent (one_edge unnormalized (Finite 1%Q) (Finite 1%Q)) ->
        count_consistent g')
    /\ well_formed g'.
Proof.
  apply (@split_edge_at_counts unnormalized
           (one_edge unnormalized (Finite 1%Q) (Finite 1%Q))
           edge_1_2 0%Z (vec 1 0 0)
           (one_edge_well_formed _ _) (or_introl eq_refl)).
  - reflexivity.
  - reflexivity.
  - vm_compute. split; [discriminate | reflexivity].
Defined.

Lemma lookup_vertex_app_old l1 l2 (v : VertexDescriptor) (p : VertexProperties) :
  boost.lookup_vertex l1 v = Some p ->
  boost.lookup_vertex (l1 ++ l2) v = Some p.
Proof.
  induction l1 as [|[w q] l1 IH]; simpl; [discriminate|].
  destruct (Nat.eqb w v); auto.
Qed.

(** X12.  The two edges [split_edge_at] creates from a curve of fewer
    than [2^32] samples carry the samples of the split curve: the left
    curve runs through the samples
    [0 .. segment_index] and ends at the new position, the right curve
    starts at the new position and runs through the samples after
    [segment_index].  Both inherit the cycle flag of the split edge; the
    new vertex gets the interpolated radius and clear marks; the other
    vertices and edges keep their properties. *)
Theorem split_edge_at_keeps_samples (normalize : Vector3f -> Vector3f)
        (g : SkeletalGraph) (e : EdgeDescriptor) (i : GRuint) (p : Vector3f) :
  well_formed g -> In e (edges g) -> few_edges g ->
  let c := curve (get_edge g e) in
  (curve_size c < GRuint_modulus)%Z -> (0 <= i < curve_size c - 1)%Z ->
  exists g' m l r,
    split_edge_at normalize g e i p = Returned g' (m, (l, r))
    /\ map fst (curve (get_edge g' l))
       = map fst (firstn (Z.to_nat i + 1) c) ++ [p]
    /\ map fst (curve (get_edge g' r))
       = p :: map fst (skipn (Z.to_nat i + 1) c)
    /\ edge_is_part_of_cycle (get_edge g' l)
       = edge_is_part_of_cycle (get_edge g e)
    /\ edge_is_part_of_cycle (get_edge g' r)
       = edge_is_part_of_cycle (get_edge g e)
    /\ get_vertex g' m = VertexProperties_init p (get_edge_radius g e i)
    /\ (forall w, In w (vertices g) -> get_vertex g' w = get_vertex g w)
    /\ (forall x, In x (edges g) -> edge_eqb x e = false ->
                  get_edge g' x = get_edge g x).
Proof.
  intros Hwf He Hfew c Hsize32 Hi.
  assert (Hsize : (curve_size c < 2 ^ 64)%Z).
  { change GRuint_modulus with 4294967296%Z in Hsize32.
    change (2 ^ 64)%Z with 18446744073709551616%Z. lia. }
  destruct (@split_edge_at_returns normalize g e i p Hwf He Hfew Hsize Hi)
    as (g' & Hret & Hv & Hed & Hf & Hc).
  set (m := boost.m_fresh (internal_graph_ g)) in *.
  set (l := mkEdgeDescriptor (m_source e) m (S m)) in *.
  set (r := mkEdgeDescriptor m (m_target e) (S (S m))) in *.
  fold c in Hed.
  exists g', m, l, r.
  assert (Hwf' : well_formed g').
  { apply (@split_store_well_formed g g' e l r _ _ _ Hwf He eq_refl eq_refl
             Hv Hed Hf). }
  assert (Hgl : get_edge g' l
                = mkEdgeProperties (split_first_half normalize c i p)
                                   (edge_is_part_of_cycle (get_edge g e))).
  { apply (get_edge_stored l _ Hwf'). rewrite Hed. apply in_or_app.
    right. left. reflexivity. }
  assert (Hgr : get_edge g' r
                = mkEdgeProperties (split_second_half normalize c i p)
                                   (edge_is_part_of_cycle (get_edge g e))).
  { apply (get_edge_stored r _ Hwf'). rewrite Hed. apply in_or_app.
    right. right. left. reflexivity. }
  refine (conj Hret (conj _ (conj _ (conj _ (conj _ (conj _ (conj _ _))))))).
  - rewrite Hgl. cbn [curve]. apply split_first_half_positions; lia.
  - rewrite Hgr. cbn [curve]. apply split_second_half_positions; assumption.
  - rewrite Hgl. reflexivity.
  - rewrite Hgr. reflexivity.
  - unfold get_vertex, boost.get_vertex. rewrite Hv.
    rewrite lookup_vertex_app_fresh; [reflexivity|].
    intros Hin. apply (wf_vertex_range Hwf) in Hin. unfold m in Hin. lia.
  - intros w Hw. unfold get_vertex, boost.get_vertex. rewrite Hv.
    destruct (lookup_vertex_in _ _ Hw) as [q Hq].
    rewrite (@lookup_vertex_app_old _ _ w q Hq), Hq. reflexivity.
  - intros x Hx Hne. destruct (stored_of_edge g x Hx) as [q Hq].
    rewrite (get_edge_stored x q Hwf Hq).
    apply (get_edge_stored x q Hwf'). rewrite Hed. apply in_or_app. left.
    apply filter_In. split; [exact Hq|]. simpl. rewrite Hne. reflexivity.
Qed.

Lemma split_edge_at_keeps_samples_witness :
  exists g' m l r,
    split_edge_at unnormalized
                  (one_edge unnormalized (Finite 1%Q) (Finite 1%Q))
                  edge_1_2 0%Z (vec 1 0 0)
    = Returned g' (m, (l, r))
    /\ map fst (curve (get_edge g' l)) = [vec 0 0 0; vec 1 0 0]
    /\ map fst (curve (get_edge g' r)) = [vec 1 0 0; vec 2 0 0].
Proof.
  destruct (@split_edge_at_keeps_samples unnormalized
              (one_edge unnormalized (Finite 1%Q) (Finite 1%Q))
              edge_1_2 0%Z (vec 1 0 0)
              (one_edge_well_formed _ _) (or_introl eq_refl))
    as (g' & m & l & r & H1 & H2 & H3 & _).
  - reflexivity.
  - reflexivity.
  - vm_compute. split; [discriminate | reflexivity].
  - exists g', m, l, r. split; [exact H1|]. split; [exact H2 | exact H3].
Defined.

(** ** [collapse_edge], whichever end is kept *)

Lemma collapse_edge_unfold (normalize : Vector3f -> Vector3f)
      (g : SkeletalGraph) (e : EdgeDescriptor) (option : COLLAPSE_OPTION) :
  In e (edges g) -> m_source e <> null_vertex -> m_target e <> null_vertex ->
  collapse_edge normalize g e option
  = collapse_onto normalize g e
      (fst (fst (collapse_choice g e option)))
      (snd (fst (collapse_choice g e option)))
      (snd (collapse_choice g e option)).
Proof.
  intros He Hs Ht. unfold collapse_edge, boost.source, boost.target.
  rewrite (edge_of_existing (internal_graph_ g) e He).
  apply Nat.eqb_neq in Hs. apply Nat.eqb_neq in Ht.
  unfold null_vertex in Hs, Ht. rewrite Hs, Ht. cbn [orb negb].
  destruct option; reflexivity.
Qed.

Lemma add_edges_to_spec (to_keep : VertexDescriptor)
      (l : list (VertexDescriptor * EdgeProperties)) :
  to_keep <> null_vertex ->
  forall st : SkeletalGraph * EdgeVector,
    (forall sp, In sp l -> fst sp <> null_vertex) ->
    exists added,
      edges (fst (add_edges_to to_keep st l)) = edges (fst st) ++ added
      /\ snd (add_edges_to to_keep st l) = snd st ++ added
      /\ map m_source added = map fst l
      /\ Forall (fun y => m_target y = to_keep) added
      /\ boost.m_vertices (internal_graph_ (fst (add_edges_to to_keep st l)))
         = boost.m_vertices (internal_graph_ (fst st)).
Proof.
  intros Hk. unfold add_edges_to.
  induction l as [|[s p] l IH]; intros st Hl; simpl.
  - exists []. rewrite !app_nil_r. repeat split; constructor.
  - assert (Hs : s <> null_vertex) by (apply (Hl (s, p)); left; reflexivity).
    destruct (add_edge_spec (fst st) p Hs Hk) as (Hr & He & Hv & _).
    destruct (add_edge (fst st) s to_keep p) as [g' r]. cbn [fst snd] in *.
    match goal with
    | |- context [fold_left _ l ?st'] =>
        destruct (IH st') as (added & H1 & H2 & H3 & H4 & H5)
    end.
    { intros sp Hsp. apply Hl. right. exact Hsp. }
    cbn [fst snd] in *. subst r. cbn [fst] in *.
    exists (mkEdgeDescriptor s to_keep (boost.m_fresh (internal_graph_ (fst st)))
            :: added).
    rewrite H1, H2, He, <- !app_assoc. simpl.
    repeat split; try congruence.
    constructor; [reflexivity | exact H4].
Qed.

Lemma add_edges_from_spec (to_keep : VertexDescriptor)
      (l : list (VertexDescriptor * EdgeProperties)) :
  to_keep <> null_vertex ->
  forall st : SkeletalGraph * EdgeVector,
    (forall tp, In tp l -> fst tp <> null_vertex) ->
    exists added,
      edges (fst (add_edges_from to_keep st l)) = edges (fst st) ++ added
      /\ snd (add_edges_from to_keep st l) = snd st ++ added
      /\ map m_target added = map fst l
      /\ Forall (fun y => m_source y = to_keep) added
      /\ boost.m_vertices (internal_graph_ (fst (add_edges_from to_keep st l)))
         = boost.m_vertices (internal_graph_ (fst st)).
Proof.
  intros Hk. unfold add_edges_from.
  induction l as [|[t p] l IH]; intros st Hl; simpl.
  - exists []. rewrite !app_nil_r. repeat split; constructor.
  - assert (Ht : t <> null_vertex) by (apply (Hl (t, p)); left; reflexivity).
    destruct (add_edge_spec (fst st) p Hk Ht) as (Hr & He & Hv & _).
    destruct (add_edge (fst st) to_keep t p) as [g' r]. cbn [fst snd] in *.
    match goal with
    | |- context [fold_left _ l ?st'] =>
        destruct (IH st') as (added & H1 & H2 & H3 & H4 & H5)
    end.
    { intros tp Htp. apply Hl. right. exact Htp. }
    cbn [fst snd] in *. subst r. cbn [fst] in *.
    exists (mkEdgeDescriptor to_keep t (boost.m_fresh (internal_graph_ (fst st)))
            :: added).
    rewrite H1, H2, He, <- !app_assoc. simpl.
    repeat split; try congruence.
    constructor; [reflexivity | exact H4].
Qed.

(** The ends queued by [collapse_edge] are ends of edges of the graph. *)
Lemma collapse_in_edges_sources (normalize : Vector3f -> Vector3f)
      (g : SkeletalGraph) (e : EdgeDescriptor) (keep drop : VertexDescriptor)
      (pos : Vector3f) (s : VertexDescriptor) :
  In s (map fst (collapse_in_edges normalize g e keep drop pos))
  <-> exists x, In x (edges g) /\ m_target x = drop /\ edge_eqb x e = false
                /\ m_source x <> keep /\ s = m_source x.
Proof.
  unfold collapse_in_edges, boost.in_edges, boost.source. fold (edges g).
  rewrite in_map_iff. split.
  - intros ([s' q] & Hs & Hin). simpl in Hs. subst s'.
    apply in_flat_map in Hin. destruct Hin as (x & Hx & Hin).
    apply filter_In in Hx. destruct Hx as [Hx Ht]. apply Nat.eqb_eq in Ht.
    destruct (edge_eqb x e) eqn:Ee; simpl in Hin; [contradiction|].
    destruct (Nat.eqb_spec (m_source x) keep) as [Ek|Ek]; simpl in Hin;
      [contradiction|].
    destruct Hin as [Hin|[]]. injection Hin as <- _.
    exists x. tauto.
  - intros (x & Hx & Ht & Ee & Hk & ->).
    eexists (m_source x, _). split; [reflexivity|].
    apply in_flat_map. exists x. split.
    + apply filter_In. split; [exact Hx | apply Nat.eqb_eq; exact Ht].
    + rewrite Ee. simpl. apply Nat.eqb_neq in Hk. rewrite Hk. simpl.
      left. reflexivity.
Qed.

Lemma collapse_out_edges_targets (normalize : Vector3f -> Vector3f)
      (g : SkeletalGraph) (e : EdgeDescriptor) (keep drop : VertexDescriptor)
      (pos : Vector3f) (t : VertexDescriptor) :
  In t (map fst (collapse_out_edges normalize g e keep drop pos))
  <-> exists x, In x (edges g) /\ m_source x = drop /\ edge_eqb x e = false
                /\ m_target x <> keep /\ t = m_target x.
Proof.
  unfold collapse_out_edges, boost.out_edges, boost.target. fold (edges g).
  rewrite in_map_iff. split.
  - intros ([t' q] & Hs & Hin). simpl in Hs. subst t'.
    apply in_flat_map in Hin. destruct Hin as (x & Hx & Hin).
    apply filter_In in Hx. destruct Hx as [Hx Ht]. apply Nat.eqb_eq in Ht.
    destruct (edge_eqb x e) eqn:Ee; simpl in Hin; [contradiction|].
    destruct (Nat.eqb_spec (m_target x) keep) as [Ek|Ek]; simpl in Hin;
      [contradiction|].
    destruct Hin as [Hin|[]]. injection Hin as <- _.
    exists x. tauto.
  - intros (x & Hx & Ht & Ee & Hk & ->).
    eexists (m_target x, _). split; [reflexivity|].
    apply in_flat_map. exists x. split.
    + apply filter_In. split; [exact Hx | apply Nat.eqb_eq; exact Ht].
    + rewrite Ee. simpl. apply Nat.eqb_neq in Hk. rewrite Hk. simpl.
      left. reflexivity.
Qed.

Lemma collapse_onto_spec (normalize : Vector3f -> Vector3f)
      (g : SkeletalGraph) (e : EdgeDescriptor) (keep drop : VertexDescriptor)
      (pos : Vector3f) :
  well_formed g -> In keep (vertices g) ->
  exists g' cleared added_in added_out,
    collapse_onto normalize g e keep drop pos
    = Returned g' ((drop, cleared), added_in ++ added_out)
    /\ edges g'
       = filter (fun x => negb (incident drop x)) (edges g)
         ++ added_in ++ added_out
    /\ map m_source added_in
       = map fst (collapse_in_edges normalize g e keep drop pos)
    /\ Forall (fun y => m_target y = keep) added_in
    /\ map m_target added_out
       = map fst (collapse_out_edges normalize g e keep drop pos)
    /\ Forall (fun y => m_source y = keep) added_out
    /\ vertices g' = vertices g
    /\ position (get_vertex g' keep) = pos
    /\ (forall w, w <> keep -> get_vertex g' w = get_vertex g w).
Proof.
  intros Hwf Hk.
  pose proof (well_formed_not_null Hwf Hk) as Hk0.
  unfold collapse_onto.
  set (ins := collapse_in_edges _ _ _ _ _ _).
  set (outs := collapse_out_edges _ _ _ _ _ _).
  assert (Hins : forall sp, In sp ins -> fst sp <> null_vertex).
  { intros sp Hsp.
    assert (H : In (fst sp) (map fst ins)) by (apply in_map; exact Hsp).
    apply collapse_in_edges_sources in H.
    destruct H as (x & Hx & _ & _ & _ & ->).
    apply (well_formed_not_null Hwf). apply (wf_endpoints Hwf x Hx). }
  assert (Houts : forall tp, In tp outs -> fst tp <> null_vertex).
  { intros tp Htp.
    assert (H : In (fst tp) (map fst outs)) by (apply in_map; exact Htp).
    apply collapse_out_edges_targets in H.
    destruct H as (x & Hx & _ & _ & _ & ->).
    apply (well_formed_not_null Hwf). apply (wf_endpoints Hwf x Hx). }
  destruct (clear_vertex_spec g drop) as [Hce Hcv].
  destruct (clear_vertex g drop) as [g1 cleared]. cbn [fst] in Hce, Hcv.
  destruct (@add_edges_to_spec keep ins Hk0 (g1, []) Hins)
    as (added_in & He2 & Ha2 & Hs2 & Ht2 & Hv2).
  destruct (add_edges_to keep (g1, []) ins) as [g2 acc2].
  cbn [fst snd] in *.
  destruct (@add_edges_from_spec keep outs Hk0 (g2, acc2) Houts)
    as (added_out & He3 & Ha3 & Hs3 & Ht3 & Hv3).
  destruct (add_edges_from keep (g2, acc2) outs) as [g3 new_edges].
  cbn [fst snd] in *. subst acc2 new_edges.
  eexists _, cleared, added_in, added_out.
  split; [reflexivity|].
  assert (Hv : vertices g3 = vertices g).
  { unfold vertices, boost.vertices. rewrite Hv3, Hv2, Hcv. reflexivity. }
  assert (Hm : boost.m_vertices (internal_graph_ g3)
               = boost.m_vertices (internal_graph_ g)).
  { rewrite Hv3, Hv2, Hcv. reflexivity. }
  match goal with
  | |- context [with_graph g3 (boost.update_vertex keep ?f (internal_graph_ g3))] =>
      change (with_graph g3 (boost.update_vertex keep f (internal_graph_ g3)))
        with (update_vertex g3 keep f);
      set (g4 := update_vertex g3 keep f)
  end.
  refine (conj _ (conj Hs2 (conj Ht2 (conj Hs3 (conj Ht3 (conj _ (conj _ _))))))).
  - unfold g4. rewrite edges_update, He3, He2, Hce, <- app_assoc. reflexivity.
  - unfold g4. rewrite vertices_update. exact Hv.
  - unfold g4. rewrite get_vertex_update_same by (rewrite Hv; exact Hk).
    reflexivity.
  - intros w Hw. unfold g4. rewrite get_vertex_update_other by exact Hw.
    unfold get_vertex, boost.get_vertex. rewrite Hm. reflexivity.
Qed.

Lemma collapse_choice_ends (g : SkeletalGraph) (e : EdgeDescriptor)
      (option : COLLAPSE_OPTION) :
  let keep := fst (fst (collapse_choice g e option)) in
  let drop := snd (fst (collapse_choice g e option)) in
  (keep = m_source e /\ drop = m_target e)
  \/ (keep = m_target e /\ drop = m_source e).
Proof. destruct option; simpl; tauto. Qed.

(** X13.  For an edge of a well-formed graph with few enough edges for
    the [GRuint] loops that re-add the queued edges, whichever end is
    kept: when the vertex [collapse_edge] clears carries no self-loop
    and every curve at it has the two samples the source reads at
    [size() - 2], the call returns that vertex isolated (degree 0) and still in the graph,
    every vertex that was joined to it, other than the kept one, is
    joined to the kept vertex by a new edge in the same direction, and
    the kept vertex is the only one whose properties change: it moves to
    its own position ([SOURCE], [TARGET]) or to the midpoint. *)
Theorem collapse_edge_isolates (normalize : Vector3f -> Vector3f)
        (g : SkeletalGraph) (e : EdgeDescriptor) (option : COLLAPSE_OPTION) :
  well_formed g -> In e (edges g) ->
  few_edges g ->
  let keep := fst (fst (collapse_choice g e option)) in
  let drop := snd (fst (collapse_choice g e option)) in
  (forall x, In x (edges g) -> incident drop x = true ->
             (2 <= curve_size (curve (get_edge g x)))%Z) ->
  (forall x, In x (edges g) -> ~ (m_source x = drop /\ m_target x = drop)) ->
  exists g' cleared new_edges,
    collapse_edge normalize g e option
    = Returned g' ((drop, cleared), new_edges)
    /\ vertices g' = vertices g
    /\ degree g' drop = 0%Z
    /\ (forall x, In x (edges g) -> m_target x = drop -> m_source x <> keep ->
                  exists y, In y new_edges /\ In y (edges g')
                            /\ m_source y = m_source x /\ m_target y = keep)
    /\ (forall x, In x (edges g) -> m_source x = drop -> m_target x <> keep ->
                  exists y, In y new_edges /\ In y (edges g')
                            /\ m_source y = keep /\ m_target y = m_target x)
    /\ position (get_vertex g' keep) = snd (collapse_choice g e option)
    /\ (forall w, w <> keep -> get_vertex g' w = get_vertex g w).
Proof.
  intros Hwf He _ keep drop _ Hloop.
  destruct (wf_endpoints Hwf e He) as [Hs Ht].
  pose proof (well_formed_not_null Hwf Hs) as Hs0.
  pose proof (well_formed_not_null Hwf Ht) as Ht0.
  rewrite (@collapse_edge_unfold normalize g e option He Hs0 Ht0).
  fold keep. fold drop.
  pose proof (collapse_choice_ends g e option) as Hends.
  cbv zeta in Hends. fold keep in Hends. fold drop in Hends.
  assert (Hk : In keep (vertices g)) by (destruct Hends as [[-> _]|[-> _]]; assumption).
  assert (Hkd : keep <> drop).
  { intros E. apply (Hloop e He).
    destruct Hends as [[H1 H2]|[H1 H2]]; rewrite <- H1, <- H2, E; tauto. }
  assert (Hedge : forall x, edge_eqb x e = true ->
                            m_target x = drop -> m_source x <> keep ->
                            In x (edges g) -> False).
  { intros x Ex Hx Hxk Hin. unfold edge_eqb in Ex. apply Nat.eqb_eq in Ex.
    assert (x = e).
    { pose proof (wf_edge_nodup Hwf) as Hnd. clear - Hnd Hin He Ex.
      induction (edges g) as [|a l IH]; [contradiction|].
      simpl in Hnd. inversion Hnd as [|? ? Ha Hnd']; subst.
      destruct Hin as [->|Hin], He as [->|He']; auto.
      - exfalso. apply Ha. rewrite Ex. apply in_map. exact He'.
      - exfalso. apply Ha. rewrite <- Ex. apply in_map. exact Hin. }
    subst x. destruct Hends as [[H1 H2]|[H1 H2]].
    - apply Hxk. symmetry. exact H1.
    - apply (Hloop e He). split; [symmetry; exact H2 | exact Hx]. }
  assert (Hedge' : forall x, edge_eqb x e = true ->
                             m_source x = drop -> m_target x <> keep ->
                             In x (edges g) -> False).
  { intros x Ex Hx Hxk Hin. unfold edge_eqb in Ex. apply Nat.eqb_eq in Ex.
    assert (x = e).
    { pose proof (wf_edge_nodup Hwf) as Hnd. clear - Hnd Hin He Ex.
      induction (edges g) as [|a l IH]; [contradiction|].
      simpl in Hnd. inversion Hnd as [|? ? Ha Hnd']; subst.
      destruct Hin as [->|Hin], He as [->|He']; auto.
      - exfalso. apply Ha. rewrite Ex. apply in_map. exact He'.
      - exfalso. apply Ha. rewrite <- Ex. apply in_map. exact Hin. }
    subst x. destruct Hends as [[H1 H2]|[H1 H2]].
    - apply (Hloop e He). split; [exact Hx | symmetry; exact H2].
    - apply Hxk. symmetry. exact H1. }
  destruct (@collapse_onto_spec normalize g e keep drop
              (snd (collapse_choice g e option)) Hwf Hk)
    as (g' & cleared & added_in & added_out & Hret & Hed & Hsi & Hti & Hto
        & Hso & Hv & Hpos & Hother).
  exists g', cleared, (added_in ++ added_out).
  assert (Hfree : forall y, In y (edges g') -> incident drop y = false).
  { intros y Hy. rewrite Hed in Hy. apply in_app_or in Hy.
    destruct Hy as [Hy|Hy].
    { apply filter_In in Hy. apply negb_true_iff, Hy. }
    unfold incident. apply orb_false_iff.
    apply in_app_or in Hy. destruct Hy as [Hy|Hy].
    - assert (Hsrc : In (m_source y) (map m_source added_in))
        by (apply in_map; exact Hy).
      rewrite Hsi in Hsrc. apply collapse_in_edges_sources in Hsrc.
      destruct Hsrc as (x & Hx & Hxt & _ & _ & Hyx).
      rewrite Forall_forall in Hti. rewrite (Hti y Hy).
      split; apply Nat.eqb_neq; [|exact Hkd].
      rewrite Hyx. intros E. apply (Hloop x Hx). tauto.
    - assert (Htgt : In (m_target y) (map m_target added_out))
        by (apply in_map; exact Hy).
      rewrite Hto in Htgt. apply collapse_out_edges_targets in Htgt.
      destruct Htgt as (x & Hx & Hxs & _ & _ & Hyx).
      rewrite Forall_forall in Hso. rewrite (Hso y Hy).
      split; apply Nat.eqb_neq; [exact Hkd|].
      rewrite Hyx. intros E. apply (Hloop x Hx). tauto. }
  refine (conj Hret (conj Hv (conj _ (conj _ (conj _ (conj Hpos Hother)))))).
  - unfold degree, boost.in_degree, boost.out_degree, boost.in_edges,
      boost.out_edges. fold (edges g').
    rewrite !filter_empty; [reflexivity | |];
      intros y Hy; specialize (Hfree y Hy); unfold incident in Hfree;
      apply orb_false_iff in Hfree; tauto.
  - intros x Hx Hxt Hxk.
    assert (Hq : In (m_source x)
                    (map fst (collapse_in_edges normalize g e keep drop
                                (snd (collapse_choice g e option))))).
    { apply collapse_in_edges_sources. exists x.
      destruct (edge_eqb x e) eqn:Ee; [exfalso; eauto|]. tauto. }
    rewrite <- Hsi in Hq. apply in_map_iff in Hq.
    destruct Hq as (y & Hys & Hy). exists y.
    rewrite Forall_forall in Hti.
    split; [apply in_or_app; left; exact Hy|].
    split; [rewrite Hed; apply in_or_app; right; apply in_or_app; left; exact Hy|].
    split; [exact Hys | apply Hti; exact Hy].
  - intros x Hx Hxs Hxk.
    assert (Hq : In (m_target x)
                    (map fst (collapse_out_edges normalize g e keep drop
                                (snd (collapse_choice g e option))))).
    { apply collapse_out_edges_targets. exists x.
      destruct (edge_eqb x e) eqn:Ee; [exfalso; eauto|]. tauto. }
    rewrite <- Hto in Hq. apply in_map_iff in Hq.
    destruct Hq as (y & Hyt & Hy). exists y.
    rewrite Forall_forall in Hso.
    split; [apply in_or_app; right; exact Hy|].
    split; [rewrite Hed; apply in_or_app; right; apply in_or_app; right; exact Hy|].
    split; [apply Hso; exact Hy | exact Hyt].
Qed.

Lemma collapse_edge_isolates_witness :
  exists g' cleared new_edges,
    collapse_edge unnormalized
                  (one_edge unnormalized (Finite 1%Q) (Finite 1%Q))
                  edge_1_2 TARGET
    = Returned g' ((1%nat, cleared), new_edges)
    /\ vertices g' = vertices (one_edge unnormalized (Finite 1%Q) (Finite 1%Q))
    /\ degree g' 1 = 0%Z.
Proof.
  destruct (@collapse_edge_isolates unnormalized
              (one_edge unnormalized (Finite 1%Q) (Finite 1%Q))
              edge_1_2 TARGET (one_edge_well_formed _ _) (or_introl eq_refl))
    as (g' & cleared & new_edges & H1 & H2 & H3 & _).
  - reflexivity.
  - intros x [<-|[]] _. vm_compute. discriminate.
  - intros x [<-|[]] [H3 H4]. discriminate.
  - exists g', cleared, new_edges. split; [exact H1|]. split; [exact H2 | exact H3].
Defined.

(** * Further properties of the graph algorithms *)

(** ** [shortest_path]: what the search touches *)

Lemma get_vertex_update (g : SkeletalGraph) (v w : VertexDescriptor)
      (f : VertexProperties -> VertexProperties) :
  get_vertex (update_vertex g v f) w
  = if Nat.eqb w v
    then match boost.lookup_vertex (boost.m_vertices (internal_graph_ g)) w with
         | Some p => f p
         | None => VertexProperties_default
         end
    else get_vertex g w.
Proof.
  unfold get_vertex, update_vertex, boost.get_vertex; simpl.
  rewrite lookup_vertex_update.
  destruct (Nat.eqb w v); [|reflexivity].
  destruct (boost.lookup_vertex _ w); reflexivity.
Qed.

Section SameStore.

Variable R : VertexProperties -> VertexProperties -> Prop.
Hypothesis R_refl : forall p, R p p.
Hypothesis R_trans : forall p q r, R p q -> R q r -> R p r.

Lemma same_store_refl (g : SkeletalGraph) : same_store R g g.
Proof.
  unfold same_store. repeat split; try reflexivity. intros v. apply R_refl.
Qed.

Lemma same_store_trans (g1 g2 g3 : SkeletalGraph) :
  same_store R g1 g2 -> same_store R g2 g3 -> same_store R g1 g3.
Proof.
  intros (A1 & A2 & A3 & A4 & A5) (B1 & B2 & B3 & B4 & B5).
  unfold same_store.
  refine (conj _ (conj _ (conj _ (conj _ _)))); try congruence.
  intros v. apply (R_trans (B5 v) (A5 v)).
Qed.

Lemma update_vertex_same_store (g : SkeletalGraph) (v : VertexDescriptor)
      (f : VertexProperties -> VertexProperties) :
  (forall p, R (f p) p) ->
  same_store R g (update_vertex g v f).
Proof.
  intros Hf. unfold same_store.
  refine (conj eq_refl (conj eq_refl (conj eq_refl (conj _ _)))).
  - apply vertices_update.
  - intros w. rewrite get_vertex_update.
    destruct (Nat.eqb w v); [|apply R_refl].
    unfold get_vertex, boost.get_vertex.
    destruct (boost.lookup_vertex _ w); [apply Hf | apply R_refl].
Qed.

Lemma fold_update_same_store (f : VertexProperties -> VertexProperties)
      (l : list VertexDescriptor) :
  (forall p, R (f p) p) ->
  forall g, same_store R g (fold_left (fun g v => update_vertex g v f) l g).
Proof.
  intros Hf. induction l as [|v l IH]; intros g; simpl.
  - apply same_store_refl.
  - eapply same_store_trans; [|apply IH].
    apply update_vertex_same_store. exact Hf.
Qed.

End SameStore.

Lemma same_but_BFS_refl (p : VertexProperties) : same_but_BFS p p.
Proof. unfold same_but_BFS. tauto. Qed.

Lemma same_but_BFS_trans (p q r : VertexProperties) :
  same_but_BFS p q -> same_but_BFS q r -> same_but_BFS p r.
Proof.
  unfold same_but_BFS. intros (A1 & A2 & A3 & A4 & A5) (B1 & B2 & B3 & B4 & B5).
  repeat split; congruence.
Qed.

Lemma search_marks_only_refl (g : SkeletalGraph) : search_marks_only g g.
Proof. apply same_store_refl. exact same_but_BFS_refl. Qed.

Lemma search_marks_only_trans (g1 g2 g3 : SkeletalGraph) :
  search_marks_only g1 g2 -> search_marks_only g2 g3 ->
  search_marks_only g1 g3.
Proof. apply same_store_trans. exact same_but_BFS_trans. Qed.

Lemma update_vertex_marks_only (g : SkeletalGraph) (v : VertexDescriptor)
      (f : VertexProperties -> VertexProperties) :
  (forall p, same_but_BFS (f p) p) ->
  search_marks_only g (update_vertex g v f).
Proof. apply update_vertex_same_store. exact same_but_BFS_refl. Qed.

Lemma fold_update_marks_only (f : VertexProperties -> VertexProperties)
      (l : list VertexDescriptor) :
  (forall p, same_but_BFS (f p) p) ->
  forall g, search_marks_only g (fold_left (fun g v => update_vertex g v f) l g).
Proof.
  apply fold_update_same_store;
    [exact same_but_BFS_refl | exact same_but_BFS_trans].
Qed.

Lemma set_BFS_same (k : GRuint) (c : VertexDescriptor) (p : VertexProperties) :
  same_but_BFS (set_BFS k c p) p.
Proof. unfold same_but_BFS. simpl. tauto. Qed.

Lemma reset_BFS_marks_only (g : SkeletalGraph) :
  search_marks_only g (reset_BFS g).
Proof.
  unfold reset_BFS. apply fold_update_marks_only. apply set_BFS_same.
Qed.

Lemma bfs_visit_marks_only (from c : VertexDescriptor) (cc : GRuint)
      (st : SkeletalGraph * list VertexDescriptor * bool) (n : VertexDescriptor) :
  search_marks_only (fst (fst st)) (fst (fst (bfs_visit from c cc st n))).
Proof.
  destruct st as [[g q] found]. unfold bfs_visit. cbn [fst].
  destruct (negb _); [|apply search_marks_only_refl].
  destruct (_ <? _)%Z; cbn [fst]; [|apply search_marks_only_refl].
  apply update_vertex_marks_only. apply set_BFS_same.
Qed.

Lemma bfs_visits_marks_only (from c : VertexDescriptor) (cc : GRuint)
      (ns : list VertexDescriptor) :
  forall st : SkeletalGraph * list VertexDescriptor * bool,
    search_marks_only (fst (fst st))
                      (fst (fst (fold_left (bfs_visit from c cc) ns st))).
Proof.
  induction ns as [|n ns IH]; intros st; simpl.
  - apply search_marks_only_refl.
  - eapply search_marks_only_trans; [apply bfs_visit_marks_only | apply IH].
Qed.

Lemma bfs_iteration_marks_only (from : VertexDescriptor) (g : SkeletalGraph)
      (c : VertexDescriptor) (rest : list VertexDescriptor) (found : bool) :
  search_marks_only g (fst (fst (bfs_iteration from g c rest found))).
Proof.
  unfold bfs_iteration.
  eapply search_marks_only_trans; [|apply bfs_visits_marks_only].
  apply (bfs_visits_marks_only from c _ _ (g, rest, found)).
Qed.

Lemma bfs_loop_marks_only (from : VertexDescriptor) (remaining : nat) :
  forall st : SkeletalGraph * list VertexDescriptor * bool,
    search_marks_only (fst (fst st))
                      (fst (fst (bfs_loop remaining from st))).
Proof.
  induction remaining as [|k IH]; intros [[g q] found]; simpl.
  - apply search_marks_only_refl.
  - destruct q as [|c rest]; [apply search_marks_only_refl|].
    eapply search_marks_only_trans; [|apply IH].
    apply bfs_iteration_marks_only.
Qed.

Lemma shortest_path_marks_only (fuel : nat) (g : SkeletalGraph)
      (from to : VertexDescriptor) (o : outcome (list VertexDescriptor)) :
  shortest_path fuel g from to = Some o ->
  search_marks_only g (graph_after o).
Proof.
  unfold shortest_path. destruct (Nat.eqb from to).
  { intros H. injection H as <-. apply search_marks_only_refl. }
  set (g2 := update_vertex (reset_BFS g) to (set_BFS_path_cost 0%Z)).
  assert (H2 : search_marks_only g g2).
  { eapply search_marks_only_trans; [apply reset_BFS_marks_only|].
    apply update_vertex_marks_only. intros p. apply set_BFS_same. }
  pose proof (bfs_loop_marks_only from (Z.to_nat (to_GRuint (vertex_count g2 * 2)))
                (g2, [to], false)) as H3.
  destruct (bfs_loop _ _ _) as [[g3 q3] found3]. cbn [fst] in H3.
  pose proof (search_marks_only_trans H2 H3) as H4.
  destruct found3; cbn [negb].
  - destruct (follow_parents fuel g3 _); [|discriminate].
    intros H. injection H as <-. cbn [graph_after].
    eapply search_marks_only_trans; [exact H4 | apply reset_BFS_marks_only].
  - intros H. injection H as <-. exact H4.
Qed.

(** ** [shortest_path]: every step of the path follows an edge *)

Lemma get_vertex_absent (g : SkeletalGraph) (v : VertexDescriptor) :
  ~ In v (vertices g) -> get_vertex g v = VertexProperties_default.
Proof.
  intros Hv. unfold get_vertex, boost.get_vertex.
  destruct (boost.lookup_vertex _ v) eqn:E; [|reflexivity].
  exfalso. apply Hv. unfold vertices, boost.vertices.
  clear Hv. induction (boost.m_vertices (internal_graph_ g)) as [|[w q] l IH];
    simpl in *; [discriminate|].
  destruct (Nat.eqb_spec w v); [left; assumption | right; auto].
Qed.

Lemma parent_reset (g : SkeletalGraph) (v : VertexDescriptor) :
  parent (reset_BFS g) v = null_vertex.
Proof.
  destruct (in_dec Nat.eq_dec v (vertices g)) as [Hin|Hout].
  - apply reset_BFS_marks. exact Hin.
  - unfold parent. rewrite get_vertex_absent; [reflexivity|].
    rewrite (proj1 (reset_BFS_shape g)). exact Hout.
Qed.

Lemma parents_adjacent_initial (g : SkeletalGraph) (to : VertexDescriptor) :
  parents_adjacent g (update_vertex (reset_BFS g) to (set_BFS_path_cost 0%Z)).
Proof.
  split.
  - rewrite edges_update. apply reset_BFS_shape.
  - intros v Hv. exfalso. apply Hv. unfold parent.
    rewrite get_vertex_update.
    destruct (Nat.eqb v to); [|apply parent_reset].
    pose proof (parent_reset g v) as Hp. unfold parent, get_vertex,
      boost.get_vertex in Hp.
    destruct (boost.lookup_vertex _ v); [exact Hp | reflexivity].
Qed.

Lemma bfs_visit_parents (g0 : SkeletalGraph) (from c : VertexDescriptor)
      (cc : GRuint) (st : SkeletalGraph * list VertexDescriptor * bool)
      (n : VertexDescriptor) :
  parents_adjacent g0 (fst (fst st)) -> adjacent g0 c n ->
  parents_adjacent g0 (fst (fst (bfs_visit from c cc st n))).
Proof.
  destruct st as [[g q] found]. unfold bfs_visit. cbn [fst].
  intros Hp Hadj.
  destruct (negb _); [|exact Hp].
  destruct (_ <? _)%Z; cbn [fst]; [|exact Hp].
  destruct Hp as [He Hp]. split; [rewrite edges_update; exact He|].
  intros v. unfold parent. rewrite get_vertex_update.
  destruct (Nat.eqb_spec v n) as [->|Hv]; [|apply Hp].
  destruct (boost.lookup_vertex _ n) eqn:E.
  - intros _. exact Hadj.
  - intros H. exfalso. apply H. reflexivity.
Qed.

Lemma bfs_visits_parents (g0 : SkeletalGraph) (from c : VertexDescriptor)
      (cc : GRuint) (ns : list VertexDescriptor) :
  (forall n, In n ns -> adjacent g0 c n) ->
  forall st : SkeletalGraph * list VertexDescriptor * bool,
    parents_adjacent g0 (fst (fst st)) ->
    parents_adjacent g0 (fst (fst (fold_left (bfs_visit from c cc) ns st))).
Proof.
  induction ns as [|n ns IH]; intros Hns st Hp; simpl; [exact Hp|].
  apply IH.
  - intros k Hk. apply Hns. right. exact Hk.
  - apply bfs_visit_parents; [exact Hp | apply Hns; left; reflexivity].
Qed.

Lemma bfs_iteration_parents (g0 : SkeletalGraph) (from : VertexDescriptor)
      (g : SkeletalGraph) (c : VertexDescriptor) (rest : list VertexDescriptor)
      (found : bool) :
  parents_adjacent g0 g ->
  parents_adjacent g0 (fst (fst (bfs_iteration from g c rest found))).
Proof.
  intros Hp. unfold bfs_iteration, boost.in_edges, boost.out_edges,
    boost.source, boost.target.
  fold (edges g). rewrite (proj1 Hp).
  apply bfs_visits_parents.
  - intros n Hn. apply in_map_iff in Hn. destruct Hn as (e & <- & He).
    apply filter_In in He. destruct He as [He Hs]. apply Nat.eqb_eq in Hs.
    exists e. split; [exact He | left; split; [exact Hs | reflexivity]].
  - apply bfs_visits_parents; [|exact Hp].
    intros n Hn. apply in_map_iff in Hn. destruct Hn as (e & <- & He).
    apply filter_In in He. destruct He as [He Ht]. apply Nat.eqb_eq in Ht.
    exists e. split; [exact He | right; split; [reflexivity | exact Ht]].
Qed.

Lemma bfs_loop_parents (g0 : SkeletalGraph) (from : VertexDescriptor)
      (remaining : nat) :
  forall st : SkeletalGraph * list VertexDescriptor * bool,
    parents_adjacent g0 (fst (fst st)) ->
    parents_adjacent g0 (fst (fst (bfs_loop remaining from st))).
Proof.
  induction remaining as [|k IH]; intros [[g q] found] Hp; simpl; [exact Hp|].
  destruct q as [|c rest]; [exact Hp|].
  apply IH. apply bfs_iteration_parents. exact Hp.
Qed.

Lemma adjacent_sym (g : SkeletalGraph) (u v : VertexDescriptor) :
  adjacent g u v -> adjacent g v u.
Proof. intros (e & He & H). exists e. tauto. Qed.

Lemma follow_parents_walk (g0 g : SkeletalGraph) :
  parents_adjacent g0 g ->
  forall (fuel : nat) (v : VertexDescriptor) (l : list VertexDescriptor),
    follow_parents fuel g (parent g v) = Some l -> walk g0 (v :: l).
Proof.
  intros [_ Hp]. induction fuel as [|fuel IH]; intros v l H; [discriminate|].
  simpl in H.
  destruct (Nat.eqb_spec (parent g v) null_vertex) as [E|E].
  - injection H as <-. exact I.
  - fold (parent g (parent g v)) in H.
    destruct (follow_parents fuel g (parent g (parent g v))) as [l'|] eqn:El;
      [|discriminate].
    injection H as <-. split.
    + apply adjacent_sym. apply Hp. exact E.
    + apply IH. exact El.
Qed.

Lemma shortest_path_walk (fuel : nat) (g g' : SkeletalGraph)
      (from to : VertexDescriptor) (path : list VertexDescriptor) :
  shortest_path fuel g from to = Some (Returned g' path) -> walk g path.
Proof.
  unfold shortest_path. destruct (Nat.eqb from to).
  { intros H. injection H as _ <-. exact I. }
  set (g2 := update_vertex (reset_BFS g) to (set_BFS_path_cost 0%Z)).
  pose proof (@bfs_loop_parents g from
                (Z.to_nat (to_GRuint (vertex_count g2 * 2))) (g2, [to], false)
                (parents_adjacent_initial g to)) as Hp.
  destruct (bfs_loop _ _ _) as [[g3 q3] found3]. cbn [fst] in Hp.
  destruct found3; cbn [negb]; [|discriminate].
  destruct (follow_parents fuel g3 _) as [l|] eqn:El; [|discriminate].
  intros H. injection H as _ <-.
  apply (follow_parents_walk Hp fuel from El).
Qed.

(** With enough fuel the walk back along the parents ends: the search
    either throws or returns a path from [from] to [to]. *)
Lemma shortest_path_some (fuel : nat) (g : SkeletalGraph)
      (from to : VertexDescriptor) :
  well_formed g -> In to (vertices g) ->
  (2 * length (vertices g) + 2 <= fuel)%nat ->
  exists o,
    shortest_path fuel g from to = Some o
    /\ forall g' path,
        o = Returned g' path ->
        hd_error path = Some from /\ last path null_vertex = to.
Proof.
  intros Hwf Hto Hfuel. unfold shortest_path.
  destruct (Nat.eqb_spec from to) as [->|Hne].
  { eexists. split; [reflexivity|]. intros g' path H.
    injection H as _ <-. split; reflexivity. }
  set (g2 := update_vertex (reset_BFS g) to (set_BFS_path_cost 0%Z)).
  pose proof (@bfs_initial_invariant g from to Hwf Hto) as Hinit.
  fold g2 in Hinit.
  set (cap := to_GRuint (vertex_count g2 * 2)).
  assert (Hlen : length (boost.m_vertices (internal_graph_ g2))
                 = length (vertices g)).
  { rewrite <- (inv_vertices Hinit). cbn [fst].
    unfold vertices, boost.vertices. rewrite length_map. reflexivity. }
  destruct (@iteration_cap_bound (Z.of_nat (length (vertices g))))
    as [Hcap1 Hcap2]; [lia|].
  assert (Hcap : cap = to_GRuint (to_GRuint (Z.of_nat (length (vertices g))) * 2)).
  { unfold cap, vertex_count. rewrite Hlen. reflexivity. }
  rewrite <- Hcap in Hcap1, Hcap2.
  assert (Hcap0 : (0 <= cap)%Z) by apply to_GRuint_range.
  pose proof (@bfs_loop_invariant g from to Hwf (Z.to_nat cap) 0
                (g2, [to], false) Hinit (Z.le_refl 0)) as Hloop.
  rewrite Z2Nat.id in Hloop by exact Hcap0.
  assert (Hlt : (0 + cap < GRuint_minus_one)%Z) by lia.
  specialize (Hloop Hlt). rewrite Z.add_0_l in Hloop.
  destruct (bfs_loop (Z.to_nat cap) from (g2, [to], false))
    as [[g3 q3] found3].
  destruct found3; cbn [negb].
  - destruct (inv_found Hloop eq_refl) as [Hfrom Hp]. cbn [fst snd] in Hp.
    destruct (inv_parent Hloop from Hfrom Hp) as [Hin Hless].
    cbn [fst snd] in Hin, Hless.
    pose proof (inv_range Hloop from Hfrom) as Hr. cbn [fst snd] in Hr.
    pose proof (inv_range Hloop _ Hin) as Hrp. cbn [fst snd] in Hrp.
    assert (Hfin : (cost g3 (parent g3 from) < GRuint_minus_one)%Z) by lia.
    pose proof (inv_bound Hloop _ Hin Hfin) as Hb. cbn [fst snd] in Hb.
    destruct (@follow_parents_reaches g from to cap (g3, q3, true) Hwf Hloop
                (Z.to_nat (cost g3 (parent g3 from))) (parent g3 from) fuel)
      as [l Hl]; auto; try lia.
    cbn [fst] in Hl. unfold parent in Hl at 1. rewrite Hl.
    eexists. split; [reflexivity|]. intros g' path H.
    injection H as _ <-. split; [reflexivity|].
    change (from :: l ++ [to]) with ((from :: l) ++ [to]).
    apply last_last.
  - eexists. split; [reflexivity|]. intros g' path H. discriminate.
Qed.

(** X14.  In a well-formed graph, with fuel for the walk back,
    [shortest_path(from, to)] towards a vertex of the graph either
    throws or returns; either way it has touched nothing but the search
    marks [BFS_parent] and [BFS_path_cost]: the vertices, their
    positions, radii and cycle marks, the edges with their curves and
    the sample count are those it started with.  When it returns from a
    search, both marks are cleared on every vertex. *)
Theorem shortest_path_restores (fuel : nat) (g : SkeletalGraph)
        (from to : VertexDescriptor) :
  well_formed g -> In to (vertices g) ->
  (2 * length (vertices g) + 2 <= fuel)%nat ->
  exists o,
    shortest_path fuel g from to = Some o
    /\ search_marks_only g (graph_after o)
    /\ (from <> to ->
        forall g' path,
          o = Returned g' path ->
          forall v, In v (vertices g) ->
                    BFS_path_cost (get_vertex g' v) = GRuint_minus_one
                    /\ BFS_parent (get_vertex g' v) = null_vertex).
Proof.
  intros Hwf Hto Hfuel.
  destruct (@shortest_path_some fuel g from to Hwf Hto Hfuel) as (o & Ho & _).
  exists o. split; [exact Ho|].
  pose proof (@shortest_path_marks_only fuel g from to o Ho) as Hm.
  split; [exact Hm|].
  intros Hne g' path -> v Hv.
  apply (@shortest_path_return_clears_marks fuel g g' from to path Hne Ho).
  destruct Hm as (_ & _ & _ & Hvs & _). cbn [graph_after] in Hvs.
  rewrite Hvs. exact Hv.
Qed.

Lemma shortest_path_restores_witness :
  exists o,
    shortest_path 6 (one_edge unnormalized (Finite 1%Q) (Finite 1%Q)) 1 2 = Some o
    /\ search_marks_only (one_edge unnormalized (Finite 1%Q) (Finite 1%Q))
                         (graph_after o).
Proof.
  destruct (@shortest_path_restores 6
              (one_edge unnormalized (Finite 1%Q) (Finite 1%Q)) 1 2
              (one_edge_well_formed _ _))
    as (o & H1 & H2 & _).
  - simpl. tauto.
  - simpl. lia.
  - exists o. split; [exact H1 | exact H2].
Defined.

Lemma walk_length_two (g : SkeletalGraph) (path : list VertexDescriptor)
      (from to : VertexDescriptor) :
  from <> to -> hd_error path = Some from -> last path null_vertex = to ->
  walk g path ->
  (2 <= length path)%nat
  /\ (exists e, In e (edges g) /\ incident from e = true)
  /\ (exists e, In e (edges g) /\ incident to e = true).
Proof.
  intros Hne Hhd Hlast Hw.
  destruct path as [|a [|b rest]]; simpl in Hhd; [discriminate| |].
  - injection Hhd as ->. simpl in Hlast. contradiction.
  - injection Hhd as ->. split; [simpl; lia|]. split.
    + destruct Hw as [(e & He & Hends) _]. exists e. split; [exact He|].
      unfold incident. apply orb_true_iff.
      destruct Hends as [[H _]|[_ H]]; rewrite H, Nat.eqb_refl; tauto.
    + clear Hne. revert from b Hlast Hw.
      induction rest as [|c rest IH]; intros a b Hlast Hw.
      * simpl in Hlast. subst b.
        destruct Hw as [(e & He & Hends) _]. exists e. split; [exact He|].
        unfold incident. apply orb_true_iff.
        destruct Hends as [[_ H]|[H _]]; rewrite H, Nat.eqb_refl; tauto.
      * apply (IH b c); [exact Hlast | apply Hw].
Qed.

(** X15.  A path returned by [shortest_path] is a walk of the graph:
    it starts at [from], ends at [to], and every two consecutive
    vertices are the two ends of an edge of the graph (in either
    direction); for [from <> to] it has two vertices or more. *)
Theorem shortest_path_is_walk (fuel : nat) (g : SkeletalGraph)
        (from to : VertexDescriptor) :
  well_formed g -> In to (vertices g) ->
  (2 * length (vertices g) + 2 <= fuel)%nat ->
  exists o,
    shortest_path fuel g from to = Some o
    /\ forall g' path,
        o = Returned g' path ->
        hd_error path = Some from
        /\ last path null_vertex = to
        /\ walk g path
        /\ (from <> to -> (2 <= length path)%nat).
Proof.
  intros Hwf Hto Hfuel.
  destruct (@shortest_path_some fuel g from to Hwf Hto Hfuel) as (o & Ho & Hends).
  exists o. split; [exact Ho|].
  intros g' path ->. destruct (Hends g' path eq_refl) as [Hhd Hlast].
  pose proof (@shortest_path_walk fuel g g' from to path Ho) as Hw.
  refine (conj Hhd (conj Hlast (conj Hw _))).
  intros Hne. apply (@walk_length_two g path from to Hne Hhd Hlast Hw).
Qed.

Lemma shortest_path_is_walk_witness :
  exists o,
    shortest_path 12 alternating_chain 1 5 = Some o
    /\ forall g' path,
        o = Returned g' path ->
        hd_error path = Some 1%nat
        /\ last path null_vertex = 5%nat
        /\ walk alternating_chain path
        /\ (1%nat <> 5%nat -> (2 <= length path)%nat).
Proof.
  apply (@shortest_path_is_walk 12 alternating_chain 1 5).
  - constructor; simpl.
    + lia.
    + intros v [<-|[<-|[<-|[<-|[<-|[]]]]]]; lia.
    + repeat constructor; simpl; intuition discriminate.
    + intros e [<-|[<-|[<-|[<-|[]]]]]; simpl; lia.
    + repeat constructor; simpl; intuition discriminate.
    + intros e [<-|[<-|[<-|[<-|[]]]]]; simpl; tauto.
  - simpl. tauto.
  - simpl. lia.
Defined.

(** X16.  [shortest_path] between two different vertices throws
    [invalid_argument] whenever one of them has no incident edge. *)
Theorem shortest_path_isolated_throws (fuel : nat) (g : SkeletalGraph)
        (from to : VertexDescriptor) :
  well_formed g -> In to (vertices g) ->
  (2 * length (vertices g) + 2 <= fuel)%nat ->
  from <> to ->
  (forall e, In e (edges g) -> incident from e = false)
  \/ (forall e, In e (edges g) -> incident to e = false) ->
  exists g',
    shortest_path fuel g from to
    = Some (Thrown g' (invalid_argument "Couldn't find path between vertices")).
Proof.
  intros Hwf Hto Hfuel Hne Hiso.
  destruct (@shortest_path_some fuel g from to Hwf Hto Hfuel) as (o & Ho & Hends).
  destruct o as [g' path|g' ex].
  - exfalso. destruct (Hends g' path eq_refl) as [Hhd Hlast].
    pose proof (@shortest_path_walk fuel g g' from to path Ho) as Hw.
    destruct (@walk_length_two g path from to Hne Hhd Hlast Hw)
      as (_ & (e1 & He1 & Hi1) & (e2 & He2 & Hi2)).
    destruct Hiso as [H|H].
    + rewrite (H e1 He1) in Hi1. discriminate.
    + rewrite (H e2 He2) in Hi2. discriminate.
  - exists g'. rewrite Ho. f_equal. f_equal.
    unfold shortest_path in Ho.
    destruct (Nat.eqb from to); [discriminate|].
    destruct (bfs_loop _ _ _) as [[g3 q3] found3].
    destruct found3; cbn [negb] in Ho.
    + destruct (follow_parents fuel g3 _); discriminate.
    + injection Ho as _ <-. reflexivity.
Qed.

Lemma shortest_path_isolated_throws_witness :
  exists g',
    shortest_path 6 (two_vertices (Finite 1%Q) (Finite 1%Q)) 1 2
    = Some (Thrown g' (invalid_argument "Couldn't find path between vertices")).
Proof.
  apply (@shortest_path_isolated_throws 6
           (two_vertices (Finite 1%Q) (Finite 1%Q)) 1 2
           (two_vertices_well_formed _ _)).
  - simpl. tauto.
  - simpl. lia.
  - discriminate.
  - left. intros e [].
Defined.

(** ** [count_connected_components] and [explore_from_vertex] *)

Lemma same_but_tree_mark_refl (p : VertexProperties) : same_but_tree_mark p p.
Proof. unfold same_but_tree_mark. tauto. Qed.

Lemma same_but_tree_mark_trans (p q r : VertexProperties) :
  same_but_tree_mark p q -> same_but_tree_mark q r -> same_but_tree_mark p r.
Proof.
  unfold same_but_tree_mark.
  intros (A1 & A2 & A3 & A4 & A5 & A6) (B1 & B2 & B3 & B4 & B5 & B6).
  repeat split; congruence.
Qed.

Lemma tree_marks_only_refl (g : SkeletalGraph) : tree_marks_only g g.
Proof. apply same_store_refl. exact same_but_tree_mark_refl. Qed.

Lemma tree_marks_only_trans (g1 g2 g3 : SkeletalGraph) :
  tree_marks_only g1 g2 -> tree_marks_only g2 g3 -> tree_marks_only g1 g3.
Proof. apply same_store_trans. exact same_but_tree_mark_trans. Qed.

Lemma set_tree_mark_only (g : SkeletalGraph) (v : VertexDescriptor) (b : bool) :
  tree_marks_only g (update_vertex g v (set_is_in_spanning_tree b)).
Proof.
  apply update_vertex_same_store; [exact same_but_tree_mark_refl|].
  intros p. unfold same_but_tree_mark. simpl. tauto.
Qed.

Lemma explore_iteration_marks_only (g : SkeletalGraph) (c : VertexDescriptor)
      (rest : list VertexDescriptor) :
  tree_marks_only g (fst (explore_iteration g c rest)).
Proof.
  unfold explore_iteration. destruct (negb _); cbn [fst].
  - apply set_tree_mark_only.
  - apply tree_marks_only_refl.
Qed.

Lemma explore_loop_marks_only (remaining : nat) :
  forall st : SkeletalGraph * list VertexDescriptor,
    tree_marks_only (fst st) (fst (explore_loop remaining st)).
Proof.
  induction remaining as [|k IH]; intros [g q]; simpl.
  - apply tree_marks_only_refl.
  - destruct q as [|c rest]; [apply tree_marks_only_refl|].
    eapply tree_marks_only_trans; [|apply IH].
    apply explore_iteration_marks_only.
Qed.

Lemma explore_from_vertex_marks_only (g : SkeletalGraph) (s : VertexDescriptor) :
  tree_marks_only g (explore_from_vertex g s).
Proof.
  unfold explore_from_vertex. apply (explore_loop_marks_only _ (g, [s])).
Qed.

(** The loop over the vertices of [count_connected_components]: the
    counter never exceeds the number of vertices met. *)
Lemma count_fold_bound (l : list VertexDescriptor) :
  forall (g : SkeletalGraph) (n : GRuint),
    (0 <= n)%Z ->
    let r := fold_left
               (fun (acc : SkeletalGraph * GRuint) vi =>
                  let (g', cc_count) := acc in
                  if negb (is_in_spanning_tree (get_vertex g' vi))
                  then (explore_from_vertex g' vi, to_GRuint (cc_count + 1))
                  else acc)
               l (g, n) in
    tree_marks_only g (fst r)
    /\ (0 <= snd r <= n + Z.of_nat (length l))%Z.
Proof.
  induction l as [|v l IH]; intros g n Hn; simpl.
  - split; [apply tree_marks_only_refl | lia].
  - destruct (negb (is_in_spanning_tree (get_vertex g v))).
    + pose proof (to_GRuint_range (n + 1)) as Hr.
      assert (Hle : (to_GRuint (n + 1) <= n + 1)%Z).
      { unfold to_GRuint. apply Z.mod_le; [lia|]. reflexivity. }
      destruct (IH (explore_from_vertex g v) (to_GRuint (n + 1)))
        as [H1 H2]; [lia|].
      split.
      * eapply tree_marks_only_trans;
          [apply explore_from_vertex_marks_only | exact H1].
      * lia.
    + destruct (IH g n Hn) as [H1 H2]. split; [exact H1 | lia].
Qed.

Lemma fold_update_sets (f : VertexProperties -> VertexProperties)
      (P : VertexProperties -> Prop) :
  (forall p, P (f p)) ->
  forall (l : list VertexDescriptor) (g : SkeletalGraph) (v : VertexDescriptor),
    In v (vertices g) ->
    In v l \/ P (get_vertex g v) ->
    P (get_vertex (fold_left (fun g v => update_vertex g v f) l g) v).
Proof.
  intros Hf. induction l as [|w l IH]; intros g v Hv H; simpl.
  - destruct H as [[]|H]. exact H.
  - apply IH; [rewrite vertices_update; exact Hv|].
    destruct (Nat.eq_dec v w) as [->|Hne].
    + right. rewrite get_vertex_update_same by exact Hv. apply Hf.
    + destruct H as [[H|H]|H].
      * congruence.
      * left. exact H.
      * right. rewrite get_vertex_update_other by exact Hne. exact H.
Qed.

(** X17.  [count_connected_components] touches nothing but the
    [is_in_spanning_tree] marks: vertices, edges, curves, sample count
    and every other vertex property are as before.  On a graph it does
    not take for empty it leaves every mark cleared; the count it
    returns never exceeds the number of vertices, and is 0 on the empty
    graph. *)
Theorem count_connected_components_restores (g : SkeletalGraph) :
  let g' := fst (count_connected_components g) in
  let n := snd (count_connected_components g) in
  tree_marks_only g g'
  /\ (vertex_count g <> 0%Z ->
      forall v, In v (vertices g) ->
                is_in_spanning_tree (get_vertex g' v) = false)
  /\ (0 <= n <= Z.of_nat (length (vertices g)))%Z
  /\ (vertices g = [] -> n = 0%Z /\ g' = g).
Proof.
  unfold count_connected_components.
  destruct (Z.eqb_spec (vertex_count g) 0) as [E|E]; cbn [fst snd].
  - split; [apply tree_marks_only_refl|].
    split; [intros H; contradiction|].
    split; [lia | auto].
  - pose proof (@count_fold_bound (vertices g) g 0%Z (Z.le_refl 0)) as Hfold.
    cbv zeta in Hfold.
    match goal with
    | |- context [fold_left ?f (vertices g) (g, 0%Z)] =>
        set (r := fold_left f (vertices g) (g, 0%Z)) in *
    end.
    change (tree_marks_only g (fst r)
            /\ (0 <= snd r <= 0 + Z.of_nat (length (vertices g)))%Z) in Hfold.
    destruct r as [g1 cc]. cbn [fst snd] in *.
    destruct Hfold as [Hm Hn].
    assert (Hv1 : vertices g1 = vertices g)
      by (destruct Hm as (_ & _ & _ & H & _); exact H).
    match goal with
    | |- context [fold_left ?f (vertices g) g1] =>
        set (g2 := fold_left f (vertices g) g1)
    end.
    assert (Hm2 : tree_marks_only g1 g2).
    { apply fold_update_same_store;
        [exact same_but_tree_mark_refl | exact same_but_tree_mark_trans|].
      intros p. unfold same_but_tree_mark. simpl. tauto. }
    split; [exact (tree_marks_only_trans Hm Hm2)|].
    split.
    { intros _ v Hv.
      apply (@fold_update_sets (set_is_in_spanning_tree false)
               (fun p => is_in_spanning_tree p = false)).
      - reflexivity.
      - rewrite Hv1. exact Hv.
      - left. exact Hv. }
    split; [lia|].
    intros Hnil. exfalso. apply E. unfold vertex_count.
    unfold vertices, boost.vertices in Hnil. apply map_eq_nil in Hnil.
    rewrite Hnil. reflexivity.
Qed.

Lemma edges_of_same_store (R : VertexProperties -> VertexProperties -> Prop)
      (g g' : SkeletalGraph) :
  same_store R g g' -> edges g' = edges g.
Proof.
  intros (_ & He & _). unfold edges, boost.edges. rewrite He. reflexivity.
Qed.

Lemma tree_mark_update (g : SkeletalGraph) (c v : VertexDescriptor) (b : bool) :
  is_in_spanning_tree (get_vertex (update_vertex g c (set_is_in_spanning_tree b)) v)
  = if Nat.eqb v c
    then match boost.lookup_vertex (boost.m_vertices (internal_graph_ g)) v with
         | Some _ => b
         | None => false
         end
    else is_in_spanning_tree (get_vertex g v).
Proof.
  rewrite get_vertex_update. destruct (Nat.eqb v c); [|reflexivity].
  destruct (boost.lookup_vertex _ v); reflexivity.
Qed.

Lemma explore_iteration_sound (g : SkeletalGraph) (s : VertexDescriptor)
      (g' : SkeletalGraph) (c : VertexDescriptor)
      (rest : list VertexDescriptor) :
  explored g s (g', c :: rest) -> explored g s (explore_iteration g' c rest).
Proof.
  intros (Hm & Hq & Hup & Hs). cbn [fst snd] in *.
  unfold explore_iteration.
  destruct (is_in_spanning_tree (get_vertex g' c)) eqn:Ec; cbn [negb].
  { refine (conj Hm (conj _ (conj Hup Hs))).
    intros x Hx. apply Hq. right. exact Hx. }
  assert (Hc : reachable g s c) by (apply Hq; left; reflexivity).
  set (g1 := update_vertex g' c (set_is_in_spanning_tree true)).
  assert (Hm1 : tree_marks_only g g1).
  { eapply tree_marks_only_trans; [exact Hm | apply set_tree_mark_only]. }
  assert (He1 : boost.edges (internal_graph_ g1) = edges g)
    by apply (edges_of_same_store Hm1).
  assert (Hmark : forall v, is_in_spanning_tree (get_vertex g1 v)
                            = if Nat.eqb v c
                              then match boost.lookup_vertex
                                           (boost.m_vertices (internal_graph_ g')) v
                                   with Some _ => true | None => false end
                              else is_in_spanning_tree (get_vertex g' v))
    by (intros v; apply tree_mark_update).
  refine (conj Hm1 (conj _ (conj _ _))); cbn [fst snd].
  - intros x Hx. apply in_app_or in Hx. destruct Hx as [Hx|Hx];
      [apply in_app_or in Hx; destruct Hx as [Hx|Hx]|].
    + apply Hq. right. exact Hx.
    + apply in_map_iff in Hx. destruct Hx as (e & <- & He).
      unfold boost.in_edges in He. rewrite He1 in He.
      apply filter_In in He. destruct He as [He Ht]. apply Nat.eqb_eq in Ht.
      apply (reachable_trans Hc). apply reachable_sym.
      unfold boost.source. rewrite <- Ht. apply reachable_edge. exact He.
    + apply in_map_iff in Hx. destruct Hx as (e & <- & He).
      unfold boost.out_edges in He. rewrite He1 in He.
      apply filter_In in He. destruct He as [He Ht]. apply Nat.eqb_eq in Ht.
      apply (reachable_trans Hc).
      unfold boost.target. rewrite <- Ht. apply reachable_edge. exact He.
  - intros v Hv. rewrite Hmark.
    destruct (Nat.eqb_spec v c) as [->|_]; [|apply Hup; exact Hv].
    specialize (Hup c Hv). congruence.
  - intros v. rewrite Hmark.
    destruct (Nat.eqb_spec v c) as [->|_]; [|apply Hs].
    intros _. right. exact Hc.
Qed.

Lemma explore_loop_sound (g : SkeletalGraph) (s : VertexDescriptor)
      (remaining : nat) :
  forall st : SkeletalGraph * list VertexDescriptor,
    explored g s st -> explored g s (explore_loop remaining st).
Proof.
  induction remaining as [|k IH]; intros [g' q] H; simpl; [exact H|].
  destruct q as [|c rest]; [exact H|].
  apply IH. apply explore_iteration_sound. exact H.
Qed.

Lemma explore_from_vertex_explored (g : SkeletalGraph) (s : VertexDescriptor) :
  In s (vertices g) ->
  explored g s
    (explore_loop (Z.to_nat (to_GRuint (vertex_count g * 2))) (g, [s])).
Proof.
  intros Hs. apply explore_loop_sound.
  refine (conj (tree_marks_only_refl g) (conj _ (conj _ _))); cbn [fst snd].
  - intros x [<-|[]]. apply reachable_refl. exact Hs.
  - auto.
  - auto.
Qed.

Lemma explore_loop_monotone (remaining : nat) (v : VertexDescriptor) :
  forall st : SkeletalGraph * list VertexDescriptor,
    is_in_spanning_tree (get_vertex (fst st) v) = true ->
    is_in_spanning_tree (get_vertex (fst (explore_loop remaining st)) v) = true.
Proof.
  induction remaining as [|k IH]; intros [g' q] H; simpl; [exact H|].
  destruct q as [|c rest]; [exact H|].
  apply IH. unfold explore_iteration. cbn [fst] in H.
  destruct (is_in_spanning_tree (get_vertex g' c)) eqn:Ec; cbn [negb fst];
    [exact H|].
  rewrite tree_mark_update.
  destruct (Nat.eqb_spec v c) as [->|_]; [congruence | exact H].
Qed.

(** X18.  [explore_from_vertex(s)] touches nothing but
    [is_in_spanning_tree] marks, clears none, and sets a mark only on
    vertices that an undirected path joins to [s]: it never marks a
    vertex of another component.  Unless the iteration cap wraps to 0,
    [s] itself ends marked. *)
Theorem explore_from_vertex_sound (g : SkeletalGraph) (s : VertexDescriptor) :
  In s (vertices g) ->
  let g' := explore_from_vertex g s in
  tree_marks_only g g'
  /\ (forall v, is_in_spanning_tree (get_vertex g v) = true ->
                is_in_spanning_tree (get_vertex g' v) = true)
  /\ (forall v, is_in_spanning_tree (get_vertex g' v) = true ->
                is_in_spanning_tree (get_vertex g v) = true \/ reachable g s v)
  /\ ((Z.of_nat (length (vertices g)) < 2 ^ 31)%Z ->
      is_in_spanning_tree (get_vertex g' s) = true).
Proof.
  intros Hs g'.
  destruct (explore_from_vertex_explored g s Hs) as (H1 & _ & H3 & H4).
  refine (conj H1 (conj H3 (conj H4 _))).
  intros Hsmall. unfold g', explore_from_vertex.
  assert (Hlen : (0 < Z.of_nat (length (vertices g)))%Z).
  { destruct (vertices g); [contradiction | simpl; lia]. }
  assert (Hcap : to_GRuint (vertex_count g * 2)
                 = (2 * Z.of_nat (length (vertices g)))%Z).
  { unfold vertex_count.
    replace (length (boost.m_vertices (internal_graph_ g)))
      with (length (vertices g))
      by (unfold vertices, boost.vertices; apply length_map).
    change (2 ^ 31)%Z with 2147483648%Z in Hsmall.
    rewrite (@to_GRuint_small (Z.of_nat (length (vertices g))))
      by (change GRuint_modulus with 4294967296%Z; lia).
    rewrite to_GRuint_small
      by (change GRuint_modulus with 4294967296%Z; lia).
    lia. }
  rewrite Hcap.
  destruct (Z.to_nat (2 * Z.of_nat (length (vertices g)))) as [|k] eqn:Ek; [lia|].
  cbn [explore_loop snd fst].
  apply explore_loop_monotone.
  unfold explore_iteration.
  destruct (is_in_spanning_tree (get_vertex g s)) eqn:Ec; cbn [negb fst];
    [exact Ec|].
  rewrite tree_mark_update, Nat.eqb_refl.
  destruct (lookup_vertex_in _ _ Hs) as [p ->]. reflexivity.
Qed.

Lemma explore_from_vertex_sound_witness :
  is_in_spanning_tree
    (get_vertex (explore_from_vertex
                   (one_edge unnormalized (Finite 1%Q) (Finite 1%Q)) 1) 1)
  = true.
Proof.
  refine (proj2 (proj2 (proj2
           (@explore_from_vertex_sound
              (one_edge unnormalized (Finite 1%Q) (Finite 1%Q)) 1 _))) _).
  - simpl. tauto.
  - reflexivity.
Defined.

(** ** Merging two vertices *)

Lemma add_edge_from_to_spec (normalize : Vector3f -> Vector3f)
      (g : SkeletalGraph) (from to : VertexDescriptor) :
  well_formed g -> In from (vertices g) -> In to (vertices g) ->
  let e := mkEdgeDescriptor from to (boost.m_fresh (internal_graph_ g)) in
  let g' := fst (add_edge_from_to normalize g from to) in
  snd (add_edge_from_to normalize g from to) = (e, true)
  /\ edges g' = edges g ++ [e]
  /\ vertices g' = vertices g
  /\ (forall w, get_vertex g' w = get_vertex g w)
  /\ well_formed g'.
Proof.
  intros Hwf Hf Ht e g'.
  pose proof (well_formed_not_null Hwf Hf) as Hf0.
  pose proof (well_formed_not_null Hwf Ht) as Ht0.
  pose proof (@add_edge_from_to_well_formed normalize g from to Hwf Hf Ht) as Hwf'.
  unfold g', e, add_edge_from_to in *.
  match goal with
  | |- context [add_edge ?h from to ?p] =>
      destruct (@add_edge_spec h from to p Hf0 Ht0) as (H1 & H2 & H3 & _);
      set (r := add_edge h from to p) in *
  end.
  refine (conj H1 (conj H2 (conj _ (conj _ Hwf')))).
  - unfold vertices, boost.vertices. rewrite H3. reflexivity.
  - intros w. unfold get_vertex, boost.get_vertex. rewrite H3. reflexivity.
Qed.

Lemma add_edges_to_well_formed (to_keep : VertexDescriptor)
      (l : list (VertexDescriptor * EdgeProperties)) :
  forall st : SkeletalGraph * EdgeVector,
    well_formed (fst st) -> In to_keep (vertices (fst st)) ->
    (forall sp, In sp l -> In (fst sp) (vertices (fst st))) ->
    well_formed (fst (add_edges_to to_keep st l)).
Proof.
  unfold add_edges_to.
  induction l as [|sp l IH]; intros st Hwf Hk Hl; [exact Hwf|].
  cbn [fold_left].
  assert (Hsp : In (fst sp) (vertices (fst st))) by (apply Hl; left; reflexivity).
  pose proof (@add_edge_well_formed (fst st) (fst sp) to_keep (snd sp) Hwf Hsp Hk)
    as Hwf1.
  destruct (@add_edge_spec (fst st) (fst sp) to_keep (snd sp)
              (well_formed_not_null Hwf Hsp) (well_formed_not_null Hwf Hk))
    as (_ & _ & Hv & _).
  destruct (add_edge (fst st) (fst sp) to_keep (snd sp)) as [g1 r].
  cbn [fst] in Hwf1, Hv.
  assert (Hv1 : vertices g1 = vertices (fst st))
    by (unfold vertices, boost.vertices; rewrite Hv; reflexivity).
  apply IH; cbn [fst]; [exact Hwf1 | rewrite Hv1; exact Hk|].
  intros sp' Hsp'. rewrite Hv1. apply Hl. right. exact Hsp'.
Qed.

Lemma add_edges_from_well_formed (to_keep : VertexDescriptor)
      (l : list (VertexDescriptor * EdgeProperties)) :
  forall st : SkeletalGraph * EdgeVector,
    well_formed (fst st) -> In to_keep (vertices (fst st)) ->
    (forall tp, In tp l -> In (fst tp) (vertices (fst st))) ->
    well_formed (fst (add_edges_from to_keep st l)).
Proof.
  unfold add_edges_from.
  induction l as [|tp l IH]; intros st Hwf Hk Hl; [exact Hwf|].
  cbn [fold_left].
  assert (Htp : In (fst tp) (vertices (fst st))) by (apply Hl; left; reflexivity).
  pose proof (@add_edge_well_formed (fst st) to_keep (fst tp) (snd tp) Hwf Hk Htp)
    as Hwf1.
  destruct (@add_edge_spec (fst st) to_keep (fst tp) (snd tp)
              (well_formed_not_null Hwf Hk) (well_formed_not_null Hwf Htp))
    as (_ & _ & Hv & _).
  destruct (add_edge (fst st) to_keep (fst tp) (snd tp)) as [g1 r].
  cbn [fst] in Hwf1, Hv.
  assert (Hv1 : vertices g1 = vertices (fst st))
    by (unfold vertices, boost.vertices; rewrite Hv; reflexivity).
  apply IH; cbn [fst]; [exact Hwf1 | rewrite Hv1; exact Hk|].
  intros tp' Htp'. rewrite Hv1. apply Hl. right. exact Htp'.
Qed.

Lemma collapse_onto_well_formed (normalize : Vector3f -> Vector3f)
      (g : SkeletalGraph) (e : EdgeDescriptor) (keep drop : VertexDescriptor)
      (pos : Vector3f) :
  well_formed g -> In keep (vertices g) ->
  well_formed (graph_after (collapse_onto normalize g e keep drop pos)).
Proof.
  intros Hwf Hk. unfold collapse_onto.
  set (ins := collapse_in_edges _ _ _ _ _ _).
  set (outs := collapse_out_edges _ _ _ _ _ _).
  assert (Hins : forall sp, In sp ins -> In (fst sp) (vertices g)).
  { intros sp Hsp.
    assert (H : In (fst sp) (map fst ins)) by (apply in_map; exact Hsp).
    apply collapse_in_edges_sources in H.
    destruct H as (x & Hx & _ & _ & _ & ->). apply (wf_endpoints Hwf x Hx). }
  assert (Houts : forall tp, In tp outs -> In (fst tp) (vertices g)).
  { intros tp Htp.
    assert (H : In (fst tp) (map fst outs)) by (apply in_map; exact Htp).
    apply collapse_out_edges_targets in H.
    destruct H as (x & Hx & _ & _ & _ & ->). apply (wf_endpoints Hwf x Hx). }
  pose proof (@clear_vertex_well_formed g drop Hwf) as Hwf1.
  destruct (clear_vertex_spec g drop) as [_ Hcv].
  destruct (clear_vertex g drop) as [g1 cleared]. cbn [fst] in Hwf1, Hcv.
  assert (Hv1 : vertices g1 = vertices g)
    by (unfold vertices, boost.vertices; rewrite Hcv; reflexivity).
  assert (Hk0 : keep <> null_vertex) by (apply (well_formed_not_null Hwf Hk)).
  assert (Hwf2 : well_formed (fst (add_edges_to keep (g1, []) ins))).
  { apply add_edges_to_well_formed; cbn [fst]; rewrite ?Hv1; assumption. }
  destruct (@add_edges_to_spec keep ins Hk0 (g1, []))
    as (added_in & _ & _ & _ & _ & Hv2).
  { intros sp Hsp. apply (well_formed_not_null Hwf). apply Hins. exact Hsp. }
  destruct (add_edges_to keep (g1, []) ins) as [g2 acc2].
  cbn [fst snd] in *.
  assert (Hv2' : vertices g2 = vertices g)
    by (unfold vertices, boost.vertices; rewrite Hv2, Hcv; reflexivity).
  assert (Hwf3 : well_formed (fst (add_edges_from keep (g2, acc2) outs))).
  { apply add_edges_from_well_formed; cbn [fst]; rewrite ?Hv2'; assumption. }
  destruct (add_edges_from keep (g2, acc2) outs) as [g3 new_edges].
  cbn [fst graph_after] in *.
  match goal with
  | |- context [with_graph g3 (boost.update_vertex keep ?f (internal_graph_ g3))] =>
      change (with_graph g3 (boost.update_vertex keep f (internal_graph_ g3)))
        with (update_vertex g3 keep f)
  end.
  apply (@well_formed_same_shape g3); [apply vertices_update | apply edges_update
                                       | reflexivity | exact Hwf3].
Qed.

Lemma remove_vertex_spec (g : SkeletalGraph) (v : VertexDescriptor) :
  well_formed g -> v <> null_vertex ->
  let g' := fst (remove_vertex g v) in
  (forall w, In w (vertices g') <-> In w (vertices g) /\ w <> v)
  /\ (forall x, In x (edges g')
                <-> In x (edges g) /\ m_source x <> v /\ m_target x <> v)
  /\ (forall w, w <> v -> get_vertex g' w = get_vertex g w)
  /\ well_formed g'.
Proof.
  intros Hwf Hv g'. unfold g'. rewrite (remove_vertex_unfold g Hv). cbn [fst].
  destruct (clear_vertex_spec g v) as [He Hm].
  set (g1 := fst (clear_vertex g v)) in *.
  assert (Hiff : forall x, In x (edges g1)
                           <-> In x (edges g) /\ m_source x <> v /\ m_target x <> v).
  { intros x. rewrite He, filter_In, negb_true_iff, orb_false_iff.
    rewrite !Nat.eqb_neq. tauto. }
  refine (conj _ (conj Hiff (conj _ _))).
  - intros w. unfold vertices. cbn [with_graph internal_graph_].
    rewrite vertices_remove_vertex, filter_In, negb_true_iff, Nat.eqb_neq.
    unfold boost.vertices. rewrite Hm. tauto.
  - intros w Hw. unfold get_vertex, boost.get_vertex.
    cbn [with_graph internal_graph_ boost.remove_vertex boost.m_vertices].
    rewrite lookup_vertex_filter by exact Hw. rewrite Hm. reflexivity.
  - apply boost_remove_vertex_well_formed.
    + apply clear_vertex_well_formed. exact Hwf.
    + intros x Hx. apply Hiff in Hx. tauto.
Qed.

(** X19.  [merge_vertices(vertex_one, vertex_two, option)] on two
    vertices of a well-formed graph, with few enough edges for the
    [GRuint] loops of [collapse_edge] and at least two samples on every
    curve at the vertex to clear, returns, and the vertex it reports
    as cleared ([vertex_two], or [vertex_one] under [TARGET]) is gone
    from the graph together with every edge that touched it; no other
    vertex and no other edge is lost.  For two different vertices, each
    neighbour of the cleared vertex is joined to the kept one in the
    same direction.  Merging a vertex with itself therefore deletes
    it. *)
Theorem merge_vertices_removes (normalize : Vector3f -> Vector3f)
        (g : SkeletalGraph) (v1 v2 : VertexDescriptor) (option : COLLAPSE_OPTION) :
  well_formed g -> In v1 (vertices g) -> In v2 (vertices g) ->
  few_edges g ->
  let keep := match option with TARGET => v2 | _ => v1 end in
  let drop := match option with TARGET => v1 | _ => v2 end in
  (forall x, In x (edges g) -> incident drop x = true ->
             (2 <= curve_size (curve (get_edge g x)))%Z) ->
  exists g' cleared new_edges,
    merge_vertices normalize g v1 v2 option
    = Returned g' ((drop, cleared), new_edges)
    /\ (forall w, In w (vertices g') <-> In w (vertices g) /\ w <> drop)
    /\ (forall x, In x (edges g') -> m_source x <> drop /\ m_target x <> drop)
    /\ (forall x, In x (edges g) -> m_source x <> drop -> m_target x <> drop ->
                  In x (edges g'))
    /\ (v1 <> v2 ->
        (forall x, In x (edges g) -> m_target x = drop ->
                   m_source x <> keep -> m_source x <> drop ->
                   exists y, In y new_edges /\ In y (edges g')
                             /\ m_source y = m_source x /\ m_target y = keep)
        /\ (forall x, In x (edges g) -> m_source x = drop ->
                      m_target x <> keep -> m_target x <> drop ->
                      exists y, In y new_edges /\ In y (edges g')
                                /\ m_source y = keep /\ m_target y = m_target x))
    /\ (forall w, w <> keep -> w <> drop -> get_vertex g' w = get_vertex g w)
    /\ well_formed g'.
Proof.
  intros Hwf H1 H2 _ keep drop _.
  pose proof (well_formed_not_null Hwf H1) as H10.
  pose proof (well_formed_not_null Hwf H2) as H20.
  destruct (@add_edge_from_to_spec normalize g v1 v2 Hwf H1 H2)
    as (Hsnd & He1 & Hv1 & Hg1 & Hwf1).
  unfold merge_vertices.
  destruct (add_edge_from_to normalize g v1 v2) as [g1 r].
  cbn [fst snd] in Hsnd, He1, Hv1, Hg1, Hwf1. subst r. cbn [fst snd negb].
  set (e := mkEdgeDescriptor v1 v2 (boost.m_fresh (internal_graph_ g))) in *.
  assert (Hin : In e (edges g1))
    by (rewrite He1; apply in_or_app; right; left; reflexivity).
  rewrite (@collapse_edge_unfold normalize g1 e option Hin H10 H20).
  assert (Hkeep : fst (fst (collapse_choice g1 e option)) = keep)
    by (destruct option; reflexivity).
  assert (Hdrop : snd (fst (collapse_choice g1 e option)) = drop)
    by (destruct option; reflexivity).
  rewrite Hkeep, Hdrop.
  set (pos := snd (collapse_choice g1 e option)).
  assert (Hk : In keep (vertices g1))
    by (rewrite Hv1; unfold keep; destruct option; assumption).
  assert (Hd0 : drop <> null_vertex) by (unfold drop; destruct option; assumption).
  pose proof (@collapse_onto_well_formed normalize g1 e keep drop pos Hwf1 Hk)
    as Hwf2.
  destruct (@collapse_onto_spec normalize g1 e keep drop pos Hwf1 Hk)
    as (g2 & cleared & added_in & added_out & Hret & Hed & Hsi & Hti & Hto
        & Hso & Hv2 & _ & Hother).
  rewrite Hret in Hwf2 |- *. cbn [graph_after fst] in Hwf2 |- *.
  destruct (@remove_vertex_spec g2 drop Hwf2 Hd0) as (Hrv & Hre & Hrg & Hwf3).
  destruct (remove_vertex g2 drop) as [g3 removed]. cbn [fst] in Hrv, Hre, Hrg, Hwf3.
  exists g3, cleared, (added_in ++ added_out).
  split; [reflexivity|].
  assert (Hfresh : forall x, In x (edges g) -> edge_eqb x e = false).
  { intros x Hx. unfold edge_eqb, e. cbn [m_eproperty]. apply Nat.eqb_neq.
    pose proof (wf_edge_range Hwf x Hx). lia. }
  assert (Hold : forall x, In x (edges g) -> In x (edges g1))
    by (intros x Hx; rewrite He1; apply in_or_app; left; exact Hx).
  refine (conj _ (conj _ (conj _ (conj _ (conj _ Hwf3))))).
  - intros w. rewrite Hrv, Hv2, Hv1. tauto.
  - intros x Hx. apply Hre in Hx. tauto.
  - intros x Hx Hs Ht. apply Hre. split; [|tauto].
    rewrite Hed. apply in_or_app. left. apply filter_In.
    split; [apply Hold; exact Hx|].
    unfold incident. apply negb_true_iff, orb_false_iff.
    split; apply Nat.eqb_neq; assumption.
  - intros Hne.
    assert (Hkd : keep <> drop)
      by (unfold keep, drop; destruct option; congruence).
    split.
    + intros x Hx Hxt Hxk Hxd.
      assert (Hq : In (m_source x)
                      (map fst (collapse_in_edges normalize g1 e keep drop pos))).
      { apply collapse_in_edges_sources. exists x.
        pose proof (Hfresh x Hx). pose proof (Hold x Hx). tauto. }
      rewrite <- Hsi in Hq. apply in_map_iff in Hq.
      destruct Hq as (y & Hys & Hy). exists y.
      rewrite Forall_forall in Hti. pose proof (Hti y Hy) as Hyt.
      split; [apply in_or_app; left; exact Hy|].
      split; [|split; assumption].
      apply Hre. rewrite Hys, Hyt.
      split; [|split; assumption].
      rewrite Hed. apply in_or_app. right. apply in_or_app. left. exact Hy.
    + intros x Hx Hxs Hxk Hxd.
      assert (Hq : In (m_target x)
                      (map fst (collapse_out_edges normalize g1 e keep drop pos))).
      { apply collapse_out_edges_targets. exists x.
        pose proof (Hfresh x Hx). pose proof (Hold x Hx). tauto. }
      rewrite <- Hto in Hq. apply in_map_iff in Hq.
      destruct Hq as (y & Hyt & Hy). exists y.
      rewrite Forall_forall in Hso. pose proof (Hso y Hy) as Hys.
      split; [apply in_or_app; right; exact Hy|].
      split; [|split; assumption].
      apply Hre. rewrite Hys, Hyt.
      split; [|split; assumption].
      rewrite Hed. apply in_or_app. right. apply in_or_app. right. exact Hy.
  - intros w Hwk Hwd. rewrite (Hrg w Hwd), (Hother w Hwk). apply Hg1.
Qed.

Lemma merge_vertices_removes_witness :
  exists g' cleared new_edges,
    merge_vertices unnormalized (two_vertices (Finite 1%Q) (Finite 1%Q)) 1 1 SOURCE
    = Returned g' ((1%nat, cleared), new_edges)
    /\ (forall w, In w (vertices g')
                  <-> In w (vertices (two_vertices (Finite 1%Q) (Finite 1%Q)))
                      /\ w <> 1%nat).
Proof.
  destruct (@merge_vertices_removes unnormalized
              (two_vertices (Finite 1%Q) (Finite 1%Q)) 1 1 SOURCE
              (two_vertices_well_formed (Finite 1%Q) (Finite 1%Q)))
    as (g' & cleared & new_edges & H & Hv & _).
  - simpl. tauto.
  - simpl. tauto.
  - reflexivity.
  - intros x [].
  - exists g', cleared, new_edges. split; [exact H | exact Hv].
Defined.

(** ** Removing vertices by degree *)

Lemma size_t_degree_zero (g : SkeletalGraph) (v : VertexDescriptor) :
  few_edges g ->
  (to_size_t (boost.in_degree v (internal_graph_ g)
              + boost.out_degree v (internal_graph_ g)) =? 0)%Z
  = negb (touched (edges g) v).
Proof.
  intros Hfew. pose proof (few_edges_degree_fits v Hfew) as Hfit.
  unfold degree_fits in Hfit. change GRuint_modulus with 4294967296%Z in Hfit.
  unfold to_size_t. rewrite Z.mod_small
    by (unfold boost.in_degree, boost.out_degree in *;
        change (2 ^ 64)%Z with 18446744073709551616%Z; lia).
  unfold boost.in_degree, boost.out_degree, boost.in_edges, boost.out_edges.
  fold (edges g). unfold touched.
  destruct (existsb (incident v) (edges g)) eqn:Ex; cbn [negb].
  - apply existsb_exists in Ex. destruct Ex as (x & Hx & Hi).
    unfold incident in Hi. apply orb_true_iff in Hi.
    apply Z.eqb_neq. destruct Hi as [Hi|Hi].
    + pose proof (filter_length_in (fun e => Nat.eqb (m_source e) v) _ _ Hx Hi).
      lia.
    + pose proof (filter_length_in (fun e => Nat.eqb (m_target e) v) _ _ Hx Hi).
      lia.
  - apply Z.eqb_eq.
    rewrite !filter_empty; [reflexivity | |]; intros x Hx;
      (assert (Hi : incident v x = false)
        by (destruct (incident v x) eqn:E; [|reflexivity];
            rewrite <- Ex; symmetry; apply existsb_exists; exists x; tauto));
      unfold incident in Hi; apply orb_false_iff in Hi; tauto.
Qed.

Lemma remove_untouched_vertex (g : SkeletalGraph) (v : VertexDescriptor) :
  v <> null_vertex -> touched (edges g) v = false ->
  fst (remove_vertex g v)
  = with_graph g (boost.remove_vertex v (internal_graph_ g)).
Proof.
  intros Hv Ht. rewrite (remove_vertex_unfold g Hv). cbn [fst].
  assert (Hfree : forall x, In x (edges g) -> incident v x = false).
  { intros x Hx. destruct (incident v x) eqn:E; [|reflexivity].
    rewrite <- Ht. symmetry. apply existsb_exists. exists x. tauto. }
  assert (Hin : boost.in_edges v (internal_graph_ g) = []).
  { unfold boost.in_edges. apply filter_empty. intros x Hx.
    specialize (Hfree x Hx). unfold incident in Hfree.
    apply orb_false_iff in Hfree. tauto. }
  assert (Hout : boost.out_edges v (internal_graph_ g) = []).
  { unfold boost.out_edges. apply filter_empty. intros x Hx.
    specialize (Hfree x Hx). unfold incident in Hfree.
    apply orb_false_iff in Hfree. tauto. }
  assert (Hd : degree g v = 0%Z).
  { unfold degree, boost.in_degree, boost.out_degree. rewrite Hin, Hout.
    reflexivity. }
  unfold clear_vertex. rewrite Hd. cbn [Z.eqb fst].
  unfold with_graph. cbn [edge_spline_count_ internal_graph_].
  destruct g as [c b]. cbn [edge_spline_count_ internal_graph_] in *.
  f_equal. unfold boost.clear_vertex, boost.remove_vertex.
  cbn [boost.m_vertices boost.m_edges boost.m_fresh].
  f_equal. apply filter_all. intros ep Hep.
  apply negb_true_iff. apply (Hfree (fst ep)).
  unfold edges, boost.edges. cbn [internal_graph_]. apply in_map. exact Hep.
Qed.

Lemma lookup_vertex_kept (p : VertexDescriptor -> bool)
      (l : list (VertexDescriptor * VertexProperties)) (w : VertexDescriptor) :
  p w = true ->
  boost.lookup_vertex (filter (fun vp => p (fst vp)) l) w
  = boost.lookup_vertex l w.
Proof.
  intros Hw. induction l as [|[u q] l IH]; simpl; [reflexivity|].
  destruct (p u) eqn:Ep; simpl.
  - rewrite IH. reflexivity.
  - destruct (Nat.eqb_spec u w); [congruence | exact IH].
Qed.

Lemma remove_untouched_fold (g : SkeletalGraph) (l : list VertexDescriptor) :
  few_edges g -> (forall v, In v l -> v <> null_vertex) ->
  forall h : SkeletalGraph,
    boost.m_edges (internal_graph_ h) = boost.m_edges (internal_graph_ g) ->
    let h' :=
      fold_left
        (fun g' vi =>
           let degree :=
             to_size_t (boost.in_degree vi (internal_graph_ g')
                        + boost.out_degree vi (internal_graph_ g')) in
           if (degree =? 0)%Z then fst (remove_vertex g' vi) else g')
        l h in
    boost.m_edges (internal_graph_ h') = boost.m_edges (internal_graph_ g)
    /\ boost.m_fresh (internal_graph_ h') = boost.m_fresh (internal_graph_ h)
    /\ edge_spline_count h' = edge_spline_count h
    /\ boost.m_vertices (internal_graph_ h')
       = filter (fun vp => negb (negb (touched (edges g) (fst vp))
                                 && existsb (Nat.eqb (fst vp)) l))
                (boost.m_vertices (internal_graph_ h)).
Proof.
  intros Hfew. induction l as [|v l IH]; intros Hl h Hh; cbn [fold_left].
  - cbv zeta. refine (conj Hh (conj eq_refl (conj eq_refl _))).
    symmetry. apply filter_all. intros vp _. cbn [existsb].
    rewrite andb_false_r. reflexivity.
  - assert (Heh : edges h = edges g) by (unfold edges, boost.edges; rewrite Hh; reflexivity).
    assert (Hfew' : few_edges h) by (unfold few_edges; rewrite Heh; exact Hfew).
    rewrite (@size_t_degree_zero h v Hfew'), Heh.
    assert (Hv0 : v <> null_vertex) by (apply Hl; left; reflexivity).
    assert (Hl' : forall w, In w l -> w <> null_vertex)
      by (intros w Hw; apply Hl; right; exact Hw).
    destruct (touched (edges g) v) eqn:Et; cbn [negb].
    + destruct (IH Hl' h Hh) as (H1 & H2 & H3 & H4).
      refine (conj H1 (conj H2 (conj H3 _))).
      cbv zeta in H4. rewrite H4. apply filter_ext. intros [u q]. cbn [fst existsb].
      destruct (Nat.eqb_spec u v) as [->|_]; [rewrite Et|]; reflexivity.
    + rewrite (@remove_untouched_vertex h v Hv0) by (rewrite Heh; exact Et).
      set (h1 := with_graph h (boost.remove_vertex v (internal_graph_ h))).
      destruct (IH Hl' h1 Hh) as (H1 & H2 & H3 & H4).
      refine (conj H1 (conj H2 (conj H3 _))).
      cbv zeta in H4. rewrite H4.
      unfold h1. cbn [with_graph internal_graph_ boost.remove_vertex boost.m_vertices].
      rewrite filter_twice. apply filter_ext. intros [u q]. cbn [fst existsb].
      destruct (Nat.eqb_spec u v) as [->|_]; cbn [negb andb orb];
        [rewrite Et|]; reflexivity.
Qed.

(** X20.  [remove_vertices_of_degree(0)] deletes exactly the vertices
    that no edge touches: the vertices left are the others, in their
    order and with their properties; the edges, their curves and the
    sample count are untouched, and the graph stays well formed. *)
Theorem remove_vertices_of_degree_zero (g : SkeletalGraph) :
  well_formed g -> few_edges g ->
  let g' := remove_vertices_of_degree g 0 in
  vertices g' = filter (touched (edges g)) (vertices g)
  /\ boost.m_edges (internal_graph_ g') = boost.m_edges (internal_graph_ g)
  /\ edge_spline_count g' = edge_spline_count g
  /\ (forall w, In w (vertices g') -> get_vertex g' w = get_vertex g w)
  /\ well_formed g'.
Proof.
  intros Hwf Hfew g'.
  destruct (@remove_untouched_fold g (vertices g) Hfew
              (fun v Hv => well_formed_not_null Hwf Hv) g eq_refl)
    as (He & Hf & Hc & Hv).
  cbv zeta in He, Hf, Hc, Hv.
  change (fold_left _ (vertices g) g) with g' in He, Hf, Hc, Hv.
  assert (Hm : boost.m_vertices (internal_graph_ g')
               = filter (fun vp => touched (edges g) (fst vp))
                        (boost.m_vertices (internal_graph_ g))).
  { rewrite Hv. apply filter_ext_in. intros [u q] Hu. cbn [fst].
    assert (Hex : existsb (Nat.eqb u) (vertices g) = true).
    { apply existsb_exists. exists u. split; [|apply Nat.eqb_refl].
      unfold vertices, boost.vertices.
      change u with (fst (u, q)). apply in_map. exact Hu. }
    rewrite Hex, andb_true_r, negb_involutive. reflexivity. }
  assert (Hvs : vertices g' = filter (touched (edges g)) (vertices g)).
  { unfold vertices, boost.vertices. rewrite Hm.
    apply (filter_map_fst (touched (edges g))). }
  assert (Hes : edges g' = edges g)
    by (unfold edges, boost.edges; rewrite He; reflexivity).
  refine (conj Hvs (conj He (conj Hc (conj _ _)))).
  - intros w Hw. rewrite Hvs in Hw. apply filter_In in Hw. destruct Hw as [_ Hw].
    unfold get_vertex, boost.get_vertex. rewrite Hm.
    rewrite (@lookup_vertex_kept (touched (edges g)) _ w Hw). reflexivity.
  - destruct Hwf as [W1 W2 W3 W4 W5 W6].
    constructor; rewrite ?Hf, ?Hes, ?Hvs; try assumption.
    + intros v Hv'. apply filter_In in Hv'. apply W2, Hv'.
    + apply NoDup_filter. exact W3.
    + intros e Hein. destruct (W6 e Hein) as [Hs Ht].
      split; apply filter_In; (split; [assumption|]);
        apply existsb_exists; exists e; (split; [exact Hein|]);
        unfold incident; rewrite !Nat.eqb_refl; [reflexivity|apply orb_true_r].
Qed.

Lemma remove_vertices_of_degree_zero_witness :
  vertices (remove_vertices_of_degree
              (one_edge unnormalized (Finite 1%Q) (Finite 1%Q)) 0)
  = filter (touched (edges (one_edge unnormalized (Finite 1%Q) (Finite 1%Q))))
           (vertices (one_edge unnormalized (Finite 1%Q) (Finite 1%Q))).
Proof.
  refine (proj1 (@remove_vertices_of_degree_zero
                   (one_edge unnormalized (Finite 1%Q) (Finite 1%Q))
                   (one_edge_well_formed (Finite 1%Q) (Finite 1%Q)) _)).
  unfold few_edges. vm_compute. reflexivity.
Defined.

(** ** Queries on edges *)

Lemma boost_edge_spec (g : SkeletalGraph) (u v : VertexDescriptor) :
  (snd (boost.edge u v (internal_graph_ g)) = true
   -> In (fst (boost.edge u v (internal_graph_ g))) (edges g)
      /\ m_source (fst (boost.edge u v (internal_graph_ g))) = u
      /\ m_target (fst (boost.edge u v (internal_graph_ g))) = v)
  /\ (snd (boost.edge u v (internal_graph_ g)) = false
      -> forall e, In e (edges g) -> ~ (m_source e = u /\ m_target e = v)).
Proof.
  unfold boost.edge, boost.out_edges. fold (edges g).
  destruct (filter _ (filter _ (edges g))) as [|e l] eqn:E; cbn [fst snd].
  - split; [discriminate|]. intros _ x Hx [Hs Ht].
    assert (H : In x (filter (fun e => Nat.eqb (m_target e) v)
                        (filter (fun e => Nat.eqb (m_source e) u) (edges g)))).
    { apply filter_In. split; [apply filter_In; split; [exact Hx|]|];
        apply Nat.eqb_eq; assumption. }
    rewrite E in H. contradiction.
  - split; [|discriminate]. intros _.
    assert (H : In e (filter (fun e => Nat.eqb (m_target e) v)
                        (filter (fun e => Nat.eqb (m_source e) u) (edges g))))
      by (rewrite E; left; reflexivity).
    apply filter_In in H. destruct H as [H Ht]. apply filter_In in H.
    destruct H as [H Hs]. apply Nat.eqb_eq in Hs, Ht. tauto.
Qed.

(** X21.  For an edge with two non-null ends,
    [find_vertex_not_connected_to_adjacent_edge(edge, adjacent_edge)]
    returns null exactly when neither end of [edge] is an end of
    [adjacent_edge].  Otherwise it returns an end of [edge] whose other
    end is an end of [adjacent_edge]; the returned end itself lies on
    [adjacent_edge] only when both ends of [edge] do. *)
Theorem find_vertex_not_connected_spec (g : SkeletalGraph)
        (edge adjacent_edge : EdgeDescriptor) :
  m_source edge <> null_vertex -> m_target edge <> null_vertex ->
  let r := find_vertex_not_connected_to_adjacent_edge g edge adjacent_edge in
  (r = null_vertex
   <-> is_edge_source_or_target g adjacent_edge (m_source edge) = false
       /\ is_edge_source_or_target g adjacent_edge (m_target edge) = false)
  /\ (r <> null_vertex ->
      (r = m_target edge
       /\ is_edge_source_or_target g adjacent_edge (m_source edge) = true)
      \/ (r = m_source edge
          /\ is_edge_source_or_target g adjacent_edge (m_target edge) = true))
  /\ (r <> null_vertex ->
      is_edge_source_or_target g adjacent_edge r = true ->
      is_edge_source_or_target g adjacent_edge (m_source edge) = true
      /\ is_edge_source_or_target g adjacent_edge (m_target edge) = true).
Proof.
  intros Hs Ht r. unfold r, find_vertex_not_connected_to_adjacent_edge,
    is_edge_source_or_target, boost.source, boost.target, null_vertex in *.
  rewrite (Nat.eqb_sym (m_source adjacent_edge) (m_source edge)).
  rewrite (Nat.eqb_sym (m_target adjacent_edge) (m_source edge)).
  rewrite (Nat.eqb_sym (m_source adjacent_edge) (m_target edge)).
  rewrite (Nat.eqb_sym (m_target adjacent_edge) (m_target edge)).
  destruct (Nat.eqb_spec (m_source edge) (m_source adjacent_edge)) as [E1|E1];
    destruct (Nat.eqb_spec (m_source edge) (m_target adjacent_edge)) as [E2|E2];
    destruct (Nat.eqb_spec (m_target edge) (m_source adjacent_edge)) as [E3|E3];
    destruct (Nat.eqb_spec (m_target edge) (m_target adjacent_edge)) as [E4|E4];
    cbn [orb];
    repeat split; intros;
      repeat match goal with
             | H : _ /\ _ |- _ => destruct H
             | H : context [Nat.eqb ?a ?b] |- _ =>
                 destruct (Nat.eqb_spec a b); cbn [orb] in H
             end;
      try congruence; try discriminate; try tauto; auto.
Qed.

Lemma find_vertex_not_connected_spec_witness :
  find_vertex_not_connected_to_adjacent_edge alternating_chain
    (mkEdgeDescriptor 1 2 6) (mkEdgeDescriptor 3 2 7) = null_vertex
  <-> is_edge_source_or_target alternating_chain (mkEdgeDescriptor 3 2 7) 1 = false
      /\ is_edge_source_or_target alternating_chain (mkEdgeDescriptor 3 2 7) 2 = false.
Proof.
  refine (proj1 (@find_vertex_not_connected_spec alternating_chain
                   (mkEdgeDescriptor 1 2 6) (mkEdgeDescriptor 3 2 7) _ _));
    discriminate.
Defined.

(** X22.  For two non-null vertices, [edge_exists(from, to)] reports an
    edge found exactly when some edge joins the two in either direction,
    and the right direction exactly when some edge runs from [from] to
    [to], also when another runs back.  It lists at most one edge per
    direction, each an edge of the graph between the two; for
    [from = to] a self-loop is listed twice. *)
Theorem edge_exists_spec (g : SkeletalGraph) (from to : VertexDescriptor) :
  from <> null_vertex -> to <> null_vertex ->
  let es := fst (fst (edge_exists g from to)) in
  let right_direction := snd (fst (edge_exists g from to)) in
  let found := snd (edge_exists g from to) in
  (found = true <-> adjacent g from to)
  /\ (right_direction = true
      <-> exists e, In e (edges g) /\ m_source e = from /\ m_target e = to)
  /\ (forall e, In e es ->
                In e (edges g)
                /\ ((m_source e = from /\ m_target e = to)
                    \/ (m_source e = to /\ m_target e = from)))
  /\ (found = true <-> es <> [])
  /\ (length es <= 2)%nat
  /\ (from = to -> found = true -> exists e, es = [e; e]).
Proof.
  intros Hf Ht es right_direction found.
  unfold es, right_direction, found, edge_exists, adjacent.
  apply Nat.eqb_neq in Hf, Ht. unfold null_vertex in Hf, Ht.
  rewrite Hf, Ht. cbn [orb].
  destruct (boost_edge_spec g to from) as [Hb1 Hb0].
  destruct (boost_edge_spec g from to) as [Hf1 Hf0].
  destruct (snd (boost.edge to from (internal_graph_ g))) eqn:Eb;
    destruct (snd (boost.edge from to (internal_graph_ g))) eqn:Ef;
    cbn [fst snd app length];
    try specialize (Hb1 eq_refl); try specialize (Hf1 eq_refl);
    try specialize (Hb0 eq_refl); try specialize (Hf0 eq_refl).
  - set (b := fst (boost.edge to from (internal_graph_ g))) in *.
    set (f := fst (boost.edge from to (internal_graph_ g))) in *.
    refine (conj _ (conj _ (conj _ (conj _ (conj _ _))))).
    + split; [intros _; exists f; tauto | reflexivity].
    + split; [intros _; exists f; exact Hf1 | reflexivity].
    + intros e [<-|[<-|[]]]; tauto.
    + split; intros _; [discriminate | reflexivity].
    + lia.
    + intros E _. exists f. unfold b, f. rewrite E. reflexivity.
  - set (b := fst (boost.edge to from (internal_graph_ g))) in *.
    refine (conj _ (conj _ (conj _ (conj _ (conj _ _))))).
    + split; [intros _; exists b; tauto | reflexivity].
    + split; [discriminate|].
      intros (e & He & H). exfalso. apply (Hf0 e He). exact H.
    + intros e [<-|[]]; tauto.
    + split; intros _; [discriminate | reflexivity].
    + lia.
    + intros E. rewrite E in Eb, Ef. rewrite Eb in Ef. discriminate.
  - set (f := fst (boost.edge from to (internal_graph_ g))) in *.
    refine (conj _ (conj _ (conj _ (conj _ (conj _ _))))).
    + split; [intros _; exists f; tauto | reflexivity].
    + split; [intros _; exists f; exact Hf1 | reflexivity].
    + intros e [<-|[]]; tauto.
    + split; intros _; [discriminate | reflexivity].
    + lia.
    + intros E. rewrite E in Eb, Ef. rewrite Eb in Ef. discriminate.
  - refine (conj _ (conj _ (conj _ (conj _ (conj _ _))))).
    + split; [discriminate|].
      intros (e & He & [H|H]); exfalso;
        [apply (Hf0 e He) | apply (Hb0 e He)]; tauto.
    + split; [discriminate|].
      intros (e & He & H). exfalso. apply (Hf0 e He). exact H.
    + intros e [].
    + split; [discriminate | intros H; exfalso; apply H; reflexivity].
    + lia.
    + intros _. discriminate.
Qed.

Lemma edge_exists_spec_witness :
  snd (edge_exists alternating_chain 2 3) = true <-> adjacent alternating_chain 2 3.
Proof.
  refine (proj1 (@edge_exists_spec alternating_chain 2 3 _ _)); discriminate.
Defined.

(** ** The shortest path between two edges *)

Lemma fold_update_stored (f : VertexProperties -> VertexProperties)
      (l : list VertexDescriptor) :
  (forall p, f (f p) = f p) ->
  forall g : SkeletalGraph,
    let g' := fold_left (fun g v => update_vertex g v f) l g in
    boost.m_vertices (internal_graph_ g')
    = map (fun vp => if existsb (Nat.eqb (fst vp)) l
                     then (fst vp, f (snd vp)) else vp)
          (boost.m_vertices (internal_graph_ g))
    /\ boost.m_edges (internal_graph_ g') = boost.m_edges (internal_graph_ g)
    /\ boost.m_fresh (internal_graph_ g') = boost.m_fresh (internal_graph_ g)
    /\ edge_spline_count_ g' = edge_spline_count_ g.
Proof.
  intros Hf. induction l as [|v l IH]; intros g; cbn [fold_left].
  - cbv zeta. refine (conj _ (conj eq_refl (conj eq_refl eq_refl))).
    symmetry. erewrite map_ext; [apply map_id|]. intros vp. reflexivity.
  - destruct (IH (update_vertex g v f)) as (H1 & H2 & H3 & H4).
    cbv zeta in *. rewrite H1, H2, H3, H4.
    refine (conj _ (conj eq_refl (conj eq_refl eq_refl))).
    unfold update_vertex. cbn [with_graph internal_graph_ boost.update_vertex
                                 boost.m_vertices].
    rewrite map_map. apply map_ext. intros [u p]. cbn [fst snd existsb].
    destruct (Nat.eqb_spec u v) as [->|Hne]; cbn [fst snd orb].
    + destruct (existsb (Nat.eqb v) l); [rewrite Hf|]; reflexivity.
    + reflexivity.
Qed.

Lemma reset_BFS_stored (g : SkeletalGraph) :
  reset_BFS g
  = mkSkeletalGraph (edge_spline_count_ g)
      (boost.mk_adjacency_list
         (map (fun vp => (fst vp, set_BFS GRuint_minus_one null_vertex (snd vp)))
              (boost.m_vertices (internal_graph_ g)))
         (boost.m_edges (internal_graph_ g))
         (boost.m_fresh (internal_graph_ g))).
Proof.
  unfold reset_BFS.
  destruct (@fold_update_stored (set_BFS GRuint_minus_one null_vertex)
              (vertices g) (fun p => eq_refl) g) as (H1 & H2 & H3 & H4).
  cbv zeta in *.
  destruct (fold_left _ (vertices g) g) as [c [vs es fr]].
  cbn [internal_graph_ edge_spline_count_ boost.m_vertices boost.m_edges
         boost.m_fresh] in *.
  subst c es fr. f_equal. f_equal. rewrite H1. apply map_ext_in.
  intros [u p] Hin. cbn [fst snd].
  assert (Hex : existsb (Nat.eqb u) (vertices g) = true).
  { apply existsb_exists. exists u. split; [|apply Nat.eqb_refl].
    unfold vertices, boost.vertices. change u with (fst (u, p)).
    apply in_map. exact Hin. }
  rewrite Hex. reflexivity.
Qed.

Lemma lookup_vertex_absent (l : list (VertexDescriptor * VertexProperties))
      (v : VertexDescriptor) :
  ~ In v (map fst l) -> boost.lookup_vertex l v = None.
Proof.
  induction l as [|[u p] l IH]; simpl; intros H; [reflexivity|].
  destruct (Nat.eqb_spec u v) as [->|_]; [exfalso; apply H; left; reflexivity|].
  apply IH. intros Hin. apply H. right. exact Hin.
Qed.

Lemma reset_marks_stored (l0 l : list (VertexDescriptor * VertexProperties)) :
  map fst l0 = map fst l -> NoDup (map fst l) ->
  (forall v,
      same_but_BFS
        (match boost.lookup_vertex l0 v with
         | Some p => p | None => VertexProperties_default end)
        (match boost.lookup_vertex l v with
         | Some p => p | None => VertexProperties_default end)) ->
  map (fun vp => (fst vp, set_BFS GRuint_minus_one null_vertex (snd vp))) l0
  = map (fun vp => (fst vp, set_BFS GRuint_minus_one null_vertex (snd vp))) l.
Proof.
  revert l. induction l0 as [|[u0 p0] l0 IH]; intros [|[u p] l] Hfst Hnd Hsame;
    try discriminate; [reflexivity|].
  cbn [map fst snd] in *. injection Hfst as Hu Hfst. subst u0.
  inversion Hnd as [|? ? Hnotin Hnd']; subst.
  f_equal.
  - f_equal. specialize (Hsame u). cbn [boost.lookup_vertex] in Hsame.
    rewrite Nat.eqb_refl in Hsame.
    destruct Hsame as (A1 & A2 & A3 & A4 & A5).
    destruct p0, p. cbn in *. unfold set_BFS. cbn. congruence.
  - apply IH; [exact Hfst | exact Hnd'|].
    intros v. destruct (Nat.eqb_spec u v) as [<-|Hne].
    + rewrite !lookup_vertex_absent by (rewrite ?Hfst; exact Hnotin).
      apply same_but_BFS_refl.
    + specialize (Hsame v). cbn [boost.lookup_vertex] in Hsame.
      apply Nat.eqb_neq in Hne. rewrite Hne in Hsame. exact Hsame.
Qed.

Lemma reset_BFS_forgets_marks (g g0 : SkeletalGraph) :
  well_formed g -> search_marks_only g g0 -> reset_BFS g0 = reset_BFS g.
Proof.
  intros Hwf (Hc & He & Hf & Hv & Hsame).
  rewrite (reset_BFS_stored g0), (reset_BFS_stored g).
  unfold edge_spline_count in Hc. rewrite Hc, He, Hf. f_equal. f_equal.
  apply reset_marks_stored.
  - exact Hv.
  - apply (wf_vertex_nodup Hwf).
  - exact Hsame.
Qed.

Lemma search_marks_only_well_formed (g g0 : SkeletalGraph) :
  well_formed g -> search_marks_only g g0 -> well_formed g0.
Proof.
  intros Hwf (Hc & He & Hf & Hv & Hsame).
  apply (@well_formed_same_shape g g0); try assumption.
  unfold edges, boost.edges. rewrite He. reflexivity.
Qed.

Lemma shortest_path_forgets_marks (fuel : nat) (g g0 : SkeletalGraph)
      (from to : VertexDescriptor) :
  well_formed g -> search_marks_only g g0 ->
  option_map (@result_of _) (shortest_path fuel g0 from to)
  = option_map (@result_of _) (shortest_path fuel g from to).
Proof.
  intros Hwf Hm. unfold shortest_path.
  destruct (Nat.eqb from to); [reflexivity|].
  rewrite (reset_BFS_forgets_marks Hwf Hm). reflexivity.
Qed.

Lemma follow_parents_length (fuel : nat) (g : SkeletalGraph) :
  forall (v : VertexDescriptor) (path : list VertexDescriptor),
    follow_parents fuel g v = Some path -> (length path < fuel)%nat.
Proof.
  induction fuel as [|fuel IH]; intros v path H; simpl in H; [discriminate|].
  destruct (Nat.eqb v null_vertex).
  - injection H as <-. simpl. lia.
  - destruct (follow_parents fuel g _) as [l|] eqn:E; [|discriminate].
    injection H as <-. simpl. specialize (IH _ _ E). lia.
Qed.

Lemma shortest_path_length (fuel : nat) (g g' : SkeletalGraph)
      (from to : VertexDescriptor) (path : list VertexDescriptor) :
  shortest_path fuel g from to = Some (Returned g' path) ->
  (1 <= length path <= S fuel)%nat.
Proof.
  unfold shortest_path. destruct (Nat.eqb from to).
  - intros H. injection H as _ <-. simpl. lia.
  - destruct (bfs_loop _ _ _) as [[g3 q] found].
    destruct found; cbn [negb]; [|discriminate].
    destruct (follow_parents fuel g3 _) as [l|] eqn:E; [|discriminate].
    intros H. injection H as _ <-. simpl.
    pose proof (follow_parents_length _ _ _ E). lia.
Qed.

Lemma walk_same_edges (g g0 : SkeletalGraph) (path : list VertexDescriptor) :
  edges g0 = edges g -> walk g0 path -> walk g path.
Proof.
  intros He. induction path as [|u [|v rest] IH]; simpl; auto.
  intros [(e & Hin & Hends) Hw]. split; [|apply IH; exact Hw].
  exists e. rewrite <- He. tauto.
Qed.

Lemma shortest_path_step (fuel : nat) (g g0 : SkeletalGraph)
      (a b : VertexDescriptor) :
  well_formed g -> search_marks_only g g0 -> In b (vertices g) ->
  (2 * length (vertices g) + 2 <= fuel)%nat ->
  exists o,
    shortest_path fuel g0 a b = Some o
    /\ search_marks_only g (graph_after o)
    /\ option_map (@result_of _) (shortest_path fuel g a b) = Some (result_of o)
    /\ forall g' p,
        o = Returned g' p ->
        walk g p /\ hd_error p = Some a /\ last p null_vertex = b
        /\ (1 <= length p <= S fuel)%nat.
Proof.
  intros Hwf Hm Hb Hfuel.
  pose proof (search_marks_only_well_formed Hwf Hm) as Hwf0.
  assert (Hv : vertices g0 = vertices g) by (destruct Hm as (_ & _ & _ & H & _); exact H).
  assert (He : edges g0 = edges g).
  { destruct Hm as (_ & H & _). unfold edges, boost.edges. rewrite H. reflexivity. }
  assert (Hb0 : In b (vertices g0)) by (rewrite Hv; exact Hb).
  assert (Hfuel0 : (2 * length (vertices g0) + 2 <= fuel)%nat)
    by (rewrite Hv; exact Hfuel).
  destruct (@shortest_path_some fuel g0 a b Hwf0 Hb0 Hfuel0) as (o & Ho & Hends).
  exists o. split; [exact Ho|]. split; [|split].
  - apply (@search_marks_only_trans g g0 (graph_after o) Hm).
    apply (@shortest_path_marks_only fuel g0 a b o Ho).
  - rewrite <- (@shortest_path_forgets_marks fuel g g0 a b Hwf Hm), Ho.
    reflexivity.
  - intros g' p ->. destruct (Hends g' p eq_refl) as [Hhd Hlast].
    split; [|split; [exact Hhd | split; [exact Hlast|]]].
    + apply (@walk_same_edges g g0 p He).
      apply (@shortest_path_walk fuel g0 g' a b p Ho).
    + apply (@shortest_path_length fuel g0 g' a b p Ho).
Qed.

Lemma min_size_index_four (bound : nat) (p1 p2 p3 p4 : list VertexDescriptor) :
  (Z.of_nat bound < 2 ^ 64 - 1)%Z ->
  (length p1 <= bound)%nat -> (length p2 <= bound)%nat ->
  (length p3 <= bound)%nat -> (length p4 <= bound)%nat ->
  let chosen := nth (min_size_index [p1; p2; p3; p4]) [p1; p2; p3; p4] [] in
  In chosen [p1; p2; p3; p4]
  /\ forall p, In p [p1; p2; p3; p4] -> (length chosen <= length p)%nat.
Proof.
  intros Hb H1 H2 H3 H4. unfold min_size_index.
  cbn [length seq combine fold_left fst snd].
  change (2 ^ 64 - 1)%Z with 18446744073709551615%Z in *.
  destruct (Z.ltb_spec (Z.of_nat (length p1)) 18446744073709551615) as [_|C];
    [|lia].
  cbn [fst snd].
  destruct (Z.ltb_spec (Z.of_nat (length p2)) (Z.of_nat (length p1)));
    cbn [fst snd];
    match goal with
    | |- context [Z.ltb (Z.of_nat (length p3)) ?b] =>
        destruct (Z.ltb_spec (Z.of_nat (length p3)) b)
    end; cbn [fst snd];
    match goal with
    | |- context [Z.ltb (Z.of_nat (length p4)) ?b] =>
        destruct (Z.ltb_spec (Z.of_nat (length p4)) b)
    end; cbn [fst snd nth];
    (split; [simpl; tauto|]);
    intros p [<-|[<-|[<-|[<-|[]]]]]; lia.
Qed.

Lemma result_thrown (A : Type) (x : option (outcome A)) (g1 : SkeletalGraph)
      (ex : exception) :
  option_map (@result_of A) x = Some (result_of (Thrown g1 ex)) ->
  exists g0, x = Some (Thrown g0 ex).
Proof.
  destruct x as [[g0 a|g0 ex0]|]; simpl; intros H; try discriminate.
  injection H as ->. exists g0. reflexivity.
Qed.

Lemma result_returned (A : Type) (x : option (outcome A)) (g0 g1 : SkeletalGraph)
      (a a' : A) :
  option_map (@result_of A) x = Some (result_of (Returned g1 a)) ->
  x = Some (Returned g0 a') -> a' = a.
Proof. intros H ->. simpl in H. congruence. Qed.

Lemma incident_ends (v : VertexDescriptor) (e : EdgeDescriptor) :
  incident v e = true <-> v = m_source e \/ v = m_target e.
Proof.
  unfold incident. rewrite orb_true_iff, !Nat.eqb_eq. intuition congruence.
Qed.

Lemma shortest_path_throws_what (fuel : nat) (g g0 : SkeletalGraph)
      (from to : VertexDescriptor) (ex : exception) :
  shortest_path fuel g from to = Some (Thrown g0 ex) ->
  ex = invalid_argument "Couldn't find path between vertices".
Proof.
  unfold shortest_path. destruct (Nat.eqb from to); [discriminate|].
  destruct (bfs_loop _ _ _) as [[g3 q3] found3].
  destruct found3; cbn [negb].
  - destruct (follow_parents fuel g3 _); discriminate.
  - intros H. injection H as _ <-. reflexivity.
Qed.

(** X23.  [shortest_path(source_edge, target_edge)] on two edges of a
    well-formed graph runs the vertex search for the four pairs of ends
    in turn.  The call throws exactly when one of the four searches
    throws, and with that exception: a throw of the call is the throw
    of a search, and a search that throws makes the call throw.
    Otherwise it returns a walk of the graph from an end of
    [source_edge] to an end of [target_edge] that is no longer than the
    path the vertex search finds for any of the four pairs.  Either way
    only search marks have changed. *)
Theorem shortest_path_edges_shortest (fuel : nat) (g : SkeletalGraph)
        (source_edge target_edge : EdgeDescriptor) :
  well_formed g -> In source_edge (edges g) -> In target_edge (edges g) ->
  (2 * length (vertices g) + 2 <= fuel)%nat ->
  (Z.of_nat fuel < 2 ^ 64 - 2)%Z ->
  exists o,
    shortest_path_edges fuel g source_edge target_edge = Some o
    /\ search_marks_only g (graph_after o)
    /\ (forall g' path,
           o = Returned g' path ->
           walk g path
           /\ (exists a b,
                  hd_error path = Some a /\ last path null_vertex = b
                  /\ incident a source_edge = true
                  /\ incident b target_edge = true)
           /\ (forall a b,
                  incident a source_edge = true ->
                  incident b target_edge = true ->
                  forall g0 p,
                    shortest_path fuel g a b = Some (Returned g0 p) ->
                    (length path <= length p)%nat))
    /\ (forall g' ex,
           o = Thrown g' ex ->
           exists a b g0,
             incident a source_edge = true /\ incident b target_edge = true
             /\ shortest_path fuel g a b = Some (Thrown g0 ex))
    /\ (forall a b g0 ex,
           incident a source_edge = true -> incident b target_edge = true ->
           shortest_path fuel g a b = Some (Thrown g0 ex) ->
           exists g', o = Thrown g' ex).
Proof.
  intros Hwf Hse Hte Hfuel Hbig.
  destruct (wf_endpoints Hwf _ Hte) as [Hts Htt].
  set (ss := m_source source_edge). set (st := m_target source_edge).
  set (ts := m_source target_edge) in *. set (tt := m_target target_edge) in *.
  assert (Iss : incident ss source_edge = true) by (apply incident_ends; tauto).
  assert (Ist : incident st source_edge = true) by (apply incident_ends; tauto).
  assert (Its : incident ts target_edge = true) by (apply incident_ends; tauto).
  assert (Itt : incident tt target_edge = true) by (apply incident_ends; tauto).
  unfold shortest_path_edges, boost.source, boost.target.
  fold ss. fold st. fold ts. fold tt.
  destruct (@shortest_path_step fuel g g ss ts Hwf (search_marks_only_refl g)
              Hts Hfuel) as (o1 & E1 & M1 & R1 & P1).
  rewrite E1. destruct o1 as [g1 p1|g1 ex1]; cbn [and_then graph_after] in *.
  2:{ eexists. split; [reflexivity|]. split; [exact M1|].
      split; [intros g' path H; discriminate|].
      split.
      { intros g' ex H. injection H as <- <-.
        destruct (@result_thrown _ _ _ _ R1) as [g0 H0].
        exists ss, ts, g0. tauto. }
      intros a b g0 ex _ _ Hp. exists g1. f_equal.
      rewrite (@shortest_path_throws_what _ _ _ _ _ _ Hp).
      apply (@shortest_path_throws_what _ _ _ _ _ _ E1). }
  destruct (@shortest_path_step fuel g g1 ss tt Hwf M1 Htt Hfuel)
    as (o2 & E2 & M2 & R2 & P2).
  rewrite E2. destruct o2 as [g2 p2|g2 ex2]; cbn [and_then graph_after] in *.
  2:{ eexists. split; [reflexivity|]. split; [exact M2|].
      split; [intros g' path H; discriminate|].
      split.
      { intros g' ex H. injection H as <- <-.
        destruct (@result_thrown _ _ _ _ R2) as [g0 H0].
        exists ss, tt, g0. tauto. }
      intros a b g0 ex _ _ Hp. exists g2. f_equal.
      rewrite (@shortest_path_throws_what _ _ _ _ _ _ Hp).
      apply (@shortest_path_throws_what _ _ _ _ _ _ E2). }
  destruct (@shortest_path_step fuel g g2 st ts Hwf M2 Hts Hfuel)
    as (o3 & E3 & M3 & R3 & P3).
  rewrite E3. destruct o3 as [g3 p3|g3 ex3]; cbn [and_then graph_after] in *.
  2:{ eexists. split; [reflexivity|]. split; [exact M3|].
      split; [intros g' path H; discriminate|].
      split.
      { intros g' ex H. injection H as <- <-.
        destruct (@result_thrown _ _ _ _ R3) as [g0 H0].
        exists st, ts, g0. tauto. }
      intros a b g0 ex _ _ Hp. exists g3. f_equal.
      rewrite (@shortest_path_throws_what _ _ _ _ _ _ Hp).
      apply (@shortest_path_throws_what _ _ _ _ _ _ E3). }
  destruct (@shortest_path_step fuel g g3 st tt Hwf M3 Htt Hfuel)
    as (o4 & E4 & M4 & R4 & P4).
  rewrite E4. destruct o4 as [g4 p4|g4 ex4]; cbn [and_then graph_after] in *.
  2:{ eexists. split; [reflexivity|]. split; [exact M4|].
      split; [intros g' path H; discriminate|].
      split.
      { intros g' ex H. injection H as <- <-.
        destruct (@result_thrown _ _ _ _ R4) as [g0 H0].
        exists st, tt, g0. tauto. }
      intros a b g0 ex _ _ Hp. exists g4. f_equal.
      rewrite (@shortest_path_throws_what _ _ _ _ _ _ Hp).
      apply (@shortest_path_throws_what _ _ _ _ _ _ E4). }
  destruct (P1 _ _ eq_refl) as (W1 & Hd1 & L1 & B1).
  destruct (P2 _ _ eq_refl) as (W2 & Hd2 & L2 & B2).
  destruct (P3 _ _ eq_refl) as (W3 & Hd3 & L3 & B3).
  destruct (P4 _ _ eq_refl) as (W4 & Hd4 & L4 & B4).
  assert (Hb : (Z.of_nat (S fuel) < 2 ^ 64 - 1)%Z) by lia.
  destruct (@min_size_index_four (S fuel) p1 p2 p3 p4 Hb
              (proj2 B1) (proj2 B2) (proj2 B3) (proj2 B4)) as [Hin Hmin].
  cbv zeta in Hin, Hmin.
  set (chosen := nth (min_size_index [p1; p2; p3; p4]) [p1; p2; p3; p4] []) in *.
  eexists. split; [reflexivity|]. split; [exact M4|].
  split; [|split; [intros g' ex H; discriminate|]].
  2:{ intros a b g0 ex Ha Hb' Hp.
      apply incident_ends in Ha. apply incident_ends in Hb'.
      fold ss st in Ha. fold ts tt in Hb'.
      destruct Ha as [-> | ->], Hb' as [-> | ->].
      - rewrite Hp in R1. discriminate.
      - rewrite Hp in R2. discriminate.
      - rewrite Hp in R3. discriminate.
      - rewrite Hp in R4. discriminate. }
  intros g' path H. injection H as _ <-.
  split; [|split].
  - destruct Hin as [<-|[<-|[<-|[<-|[]]]]]; assumption.
  - destruct Hin as [<-|[<-|[<-|[<-|[]]]]].
    + exists ss, ts. tauto.
    + exists ss, tt. tauto.
    + exists st, ts. tauto.
    + exists st, tt. tauto.
  - intros a b Ha Hb' g0 p Hp.
    apply incident_ends in Ha. apply incident_ends in Hb'.
    fold ss st in Ha. fold ts tt in Hb'.
    destruct Ha as [-> | ->], Hb' as [-> | ->].
    + rewrite (@result_returned _ _ _ _ _ _ R1 Hp). apply Hmin. simpl. tauto.
    + rewrite (@result_returned _ _ _ _ _ _ R2 Hp). apply Hmin. simpl. tauto.
    + rewrite (@result_returned _ _ _ _ _ _ R3 Hp). apply Hmin. simpl. tauto.
    + rewrite (@result_returned _ _ _ _ _ _ R4 Hp). apply Hmin. simpl. tauto.
Qed.

(** Witness for [shortest_path_edges_shortest]: the two outer edges of
    the alternating chain, [1 -> 2] and [5 -> 4]. *)
Lemma shortest_path_edges_shortest_witness :
  exists o,
    shortest_path_edges 12 alternating_chain
                        (mkEdgeDescriptor 1 2 6) (mkEdgeDescriptor 5 4 9)
    = Some o
    /\ search_marks_only alternating_chain (graph_after o)
    /\ (forall g' path, o = Returned g' path -> walk alternating_chain path).
Proof.
  destruct (@shortest_path_edges_shortest 12 alternating_chain
              (mkEdgeDescriptor 1 2 6) (mkEdgeDescriptor 5 4 9))
    as (o & H & M & P & _).
  - constructor; simpl.
    + lia.
    + intros v [<-|[<-|[<-|[<-|[<-|[]]]]]]; lia.
    + repeat constructor; simpl; intuition discriminate.
    + intros e [<-|[<-|[<-|[<-|[]]]]]; simpl; lia.
    + repeat constructor; simpl; intuition discriminate.
    + intros e [<-|[<-|[<-|[<-|[]]]]]; simpl; tauto.
  - simpl. tauto.
  - simpl. tauto.
  - simpl. lia.
  - vm_compute. reflexivity.
  - exists o. split; [exact H|]. split; [exact M|].
    intros g' path Ho. exact (proj1 (P g' path Ho)).
Defined.

(** ** Cutting an edge *)

Lemma split_edge_at_summary (normalize : Vector3f -> Vector3f)
      (g : SkeletalGraph) (e : EdgeDescriptor) (i : GRuint) (p : Vector3f) :
  well_formed g -> In e (edges g) -> few_edges g ->
  let size := curve_size (curve (get_edge g e)) in
  (size < 2 ^ 64)%Z -> (0 <= i < size - 1)%Z ->
  let m := boost.m_fresh (internal_graph_ g) in
  let l := mkEdgeDescriptor (m_source e) m (S m) in
  let r := mkEdgeDescriptor m (m_target e) (S (S m)) in
  exists g' pl pr,
    split_edge_at normalize g e i p = Returned g' (m, (l, r))
    /\ boost.m_vertices (internal_graph_ g')
       = boost.m_vertices (internal_graph_ g)
         ++ [(m, VertexProperties_init p (get_edge_radius g e i))]
    /\ boost.m_edges (internal_graph_ g')
       = filter (fun ep => negb (edge_eqb (fst ep) e))
                (boost.m_edges (internal_graph_ g))
         ++ [(l, pl); (r, pr)]
    /\ boost.m_fresh (internal_graph_ g') = S (S (S m))
    /\ curve_size (curve pl) = (i + 2)%Z
    /\ curve_size (curve pr) = (size - i)%Z
    /\ edge_spline_count g' = to_GRuint (edge_spline_count g + 2)
    /\ (count_consistent g -> count_consistent g')
    /\ well_formed g'.
Proof.
  intros Hwf He Hfew size Hsize Hi m l r.
  destruct (@split_edge_at_returns normalize g e i p Hwf He Hfew Hsize Hi)
    as (g' & Hret & Hv & Hed & Hf & Hc).
  fold size in Hc. fold m in Hret, Hv, Hed, Hf. fold l in Hret, Hed.
  fold r in Hret, Hed.
  set (c := curve (get_edge g e)) in *.
  eexists g', _, _.
  destruct (stored_of_edge g e He) as [p0 Hp0].
  assert (Hwf' : well_formed g').
  { apply (@split_store_well_formed g g' e l r _ _ _ Hwf He eq_refl eq_refl
             Hv Hed Hf). }
  assert (Hl : curve_size (split_first_half normalize c i p) = (i + 2)%Z)
    by (apply split_first_half_size; lia).
  assert (Hr : curve_size (split_second_half normalize c i p) = (size - i)%Z)
    by (apply split_second_half_size; [exact Hsize | exact Hi]).
  refine (conj Hret (conj Hv (conj Hed (conj Hf (conj Hl (conj Hr
            (conj _ (conj _ Hwf')))))))).
  - rewrite Hc. apply to_GRuint_split_count.
  - intros Hcc. unfold count_consistent in *.
    rewrite Hc, to_GRuint_split_count, Hcc.
    unfold sum_curve_sizes.
    fold (samples_of (boost.m_edges (internal_graph_ g))).
    fold (samples_of (boost.m_edges (internal_graph_ g'))).
    rewrite Hed, samples_of_app.
    pose proof (samples_of_filter (fun ep => edge_eqb (fst ep) e)
                                  (boost.m_edges (internal_graph_ g))) as Hs.
    cbv beta in Hs.
    rewrite (@samples_of_one _ e p0 (nodup_stored Hwf) Hp0) in Hs.
    unfold samples_of at 3. cbn [map fold_right snd curve].
    rewrite Hl, Hr.
    assert (Hp0' : curve_size (curve p0) = size).
    { unfold size, c. rewrite (get_edge_stored e p0 Hwf Hp0). reflexivity. }
    destruct (to_GRuint_decomp (samples_of (boost.m_edges (internal_graph_ g))))
      as [k ->].
    apply to_GRuint_congruent. exists k. lia.
Qed.

Lemma filter_old_edges (g : SkeletalGraph) (x : EdgeDescriptor)
      (f : EdgeDescriptor * EdgeProperties -> bool) :
  well_formed g ->
  (boost.m_fresh (internal_graph_ g) <= m_eproperty x)%nat ->
  filter (fun ep => negb (edge_eqb (fst ep) x))
         (filter f (boost.m_edges (internal_graph_ g)))
  = filter f (boost.m_edges (internal_graph_ g)).
Proof.
  intros Hwf Hx. apply filter_all. intros [d q] Hd.
  apply filter_In in Hd. destruct Hd as [Hd _].
  assert (Hd' : In d (edges g))
    by (unfold edges, boost.edges; apply (in_map fst _ _ Hd)).
  apply (wf_edge_range Hwf) in Hd'. cbn [fst]. unfold edge_eqb.
  apply negb_true_iff, Nat.eqb_neq. lia.
Qed.

(** X24.  For a valid segment index, [cut_edge_at] replaces the edge by
    two edges that no longer meet: the left one runs from the old source
    to a new vertex and has [segment_index + 2] samples, the right one
    runs from a second new vertex to the old target and has
    [size - segment_index] samples.  The two new vertices are the only
    ones added and nothing joins them; the sample count grows by 2, a
    consistent count stays consistent and the graph stays well
    formed. *)
Theorem cut_edge_at_cuts (normalize : Vector3f -> Vector3f)
        (g : SkeletalGraph) (e : EdgeDescriptor) (i : GRuint) (p : Vector3f) :
  well_formed g -> In e (edges g) ->
  (2 * (Z.of_nat (length (edges g)) + 3) < GRuint_modulus)%Z ->
  let size := curve_size (curve (get_edge g e)) in
  (size < GRuint_modulus)%Z -> (0 <= i < size - 1)%Z ->
  exists g' lv rv le re,
    cut_edge_at normalize g e i p = Returned g' ((lv, rv), (le, re))
    /\ vertices g' = vertices g ++ [rv; lv]
    /\ edges g' = filter (fun x => negb (edge_eqb x e)) (edges g) ++ [re; le]
    /\ (m_source le = m_source e /\ m_target le = lv)
    /\ (m_source re = rv /\ m_target re = m_target e)
    /\ curve_size (curve (get_edge g' le)) = (i + 2)%Z
    /\ curve_size (curve (get_edge g' re)) = (size - i)%Z
    /\ edge_spline_count g' = to_GRuint (edge_spline_count g + 2)
    /\ (count_consistent g -> count_consistent g')
    /\ position (get_vertex g' lv)
       = vadd p (vscale (normalize
                           (vsub (fst (curve_at (curve (get_edge g e)) i)) p))
                        (Finite 1%Q))
    /\ position (get_vertex g' rv)
       = vadd p (vscale (normalize
                           (vsub (fst (curve_at (curve (get_edge g e))
                                                (i + 1))) p))
                        (Finite 1%Q))
    /\ well_formed g'.
Proof.
  intros Hwf He Hfew3 size Hsize Hi.
  change GRuint_modulus with 4294967296%Z in Hfew3, Hsize.
  assert (Hfew : few_edges g)
    by (unfold few_edges; change GRuint_modulus with 4294967296%Z; lia).
  assert (Hsize64 : (size < 2 ^ 64)%Z)
    by (change (2 ^ 64)%Z with 18446744073709551616%Z; lia).
  unfold cut_edge_at. change (curve_size (curve (get_edge g e))) with size.
  rewrite (@to_size_t_small (size - 1))
    by (change (2 ^ 64)%Z with 18446744073709551616%Z; lia).
  destruct (Z.leb_spec (size - 1) i) as [Hge|_]; [lia|].
  match goal with
  | |- context [split_edge_at normalize g e i ?q] => set (pr := q)
  end.
  match goal with
  | |- context [split_edge_at normalize _ _ _ (vadd p ?q)] =>
      set (pl := vadd p q)
  end.
  (* the first split *)
  destruct (@split_edge_at_summary normalize g e i pr Hwf He Hfew Hsize64 Hi)
    as (g1 & pl1 & pr1 & Hret1 & Hv1 & Hed1 & Hf1 & Hsl1 & Hsr1 & Hc1 & Hcc1
        & Hwf1).
  fold size in Hsr1.
  set (m := boost.m_fresh (internal_graph_ g)) in *.
  set (l1 := mkEdgeDescriptor (m_source e) m (S m)) in *.
  set (r1 := mkEdgeDescriptor m (m_target e) (S (S m))) in *.
  rewrite Hret1. cbn [fst snd].
  destruct (stored_of_edge g e He) as [p0 Hp0].
  pose proof (nodup_stored Hwf) as Hnd.
  pose proof (wf_edge_range Hwf e He) as Her. fold m in Her.
  assert (Hlen1 : length (edges g1) = S (length (edges g))).
  { unfold edges, boost.edges. rewrite Hed1, !length_map, length_app.
    rewrite <- (@filter_out_edge_length _ e p0 Hnd Hp0). simpl. lia. }
  assert (Hl1in : In l1 (edges g1)).
  { unfold edges, boost.edges. rewrite Hed1, map_app. apply in_or_app.
    right. left. reflexivity. }
  assert (Hget1 : get_edge g1 l1 = pl1).
  { apply (get_edge_stored l1 pl1 Hwf1). rewrite Hed1. apply in_or_app.
    right. left. reflexivity. }
  rewrite Hget1, Hsl1.
  assert (Hlast : to_GRuint (to_GRuint (i + 2) - 2) = i).
  { rewrite (@to_GRuint_small (i + 2))
      by (change GRuint_modulus with 4294967296%Z; lia).
    replace (i + 2 - 2)%Z with i by lia.
    apply to_GRuint_small. change GRuint_modulus with 4294967296%Z. lia. }
  rewrite Hlast.
  (* the second split *)
  assert (Hfew1 : few_edges g1).
  { unfold few_edges. rewrite Hlen1.
    change GRuint_modulus with 4294967296%Z. lia. }
  assert (Hsize1 : (curve_size (curve (get_edge g1 l1)) < 2 ^ 64)%Z)
    by (rewrite Hget1, Hsl1; change (2 ^ 64)%Z with 18446744073709551616%Z; lia).
  assert (Hi1 : (0 <= i < curve_size (curve (get_edge g1 l1)) - 1)%Z)
    by (rewrite Hget1, Hsl1; lia).
  destruct (@split_edge_at_summary normalize g1 l1 i pl Hwf1 Hl1in Hfew1
              Hsize1 Hi1)
    as (g2 & pl2 & pmid & Hret2 & Hv2 & Hed2 & Hf2 & Hsl2 & Hsmid & Hc2 & Hcc2
        & Hwf2).
  rewrite Hget1, Hsl1 in Hsmid. rewrite Hf1 in Hret2, Hv2, Hed2, Hf2.
  cbn [m_source m_target l1] in Hret2, Hed2.
  set (m2 := S (S (S m))) in *.
  set (l2 := mkEdgeDescriptor (m_source e) m2 (S m2)) in *.
  set (mid := mkEdgeDescriptor m2 m (S (S m2))) in *.
  rewrite Hret2. cbn [fst snd].
  (* the store after both splits *)
  assert (Hst2 : boost.m_edges (internal_graph_ g2)
                 = filter (fun ep => negb (edge_eqb (fst ep) e))
                          (boost.m_edges (internal_graph_ g))
                   ++ [(r1, pr1); (l2, pl2); (mid, pmid)]).
  { rewrite Hed2, Hed1, filter_app.
    rewrite (@filter_old_edges g l1 _ Hwf) by (unfold l1; simpl; fold m; lia).
    rewrite <- app_assoc. f_equal.
    assert (Hll : edge_eqb l1 l1 = true) by (unfold edge_eqb; apply Nat.eqb_refl).
    assert (Hrl : edge_eqb r1 l1 = false)
      by (unfold edge_eqb, l1, r1; simpl m_eproperty; apply Nat.eqb_neq; lia).
    cbn [filter fst]. rewrite Hll, Hrl. reflexivity. }
  set (old := filter (fun ep => negb (edge_eqb (fst ep) e))
                     (boost.m_edges (internal_graph_ g))) in *.
  assert (Hes2 : edges g2 = map fst old ++ [r1; l2; mid]).
  { unfold edges, boost.edges. rewrite Hst2, map_app. reflexivity. }
  assert (Hold : forall x, In x (map fst old) ->
                           In x (edges g) /\ (m_eproperty x < m)%nat).
  { intros x Hx. apply in_map_iff in Hx. destruct Hx as ([d q] & <- & Hd).
    apply filter_In in Hd. destruct Hd as [Hd _].
    assert (Hd' : In d (edges g))
      by (unfold edges, boost.edges; apply (in_map fst _ _ Hd)).
    split; [exact Hd'|]. apply (wf_edge_range Hwf) in Hd'. simpl. fold m in Hd'.
    lia. }
  assert (Holdlen : S (length (map fst old)) = length (edges g)).
  { rewrite length_map. unfold old, edges, boost.edges. rewrite length_map.
    apply (@filter_out_edge_length _ e p0 Hnd Hp0). }
  (* the middle edge is the only in-edge of the right vertex *)
  assert (Hmid : boost.in_edges m (internal_graph_ g2) = [mid]).
  { unfold boost.in_edges. fold (edges g2). rewrite Hes2, filter_app.
    rewrite filter_empty.
    - cbn [filter app m_target r1 l2 mid].
      destruct (wf_endpoints Hwf e He) as [_ Ht].
      pose proof (wf_vertex_range Hwf _ Ht) as Htr. fold m in Htr.
      assert (E1 : Nat.eqb (m_target e) m = false) by (apply Nat.eqb_neq; lia).
      assert (E2 : Nat.eqb m2 m = false) by (apply Nat.eqb_neq; unfold m2; lia).
      rewrite E1, E2, Nat.eqb_refl. reflexivity.
    - intros x Hx. apply Hold in Hx. destruct Hx as [Hx _].
      destruct (wf_endpoints Hwf x Hx) as [_ Ht].
      pose proof (wf_vertex_range Hwf _ Ht) as Htr. fold m in Htr.
      apply Nat.eqb_neq. lia. }
  rewrite Hmid. cbn [hd].
  (* removing the middle edge *)
  assert (Hmidin : In mid (edges g2)).
  { rewrite Hes2. apply in_or_app. right. simpl. tauto. }
  assert (Hd : edge_eqb mid EdgeDescriptor_default = false)
    by (unfold edge_eqb; simpl; reflexivity).
  assert (Hlen2 : (2 * Z.of_nat (length (edges g2)) < GRuint_modulus)%Z).
  { rewrite Hes2, length_app. simpl length.
    change GRuint_modulus with 4294967296%Z. lia. }
  assert (Hfit : forall v, degree_fits g2 v).
  { intros v. unfold degree_fits, boost.in_degree, boost.out_degree,
      boost.in_edges, boost.out_edges. fold (edges g2).
    pose proof (filter_length_bound (fun x => Nat.eqb (m_target x) v) (edges g2)).
    pose proof (filter_length_bound (fun x => Nat.eqb (m_source x) v) (edges g2)).
    lia. }
  assert (Hdeg_s : degree g2 m2 <> 1%Z).
  { apply (@degree_not_one g2 m2 (map fst old ++ [r1]) [mid] l2 mid);
      [rewrite Hes2, <- app_assoc; reflexivity
      | apply in_or_app; right; left; reflexivity
      | | | exact Hlen2];
      unfold incident; simpl; rewrite Nat.eqb_refl;
        [apply orb_true_r | reflexivity]. }
  assert (Hdeg_t : degree g2 m <> 1%Z).
  { apply (@degree_not_one g2 m (map fst old ++ [r1; l2]) [] mid r1);
      [rewrite Hes2, <- app_assoc; reflexivity
      | rewrite app_nil_r; apply in_or_app; right; left; reflexivity
      | | | exact Hlen2];
      unfold incident; simpl; rewrite Nat.eqb_refl;
        [apply orb_true_r | reflexivity]. }
  pose proof (@remove_edge_well_formed g2 mid Hwf2 Hmidin (Hfit _) (Hfit _))
    as Hwf3.
  pose proof (@remove_edge_consistent g2 mid Hwf2 Hmidin) as Hcc3.
  destruct (remove_edge_unfold g2 mid Hd (edge_of_existing _ mid Hmidin))
    as (rs & rt & Hrs & Hrt & Hg3).
  cbn [m_source m_target mid] in Hrs, Hrt, Hg3.
  destruct rs; [exfalso; apply Hdeg_s, Hrs; reflexivity|].
  destruct rt; [exfalso; apply Hdeg_t, Hrt; reflexivity|].
  destruct (remove_edge g2 mid) as [g3 vp]. cbn [fst] in Hg3, Hwf3, Hcc3.
  assert (Hgetmid : get_edge g2 mid = pmid).
  { apply (@get_edge_stored g2 mid pmid Hwf2). rewrite Hst2. apply in_or_app.
    right. simpl. tauto. }
  rewrite Hgetmid, Hsmid in Hg3.
  assert (Hst3 : boost.m_edges (internal_graph_ g3)
                 = old ++ [(r1, pr1); (l2, pl2)]).
  { rewrite Hg3. cbn [internal_graph_ boost.remove_edge boost.m_edges].
    rewrite Hst2, filter_app. unfold old at 1.
    rewrite (@filter_old_edges g mid _ Hwf)
      by (unfold mid, m2; simpl; fold m; lia).
    f_equal.
    assert (E1 : edge_eqb r1 mid = false)
      by (unfold edge_eqb, r1, mid, m2; simpl m_eproperty; apply Nat.eqb_neq; lia).
    assert (E2 : edge_eqb l2 mid = false)
      by (unfold edge_eqb, l2, mid, m2; simpl m_eproperty; apply Nat.eqb_neq; lia).
    assert (E3 : edge_eqb mid mid = true) by (unfold edge_eqb; apply Nat.eqb_refl).
    cbn [filter fst]. rewrite E1, E2, E3. reflexivity. }
  assert (Hv3 : boost.m_vertices (internal_graph_ g3)
                = boost.m_vertices (internal_graph_ g2))
    by (rewrite Hg3; reflexivity).
  exists g3, m2, m, l2, r1.
  split; [reflexivity|].
  assert (Hfresh : ~ In m (map fst (boost.m_vertices (internal_graph_ g)))).
  { intros Hin. apply (wf_vertex_range Hwf) in Hin. fold m in Hin. lia. }
  assert (Hfresh2 : ~ In m2 (map fst (boost.m_vertices (internal_graph_ g1)))).
  { intros Hin. apply (wf_vertex_range Hwf1) in Hin. rewrite Hf1 in Hin. lia. }
  refine (conj _ (conj _ (conj _ (conj _ (conj _ (conj _ (conj _
            (conj _ (conj _ (conj _ Hwf3)))))))))).
  - unfold vertices, boost.vertices. rewrite Hv3, Hv2, Hv1, !map_app.
    rewrite <- app_assoc. reflexivity.
  - unfold edges, boost.edges. rewrite Hst3, map_app. f_equal.
    unfold old. apply (filter_map_fst (fun x => negb (edge_eqb x e))).
  - split; reflexivity.
  - split; reflexivity.
  - rewrite (@get_edge_stored g3 l2 pl2 Hwf3)
      by (rewrite Hst3; apply in_or_app; right; simpl; tauto).
    exact Hsl2.
  - rewrite (@get_edge_stored g3 r1 pr1 Hwf3)
      by (rewrite Hst3; apply in_or_app; right; simpl; tauto).
    exact Hsr1.
  - rewrite Hg3. cbn [edge_spline_count edge_spline_count_].
    change (edge_spline_count_ g2) with (edge_spline_count g2).
    rewrite Hc2, Hc1.
    replace (i + 2 - i)%Z with 2%Z by lia.
    rewrite (@to_GRuint_small 2) by (change GRuint_modulus with 4294967296%Z; lia).
    destruct (to_GRuint_decomp (edge_spline_count g + 2)) as [k1 Hk1].
    destruct (to_GRuint_decomp (to_GRuint (edge_spline_count g + 2) + 2))
      as [k2 Hk2].
    rewrite <- (to_GRuint_idem (edge_spline_count g + 2)) at 2.
    apply to_GRuint_congruent. exists k2. rewrite Hk2. lia.
  - intros Hcc. apply Hcc3, Hcc2, Hcc1, Hcc.
  - unfold get_vertex, boost.get_vertex. rewrite Hv3, Hv2.
    rewrite (@lookup_vertex_app_fresh _ m2 _ Hfresh2). reflexivity.
  - unfold get_vertex, boost.get_vertex. rewrite Hv3, Hv2, Hv1.
    rewrite (@lookup_vertex_app_old _ _ m _ (@lookup_vertex_app_fresh _ m _ Hfresh)).
    cbn [position VertexProperties_init]. unfold pr.
    rewrite (@to_GRuint_small (i + 1))
      by (change GRuint_modulus with 4294967296%Z; lia).
    reflexivity.
Qed.

Lemma cut_edge_at_cuts_witness :
  exists g' lv rv le re,
    cut_edge_at unnormalized (one_edge unnormalized (Finite 1%Q) (Finite 1%Q))
                edge_1_2 0%Z (vec 1 0 0)
    = Returned g' ((lv, rv), (le, re))
    /\ vertices g'
       = vertices (one_edge unnormalized (Finite 1%Q) (Finite 1%Q)) ++ [rv; lv].
Proof.
  destruct (@cut_edge_at_cuts unnormalized
              (one_edge unnormalized (Finite 1%Q) (Finite 1%Q))
              edge_1_2 0%Z (vec 1 0 0)
              (one_edge_well_formed _ _) (or_introl eq_refl))
    as (g' & lv & rv & le & re & H & Hv & _).
  - reflexivity.
  - reflexivity.
  - vm_compute. split; [discriminate | reflexivity].
  - exists g', lv, rv, le, re. split; [exact H | exact Hv].
Defined.

(** ** Counting components: a lower bound *)

Lemma reachable_same_store (R : VertexProperties -> VertexProperties -> Prop)
      (g g' : SkeletalGraph) (u v : VertexDescriptor) :
  same_store R g g' -> reachable g' u v -> reachable g u v.
Proof.
  intros Hs H. pose proof (edges_of_same_store Hs) as He.
  assert (Hv : vertices g' = vertices g)
    by (destruct Hs as (_ & _ & _ & H' & _); exact H').
  induction H as [x Hx|e Hin|x y _ IH|x y z _ IH1 _ IH2].
  - apply reachable_refl. rewrite <- Hv. exact Hx.
  - apply reachable_edge. rewrite <- He. exact Hin.
  - apply reachable_sym. exact IH.
  - apply (reachable_trans IH1 IH2).
Qed.

Lemma count_fold_covers (g : SkeletalGraph) :
  (Z.of_nat (length (vertices g)) < GRuint_modulus)%Z ->
  forall (l : list VertexDescriptor) (g' : SkeletalGraph)
         (starts : list VertexDescriptor),
    (forall v, In v l -> In v (vertices g)) ->
    tree_marks_only g g' ->
    (length starts + length l <= length (vertices g))%nat ->
    (forall v, is_in_spanning_tree (get_vertex g' v) = true ->
               exists s, In s starts /\ reachable g s v) ->
    let r := fold_left
               (fun (acc : SkeletalGraph * GRuint) vi =>
                  let (g', cc_count) := acc in
                  if negb (is_in_spanning_tree (get_vertex g' vi))
                  then (explore_from_vertex g' vi, to_GRuint (cc_count + 1))
                  else acc)
               l (g', Z.of_nat (length starts)) in
    exists starts',
      snd r = Z.of_nat (length starts')
      /\ incl starts starts'
      /\ forall v, In v l -> exists s, In s starts' /\ reachable g s v.
Proof.
  intros Hsmall.
  induction l as [|v0 l IH]; intros g' starts Hl Hm Hlen Hcov; cbn [fold_left].
  - exists starts. split; [reflexivity|]. split; [apply incl_refl|].
    intros v [].
  - assert (Hv0 : In v0 (vertices g)) by (apply Hl; left; reflexivity).
    assert (Hl' : forall v, In v l -> In v (vertices g))
      by (intros v Hv; apply Hl; right; exact Hv).
    cbn [length] in Hlen.
    destruct (is_in_spanning_tree (get_vertex g' v0)) eqn:E0; cbn [negb].
    + destruct (IH g' starts Hl' Hm ltac:(lia) Hcov)
        as (starts' & Hc & Hincl & Hall).
      exists starts'. split; [exact Hc|]. split; [exact Hincl|].
      intros v [<-|Hv]; [|apply Hall; exact Hv].
      destruct (Hcov v0 E0) as (s & Hs & Hr).
      exists s. split; [apply Hincl; exact Hs | exact Hr].
    + assert (Hv0' : In v0 (vertices g')).
      { destruct Hm as (_ & _ & _ & Hv & _). rewrite Hv. exact Hv0. }
      destruct (explore_from_vertex_explored g' v0 Hv0') as (Hm1 & _ & _ & Hnew).
      change (fst (explore_loop (Z.to_nat (to_GRuint (vertex_count g' * 2)))
                                (g', [v0])))
        with (explore_from_vertex g' v0) in Hm1, Hnew.
      assert (Hcount : to_GRuint (Z.of_nat (length starts) + 1)
                       = Z.of_nat (length (v0 :: starts))).
      { rewrite to_GRuint_small by lia. cbn [length]. lia. }
      rewrite Hcount.
      destruct (IH (explore_from_vertex g' v0) (v0 :: starts) Hl'
                   (tree_marks_only_trans Hm Hm1))
        as (starts' & Hc & Hincl & Hall).
      { cbn [length]. lia. }
      { intros v Hv. destruct (Hnew v Hv) as [Hold|Hreach].
        - destruct (Hcov v Hold) as (s & Hs & Hr). exists s.
          split; [right; exact Hs | exact Hr].
        - exists v0. split; [left; reflexivity|].
          apply (reachable_same_store Hm Hreach). }
      exists starts'. split; [exact Hc|].
      split; [intros s Hs; apply Hincl; right; exact Hs|].
      intros v [<-|Hv]; [|apply Hall; exact Hv].
      exists v0. split; [apply Hincl; left; reflexivity|].
      apply reachable_refl. exact Hv0.
Qed.

Lemma representatives_bound (g : SkeletalGraph)
      (reps starts : list VertexDescriptor) :
  Forall (fun r => In r (vertices g)) reps ->
  ForallOrdPairs (fun r r' => ~ reachable g r r') reps ->
  (forall v, In v (vertices g) -> exists s, In s starts /\ reachable g s v) ->
  (length reps <= length starts)%nat.
Proof.
  intros Hin Hfop Hcov.
  assert (H : exists ss,
             length ss = length reps /\ NoDup ss /\ incl ss starts
             /\ forall s, In s ss -> exists r, In r reps /\ reachable g s r).
  { induction Hfop as [|r reps Hr Hfop IH].
    - exists []. repeat split; [constructor | intros x [] | intros s []].
    - inversion Hin as [|? ? Hrin Hin']; subst.
      destruct (IH Hin') as (ss & Hlen & Hnd & Hincl & Hss).
      destruct (Hcov r Hrin) as (s & Hs & Hsr).
      exists (s :: ss). split; [simpl; congruence|].
      split; [|split].
      + constructor; [|exact Hnd]. intros Hsin.
        destruct (Hss s Hsin) as (r' & Hr' & Hsr').
        rewrite Forall_forall in Hr. apply (Hr r' Hr').
        apply (reachable_trans (reachable_sym Hsr) Hsr').
      + intros x [<-|Hx]; [exact Hs | apply Hincl; exact Hx].
      + intros x [<-|Hx].
        * exists r. split; [left; reflexivity | exact Hsr].
        * destruct (Hss x Hx) as (r' & Hr' & Hxr').
          exists r'. split; [right; exact Hr' | exact Hxr']. }
  destruct H as (ss & Hlen & Hnd & Hincl & _).
  rewrite <- Hlen. apply NoDup_incl_length; assumption.
Qed.

(** X25.  On a graph whose spanning-tree marks are all clear,
    [count_connected_components] never undercounts: the number it
    returns is at least the number of classes of the vertices under
    undirected reachability. *)
Theorem count_connected_components_lower_bound (g : SkeletalGraph)
        (reps : list VertexDescriptor) :
  (Z.of_nat (length (vertices g)) < GRuint_modulus)%Z ->
  (forall v, In v (vertices g) ->
             is_in_spanning_tree (get_vertex g v) = false) ->
  class_representatives g reps ->
  (Z.of_nat (length reps) <= snd (count_connected_components g))%Z.
Proof.
  intros Hsmall Hclear (Hin & _ & Hfop).
  assert (Hclear' : forall v, is_in_spanning_tree (get_vertex g v) = true ->
                              exists s, In s (@nil VertexDescriptor)
                                        /\ reachable g s v).
  { intros v Hv. exfalso.
    destruct (in_dec Nat.eq_dec v (vertices g)) as [Hi|Hn].
    - rewrite (Hclear v Hi) in Hv. discriminate.
    - rewrite (get_vertex_absent _ _ Hn) in Hv. discriminate. }
  unfold count_connected_components.
  destruct (Z.eqb_spec (vertex_count g) 0) as [E|_]; cbn [snd].
  - assert (Hnil : vertices g = []).
    { unfold vertex_count in E.
      assert (Hl : length (boost.m_vertices (internal_graph_ g))
                   = length (vertices g))
        by (unfold vertices, boost.vertices; symmetry; apply length_map).
      rewrite Hl, to_GRuint_small in E by lia.
      destruct (vertices g); [reflexivity | simpl in E; lia]. }
    rewrite Hnil in Hin. destruct reps as [|r reps]; [simpl; lia|].
    inversion Hin as [|? ? Hr _]. contradiction.
  - destruct (@count_fold_covers g Hsmall (vertices g) g []
                (fun v Hv => Hv) (tree_marks_only_refl g)
                ltac:(simpl; lia) Hclear')
      as (starts & Hc & _ & Hall).
    cbv zeta in Hc. cbn [length Z.of_nat] in Hc.
    match goal with
    | |- context [fold_left ?f (vertices g) (g, 0%Z)] =>
        set (r := fold_left f (vertices g) (g, 0%Z)) in *
    end.
    destruct r as [g1 cc]. cbn [snd] in Hc |- *. rewrite Hc.
    apply Nat2Z.inj_le.
    apply (@representatives_bound g reps starts Hin Hfop Hall).
Qed.

Lemma count_connected_components_lower_bound_witness :
  (Z.of_nat (length [1%nat])
   <= snd (count_connected_components
             (one_edge unnormalized (Finite 1%Q) (Finite 1%Q))))%Z.
Proof.
  apply (@count_connected_components_lower_bound
           (one_edge unnormalized (Finite 1%Q) (Finite 1%Q)) [1%nat]).
  - reflexivity.
  - intros v [<-|[<-|[]]]; reflexivity.
  - split; [|split].
    + constructor; [simpl; tauto | constructor].
    + constructor; [|constructor; [|constructor]].
      * apply Exists_cons_hd. apply reachable_refl. simpl. tauto.
      * apply Exists_cons_hd.
        apply (reachable_edge (one_edge unnormalized (Finite 1%Q) (Finite 1%Q))
                              edge_1_2).
        simpl. tauto.
    + apply FOP_cons; [apply Forall_nil | apply FOP_nil].
Defined.

(** ** Removing a vertex of degree 2 *)

Lemma fold_left_snoc {A} (l : list A) :
  forall c : list A, fold_left (fun c p => c ++ [p]) l c = c ++ l.
Proof.
  induction l as [|a l IH]; intros c; simpl; [symmetry; apply app_nil_r|].
  rewrite IH, <- app_assoc. reflexivity.
Qed.

Lemma push_back_from_second_tail (c from : DeformableSplineCurve) :
  push_back_from_second c from = c ++ tl from.
Proof.
  unfold push_back_from_second.
  rewrite (fold_left_map (fun c p => c ++ [p]) (curve_at from)).
  rewrite fold_left_snoc. f_equal.
  destruct from as [|a from]; [reflexivity|].
  rewrite curve_at_range by (unfold curve_size; simpl length; lia).
  unfold curve_size. cbn [skipn Z.to_nat tl].
  change (Z.to_nat 1) with 1%nat. cbn [skipn].
  apply firstn_all2. simpl length. lia.
Qed.

Lemma list_set_last_positions (c : DeformableSplineCurve) (t : Vector3f) :
  map fst (list_set c (length c - 1) (fst (last c default_sample), t))
  = map fst c.
Proof.
  induction c as [|a c IH]; [reflexivity|].
  destruct c as [|b c]; [reflexivity|].
  replace (length (a :: b :: c) - 1)%nat with (S (length (b :: c) - 1))
    by (simpl length; lia).
  change (last (a :: b :: c) default_sample) with (last (b :: c) default_sample).
  cbn [list_set map]. f_equal. exact IH.
Qed.

Lemma curve_set_back_tangent_positions (c : DeformableSplineCurve)
      (t : Vector3f) :
  map fst (curve_set_back_tangent c t) = map fst c.
Proof.
  unfold curve_set_back_tangent, curve_set_back, curve_set, curve_back,
    curve_size.
  destruct (Z.ltb_spec (Z.of_nat (length c) - 1) 0) as [_|H]; [reflexivity|].
  replace (Z.to_nat (Z.of_nat (length c) - 1)) with (length c - 1)%nat by lia.
  apply list_set_last_positions.
Qed.

Lemma merge_in_out_positions (normalize : Vector3f -> Vector3f)
      (in0 out0 : EdgeProperties) :
  map fst (curve (merge_in_out normalize in0 out0))
  = map fst (curve in0) ++ tl (map fst (curve out0)).
Proof.
  unfold merge_in_out. cbn [curve].
  rewrite push_back_from_second_tail, map_app, curve_set_back_tangent_positions.
  f_equal. destruct (curve out0); reflexivity.
Qed.

Lemma clear_vertex_removed (g : SkeletalGraph) (v : VertexDescriptor) :
  degree g v <> 0%Z ->
  snd (clear_vertex g v)
  = boost.in_edges v (internal_graph_ g) ++ boost.out_edges v (internal_graph_ g).
Proof.
  intros Hd. unfold clear_vertex. apply Z.eqb_neq in Hd. rewrite Hd. reflexivity.
Qed.

(** The store [remove_degree_2_vertex_and_merge_edges] leaves behind in
    the case [->*->]. *)
Lemma remove_degree_2_in_out_store (normalize : Vector3f -> Vector3f)
      (g : SkeletalGraph) (v : VertexDescriptor) (a b : EdgeDescriptor) :
  well_formed g ->
  boost.in_edges v (internal_graph_ g) = [a] ->
  boost.out_edges v (internal_graph_ g) = [b] ->
  m_source a <> v ->
  let ne := mkEdgeDescriptor (m_source a) (m_target b)
                             (boost.m_fresh (internal_graph_ g)) in
  let props := merge_in_out normalize (get_edge g a) (get_edge g b) in
  exists g',
    remove_degree_2_vertex_and_merge_edges normalize g v
    = Returned g' (ne, (a, b))
    /\ boost.m_vertices (internal_graph_ g')
       = filter (fun vp => negb (Nat.eqb (fst vp) v))
                (boost.m_vertices (internal_graph_ g))
    /\ boost.m_edges (internal_graph_ g')
       = filter (fun ep => negb (incident v (fst ep)))
                (boost.m_edges (internal_graph_ g))
         ++ [(ne, mkEdgeProperties (curve props)
                    (is_part_of_cycle (get_vertex g (m_source a))
                     && is_part_of_cycle (get_vertex g (m_target b))))]
    /\ (count_consistent g -> count_consistent g')
    /\ well_formed g'.
Proof.
  intros Hwf Hin Hout Hloop ne0 props0.
  assert (Ha : In a (edges g) /\ m_target a = v).
  { assert (H : In a (boost.in_edges v (internal_graph_ g)))
      by (rewrite Hin; left; reflexivity).
    apply filter_In in H. rewrite Nat.eqb_eq in H. exact H. }
  assert (Hb : In b (edges g) /\ m_source b = v).
  { assert (H : In b (boost.out_edges v (internal_graph_ g)))
      by (rewrite Hout; left; reflexivity).
    apply filter_In in H. rewrite Nat.eqb_eq in H. exact H. }
  destruct Ha as [Ha Hat]. destruct Hb as [Hb Hbs].
  assert (Hbt : m_target b <> v).
  { intros E.
    assert (H : In b (boost.in_edges v (internal_graph_ g)))
      by (apply filter_In; split; [exact Hb | apply Nat.eqb_eq; exact E]).
    rewrite Hin in H. destruct H as [<-|[]]. apply Hloop. exact Hbs. }
  destruct (wf_endpoints Hwf a Ha) as [Has Hat'].
  destruct (wf_endpoints Hwf b Hb) as [_ Hbt'].
  rewrite Hat in Hat'.
  pose proof (well_formed_not_null Hwf Has) as Has0.
  pose proof (well_formed_not_null Hwf Hbt') as Hbt0.
  pose proof (well_formed_not_null Hwf Hat') as Hv0.
  unfold remove_degree_2_vertex_and_merge_edges.
  assert (Hdeg : degree g v = 2%Z).
  { unfold degree, boost.in_degree, boost.out_degree. rewrite Hin, Hout.
    reflexivity. }
  rewrite Hdeg, Hin, Hout. cbn [Z.eqb Pos.eqb negb].
  unfold boost.source, boost.target.
  apply Nat.eqb_neq in Has0, Hbt0. unfold null_vertex in Has0, Hbt0.
  rewrite Has0, Hbt0. cbn [negb andb].
  apply Nat.eqb_neq in Has0, Hbt0. fold null_vertex in Has0, Hbt0.
  set (props := merge_in_out normalize (get_edge g a) (get_edge g b)) in *.
  (* the merged edge *)
  destruct (@add_edge_spec g (m_source a) (m_target b) props Has0 Hbt0)
    as (Hsnd & He1 & Hv1 & Hf1).
  pose proof (@add_edge_stored g (m_source a) (m_target b) props Hwf Has0 Hbt0)
    as Hst1.
  pose proof (@add_edge_well_formed g (m_source a) (m_target b) props Hwf
                Has Hbt') as Hwf1.
  destruct (@add_edge_count g (m_source a) (m_target b) props Has0 Hbt0)
    as [Hc1 Hsum1].
  destruct (add_edge g (m_source a) (m_target b) props) as [g1 new_edge].
  cbn [fst snd] in Hsnd, He1, Hv1, Hf1, Hst1, Hwf1, Hc1, Hsum1. subst new_edge.
  set (ne := mkEdgeDescriptor (m_source a) (m_target b)
                              (boost.m_fresh (internal_graph_ g))) in *.
  (* the edges at [v] once the merged edge is in *)
  assert (Hin1 : boost.in_edges v (internal_graph_ g1) = [a]).
  { unfold boost.in_edges. fold (edges g1). rewrite He1, filter_app.
    fold (edges g) in Hin. unfold boost.in_edges in Hin. fold (edges g) in Hin.
    rewrite Hin. cbn [filter ne m_target].
    apply Nat.eqb_neq in Hbt. rewrite Hbt. reflexivity. }
  assert (Hout1 : boost.out_edges v (internal_graph_ g1) = [b]).
  { unfold boost.out_edges. fold (edges g1). rewrite He1, filter_app.
    unfold boost.out_edges in Hout. fold (edges g) in Hout.
    rewrite Hout. cbn [filter ne m_source].
    apply Nat.eqb_neq in Hloop. rewrite Hloop. reflexivity. }
  assert (Hdeg1 : degree g1 v = 2%Z).
  { unfold degree, boost.in_degree, boost.out_degree. rewrite Hin1, Hout1.
    reflexivity. }
  rewrite (remove_vertex_unfold g1 Hv0).
  rewrite (@clear_vertex_removed g1 v) by (rewrite Hdeg1; discriminate).
  rewrite Hin1, Hout1. cbn [app length Z.of_nat Pos.of_succ_nat Pos.succ
                              Z.eqb Pos.eqb snd fst andb nth].
  eexists. split; [reflexivity|].
  destruct (@remove_vertex_spec g1 v Hwf1 Hv0) as (_ & _ & _ & Hwf2).
  rewrite (remove_vertex_unfold g1 Hv0) in Hwf2. cbn [fst] in Hwf2.
  destruct (clear_vertex_spec g1 v) as [Hce Hcv].
  pose proof (clear_vertex_edges_stored g1 v) as Hcs.
  set (g2 := with_graph (fst (clear_vertex g1 v))
               (boost.remove_vertex v
                  (internal_graph_ (fst (clear_vertex g1 v))))) in *.
  assert (Hne : incident v ne = false).
  { unfold incident, ne. cbn [m_source m_target].
    apply orb_false_iff. split; apply Nat.eqb_neq; assumption. }
  refine (conj _ (conj _ (conj _ Hwf2))).
  - unfold g2. cbn [with_graph internal_graph_ boost.remove_vertex
                      boost.m_vertices].
    rewrite Hcv, Hv1. reflexivity.
  - unfold g2. cbn [with_graph internal_graph_ boost.remove_vertex boost.m_edges].
    rewrite Hcs, Hst1, filter_app. fold ne. f_equal.
    cbn [filter fst]. unfold incident in Hne. rewrite Hne. reflexivity.
  - intros Hcc.
    assert (Hcc1 : count_consistent g1).
    { unfold count_consistent in *. rewrite Hc1, Hsum1, Hcc.
      apply to_GRuint_add. }
    assert (Hfit1 : degree_fits g1 v).
    { unfold degree_fits, boost.in_degree, boost.out_degree.
      rewrite Hin1, Hout1. reflexivity. }
    assert (Hself : self_loop_samples g1 v = 0%Z).
    { unfold self_loop_samples. rewrite filter_empty; [reflexivity|].
      intros [d q] Hd. cbn [fst].
      destruct (Nat.eqb_spec (m_target d) v) as [Et|_]; [|apply andb_false_r].
      assert (Hd' : In d (boost.in_edges v (internal_graph_ g1))).
      { apply filter_In. split; [|apply Nat.eqb_eq; exact Et].
        unfold boost.edges. apply (in_map fst _ _ Hd). }
      rewrite Hin1 in Hd'. destruct Hd' as [<-|[]].
      apply Nat.eqb_neq in Hloop. rewrite Hloop. reflexivity. }
    unfold count_consistent.
    change (edge_spline_count (fst (clear_vertex g1 v))
            = to_GRuint (sum_curve_sizes (fst (clear_vertex g1 v)))).
    rewrite (clear_vertex_discount Hwf1 Hcc1 Hfit1), Hself. f_equal. lia.
Qed.

(** X26.  On a vertex [v] of a well-formed graph with one in-edge [a]
    and one out-edge [b] that is not a self-loop,
    [remove_degree_2_vertex_and_merge_edges(v)] returns the two edges it
    removed and a new edge from the source of [a] to the target of [b].
    The new curve runs through the samples of [a] and then those of [b]
    without its first.  The vertex and the two edges are gone, nothing
    else is, a consistent sample count stays consistent and the graph
    stays well formed. *)
Theorem remove_degree_2_vertex_merges (normalize : Vector3f -> Vector3f)
        (g : SkeletalGraph) (v : VertexDescriptor) (a b : EdgeDescriptor) :
  well_formed g ->
  boost.in_edges v (internal_graph_ g) = [a] ->
  boost.out_edges v (internal_graph_ g) = [b] ->
  m_source a <> v ->
  (1 <= curve_size (curve (get_edge g a)))%Z ->
  (2 <= curve_size (curve (get_edge g b)) < GRuint_modulus)%Z ->
  exists g' ne,
    remove_degree_2_vertex_and_merge_edges normalize g v
    = Returned g' (ne, (a, b))
    /\ m_source ne = m_source a /\ m_target ne = m_target b
    /\ vertices g' = filter (fun w => negb (Nat.eqb w v)) (vertices g)
    /\ edges g' = filter (fun x => negb (incident v x)) (edges g) ++ [ne]
    /\ map fst (curve (get_edge g' ne))
       = map fst (curve (get_edge g a)) ++ tl (map fst (curve (get_edge g b)))
    /\ (count_consistent g -> count_consistent g')
    /\ well_formed g'.
Proof.
  intros Hwf Hin Hout Hloop Hsa Hsb.
  destruct (@remove_degree_2_in_out_store normalize g v a b Hwf Hin Hout Hloop)
    as (g' & Hret & Hv & Hst & Hcc & Hwf').
  set (ne := mkEdgeDescriptor (m_source a) (m_target b)
                              (boost.m_fresh (internal_graph_ g))) in *.
  exists g', ne.
  refine (conj Hret (conj eq_refl (conj eq_refl (conj _ (conj _ (conj _
            (conj Hcc Hwf'))))))).
  - unfold vertices, boost.vertices. rewrite Hv.
    apply (filter_map_fst (fun w => negb (Nat.eqb w v))).
  - unfold edges, boost.edges. rewrite Hst, map_app. f_equal.
    apply (filter_map_fst (fun x => negb (incident v x))).
  - rewrite (@get_edge_stored g' ne _ Hwf')
      by (rewrite Hst; apply in_or_app; right; left; reflexivity).
    cbn [curve]. apply merge_in_out_positions.
Qed.

Lemma straight_chain_well_formed : well_formed straight_chain.
Proof.
  constructor; simpl.
  - lia.
  - intros v [<-|[<-|[<-|[]]]]; lia.
  - repeat constructor; simpl; intuition discriminate.
  - intros e [<-|[<-|[]]]; simpl; lia.
  - repeat constructor; simpl; intuition discriminate.
  - intros e [<-|[<-|[]]]; simpl; tauto.
Qed.

Lemma remove_degree_2_vertex_merges_witness :
  exists g' ne,
    remove_degree_2_vertex_and_merge_edges unnormalized straight_chain 2
    = Returned g' (ne, (mkEdgeDescriptor 1 2 4, mkEdgeDescriptor 2 3 5))
    /\ m_source ne = 1%nat /\ m_target ne = 3%nat.
Proof.
  destruct (@remove_degree_2_vertex_merges unnormalized straight_chain 2
              (mkEdgeDescriptor 1 2 4) (mkEdgeDescriptor 2 3 5)
              straight_chain_well_formed)
    as (g' & ne & H & Hs & Ht & _).
  - reflexivity.
  - reflexivity.
  - discriminate.
  - vm_compute. discriminate.
  - vm_compute. split; [discriminate | reflexivity].
  - exists g', ne. split; [exact H | split; [exact Hs | exact Ht]].
Defined.

(** X27.  Splitting an edge at a valid segment and then removing the
    inserted vertex with [remove_degree_2_vertex_and_merge_edges] gives
    back the vertices as they were and one edge in place of the split
    one, with the same ends.  The merged curve runs through the old
    samples with the split position kept as one more sample between
    [segment_index] and [segment_index + 1]: the round trip is not the
    identity on the curve.  A consistent sample count stays consistent
    and the graph stays well formed. *)
Theorem split_then_merge (normalize : Vector3f -> Vector3f)
        (g : SkeletalGraph) (e : EdgeDescriptor) (i : GRuint) (p : Vector3f) :
  well_formed g -> In e (edges g) -> few_edges g ->
  let c := curve (get_edge g e) in
  (curve_size c < GRuint_modulus)%Z -> (0 <= i < curve_size c - 1)%Z ->
  exists g1 m l r g2 ne,
    split_edge_at normalize g e i p = Returned g1 (m, (l, r))
    /\ remove_degree_2_vertex_and_merge_edges normalize g1 m
       = Returned g2 (ne, (l, r))
    /\ boost.m_vertices (internal_graph_ g2)
       = boost.m_vertices (internal_graph_ g)
    /\ edges g2 = filter (fun x => negb (edge_eqb x e)) (edges g) ++ [ne]
    /\ m_source ne = m_source e /\ m_target ne = m_target e
    /\ map fst (curve (get_edge g2 ne))
       = map fst (firstn (Z.to_nat i + 1) c)
         ++ p :: map fst (skipn (Z.to_nat i + 1) c)
    /\ (count_consistent g -> count_consistent g2)
    /\ well_formed g2.
Proof.
  intros Hwf He Hfew c Hsize Hi.
  change GRuint_modulus with 4294967296%Z in Hsize.
  assert (Hsize64 : (curve_size c < 2 ^ 64)%Z)
    by (change (2 ^ 64)%Z with 18446744073709551616%Z; lia).
  destruct (@split_edge_at_returns normalize g e i p Hwf He Hfew Hsize64 Hi)
    as (g1 & Hret & Hv1 & Hed1 & Hf1 & Hc1).
  destruct (@split_edge_at_summary normalize g e i p Hwf He Hfew Hsize64 Hi)
    as (g1' & _ & _ & Hret' & _ & _ & _ & _ & _ & _ & Hcc1 & Hwf1).
  rewrite Hret in Hret'. injection Hret' as <-.
  fold c in Hed1.
  set (m := boost.m_fresh (internal_graph_ g)) in *.
  set (l := mkEdgeDescriptor (m_source e) m (S m)) in *.
  set (r := mkEdgeDescriptor m (m_target e) (S (S m))) in *.
  set (cyc := edge_is_part_of_cycle (get_edge g e)) in *.
  set (old := filter (fun ep => negb (edge_eqb (fst ep) e))
                     (boost.m_edges (internal_graph_ g))) in *.
  destruct (wf_endpoints Hwf e He) as [Hs Ht].
  pose proof (wf_vertex_range Hwf _ Hs) as Hsr. fold m in Hsr.
  pose proof (wf_vertex_range Hwf _ Ht) as Htr. fold m in Htr.
  assert (Hold : forall x, In x (map fst old) ->
                           m_source x <> m /\ m_target x <> m).
  { intros x Hx. apply in_map_iff in Hx. destruct Hx as ([d q] & <- & Hd).
    apply filter_In in Hd. destruct Hd as [Hd _].
    assert (Hd' : In d (edges g))
      by (unfold edges, boost.edges; apply (in_map fst _ _ Hd)).
    destruct (wf_endpoints Hwf d Hd') as [H1 H2].
    apply (wf_vertex_range Hwf) in H1, H2. fold m in H1, H2. cbn [fst]. lia. }
  assert (Hes1 : boost.edges (internal_graph_ g1) = map fst old ++ [l; r]).
  { unfold boost.edges. rewrite Hed1, map_app. reflexivity. }
  assert (Em : Nat.eqb (m_target e) m = false) by (apply Nat.eqb_neq; lia).
  assert (Em' : Nat.eqb (m_source e) m = false) by (apply Nat.eqb_neq; lia).
  assert (Hin1 : boost.in_edges m (internal_graph_ g1) = [l]).
  { unfold boost.in_edges. rewrite Hes1, filter_app, filter_empty.
    - cbn [filter app l r m_target]. rewrite Nat.eqb_refl, Em. reflexivity.
    - intros x Hx. apply Nat.eqb_neq. apply (Hold x Hx). }
  assert (Hout1 : boost.out_edges m (internal_graph_ g1) = [r]).
  { unfold boost.out_edges. rewrite Hes1, filter_app, filter_empty.
    - cbn [filter app l r m_source]. rewrite Nat.eqb_refl, Em'. reflexivity.
    - intros x Hx. apply Nat.eqb_neq. apply (Hold x Hx). }
  assert (Hloop : m_source l <> m) by (cbn [l m_source]; lia).
  destruct (@remove_degree_2_in_out_store normalize g1 m l r Hwf1 Hin1 Hout1
              Hloop) as (g2 & Hret2 & Hv2 & Hst2 & Hcc2 & Hwf2).
  rewrite Hf1 in Hret2, Hst2. cbn [l r m_source m_target] in Hret2, Hst2.
  set (ne := mkEdgeDescriptor (m_source e) (m_target e) (S (S (S m)))) in *.
  exists g1, m, l, r, g2, ne.
  assert (Hgl : get_edge g1 l
                = mkEdgeProperties (split_first_half normalize c i p) cyc).
  { apply (@get_edge_stored g1 l _ Hwf1). rewrite Hed1. apply in_or_app.
    right. left. reflexivity. }
  assert (Hgr : get_edge g1 r
                = mkEdgeProperties (split_second_half normalize c i p) cyc).
  { apply (@get_edge_stored g1 r _ Hwf1). rewrite Hed1. apply in_or_app.
    right. right. left. reflexivity. }
  assert (Hst2' : boost.m_edges (internal_graph_ g2)
                  = old ++ [(ne, mkEdgeProperties
                                   (curve (merge_in_out normalize
                                             (get_edge g1 l) (get_edge g1 r)))
                                   (is_part_of_cycle (get_vertex g1 (m_source e))
                                    && is_part_of_cycle
                                         (get_vertex g1 (m_target e))))]).
  { rewrite Hst2, Hed1, filter_app.
    assert (F1 : filter (fun ep : EdgeDescriptor * EdgeProperties =>
                           negb (incident m (fst ep))) old = old).
    { apply filter_all. intros ep Hep. apply negb_true_iff.
      unfold incident. apply orb_false_iff.
      destruct (Hold (fst ep) (in_map fst _ _ Hep)) as [H1 H2].
      split; apply Nat.eqb_neq; assumption. }
    rewrite F1. cbn [filter fst]. unfold incident. cbn [l r m_source m_target].
    rewrite Nat.eqb_refl, orb_true_r. cbn [negb orb app].
    rewrite app_nil_r. reflexivity. }
  refine (conj Hret (conj Hret2 (conj _ (conj _ (conj eq_refl (conj eq_refl
            (conj _ (conj _ Hwf2)))))))).
  - rewrite Hv2, Hv1, filter_app. cbn [filter fst].
    rewrite Nat.eqb_refl. cbn [negb]. rewrite app_nil_r.
    apply filter_all. intros [w q] Hw. cbn [fst].
    assert (Hw' : In w (vertices g))
      by (unfold vertices, boost.vertices; apply (in_map fst _ _ Hw)).
    apply (wf_vertex_range Hwf) in Hw'. fold m in Hw'.
    apply negb_true_iff, Nat.eqb_neq. lia.
  - unfold edges, boost.edges. rewrite Hst2', map_app. f_equal.
    unfold old. apply (filter_map_fst (fun x => negb (edge_eqb x e))).
  - rewrite (@get_edge_stored g2 ne _ Hwf2)
      by (rewrite Hst2'; apply in_or_app; right; left; reflexivity).
    cbn [curve]. rewrite merge_in_out_positions, Hgl, Hgr. cbn [curve].
    rewrite split_first_half_positions by lia.
    rewrite split_second_half_positions by assumption.
    cbn [tl]. rewrite <- app_assoc. reflexivity.
  - intros Hcc. apply Hcc2, Hcc1, Hcc.
Qed.

Lemma split_then_merge_witness :
  exists g1 m l r g2 ne,
    split_edge_at unnormalized (one_edge unnormalized (Finite 1%Q) (Finite 1%Q))
                  edge_1_2 0%Z (vec 1 0 0)
    = Returned g1 (m, (l, r))
    /\ remove_degree_2_vertex_and_merge_edges unnormalized g1 m
       = Returned g2 (ne, (l, r))
    /\ boost.m_vertices (internal_graph_ g2)
       = boost.m_vertices
           (internal_graph_ (one_edge unnormalized (Finite 1%Q) (Finite 1%Q))).
Proof.
  destruct (@split_then_merge unnormalized
              (one_edge unnormalized (Finite 1%Q) (Finite 1%Q))
              edge_1_2 0%Z (vec 1 0 0)
              (one_edge_well_formed _ _) (or_introl eq_refl))
    as (g1 & m & l & r & g2 & ne & H1 & H2 & H3 & _).
  - reflexivity.
  - reflexivity.
  - vm_compute. split; [discriminate | reflexivity].
  - exists g1, m, l, r, g2, ne. split; [exact H1 | split; [exact H2 | exact H3]].
Defined.

(** ** Loading into a graph *)

Section Loading.

Variable scan_float : string -> option (GRfloat * string).
Variable curve_of_points : list Vector3f -> option DeformableSplineCurve.
Variable default_curve : DeformableSplineCurve.

Lemma import_extends_same (g : SkeletalGraph) (s s' : import_state) :
  im_graph s' = im_graph s -> im_vertices s' = im_vertices s ->
  import_extends g s -> import_extends g s'.
Proof. unfold import_extends. intros -> ->. tauto. Qed.

Lemma import_vertex_field_store (s : import_state) (line : string) :
  im_graph (import_vertex_field scan_float s line) = im_graph s
  /\ im_vertices (import_vertex_field scan_float s line) = im_vertices s.
Proof.
  unfold import_vertex_field.
  repeat match goal with
         | |- context [if ?b then _ else _] => destruct b
         | |- context [match ?x with Some _ => _ | None => _ end] => destruct x
         end; split; reflexivity.
Qed.

Lemma import_edge_field_store (s : import_state) (line : string) :
  im_graph (import_edge_field scan_float curve_of_points s line) = im_graph s
  /\ im_vertices (import_edge_field scan_float curve_of_points s line)
     = im_vertices s.
Proof.
  unfold import_edge_field.
  repeat match goal with
         | |- context [if ?b then _ else _] => destruct b
         | |- context [match ?x with Some _ => _ | None => _ end] => destruct x
         end; split; reflexivity.
Qed.

Lemma import_add_vertex (g : SkeletalGraph) (s : import_state)
      (p : VertexProperties) :
  import_extends g s ->
  import_extends g
    (with_store s (fst (add_vertex (im_graph s) p))
                (im_vertices s ++ [snd (add_vertex (im_graph s) p)])).
Proof.
  intros (Hwf & (nv & Hv & Hnv) & (ae & He & Hae) & Hcc).
  unfold import_extends. cbn [im_graph im_vertices with_store].
  destruct (add_vertex_spec (im_graph s) p) as (Hm & Hv1 & He1 & Hf1).
  cbv zeta in *.
  refine (conj (add_vertex_well_formed p Hwf) (conj _ (conj _ _))).
  - exists (nv ++ [(snd (add_vertex (im_graph s) p), p)]).
    rewrite Hv1, Hv, <- app_assoc, map_app, Hnv. split; reflexivity.
  - exists ae. split; [exact He|].
    intros ep Hep. destruct (Hae ep Hep) as [H1 H2].
    split; apply in_or_app; left; assumption.
  - intros H. apply Hcc in H. exact H.
Qed.

Lemma import_add_edge (g : SkeletalGraph) (s : import_state)
      (i j : nat) (p : EdgeProperties) :
  import_extends g s ->
  import_extends g
    (with_store s
       (fst (add_edge (im_graph s) (nth i (im_vertices s) null_vertex)
                      (nth j (im_vertices s) null_vertex) p))
       (im_vertices s)).
Proof.
  intros Hs. pose proof Hs as (Hwf & (nv & Hv & Hnv) & (ae & He & Hae) & Hcc).
  set (from := nth i (im_vertices s) null_vertex).
  set (to := nth j (im_vertices s) null_vertex).
  destruct (Nat.eqb_spec from null_vertex) as [Ef|Ef].
  { apply (@import_extends_same g s); [|reflexivity | exact Hs].
    cbn [im_graph with_store]. unfold add_edge. fold null_vertex.
    rewrite Ef, Nat.eqb_refl. reflexivity. }
  destruct (Nat.eqb_spec to null_vertex) as [Et|Et].
  { apply (@import_extends_same g s); [|reflexivity | exact Hs].
    cbn [im_graph with_store]. unfold add_edge. fold null_vertex.
    rewrite Et, Nat.eqb_refl, orb_true_r. reflexivity. }
  assert (Hfrom : In from (im_vertices s)).
  { destruct (nth_in_or_default i (im_vertices s) null_vertex) as [H|H];
      [exact H | contradiction]. }
  assert (Hto : In to (im_vertices s)).
  { destruct (nth_in_or_default j (im_vertices s) null_vertex) as [H|H];
      [exact H | contradiction]. }
  assert (Hin : forall w, In w (im_vertices s) -> In w (vertices (im_graph s))).
  { intros w Hw. unfold vertices, boost.vertices. rewrite Hv, map_app, Hnv.
    apply in_or_app. right. exact Hw. }
  unfold import_extends. cbn [im_graph im_vertices with_store].
  destruct (@add_edge_count (im_graph s) from to p Ef Et) as [Hc1 Hsum1].
  pose proof (@add_edge_stored (im_graph s) from to p Hwf Ef Et) as Hst.
  destruct (@add_edge_spec (im_graph s) from to p Ef Et) as (_ & _ & Hv1 & _).
  refine (conj (@add_edge_well_formed (im_graph s) from to p Hwf
                  (Hin _ Hfrom) (Hin _ Hto))
               (conj _ (conj _ _))).
  - exists nv. rewrite Hv1. split; assumption.
  - eexists. rewrite Hst, He, <- app_assoc. split; [reflexivity|].
    intros ep Hep. apply in_app_or in Hep. destruct Hep as [Hep|[<-|[]]].
    + apply Hae. exact Hep.
    + cbn [fst m_source m_target]. split; assumption.
  - intros H. apply Hcc in H. unfold count_consistent in *.
    rewrite Hc1, Hsum1, H. apply to_GRuint_add.
Qed.

Lemma import_vertex_line (g : SkeletalGraph) (s : import_state)
      (p : VertexProperties) :
  import_extends g s ->
  import_extends g
    (fst (let (g0, v) := add_vertex (im_graph s) p in
          (with_store s g0 (im_vertices s ++ [v]), false))).
Proof.
  intros Hs. pose proof (import_add_vertex p Hs) as H.
  destruct (add_vertex (im_graph s) p) as [g0 v]. exact H.
Qed.

Lemma import_edge_line (g : SkeletalGraph) (s : import_state)
      (i j : nat) (p : EdgeProperties) :
  import_extends g s ->
  import_extends g
    (fst (let (g0, _) :=
            add_edge (im_graph s) (nth i (im_vertices s) null_vertex)
                     (nth j (im_vertices s) null_vertex) p in
          (with_store s g0 (im_vertices s), false))).
Proof.
  intros Hs. pose proof (import_add_edge i j p Hs) as H.
  destruct (add_edge (im_graph s) _ _ p) as [g0 r]. exact H.
Qed.

Lemma import_line_extends (g : SkeletalGraph) (s : import_state)
      (line : string) :
  import_extends g s ->
  import_extends g
    (fst (import_line scan_float curve_of_points default_curve s line)).
Proof.
  intros Hs. unfold import_line.
  repeat match goal with
         | |- context [if String.prefix ?a ?b then _ else _] =>
             destruct (String.prefix a b)
         | |- context [if String.eqb ?a ?b then _ else _] =>
             destruct (String.eqb a b)
         | |- context [if reading_vertices s then _ else _] =>
             destruct (reading_vertices s) eqn:?
         | |- context [if reading_edges s then _ else _] =>
             destruct (reading_edges s) eqn:?
         | |- context [if reading_vertex s then _ else _] =>
             destruct (reading_vertex s) eqn:?
         | |- context [if reading_edge s then _ else _] =>
             destruct (reading_edge s) eqn:?
         | |- context [match sscanf_f ?f ?a ?b with Some _ => _ | None => _ end] =>
             destruct (sscanf_f f a b)
         | |- context [if (?a && ?b)%bool then _ else _] =>
             destruct (a && b)%bool
         end;
    try (cbn [fst]; exact Hs);
    try (cbn [fst]; apply (@import_extends_same g s);
         [apply import_vertex_field_store | apply import_vertex_field_store
          | exact Hs]);
    try (cbn [fst]; apply (@import_extends_same g s);
         [apply import_edge_field_store | apply import_edge_field_store
          | exact Hs]);
    try (apply import_vertex_line; exact Hs);
    try (apply import_edge_line; exact Hs).
Qed.

Lemma import_lines_extends (g : SkeletalGraph) (lines : list string) :
  forall s : import_state,
    import_extends g s ->
    import_extends g
      (import_lines scan_float curve_of_points default_curve s lines).
Proof.
  induction lines as [|line rest IH]; intros s Hs; cbn [import_lines];
    [exact Hs|].
  pose proof (import_line_extends line Hs) as H.
  destruct (import_line scan_float curve_of_points default_curve s line)
    as [s' stop].
  cbn [fst] in H. destruct stop; [exact H | apply IH; exact H].
Qed.

(** X28.  [import_from_file] into a well-formed graph only adds to it:
    the stored vertices and edges of the graph are still there, with
    their properties and in their order, in front of what the file
    added; every edge the file added joins two vertices the file added;
    the result is well formed, and a sample count that agreed with the
    stored curves still does. *)
Theorem import_from_file_extends (text : string) (g : SkeletalGraph) :
  well_formed g ->
  exists g' scale new_vertices added_edges,
    import_from_file scan_float curve_of_points default_curve
                     (Some text) (Some g)
    = inr (g', scale)
    /\ boost.m_vertices (internal_graph_ g')
       = boost.m_vertices (internal_graph_ g) ++ new_vertices
    /\ boost.m_edges (internal_graph_ g')
       = boost.m_edges (internal_graph_ g) ++ added_edges
    /\ (forall ep, In ep added_edges ->
                   In (m_source (fst ep)) (map fst new_vertices)
                   /\ In (m_target (fst ep)) (map fst new_vertices))
    /\ (count_consistent g -> count_consistent g')
    /\ well_formed g'.
Proof.
  intros Hwf.
  assert (H0 : import_extends g (import_initial default_curve g)).
  { unfold import_extends. cbn [im_graph im_vertices import_initial].
    refine (conj Hwf (conj _ (conj _ (fun H => H)))).
    - exists []. rewrite app_nil_r. split; reflexivity.
    - exists []. rewrite app_nil_r. split; [reflexivity|]. intros ep []. }
  pose proof (import_lines_extends (getlines text) H0)
    as (Hwf' & (nv & Hv & Hnv) & (ae & He & Hae) & Hcc).
  unfold import_from_file.
  set (s := import_lines scan_float curve_of_points default_curve
                         (import_initial default_curve g) (getlines text)) in *.
  exists (im_graph s), (im_scale s), nv, ae.
  rewrite Hnv.
  refine (conj eq_refl (conj Hv (conj He (conj Hae (conj Hcc Hwf'))))).
Qed.

End Loading.

Lemma import_from_file_extends_witness :
  exists g' scale,
    import_from_file scan_decimal curve_through [] (Some radius_file)
                     (Some (one_edge unnormalized (Finite 1%Q) (Finite 1%Q)))
    = inr (g', scale)
    /\ well_formed g'.
Proof.
  destruct (@import_from_file_extends scan_decimal curve_through [] radius_file
              (one_edge unnormalized (Finite 1%Q) (Finite 1%Q))
              (one_edge_well_formed _ _))
    as (g' & scale & nv & ae & H & _ & _ & _ & _ & Hwf).
  exists g', scale. split; [exact H | exact Hwf].
Defined.

(** ** A vertex whose two edge ends are one self-loop *)

Lemma curve_set_back_tangent_size (c : DeformableSplineCurve) (t : Vector3f) :
  curve_size (curve_set_back_tangent c t) = curve_size c.
Proof. unfold curve_set_back_tangent, curve_set_back. apply curve_set_size. Qed.

Lemma merge_in_out_size (normalize : Vector3f -> Vector3f)
      (in0 out0 : EdgeProperties) :
  (1 <= curve_size (curve out0))%Z ->
  curve_size (curve (merge_in_out normalize in0 out0))
  = (curve_size (curve in0) + curve_size (curve out0) - 1)%Z.
Proof.
  intros H. unfold merge_in_out. cbn [curve].
  rewrite push_back_from_second_tail.
  pose proof (curve_set_back_tangent_size (curve in0)
                (normalize (vsub (fst (curve_at (curve out0) 1))
                                 (fst (curve_back (curve in0)))))) as Hs.
  unfold curve_size in *. rewrite length_app.
  destruct (curve out0) as [|x l]; [simpl in H; lia|].
  cbn [tl length]. lia.
Qed.

(** The count after the merged loop is counted once and each of the two
    loops is discounted twice. *)
Lemma to_GRuint_loop_count (c n s : Z) :
  to_GRuint
    (to_GRuint
       (to_GRuint
          (to_GRuint (to_GRuint (c + to_GRuint n) - to_GRuint s)
           - to_GRuint n)
        - to_GRuint s)
     - to_GRuint n)
  = to_GRuint (c - n - 2 * s).
Proof.
  rewrite (to_GRuint_sub (c + to_GRuint n) s).
  rewrite (to_GRuint_sub (c + to_GRuint n - s) n).
  rewrite (to_GRuint_sub (c + to_GRuint n - s - n) s).
  rewrite (to_GRuint_sub (c + to_GRuint n - s - n - s) n).
  destruct (to_GRuint_decomp n) as [k Hk]. rewrite Hk.
  apply to_GRuint_congruent. exists k. lia.
Qed.

(** X29.  A vertex whose only edge is a self-loop has degree 2.  On it
    [remove_degree_2_vertex_and_merge_edges] throws [runtime_error], but
    only after it has changed the graph: the vertex and its loop are
    gone, and the sample count has dropped by four times the size of
    the loop's curve less one, where the stored curves lost that size
    once. *)
Theorem remove_degree_2_self_loop_throws (normalize : Vector3f -> Vector3f)
        (g : SkeletalGraph) (v : VertexDescriptor) (a : EdgeDescriptor) :
  well_formed g ->
  boost.in_edges v (internal_graph_ g) = [a] ->
  boost.out_edges v (internal_graph_ g) = [a] ->
  let size := curve_size (curve (get_edge g a)) in
  (2 <= size < GRuint_modulus)%Z ->
  exists g',
    remove_degree_2_vertex_and_merge_edges normalize g v
    = Thrown g' (runtime_error
                   "Could not create new edge to replace vertex of degree 2")
    /\ vertices g' = filter (fun w => negb (Nat.eqb w v)) (vertices g)
    /\ edges g' = filter (fun x => negb (incident v x)) (edges g)
    /\ edge_spline_count g' = to_GRuint (edge_spline_count g - 4 * size + 1)
    /\ sum_curve_sizes g' = (sum_curve_sizes g - size)%Z
    /\ well_formed g'.
Proof.
  intros Hwf Hin Hout size Hsize.
  change GRuint_modulus with 4294967296%Z in Hsize.
  assert (Ha : In a (edges g) /\ m_target a = v).
  { assert (H : In a (boost.in_edges v (internal_graph_ g)))
      by (rewrite Hin; left; reflexivity).
    apply filter_In in H. rewrite Nat.eqb_eq in H. exact H. }
  assert (Has : m_source a = v).
  { assert (H : In a (boost.out_edges v (internal_graph_ g)))
      by (rewrite Hout; left; reflexivity).
    apply filter_In in H. rewrite Nat.eqb_eq in H. apply H. }
  destruct Ha as [Ha Hat].
  destruct (wf_endpoints Hwf a Ha) as [Hv _]. rewrite Has in Hv.
  pose proof (well_formed_not_null Hwf Hv) as Hv0.
  destruct (stored_of_edge g a Ha) as [pa Hpa].
  pose proof (@get_edge_stored g a pa Hwf Hpa) as Hgpa.
  unfold remove_degree_2_vertex_and_merge_edges.
  assert (Hdeg : degree g v = 2%Z).
  { unfold degree, boost.in_degree, boost.out_degree. rewrite Hin, Hout.
    reflexivity. }
  rewrite Hdeg, Hin, Hout. cbn [Z.eqb Pos.eqb negb].
  unfold boost.source, boost.target. rewrite Has, Hat.
  pose proof Hv0 as Hv0'. apply Nat.eqb_neq in Hv0'. unfold null_vertex in Hv0'.
  rewrite Hv0'. cbn [negb andb].
  set (props := merge_in_out normalize (get_edge g a) (get_edge g a)).
  assert (Hps : curve_size (curve props) = (2 * size - 1)%Z).
  { unfold props. rewrite merge_in_out_size by (fold size; lia). fold size. lia. }
  destruct (@add_edge_spec g v v props Hv0 Hv0) as (Hsnd & He1 & Hv1 & Hf1).
  pose proof (@add_edge_stored g v v props Hwf Hv0 Hv0) as Hst1.
  pose proof (@add_edge_well_formed g v v props Hwf Hv Hv) as Hwf1.
  destruct (@add_edge_count g v v props Hv0 Hv0) as [Hc1 _].
  destruct (add_edge g v v props) as [g1 new_edge].
  cbn [fst snd] in Hsnd, He1, Hv1, Hf1, Hst1, Hwf1, Hc1. subst new_edge.
  set (ne := mkEdgeDescriptor v v (boost.m_fresh (internal_graph_ g))) in *.
  assert (Hin1 : boost.in_edges v (internal_graph_ g1) = [a; ne]).
  { unfold boost.in_edges. fold (edges g1). rewrite He1, filter_app.
    unfold boost.in_edges in Hin. fold (edges g) in Hin.
    rewrite Hin. cbn [filter ne m_target]. rewrite Nat.eqb_refl. reflexivity. }
  assert (Hout1 : boost.out_edges v (internal_graph_ g1) = [a; ne]).
  { unfold boost.out_edges. fold (edges g1). rewrite He1, filter_app.
    unfold boost.out_edges in Hout. fold (edges g) in Hout.
    rewrite Hout. cbn [filter ne m_source]. rewrite Nat.eqb_refl. reflexivity. }
  assert (Hdeg1 : degree g1 v = 4%Z).
  { unfold degree, boost.in_degree, boost.out_degree. rewrite Hin1, Hout1.
    reflexivity. }
  rewrite (remove_vertex_unfold g1 Hv0).
  rewrite (@clear_vertex_removed g1 v) by (rewrite Hdeg1; discriminate).
  rewrite Hin1, Hout1. cbn [app length Z.of_nat Pos.of_succ_nat Pos.succ
                              Z.eqb Pos.eqb snd fst andb].
  eexists. split; [reflexivity|].
  destruct (@remove_vertex_spec g1 v Hwf1 Hv0) as (_ & _ & _ & Hwf2).
  rewrite (remove_vertex_unfold g1 Hv0) in Hwf2. cbn [fst] in Hwf2.
  destruct (clear_vertex_spec g1 v) as [_ Hcv].
  pose proof (clear_vertex_edges_stored g1 v) as Hcs.
  assert (Hga : get_edge g1 a = get_edge g a).
  { rewrite Hgpa. apply (@get_edge_stored g1 a pa Hwf1). rewrite Hst1.
    apply in_or_app. left. exact Hpa. }
  assert (Hgn : curve_size (curve (get_edge g1 ne)) = (2 * size - 1)%Z).
  { rewrite (@get_edge_stored g1 ne _ Hwf1)
      by (rewrite Hst1; apply in_or_app; right; left; reflexivity).
    cbn [curve]. exact Hps. }
  assert (Hne : incident v ne = true).
  { unfold incident, ne. cbn [m_source]. rewrite Nat.eqb_refl. reflexivity. }
  assert (Hst2 : boost.m_edges (internal_graph_ (fst (clear_vertex g1 v)))
                 = filter (fun ep => negb (incident v (fst ep)))
                          (boost.m_edges (internal_graph_ g))).
  { rewrite Hcs, Hst1, filter_app. fold ne. cbn [filter fst].
    unfold incident in Hne. rewrite Hne. cbn [negb]. apply app_nil_r. }
  refine (conj _ (conj _ (conj _ (conj _ Hwf2)))).
  - unfold vertices. cbn [with_graph internal_graph_].
    rewrite vertices_remove_vertex. unfold boost.vertices. rewrite Hcv, Hv1.
    reflexivity.
  - unfold edges, boost.edges.
    cbn [with_graph internal_graph_ boost.remove_vertex boost.m_edges].
    rewrite Hst2. apply (filter_map_fst (fun x => negb (incident v x))).
  - cbn [with_graph edge_spline_count edge_spline_count_].
    unfold clear_vertex. rewrite Hdeg1, Hin1, Hout1.
    cbn [Z.eqb edge_spline_count_ discount_edges fold_left].
    rewrite Hga, Hgn. fold size.
    change (edge_spline_count_ g1) with (edge_spline_count g1).
    rewrite Hc1, Hps.
    rewrite (to_GRuint_loop_count (edge_spline_count g) (2 * size - 1) size).
    cbn [fst edge_spline_count_]. f_equal. lia.
  - unfold sum_curve_sizes.
    cbn [with_graph internal_graph_ boost.remove_vertex boost.m_edges].
    rewrite Hst2.
    fold (samples_of (boost.m_edges (internal_graph_ g))).
    fold (samples_of (filter (fun ep => negb (incident v (fst ep)))
                             (boost.m_edges (internal_graph_ g)))).
    pose proof (samples_of_filter (fun ep => incident v (fst ep))
                                  (boost.m_edges (internal_graph_ g))) as Hs.
    cbv beta in Hs.
    assert (Hone : filter (fun ep => incident v (fst ep))
                          (boost.m_edges (internal_graph_ g))
                   = filter (fun ep => edge_eqb (fst ep) a)
                            (boost.m_edges (internal_graph_ g))).
    { apply filter_ext_in. intros [d q] Hd. cbn [fst].
      assert (Hd' : In d (edges g))
        by (unfold edges, boost.edges; apply (in_map fst _ _ Hd)).
      destruct (incident v d) eqn:Ei.
      - assert (Hda : d = a).
        { unfold incident in Ei. apply orb_true_iff in Ei.
          destruct Ei as [Ei|Ei].
          - assert (H : In d (boost.out_edges v (internal_graph_ g)))
              by (apply filter_In; split; assumption).
            rewrite Hout in H. destruct H as [<-|[]]. reflexivity.
          - assert (H : In d (boost.in_edges v (internal_graph_ g)))
              by (apply filter_In; split; assumption).
            rewrite Hin in H. destruct H as [<-|[]]. reflexivity. }
        subst d. unfold edge_eqb. symmetry. apply Nat.eqb_refl.
      - destruct (edge_eqb d a) eqn:Ee; [|reflexivity].
        exfalso. unfold edge_eqb in Ee. apply Nat.eqb_eq in Ee.
        assert (Hda : d = a).
        { pose proof (wf_edge_nodup Hwf) as Hnd. clear - Hnd Hd' Ha Ee.
          induction (edges g) as [|x l IH]; [contradiction|].
          simpl in Hnd. inversion Hnd as [|? ? Hx Hnd']; subst.
          destruct Hd' as [->|Hd'], Ha as [->|Ha']; auto.
          - exfalso. apply Hx. rewrite Ee. apply in_map. exact Ha'.
          - exfalso. apply Hx. rewrite <- Ee. apply in_map. exact Hd'. }
        subst d. unfold incident in Ei. rewrite Has, Nat.eqb_refl in Ei.
        discriminate. }
    rewrite Hone, (@samples_of_one _ a pa (nodup_stored Hwf) Hpa) in Hs.
    unfold size. rewrite Hgpa. lia.
Qed.

Lemma lone_loop_well_formed : well_formed lone_loop.
Proof.
  constructor; simpl.
  - lia.
  - intros v [<-|[]]; lia.
  - repeat constructor; simpl; intuition discriminate.
  - intros e [<-|[]]; simpl; lia.
  - repeat constructor; simpl; intuition discriminate.
  - intros e [<-|[]]; simpl; tauto.
Qed.

Lemma remove_degree_2_self_loop_throws_witness :
  exists g',
    remove_degree_2_vertex_and_merge_edges unnormalized lone_loop 1
    = Thrown g' (runtime_error
                   "Could not create new edge to replace vertex of degree 2")
    /\ vertices g' = filter (fun w => negb (Nat.eqb w 1)) (vertices lone_loop).
Proof.
  destruct (@remove_degree_2_self_loop_throws unnormalized lone_loop 1
              (mkEdgeDescriptor 1 1 2) lone_loop_well_formed)
    as (g' & H & Hv & _).
  - reflexivity.
  - reflexivity.
  - vm_compute. split; [discriminate | reflexivity].
  - exists g'. split; [exact H | exact Hv].
Defined.

(** ** Removing vertices of any degree *)

Lemma remove_vertices_fold_shrinks (g : SkeletalGraph) (k : Z)
      (l : list VertexDescriptor) :
  (forall v, In v l -> v <> null_vertex) ->
  forall h : SkeletalGraph,
    well_formed h ->
    (forall w, In w (vertices h) ->
               In w (vertices g) /\ get_vertex h w = get_vertex g w) ->
    (forall x, In x (edges h) -> In x (edges g) /\ get_edge h x = get_edge g x) ->
    (forall x, In x (edges g) -> In (m_source x) (vertices h) ->
               In (m_target x) (vertices h) -> In x (edges h)) ->
    let h' :=
      fold_left
        (fun g' vi =>
           let degree :=
             to_size_t (boost.in_degree vi (internal_graph_ g')
                        + boost.out_degree vi (internal_graph_ g')) in
           if (degree =? k)%Z then fst (remove_vertex g' vi) else g')
        l h in
    well_formed h'
    /\ (forall w, In w (vertices h') ->
                  In w (vertices g) /\ get_vertex h' w = get_vertex g w)
    /\ (forall x, In x (edges h') ->
                  In x (edges g) /\ get_edge h' x = get_edge g x)
    /\ (forall x, In x (edges g) -> In (m_source x) (vertices h') ->
                  In (m_target x) (vertices h') -> In x (edges h')).
Proof.
  induction l as [|v l IH]; intros Hl h Hwf Hv He Hkeep; cbn [fold_left].
  - cbv zeta. tauto.
  - assert (Hv0 : v <> null_vertex) by (apply Hl; left; reflexivity).
    assert (Hl' : forall w, In w l -> w <> null_vertex)
      by (intros w Hw; apply Hl; right; exact Hw).
    destruct (to_size_t _ =? k)%Z; [|apply IH; assumption].
    destruct (@remove_vertex_spec h v Hwf Hv0) as (Hrv & Hre & Hrg & Hwf').
    pose proof (clear_vertex_edges_stored h v) as Hcs.
    assert (Hge : forall x, In x (edges (fst (remove_vertex h v))) ->
                            get_edge (fst (remove_vertex h v)) x = get_edge h x).
    { intros x Hx. apply Hre in Hx. destruct Hx as (Hx & Hs & Ht).
      destruct (stored_of_edge h x Hx) as [q Hq].
      rewrite (@get_edge_stored h x q Hwf Hq).
      apply (@get_edge_stored _ x q Hwf').
      rewrite (remove_vertex_unfold h Hv0).
      cbn [fst with_graph internal_graph_ boost.remove_vertex boost.m_edges].
      rewrite Hcs. apply filter_In. split; [exact Hq|]. cbn [fst].
      apply negb_true_iff, orb_false_iff. split; apply Nat.eqb_neq; assumption. }
    apply IH; try assumption.
    + intros w Hw. pose proof (proj1 (Hrv w) Hw) as [Hw1 Hw2].
      destruct (Hv w Hw1) as [H1 H2]. split; [exact H1|].
      rewrite (Hrg w Hw2). exact H2.
    + intros x Hx. pose proof (proj1 (Hre x) Hx) as (Hx1 & _).
      destruct (He x Hx1) as [H1 H2]. split; [exact H1|].
      rewrite (Hge x Hx). exact H2.
    + intros x Hx Hs Ht. apply Hrv in Hs. apply Hrv in Ht. apply Hre.
      split; [apply Hkeep; tauto | tauto].
Qed.

(** X30.  For every [k], [remove_vertices_of_degree(k)] only takes
    away: what is left of a well-formed graph is well formed, every
    vertex and edge left was there before and keeps its properties, and
    an edge is gone exactly when one of its ends is. *)
Theorem remove_vertices_of_degree_shrinks (g : SkeletalGraph) (k : Z) :
  well_formed g ->
  let g' := remove_vertices_of_degree g k in
  well_formed g'
  /\ (forall w, In w (vertices g') ->
                In w (vertices g) /\ get_vertex g' w = get_vertex g w)
  /\ (forall x, In x (edges g') ->
                In x (edges g) /\ get_edge g' x = get_edge g x)
  /\ (forall x, In x (edges g) ->
                (In x (edges g')
                 <-> In (m_source x) (vertices g')
                     /\ In (m_target x) (vertices g'))).
Proof.
  intros Hwf g'.
  destruct (@remove_vertices_fold_shrinks g k (vertices g)
              (fun v Hv => well_formed_not_null Hwf Hv) g Hwf
              (fun w Hw => conj Hw eq_refl) (fun x Hx => conj Hx eq_refl)
              (fun x Hx _ _ => Hx))
    as (Hwf' & Hv & He & Hkeep).
  cbv zeta in Hwf', Hv, He, Hkeep.
  change (fold_left _ (vertices g) g) with g' in Hwf', Hv, He, Hkeep.
  refine (conj Hwf' (conj Hv (conj He _))).
  intros x Hx. split.
  - intros Hx'. apply (wf_endpoints Hwf' x Hx').
  - intros [Hs Ht]. apply Hkeep; assumption.
Qed.

Lemma remove_vertices_of_degree_shrinks_witness :
  well_formed (remove_vertices_of_degree alternating_chain 1).
Proof.
  refine (proj1 (@remove_vertices_of_degree_shrinks alternating_chain 1 _)).
  constructor; simpl.
  - lia.
  - intros v [<-|[<-|[<-|[<-|[<-|[]]]]]]; lia.
  - repeat constructor; simpl; intuition discriminate.
  - intros e [<-|[<-|[<-|[<-|[]]]]]; simpl; lia.
  - repeat constructor; simpl; intuition discriminate.
  - intros e [<-|[<-|[<-|[<-|[]]]]]; simpl; tauto.
Defined.
